(* ===== verification/_CoqProject ===== *)
-Q . S2P
Prelude.v
Oslib.v
Sem.v
Vt.v
Sched.v
Msg.v
Mtx.v
Threads.v
Timeouts.v
IoQueue.v
Msp.v
Stream.v
Downlink.v
Hal.v
Sim.v
Softfloat.v
As3935.v
Bmp280.v
Ads1x15.v
Veml7700.v
Bh1750.v
Bus.v
Ml8511.v
Eeprom.v
Config.v
Registry.v
Boot.v
Chprintf.v
HwDesc.v
Commands.v
Coop.v
Hc12.v
Shell.v
Sensors.v
Lightning.v
