(* ===== verification/Prelude.v ===== *)
(** * Verification of the meteo-L053 weather-station firmware

    The firmware under [src/src] runs on an STM32L053 with ChibiOS/RT.  Sensor
    threads read devices over I2C, the ADC and interrupt lines, put each reading
    into a descriptor and into an MSP frame, and hand the frame through a pool
    of five message objects and a mailbox to the radio thread, which writes it
    to an HC-12 radio on a UART.  A shell on another UART lists descriptors,
    changes and saves the configuration in EEPROM, programs the radio, sends
    texts, lists the threads and tunes the lightning sensor's antenna.

    ** How the code is modelled

    Each C function is a function in the monad [M] of this file: explicit state
    and an outcome that is a result, a halt (a failed [chDbgAssert] or
    [chDbgCheck], or an access outside an object: the debug build stops the
    station there, the release build would go on wrongly) or an endless wait.
    [wp] is total correctness, [safe] allows an endless wait.  Integers are
    numbers with each conversion of the source written out ([u8], [u16], [u32],
    [s16], [s32], [s64]); floats are the standard library's [spec_float] at
    24 and 53 bits.  Code outside the repository's own sources and the bus, the
    flash, the devices, the clock and the other threads are parameters
    (typeclasses [Platform], [Flash] and the like) with their documented
    behaviour as laws, and each has an instance with which the models run.

    ** Files

    - [Prelude]: machine integers, the monad, its proof rules, arrays.
    - [Oslib]: ChibiOS system time at 16 bits, memory pools
      ([chmempools.c], the free list through the objects) and mailboxes
      ([chmboxes.c], the circular buffer).  A pool hands out each object once; a
      mailbox is a bounded queue for every sequence of operations.
    - [Sem]: counting and binary semaphores ([chsem.c], [chbsem.h], the time-out
      of a wait in [chschd.c]).  They are tokens and a line of threads; threads
      that use a binary one as a lock exclude each other, in order of arrival.
    - [Vt]: virtual timers ([chvt.c]): the delta list, the alarm of the 16-bit
      clock and its interrupt.  No timer fires early or more than a tick late, and
      every event completes but exactly one kind: disarming the first timer in
      the last two ticks of the clock's range while the next is due in one tick
      trips a check of [chTimeAddX].
    - [Sched]: the scheduler ([chschd.c], the priority queue of [chlists.h]).  It
      is one line of threads per priority, and peers do not overtake each other.
      [Msg]: messages between threads ([chmsg.c]) over it, with which [schedule]
      sets an interval.  They arrive in order and once; one sent to a thread that
      still has the word of an earlier time-out is noticed one pass late.  [Mtx]: mutexes with priority inheritance
      ([chmtx.c]), which guard the I2C bus and the ADC.  They exclude, and a
      waiting thread is not held up by one of lower priority.  [Threads]: creation
      and end of threads ([chthreads.c]) and their registry ([chregistry.c]) with
      its reference counters.  Whatever happens in between, a walk along it is
      safe and misses no thread.  [Timeouts]: sleeps and waits with a time-out over
      [Sched] and [Vt].  They end within a tick of their time, with the exception of [Vt].
    - [IoQueue]: the queues of the serial driver ([hal_queues.c], [hal_serial.c]).
      Bytes leave and arrive in order, none is lost unnoticed.
    - [Msp]: [drivers/msp.c].  Frames fit, decode to what was encoded, and
      betray any single altered byte, in a reference receiver: the repository
      has none.
    - [Stream]: [threads/pools.c], the producers' and the radio thread's accesses
      to the shared pool and mailbox, and the shell's [send], as a transition
      system.  For every interleaving no step fails, nothing is dropped, lost or
      reordered, and the UART carries what was asked for.  [Downlink]: the same
      over the serial driver, down to the bytes on the line.
    - [Hal]: the I2C driver's state machine with its assertions, the bus mutex,
      [i2c1_init] and [checkI2CCondition]; the rule [bus_ok] every driver call
      keeps.  [Sim]: simulated devices.  [Softfloat]: the float operations.
    - [As3935], [Bmp280], [Ads1x15], [Veml7700], [Bh1750], [Ml8511]: the drivers.
      None halts the station or keeps the bus mutex, whatever the device answers
      and whatever state other threads leave the bus in (the BMP280's needs a bus
      not left locked, and halts otherwise); what they program and compute:
      register fields, calibration, compensation formulas against exact
      arithmetic with each operation inside its width (for calibration words
      that pass a check the theorems compute from them), lux and ultraviolet conversions.  [Bus]: the drivers as each
      other's neighbours on the bus, which discharges what each assumes.
    - [Eeprom], [Config]: the EEPROM driver ([eeprom.c], [eeprom_lld.c]) and the
      configuration with its version check and defaults ([main.c],
      [shellCmd.c]).  What is written inside the EEPROM is read back, on a flash whose laws
      ([FlashOk]) hold only where its manual gives them: unlocked, ready, inside
      the EEPROM, busy for a bounded time; a saved configuration
      survives a power cycle; every memory boots into a usable one.
    - [Registry]: the descriptor registries ([hwListThread.c],
      [scheduleListThread.c]).  Every registration is filed.  [Boot]: [main]'s
      start of all threads over [Threads] and [Registry], in every configuration;
      a registration is filed before its thread runs again.
    - [Chprintf]: the formatter with its 23-byte buffer, in which every store is
      checked, against a reference of the format language that uses none of
      its routines; for well-typed arguments it always prints and stays inside.  [HwDesc]: descriptors and
      the tables of the commands [hw] and [values].  [Commands]: the commands
      [threads], [mem], [sch] and [sleep].
    - [Coop]: threads of equal priority without time slices as programs over
      kernel calls, with a rely-guarantee rule; that a thread keeps the processor
      between its calls is what [Sched] proves.  [Hc12]: the whole of
      [hc12Thread.c] and the power thread's part.  A frame is only written while
      the radio is powered; the command [hc12set] may lose power.
    - [Shell]: line editor, splitter and dispatch of [shell.c], equal to a
      reference that works on words, for the command table of every build.
    - [Sensors]: the sensor threads over an interface [SensorTask] with its laws
      [SensorLaws], which the drivers' theorems discharge: a thread reports
      exactly what [measure] returned in each pass.  [Lightning]: the lightning monitor with its
      interrupt and the antenna tuning.

    ** Bounds and fuel

    Loops whose number of passes the code fixes recurse on that number.  The
    polling loops (ADS1X15, BMP280, EEPROM, the radio's answer) take fuel as a
    number of polls: the theorems give a number that is enough, hold for every
    number, or show that none is enough.  [chvprintf] gets one pass per
    character of the format, and the number conversion one per bit of the
    number; both are shown to suffice.  Semaphore counters are exact below
    2^30 operations, the pools and mailboxes for the sizes the code declares,
    virtual timers for delays below 2^31 ticks, and formats for widths and
    precisions that are an [int].  The timer interrupt's loop gets
    one pass per armed timer and one more, the walk along the owners of a mutex
    one per mutex and one more.  A search of the registry of threads takes one pass
    per thread; 16 are enough for the twelve threads [main] creates at most and
    the two of the system.  A serial transfer takes one element of its
    environment per pass; one more than there are bytes is enough.

    ** Not modelled

    The register-level drivers of ChibiOS, its context switch and the pin, clock
    and UART set-up of [hw.c] and [board.c]: they are register writes whose
    effect is the hardware's.  The shell's history, completion and escape
    sequences are compiled out.  Threads from a heap or a pool, event sources
    with listeners and allocation from the heap are not used by the firmware.
    A reading of an interrupt counter is atomic
    on this processor and is modelled so. *)

From stdpp Require Export base tactics list numbers strings option gmap.
From Stdlib Require Export ZArith Lia.

Global Open Scope Z_scope.

(** ** Machine integers

    A w-bit C integer is a [Z]; each conversion of the source is one of these
    functions.  Signed types wrap as gcc's two's complement does. *)

Definition u8 (z : Z) : Z := z `mod` 2 ^ 8.
Definition u16 (z : Z) : Z := z `mod` 2 ^ 16.
Definition u32 (z : Z) : Z := z `mod` 2 ^ 32.
Definition s8 (z : Z) : Z := (z + 2 ^ 7) `mod` 2 ^ 8 - 2 ^ 7.
Definition s16 (z : Z) : Z := (z + 2 ^ 15) `mod` 2 ^ 16 - 2 ^ 15.
Definition s32 (z : Z) : Z := (z + 2 ^ 31) `mod` 2 ^ 32 - 2 ^ 31.
Definition s64 (z : Z) : Z := (z + 2 ^ 63) `mod` 2 ^ 64 - 2 ^ 63.

(** [byte_ok b]: [b] is the value of a [uint8_t]. *)
Definition byte_ok (b : Z) : Prop := 0 <= b < 256.

#[global] Instance byte_ok_dec b : Decision (byte_ok b).
Proof. unfold byte_ok. apply _. Defined.

Create HintDb word discriminated.

(** Linear arithmetic with division and remainder by constants. *)
Ltac zdiv := Z.to_euclidean_division_equations; lia.

Lemma u8_range z : 0 <= u8 z < 256.
Proof. unfold u8. apply Z.mod_pos_bound. lia. Qed.

Lemma u16_range z : 0 <= u16 z < 65536.
Proof. unfold u16. apply Z.mod_pos_bound. lia. Qed.

Lemma u32_range z : 0 <= u32 z < 4294967296.
Proof. unfold u32. apply Z.mod_pos_bound. lia. Qed.

Lemma u8_small z : 0 <= z < 256 -> u8 z = z.
Proof. intros. unfold u8. apply Z.mod_small. lia. Qed.

Lemma u16_small z : 0 <= z < 65536 -> u16 z = z.
Proof. intros. unfold u16. apply Z.mod_small. lia. Qed.

Lemma u32_small z : 0 <= z < 4294967296 -> u32 z = z.
Proof. intros. unfold u32. apply Z.mod_small. lia. Qed.

Lemma s16_small z : - 32768 <= z < 32768 -> s16 z = z.
Proof. intros. unfold s16. rewrite Z.mod_small; lia. Qed.

Lemma s32_small z : - 2147483648 <= z < 2147483648 -> s32 z = z.
Proof. intros. unfold s32. rewrite Z.mod_small; lia. Qed.

Lemma s64_small z : - 2 ^ 63 <= z < 2 ^ 63 -> s64 z = z.
Proof. intros. unfold s64. rewrite Z.mod_small; lia. Qed.

Lemma s32_range z : - 2147483648 <= s32 z < 2147483648.
Proof. unfold s32. pose proof (Z.mod_pos_bound (z + 2 ^ 31) (2 ^ 32)). lia. Qed.

Lemma s16_range z : - 32768 <= s16 z < 32768.
Proof. unfold s16. pose proof (Z.mod_pos_bound (z + 2 ^ 15) (2 ^ 16)). lia. Qed.

#[export] Hint Resolve u8_range u16_range u32_range s16_range s32_range : word.

(** ** Bits *)

Lemma testbit_u8 z i : 0 <= i -> Z.testbit (u8 z) i = (i <? 8) && Z.testbit z i.
Proof.
  intros Hi. unfold u8. destruct (Z.ltb_spec i 8).
  - by rewrite Z.mod_pow2_bits_low by lia.
  - by rewrite Z.mod_pow2_bits_high by lia.
Qed.

Lemma byte_testbit_high b i : byte_ok b -> 8 <= i -> Z.testbit b i = false.
Proof.
  intros [] Hi. rewrite <- (Z.mod_small b (2 ^ 8)) by lia.
  by apply Z.mod_pow2_bits_high.
Qed.

(** A non-negative number whose bits from 8 up are clear is a byte. *)
Lemma byte_of_bits b :
  0 <= b -> (forall i, 8 <= i -> Z.testbit b i = false) -> byte_ok b.
Proof.
  intros Hb Hbits. split; [done|].
  destruct (Z.lt_ge_cases b 256) as [|Hge]; [done|exfalso].
  assert (8 <= Z.log2 b) by (apply (Z.log2_le_pow2 b 8); lia).
  pose proof (Z.bit_log2 b ltac:(lia)). rewrite Hbits in *; done.
Qed.

Lemma byte_lxor a b : byte_ok a -> byte_ok b -> byte_ok (Z.lxor a b).
Proof.
  intros Ha Hb. apply byte_of_bits.
  - apply Z.lxor_nonneg. destruct Ha, Hb. lia.
  - intros i Hi. by rewrite Z.lxor_spec, !byte_testbit_high.
Qed.

Lemma byte_land a b : byte_ok a -> 0 <= b -> byte_ok (Z.land a b).
Proof.
  intros Ha Hb. apply byte_of_bits.
  - apply Z.land_nonneg. destruct Ha. lia.
  - intros i Hi. by rewrite Z.land_spec, byte_testbit_high.
Qed.

Lemma byte_lor a b : byte_ok a -> byte_ok b -> byte_ok (Z.lor a b).
Proof.
  intros Ha Hb. apply byte_of_bits.
  - apply Z.lor_nonneg. destruct Ha, Hb. lia.
  - intros i Hi. by rewrite Z.lor_spec, !byte_testbit_high.
Qed.

Lemma byte_u8 z : byte_ok (u8 z).
Proof. apply u8_range. Qed.

#[export] Hint Resolve byte_lxor byte_land byte_lor byte_u8 : word.

Lemma land_pow2 z k : 0 <= k -> Z.land z (2 ^ k) = if Z.testbit z k then 2 ^ k else 0.
Proof.
  intros Hk. apply Z.bits_inj'. intros i Hi. rewrite Z.land_spec, Z.pow2_bits_eqb by done.
  destruct (Z.eqb_spec k i) as [->|Hne].
  - destruct (Z.testbit z i) eqn:Hz; [by rewrite Z.pow2_bits_true|by rewrite Z.bits_0].
  - rewrite andb_false_r. destruct (Z.testbit z k); [by rewrite Z.pow2_bits_false|by rewrite Z.bits_0].
Qed.

(** [|] of a multiple of a power of two and a smaller number is their sum. *)
Lemma lor_disjoint_mul a b k : 0 <= k -> 0 <= b < 2 ^ k -> Z.lor (a * 2 ^ k) b = a * 2 ^ k + b.
Proof.
  intros Hk Hb. symmetry. rewrite <- Z.shiftl_mul_pow2 by done. apply Z.add_nocarry_lor.
  apply Z.bits_inj'. intros i Hi. rewrite Z.land_spec, Z.bits_0.
  destruct (Z.lt_ge_cases i k) as [Hlt|Hge].
  - by rewrite Z.shiftl_spec_low.
  - rewrite <- (Z.mod_small b (2 ^ k)) by done.
    by rewrite Z.mod_pow2_bits_high, andb_false_r by lia.
Qed.

Lemma lor_disjoint a b k :
  0 <= k -> 0 <= b < 2 ^ k -> a `mod` 2 ^ k = 0 -> Z.lor a b = a + b.
Proof.
  intros Hk Hb Ha. assert (a = a `div` 2 ^ k * 2 ^ k) as ->.
  { pose proof (Z.div_mod a (2 ^ k)). lia. }
  by apply lor_disjoint_mul.
Qed.

Lemma lor_field a b n k :
  n = 2 ^ k -> 0 <= k -> 0 <= b < n -> a `mod` n = 0 -> Z.lor a b = a + b.
Proof. intros ->. apply lor_disjoint. Qed.

(** ** Effects

    Stateful code is a function from a state to an outcome.  [Halt] is
    ChibiOS's [chSysHalt], reached by a failed [osalDbgAssert]/[osalDbgCheck]
    of the debug build that CMakeLists.txt configures or by a memory access
    outside an object; [Hang] is a loop that used up its fuel or a wait
    nobody ends. *)

Inductive outcome (A : Type) : Type :=
  | Done (a : A)
  | Halt (why : string)
  | Hang.
Arguments Done {A} _.
Arguments Halt {A} _.
Arguments Hang {A}.

Definition M (S A : Type) : Type := S -> outcome (A * S).

Definition ret {S A} (a : A) : M S A := fun s => Done (a, s).
Definition bind {S A B} (m : M S A) (f : A -> M S B) : M S B := fun s =>
  match m s with
  | Done (a, s') => f a s'
  | Halt w => Halt w
  | Hang => Hang
  end.

Declare Scope fw_scope.
Delimit Scope fw_scope with fw.
Global Open Scope fw_scope.
Notation "'let!' x := m 'in' k" := (bind m (fun x => k))
  (at level 10, x pattern, m at level 100, k at level 200,
   format "'[v' 'let!'  x  :=  m  'in' '/' k ']'") : fw_scope.
Notation "m ;;; k" := (bind m (fun _ => k))
  (at level 100, k at level 200, right associativity,
   format "'[v' m  ;;; '/' k ']'") : fw_scope.

Definition get {S} : M S S := fun s => Done (s, s).
Definition put {S} (s : S) : M S unit := fun _ => Done (tt, s).
Definition gets {S A} (f : S -> A) : M S A := fun s => Done (f s, s).
Definition modify {S} (f : S -> S) : M S unit := fun s => Done (tt, f s).
Definition halt {S A} (why : string) : M S A := fun _ => Halt why.
Definition hang {S A} : M S A := fun _ => Hang.

(** [osalDbgAssert]/[osalDbgCheck]/[chDbgAssert]. *)
Definition assert {S} (b : bool) (why : string) : M S unit :=
  if b then ret tt else halt why.

(** An access that is defined only inside its object. *)
Definition lift_opt {S A} (o : option A) (why : string) : M S A :=
  match o with Some a => ret a | None => halt why end.

(** [while (true) body] where the body returns [Some r] to leave the loop. *)
Fixpoint loop {S A} (fuel : nat) (body : M S (option A)) : M S A :=
  match fuel with
  | O => hang
  | Datatypes.S n => let! r := body in match r with Some a => ret a | None => loop n body end
  end.

(** Short-circuit conjunction of calls: [m1 && m2]. *)
Definition mand {S} (m1 m2 : M S bool) : M S bool :=
  let! b := m1 in if b then m2 else ret false.

(** A computation on a part of the state. *)
Record lens (S T : Type) := Lens {
  view : S -> T;
  over : T -> S -> S
}.
Arguments Lens {S T} _ _.
Arguments view {S T} _ _.
Arguments over {S T} _ _ _.

Definition zoom {S T A} (l : lens S T) (m : M T A) : M S A := fun s =>
  match m (view l s) with
  | Done (a, t) => Done (a, over l t s)
  | Halt w => Halt w
  | Hang => Hang
  end.

(** Total correctness: the computation returns, and [Q] holds of the result. *)
Definition wp {S A} (m : M S A) (Q : A -> S -> Prop) (s : S) : Prop :=
  match m s with Done (a, s') => Q a s' | Halt _ => False | Hang => False end.

(** Safety: the computation does not halt the system, and [Q] holds if it
    returns. *)
Definition safe {S A} (m : M S A) (Q : A -> S -> Prop) (s : S) : Prop :=
  match m s with Done (a, s') => Q a s' | Halt _ => False | Hang => True end.

Section wp_rules.
Context {S : Type}.
Implicit Types s : S.

Lemma wp_ret {A} (a : A) (Q : A -> S -> Prop) s : Q a s -> wp (ret a) Q s.
Proof. done. Qed.

Lemma wp_bind {A B} (m : M S A) (f : A -> M S B) Q s :
  wp m (fun a s' => wp (f a) Q s') s -> wp (bind m f) Q s.
Proof. unfold wp, bind. destruct (m s) as [[]| |]; done. Qed.

Lemma wp_bind_inv {A B} (m : M S A) (f : A -> M S B) Q s :
  wp (bind m f) Q s -> wp m (fun a s' => wp (f a) Q s') s.
Proof. unfold wp, bind. destruct (m s) as [[]| |]; done. Qed.

Lemma wp_conseq {A} (m : M S A) (Q R : A -> S -> Prop) s :
  wp m Q s -> (forall a s', Q a s' -> R a s') -> wp m R s.
Proof. unfold wp. destruct (m s) as [[]| |]; eauto. Qed.

Lemma wp_eq {A} (m m' : M S A) (Q : A -> S -> Prop) s : m s = m' s -> wp m' Q s -> wp m Q s.
Proof. unfold wp. by intros ->. Qed.

Lemma wp_get (Q : S -> S -> Prop) s : Q s s -> wp get Q s.
Proof. done. Qed.

Lemma wp_opt {A} (o : option A) a why (Q : A -> S -> Prop) s :
  o = Some a -> Q a s -> wp (lift_opt o why) Q s.
Proof. by intros ->. Qed.

Lemma wp_safe {A} (m : M S A) (Q : A -> S -> Prop) s : wp m Q s -> safe m Q s.
Proof. unfold wp, safe. destruct (m s) as [[]| |]; done. Qed.

Lemma wp_run {A} (m : M S A) (Q : A -> S -> Prop) s :
  wp m Q s -> exists a s', m s = Done (a, s') /\ Q a s'.
Proof. unfold wp. destruct (m s) as [[a s']| |]; try done. eauto. Qed.

Lemma safe_ret {A} (a : A) (Q : A -> S -> Prop) s : Q a s -> safe (ret a) Q s.
Proof. done. Qed.

Lemma safe_bind {A B} (m : M S A) (f : A -> M S B) Q s :
  safe m (fun a s' => safe (f a) Q s') s -> safe (bind m f) Q s.
Proof. unfold safe, bind. destruct (m s) as [[]| |]; done. Qed.

Lemma safe_conseq {A} (m : M S A) (Q R : A -> S -> Prop) s :
  safe m Q s -> (forall a s', Q a s' -> R a s') -> safe m R s.
Proof. unfold safe. destruct (m s) as [[]| |]; eauto. Qed.

Lemma safe_assert (b : bool) why Q s : b = true -> Q tt s -> safe (assert b why) Q s.
Proof. by intros ->. Qed.

(** An invariant of the loop body is an invariant of the loop. *)
Lemma safe_loop {A} (body : M S (option A)) (Inv : S -> Prop) (Q : A -> S -> Prop) :
  (forall s, Inv s ->
    safe body (fun r s' => match r with Some a => Q a s' | None => Inv s' end) s) ->
  forall fuel s, Inv s -> safe (loop fuel body) Q s.
Proof.
  intros Hbody. induction fuel as [|fuel IH]; intros s Hs; [done|].
  cbn [loop]. apply safe_bind. eapply safe_conseq; [by apply Hbody|].
  intros [a|] s' Hr; [by apply safe_ret|by apply IH].
Qed.

(** A body that decreases a measure below the fuel returns. *)
Lemma wp_loop {A} (body : M S (option A)) (Inv : nat -> S -> Prop) (Q : A -> S -> Prop) :
  (forall n s, Inv n s ->
    wp body (fun r s' =>
      match r with
      | Some a => Q a s'
      | None => exists k, (k < n)%nat /\ Inv k s'
      end) s) ->
  forall fuel n s, (n < fuel)%nat -> Inv n s -> wp (loop fuel body) Q s.
Proof.
  intros Hbody. induction fuel as [|fuel IH]; intros n s Hn Hs; [lia|].
  cbn [loop]. apply wp_bind. eapply wp_conseq; [by apply Hbody|].
  intros [a|] s' Hr; [by apply wp_ret|].
  destruct Hr as (k & Hk & Hs'). apply (IH k); [lia|done].
Qed.
End wp_rules.

(** Code that does not return, whatever the fuel. *)
Lemma hang_bind {S A B} (m : M S A) (f : A -> M S B) s :
  wp m (fun a s' => f a s' = Hang) s -> bind m f s = Hang.
Proof. unfold wp, bind. destruct (m s) as [[]| |]; done. Qed.

Lemma hang_bind_l {S A B} (m : M S A) (f : A -> M S B) s : m s = Hang -> bind m f s = Hang.
Proof. unfold bind. by intros ->. Qed.

(** Code that halts the system. *)
Lemma halt_bind {S A B} why (m : M S A) (f : A -> M S B) s :
  wp m (fun a s' => f a s' = Halt why) s -> bind m f s = Halt why.
Proof. unfold wp, bind. destruct (m s) as [[]| |]; done. Qed.

Lemma halt_bind_l {S A B} why (m : M S A) (f : A -> M S B) s : m s = Halt why -> bind m f s = Halt why.
Proof. unfold bind. by intros ->. Qed.

(** A loop whose body keeps an invariant and never leaves. *)
Lemma hang_loop {S A} (body : M S (option A)) (Inv : S -> Prop) :
  (forall s, Inv s -> wp body (fun r s' => r = None /\ Inv s') s) ->
  forall fuel s, Inv s -> loop fuel body s = Hang.
Proof.
  intros Hb. induction fuel as [|fuel IH]; intros s Hs; [done|]. cbn [loop].
  apply hang_bind. eapply wp_conseq; [by apply Hb|]. intros r s' [-> Hs']. by apply IH.
Qed.

Lemma safe_zoom {S T A} (l : lens S T) (m : M T A) (Q : A -> S -> Prop) s :
  safe m (fun a t => Q a (over l t s)) (view l s) -> safe (zoom l m) Q s.
Proof. unfold safe, zoom. destruct (m (view l s)) as [[]| |]; done. Qed.

Lemma wp_zoom {S T A} (l : lens S T) (m : M T A) (Q : A -> S -> Prop) s :
  wp m (fun a t => Q a (over l t s)) (view l s) -> wp (zoom l m) Q s.
Proof. unfold wp, zoom. destruct (m (view l s)) as [[]| |]; done. Qed.

(** [msafe] walks through straight-line monadic code. *)
Ltac msafe_step :=
  lazymatch goal with
  | |- safe (bind _ _) _ _ => apply safe_bind
  | |- safe (ret _) _ _ => apply safe_ret
  | |- safe (if ?b then _ else _) _ _ => destruct b eqn:?
  | |- safe (modify _) _ _ => unfold modify, safe; cbn
  | |- safe (gets _) _ _ => unfold gets, safe; cbn
  | |- safe get _ _ => unfold get, safe; cbn
  | |- safe (put _) _ _ => unfold put, safe; cbn
  | |- safe (zoom _ _) _ _ => apply safe_zoom
  end.
Ltac msafe := repeat msafe_step.

(** ** C objects in memory *)

(** An array store: outside the array the store is an error. *)
Definition store {A} (l : list A) (i : Z) (a : A) : option (list A) :=
  if decide (0 <= i < Z.of_nat (length l)) then Some (<[Z.to_nat i := a]> l) else None.

Definition load {A} (l : list A) (i : Z) : option A :=
  if decide (0 <= i) then l !! Z.to_nat i else None.

(** A peripheral or a peer wrote [new] over the start of a buffer. *)
Definition overwrite {A} (new old : list A) : list A := new ++ drop (length new) old.

Lemma store_in {A} (l : list A) i a :
  0 <= i < Z.of_nat (length l) -> store l i a = Some (<[Z.to_nat i := a]> l).
Proof. intros. unfold store. by rewrite decide_True. Qed.

Lemma store_out {A} (l : list A) i a :
  Z.of_nat (length l) <= i -> store l i a = None.
Proof. intros. unfold store. rewrite decide_False; [done|lia]. Qed.

Lemma store_length {A} (l l' : list A) i a :
  store l i a = Some l' -> length l' = length l.
Proof. unfold store. case_decide; [|done]. intros [= <-]. by rewrite length_insert. Qed.

Lemma load_lookup {A} (l : list A) i : 0 <= i -> load l i = l !! Z.to_nat i.
Proof. intros. unfold load. by rewrite decide_True. Qed.

Lemma overwrite_length {A} (new old : list A) :
  (length new <= length old)%nat -> length (overwrite new old) = length old.
Proof. intros. unfold overwrite. rewrite length_app, length_drop. lia. Qed.

Lemma overwrite_full {A} (new old : list A) :
  length new = length old -> overwrite new old = new.
Proof. intros H. unfold overwrite. by rewrite H, drop_all, app_nil_r. Qed.

Lemma map_Some_inj {A} (l1 l2 : list A) : map Some l1 = map Some l2 -> l1 = l2.
Proof.
  revert l2. induction l1 as [|a l1 IH]; intros [|b l2]; cbn; try done.
  intros [= -> H]. f_equal. by apply IH.
Qed.

(** A list of defined options is the image of the list of their values. *)
Lemma map_all_Some {A B} (f : A -> option B) (l : list A) :
  (forall a, a ∈ l -> is_Some (f a)) -> exists l', map f l = map Some l'.
Proof.
  induction l as [|a l IH]; intros H; [by exists []|].
  destruct (H a) as [b Hb]; [left|].
  destruct IH as [l' Hl']; [intros; apply H; by right|].
  exists (b :: l'). cbn. by rewrite Hb, Hl'.
Qed.

Create Rewrite HintDb list_len.
#[export] Hint Rewrite @length_insert @length_app @length_drop @length_take
  @length_replicate : list_len.
