(* ===== verification/Oslib.v ===== *)
(** * ChibiOS objects the firmware is built on

    The memory pool ([ChibiOS/os/oslib/src/chmempools.c]), the mailbox
    ([chmboxes.c]), thread queues ([chthreads.c]) and system-time arithmetic
    ([chtime.h]) as the firmware configures them
    ([CH_CFG_ST_RESOLUTION] = 16, [CH_CFG_INTERVALS_SIZE] = 32).  The pool is
    modelled down to its linked free list and proved against a stack of
    addresses; the mailbox down to its circular buffer and proved against a
    bounded FIFO. *)

From S2P Require Import Prelude.

(** ** System time *)

(** [systime_t] is [uint16_t]; 1000 ticks per second. *)
Definition CH_CFG_ST_RESOLUTION : Z := 16.
Definition CH_CFG_ST_FREQUENCY : Z := 1000.
Definition TIME_MAX_SYSTIME : Z := 2 ^ CH_CFG_ST_RESOLUTION - 1.

(** [TIME_MS2I]/[OSAL_MS2I] at 1000 ticks per second, rounding up, cast to the
    32-bit [sysinterval_t]. *)
Definition TIME_MS2I (msecs : Z) : Z := u32 ((msecs * CH_CFG_ST_FREQUENCY + 999) `div` 1000).

(** The [chDbgCheck] of [chTimeAddX] is the error case. *)
Definition chTimeAddX (systime interval : Z) : option Z :=
  if decide (interval <= TIME_MAX_SYSTIME) then Some (u16 (systime + u16 interval)) else None.

Definition chTimeDiffX (start fin : Z) : Z := u16 (fin - start).

Definition chTimeIsInRangeX (time start fin : Z) : bool :=
  u16 (time - start) <? u16 (fin - start).

Lemma TIME_MS2I_id ms : 0 <= ms < 2 ^ 32 -> TIME_MS2I ms = ms.
Proof.
  intros. unfold TIME_MS2I, CH_CFG_ST_FREQUENCY.
  replace (ms * 1000 + 999) with (999 + ms * 1000) by lia.
  rewrite Z.div_add, Z.div_small by lia. apply u32_small. lia.
Qed.

(** Wrap-around is harmless in the range test: [n] ticks after [start] the
    window [start, start + d) is still open exactly when [n < d]. *)
Lemma chTimeIsInRangeX_elapsed start d n :
  0 <= start < 65536 -> 0 <= d < 65536 -> 0 <= n < 65536 ->
  chTimeIsInRangeX (u16 (start + n)) start (u16 (start + d)) = (n <? d).
Proof.
  intros Hs Hd Hn. unfold chTimeIsInRangeX, u16.
  rewrite !Zminus_mod_idemp_l.
  replace (start + n - start) with n by lia.
  replace (start + d - start) with d by lia.
  by rewrite !Z.mod_small by lia.
Qed.

(** The same on an unbounded clock: [now] is less than [d] ticks after [start]. *)
Lemma chTimeIsInRangeX_within start now d :
  0 <= d < 65536 -> 0 <= now - start < d ->
  chTimeIsInRangeX (u16 now) (u16 start) (u16 (u16 start + u16 d)) = true.
Proof.
  intros Hd Hn. replace (u16 now) with (u16 (u16 start + (now - start))).
  - rewrite (u16_small d) by lia. rewrite chTimeIsInRangeX_elapsed by (auto with word || lia).
    apply Z.ltb_lt. lia.
  - unfold u16. rewrite Zplus_mod_idemp_l. f_equal. lia.
Qed.

(** ** Threads queues and messages *)

Definition MSG_OK : Z := 0.
Definition MSG_TIMEOUT : Z := -1.
Definition MSG_RESET : Z := -2.
Definition TIME_IMMEDIATE : Z := 0.
Definition TIME_INFINITE : Z := 2 ^ 32 - 1.

(** ** Memory pool *)

Module Pool.

(** [memory_pool_t].  The objects live at addresses; [heap] gives the [next]
    field that overlays a free object.  [NULL] is address 0. *)
Record memory_pool_t := MemoryPool {
  next : Z;
  object_size : Z;
  align : Z;
  provider : option (Z -> Z -> Z)
}.

Record pool_state := PoolState {
  mp : memory_pool_t;
  heap : gmap Z Z
}.

Definition NULL : Z := 0.
Definition PORT_NATURAL_ALIGN : Z := 4.
Definition SIZEOF_PTR : Z := 4.

Definition set_next (n : Z) (s : pool_state) : pool_state :=
  PoolState (MemoryPool n (object_size (mp s)) (align (mp s)) (provider (mp s))) (heap s).

(** [MEM_IS_VALID_ALIGNMENT]: a power of two. *)
Definition valid_alignment (a : Z) : bool := bool_decide (a <> 0) && (Z.land a (a - 1) =? 0).
Definition is_aligned (p a : Z) : bool := Z.land p (a - 1) =? 0.

Definition chPoolObjectInitAligned (size algn : Z) (prov : option (Z -> Z -> Z))
  : M pool_state unit :=
  assert (bool_decide (SIZEOF_PTR <= size) && bool_decide (PORT_NATURAL_ALIGN <= algn)
          && valid_alignment algn) "chPoolObjectInitAligned" ;;;
  modify (fun s => PoolState (MemoryPool NULL size algn prov) (heap s)).

Definition chPoolObjectInit (size : Z) (prov : option (Z -> Z -> Z)) : M pool_state unit :=
  chPoolObjectInitAligned size PORT_NATURAL_ALIGN prov.

(** [mp->next = mp->next->next] reads the header of the first free object. *)
Definition chPoolAllocI : M pool_state Z :=
  let! s := get in
  let objp := next (mp s) in
  if decide (objp <> NULL) then
    let! n := lift_opt (heap s !! objp) "pool header" in
    modify (set_next n) ;;; ret objp
  else
    match provider (mp s) with
    | Some f =>
        let p := f (object_size (mp s)) (align (mp s)) in
        assert (is_aligned p (align (mp s))) "returned object not aligned" ;;;
        ret p
    | None => ret objp
    end.

(** [chSysLock]/[chSysUnlock] make the I-class operation one atomic step. *)
Definition chPoolAlloc : M pool_state Z := chPoolAllocI.

Definition chPoolFreeI (objp : Z) : M pool_state unit :=
  let! s := get in
  assert (bool_decide (objp <> NULL) && is_aligned objp (align (mp s))) "chPoolFreeI" ;;;
  put (PoolState (mp s) (<[objp := next (mp s)]> (heap s))) ;;;
  modify (set_next objp).

Definition chPoolFree (objp : Z) : M pool_state unit := chPoolFreeI objp.

Definition chPoolAdd (objp : Z) : M pool_state unit := chPoolFree objp.

(** The [while (n != 0U)] loop runs [n] times. *)
Fixpoint chPoolLoadArray_loop (n : nat) (p : Z) : M pool_state unit :=
  match n with
  | O => ret tt
  | S n' =>
      chPoolAdd p ;;;
      let! s := get in
      chPoolLoadArray_loop n' (p + object_size (mp s))
  end.

Definition chPoolLoadArray (p : Z) (n : nat) : M pool_state unit :=
  assert (bool_decide (n <> 0%nat)) "chPoolLoadArray" ;;;
  chPoolLoadArray_loop n p.

(** *** The free list as a stack *)

(** [chain h a l]: following [next] from [a] visits exactly [l]. *)
Fixpoint chain (h : gmap Z Z) (a : Z) (l : list Z) : Prop :=
  match l with
  | [] => a = NULL
  | x :: l' => a = x /\ x <> NULL /\ exists n, h !! x = Some n /\ chain h n l'
  end.

(** The pool holds the distinct, aligned objects [l], newest first, and may
    not grow. *)
Definition pool_rep (s : pool_state) (l : list Z) : Prop :=
  chain (heap s) (next (mp s)) l /\ NoDup l /\ provider (mp s) = None.

Lemma chain_fresh h a l x n : x ∉ l -> chain h a l -> chain (<[x := n]> h) a l.
Proof.
  revert a. induction l as [|y l IH]; intros a Hx; cbn; [done|].
  intros (-> & Hy & m & Hm & Hl). apply not_elem_of_cons in Hx as [Hxy Hx].
  split_and!; try done. exists m. rewrite lookup_insert_ne by done. eauto.
Qed.

Lemma chain_inj h a l1 l2 : chain h a l1 -> chain h a l2 -> l1 = l2.
Proof.
  revert a l2. induction l1 as [|x l1 IH]; intros a [|y l2]; cbn; try done.
  - by intros -> (? & ? & _).
  - by intros (-> & ? & _) ->.
  - intros (-> & ? & n & Hn & H1) (-> & ? & m & Hm & H2).
    simplify_eq. f_equal. eauto.
Qed.

Lemma pool_rep_inj s l1 l2 : pool_rep s l1 -> pool_rep s l2 -> l1 = l2.
Proof. intros [H1 _] [H2 _]. by eapply chain_inj. Qed.

Lemma alloc_spec s l :
  pool_rep s l ->
  wp chPoolAlloc (fun p s' =>
    mp s' = (match l with [] => mp s | _ => mp (set_next (next (mp s')) s) end) /\
    heap s' = heap s /\
    match l with
    | [] => p = NULL /\ pool_rep s' []
    | x :: l' => p = x /\ pool_rep s' l'
    end) s.
Proof.
  intros (Hc & Hnd & Hp). unfold wp, chPoolAlloc, chPoolAllocI, bind, get. cbn.
  destruct l as [|x l]; cbn in Hc.
  - rewrite decide_False by (intros H; done). rewrite Hp. cbn. by repeat split.
  - destruct Hc as (Hx & Hnz & n & Hn & Hl). rewrite decide_True by congruence.
    rewrite Hx, Hn. cbn. repeat split; try done. by apply NoDup_cons in Hnd as [].
Qed.

Lemma free_spec s l p :
  pool_rep s l -> p ∉ l -> p <> NULL -> is_aligned p (align (mp s)) = true ->
  wp (chPoolFree p) (fun _ s' =>
    pool_rep s' (p :: l) /\ align (mp s') = align (mp s) /\
    object_size (mp s') = object_size (mp s)) s.
Proof.
  intros (Hc & Hnd & Hp) Hfresh Hnz Hal.
  unfold wp, chPoolFree, chPoolFreeI, bind, get, assert. cbn.
  rewrite bool_decide_true, Hal by done. cbn. repeat split; cbn; try done.
  - exists (next (mp s)). rewrite lookup_insert_eq. split; [done|]. by apply chain_fresh.
  - by apply NoDup_cons.
Qed.

(** Addresses of an array of [n] objects, last one first. *)
Fixpoint array_rev (n : nat) (p size : Z) (acc : list Z) : list Z :=
  match n with O => acc | S n' => array_rev n' (p + size) size (p :: acc) end.

Lemma array_rev_in n p size acc x :
  x ∈ array_rev n p size acc <->
  x ∈ acc \/ exists i, 0 <= i < Z.of_nat n /\ x = p + i * size.
Proof.
  revert p acc. induction n as [|n IH]; intros p acc; cbn [array_rev].
  - split; [by left|]. intros [H|(i & Hi & _)]; [done|lia].
  - rewrite IH, elem_of_cons. split.
    + intros [[->|H]|(i & Hi & ->)]; [right; exists 0; lia|by left|right; exists (i+1); lia].
    + intros [H|(i & Hi & ->)]; [by left; right|].
      destruct (decide (i = 0)) as [->|]; [left; left; lia|].
      right. exists (i - 1). lia.
Qed.

Lemma load_spec n p size s acc :
  pool_rep s acc -> object_size (mp s) = size -> 0 < size -> 0 < p ->
  (forall i, 0 <= i < Z.of_nat n -> is_aligned (p + i * size) (align (mp s)) = true) ->
  (forall x, x ∈ acc -> x < p) ->
  wp (chPoolLoadArray_loop n p)
     (fun _ s' => pool_rep s' (array_rev n p size acc)
                  /\ align (mp s') = align (mp s)) s.
Proof.
  revert p s acc. induction n as [|n IH]; intros p s acc Hrep Hsz Hpos Hp Hal Hacc; cbn.
  - by apply wp_ret.
  - assert (Hal0 : is_aligned p (align (mp s)) = true).
    { specialize (Hal 0 ltac:(lia)). by replace (p + 0 * size) with p in Hal by lia. }
    apply wp_bind. eapply wp_conseq.
    { apply (free_spec s acc p); try done; [|unfold NULL; lia].
      intros Hin. specialize (Hacc _ Hin). lia. }
    cbn. intros _ s' (Hrep' & Hal' & Hsz'). apply wp_bind. unfold wp at 1, get.
    rewrite Hsz', Hsz. eapply wp_conseq.
    { apply (IH (p + size) s' (p :: acc)); [done|congruence|done|lia| |].
      - intros i Hi. rewrite Hal'. specialize (Hal (i + 1) ltac:(lia)).
        by replace (p + size + i * size) with (p + (i + 1) * size) by lia.
      - intros x [->|Hx]%elem_of_cons; [lia|]. specialize (Hacc _ Hx). lia. }
    cbn. intros _ s2 [? ->]. done.
Qed.

(** Allocating [n] times. *)
Fixpoint alloc_n (n : nat) : M pool_state (list Z) :=
  match n with
  | O => ret []
  | S n' => let! p := chPoolAlloc in let! ps := alloc_n n' in ret (p :: ps)
  end.

Lemma alloc_n_spec s l1 l2 :
  pool_rep s (l1 ++ l2) ->
  wp (alloc_n (length l1)) (fun ps s' => ps = l1 /\ pool_rep s' l2) s.
Proof.
  revert s. induction l1 as [|x l1 IH]; intros s Hrep; cbn [length alloc_n].
  - by apply wp_ret.
  - apply wp_bind. eapply wp_conseq; [by apply alloc_spec|]. cbn.
    intros p s' (_ & _ & -> & Hrep'). apply wp_bind.
    eapply wp_conseq; [by apply IH|]. cbn. by intros ps s'' [-> ?].
Qed.

Lemma array_rev_length n p sz acc : length (array_rev n p sz acc) = (n + length acc)%nat.
Proof. revert p acc. induction n as [|n IH]; intros; cbn; [done|]. rewrite IH. cbn. lia. Qed.

Lemma init_spec s size prov :
  4 <= size ->
  wp (chPoolObjectInit size prov) (fun _ s' =>
    heap s' = heap s /\ mp s' = MemoryPool NULL size PORT_NATURAL_ALIGN prov) s.
Proof.
  intros Hs. unfold wp, chPoolObjectInit, chPoolObjectInitAligned, bind, assert.
  rewrite bool_decide_true by (unfold SIZEOF_PTR; lia). done.
Qed.

(** A pool that [chPoolObjectInit] initialised and [chPoolLoadArray]
    loaded with the [n] objects of an aligned array hands out each object of
    the array exactly once and then reports exhaustion with [NULL]. *)
Theorem pool_hands_out_each_object_once (s : pool_state) (size p : Z) (n : nat) :
  4 <= size -> size `mod` 4 = 0 -> 0 < p -> p `mod` 4 = 0 -> (0 < n)%nat ->
  wp (chPoolObjectInit size None ;;; chPoolLoadArray p n ;;;
      let! ps := alloc_n n in let! q := chPoolAlloc in ret (ps, q))
     (fun r _ => NoDup (fst r) /\ snd r = NULL /\
        forall x, x ∈ fst r <-> exists i, 0 <= i < Z.of_nat n /\ x = p + i * size) s.
Proof.
  intros Hs Hs4 Hp Hp4 Hn. apply wp_bind. eapply wp_conseq; [by apply init_spec|].
  intros _ s1 [_ Hmp]. apply wp_bind. unfold chPoolLoadArray. apply wp_bind.
  rewrite bool_decide_true by lia. apply wp_ret.
  eapply wp_conseq.
  { apply (load_spec n p size s1 []); rewrite ?Hmp; cbn; try lia.
    - repeat split; rewrite ?Hmp; cbn; [done|constructor|done].
    - intros i Hi. unfold is_aligned, PORT_NATURAL_ALIGN. apply Z.eqb_eq.
      change (4 - 1) with (Z.ones 2). rewrite Z.land_ones by lia.
      change (2 ^ 2) with 4. rewrite Z.add_mod, Z.mul_mod, Hs4, Hp4 by lia. by rewrite Z.mul_0_r.
    - by intros x ?%elem_of_nil. }
  cbn. intros _ s2 [Hrep _]. apply wp_bind.
  assert (Hlen : length (array_rev n p size []) = n) by (rewrite array_rev_length; cbn; lia).
  rewrite <- (app_nil_r (array_rev n p size [])) in Hrep.
  pose proof (alloc_n_spec _ _ _ Hrep) as Halloc. rewrite Hlen in Halloc.
  eapply wp_conseq; [exact Halloc|]. cbn. intros ps s3 [-> Hrep3].
  apply wp_bind. eapply wp_conseq; [by apply alloc_spec|]. cbn.
  intros q s4 (_ & _ & -> & _). apply wp_ret. cbn. split_and!; [|done|].
  - destruct Hrep as (_ & Hnd & _). by rewrite app_nil_r in Hnd.
  - intros x. rewrite array_rev_in, elem_of_nil. by split; [intros [[]|]|right].
Qed.

Definition empty_pool : pool_state := PoolState (MemoryPool 0 0 0 None) ∅.

Lemma pool_hands_out_each_object_once_witness :
  wp (chPoolObjectInit 24 None ;;; chPoolLoadArray 0x20000100 5 ;;;
      let! ps := alloc_n 5 in let! q := chPoolAlloc in ret (ps, q))
     (fun r _ => NoDup (fst r) /\ snd r = NULL /\
        forall x, x ∈ fst r <-> exists i, 0 <= i < Z.of_nat 5 /\ x = 0x20000100 + i * 24)
     empty_pool.
Proof.
  apply (pool_hands_out_each_object_once empty_pool 24 0x20000100 5);
    first [lia | reflexivity].
Defined.

End Pool.

(** ** Mailbox *)

Module Mbox.

(** [mailbox_t]: the pointers [rdptr], [wrptr] and [top] are offsets from
    [buffer]; [qw] and [qr] are the threads waiting to write and to read, and
    [woken] lists the threads made ready by mailbox operations with the
    message they resume with. *)
Record mailbox_t := Mailbox {
  buffer : list Z;
  wrptr : Z;
  rdptr : Z;
  cnt : Z;
  reset : bool;
  qw : list Z;
  qr : list Z;
  woken : list (Z * Z)
}.

Definition top (mb : mailbox_t) : Z := Z.of_nat (length (buffer mb)).

Definition chMBObjectInit (buf : list Z) : option mailbox_t :=
  if decide (buf <> []) then Some (Mailbox buf 0 0 0 false [] [] []) else None.

(** [chThdDequeueNextI] on the readers' and on the writers' queue. *)
Definition wake_reader (msg : Z) (mb : mailbox_t) : mailbox_t :=
  match qr mb with
  | [] => mb
  | t :: q => Mailbox (buffer mb) (wrptr mb) (rdptr mb) (cnt mb) (reset mb) (qw mb) q
                      (woken mb ++ [(t, msg)])
  end.
Definition wake_writer (msg : Z) (mb : mailbox_t) : mailbox_t :=
  match qw mb with
  | [] => mb
  | t :: q => Mailbox (buffer mb) (wrptr mb) (rdptr mb) (cnt mb) (reset mb) q (qr mb)
                      (woken mb ++ [(t, msg)])
  end.

(** Two [chThdDequeueAllI] with [MSG_RESET]. *)
Definition chMBResetI (mb : mailbox_t) : mailbox_t :=
  Mailbox (buffer mb) 0 0 0 true [] []
          (woken mb ++ map (fun t => (t, MSG_RESET)) (qw mb)
                    ++ map (fun t => (t, MSG_RESET)) (qr mb)).

Definition chMBResumeX (mb : mailbox_t) : mailbox_t :=
  Mailbox (buffer mb) (wrptr mb) (rdptr mb) (cnt mb) false (qw mb) (qr mb) (woken mb).

Definition chMBGetSizeI (mb : mailbox_t) : Z := top mb.
Definition chMBGetUsedCountI (mb : mailbox_t) : Z := cnt mb.
Definition chMBGetFreeCountI (mb : mailbox_t) : Z :=
  u32 (chMBGetSizeI mb - chMBGetUsedCountI mb).

(** [*mbp->wrptr++ = msg; if (wrptr >= top) wrptr = buffer; cnt++]. *)
Definition put_msg (msg : Z) (mb : mailbox_t) : option mailbox_t :=
  b ← store (buffer mb) (wrptr mb) msg;
  let w := wrptr mb + 1 in
  Some (Mailbox b (if decide (top mb <= w) then 0 else w) (rdptr mb)
                (u32 (cnt mb + 1)) (reset mb) (qw mb) (qr mb) (woken mb)).

(** [if (--rdptr < buffer) rdptr = top - 1; *rdptr = msg; cnt++]. *)
Definition put_ahead (msg : Z) (mb : mailbox_t) : option mailbox_t :=
  let r0 := rdptr mb - 1 in
  let r := if decide (r0 < 0) then top mb - 1 else r0 in
  b ← store (buffer mb) r msg;
  Some (Mailbox b (wrptr mb) r (u32 (cnt mb + 1)) (reset mb) (qw mb) (qr mb) (woken mb)).

(** [*msgp = *rdptr++; if (rdptr >= top) rdptr = buffer; cnt--]. *)
Definition take_msg (mb : mailbox_t) : option (Z * mailbox_t) :=
  m ← load (buffer mb) (rdptr mb);
  let r := rdptr mb + 1 in
  Some (m, Mailbox (buffer mb) (wrptr mb) (if decide (top mb <= r) then 0 else r)
                   (u32 (cnt mb - 1)) (reset mb) (qw mb) (qr mb) (woken mb)).

Definition chMBPostI (msg : Z) : M mailbox_t Z :=
  let! mb := get in
  if reset mb then ret MSG_RESET
  else if decide (0 < chMBGetFreeCountI mb) then
    let! mb' := lift_opt (put_msg msg mb) "mailbox write" in
    put (wake_reader MSG_OK mb') ;;;
    ret MSG_OK
  else ret MSG_TIMEOUT.

Definition chMBPostAheadI (msg : Z) : M mailbox_t Z :=
  let! mb := get in
  if reset mb then ret MSG_RESET
  else if decide (0 < chMBGetFreeCountI mb) then
    let! mb' := lift_opt (put_ahead msg mb) "mailbox write" in
    put (wake_reader MSG_OK mb') ;;;
    ret MSG_OK
  else ret MSG_TIMEOUT.

(** Returns the status and, when it is [MSG_OK], the fetched message. *)
Definition chMBFetchI : M mailbox_t (Z * Z) :=
  let! mb := get in
  if reset mb then ret (MSG_RESET, 0)
  else if decide (0 < chMBGetUsedCountI mb) then
    let! r := lift_opt (take_msg mb) "mailbox read" in
    put (wake_writer MSG_OK (snd r)) ;;;
    ret (MSG_OK, fst r)
  else ret (MSG_TIMEOUT, 0).

Section blocking.
(** [chSchGoSleepTimeoutS] on the writers' or the readers' queue: what the
    rest of the system does to the mailbox while this thread sleeps, and the
    message it wakes up with. *)
Variable go_sleep : Z -> M mailbox_t Z.

Definition chThdEnqueueTimeoutS (timeout : Z) : M mailbox_t Z :=
  if decide (timeout = TIME_IMMEDIATE) then ret MSG_TIMEOUT else go_sleep timeout.

(** The [do ... while (rdymsg == MSG_OK)] loops; one iteration is the I-class
    operation, then a wait when there was no room. *)
Definition chMBPostTimeoutS (fuel : nat) (msg timeout : Z) : M mailbox_t Z :=
  loop fuel (
    let! mb := get in
    if reset mb then ret (Some MSG_RESET)
    else if decide (0 < chMBGetFreeCountI mb) then
      let! mb' := lift_opt (put_msg msg mb) "mailbox write" in
      put (wake_reader MSG_OK mb') ;;;
      ret (Some MSG_OK)
    else
      let! rdymsg := chThdEnqueueTimeoutS timeout in
      ret (if decide (rdymsg = MSG_OK) then None else Some rdymsg)).

Definition chMBPostTimeout (fuel : nat) (msg timeout : Z) : M mailbox_t Z :=
  chMBPostTimeoutS fuel msg timeout.

Definition chMBFetchTimeoutS (fuel : nat) (timeout : Z) : M mailbox_t (Z * Z) :=
  loop fuel (
    let! mb := get in
    if reset mb then ret (Some (MSG_RESET, 0))
    else if decide (0 < chMBGetUsedCountI mb) then
      let! r := lift_opt (take_msg mb) "mailbox read" in
      put (wake_writer MSG_OK (snd r)) ;;;
      ret (Some (MSG_OK, fst r))
    else
      let! rdymsg := chThdEnqueueTimeoutS timeout in
      ret (if decide (rdymsg = MSG_OK) then None else Some (rdymsg, 0))).

Definition chMBFetchTimeout (fuel : nat) (timeout : Z) : M mailbox_t (Z * Z) :=
  chMBFetchTimeoutS fuel timeout.
End blocking.

(** *** The mailbox as a bounded FIFO *)

(** Slot [i] places after [p] in a ring of [n]. *)
Definition ring (n p i : Z) : Z := (p + i) `mod` n.

(** The mailbox of capacity [n] holds the messages [q], oldest first. *)
Record mb_rep (n : Z) (mb : mailbox_t) (q : list Z) : Prop := {
  rep_size : Z.of_nat (length (buffer mb)) = n;
  rep_cap : 0 < n < 2 ^ 31;
  rep_rd : 0 <= rdptr mb < n;
  rep_wr : wrptr mb = ring n (rdptr mb) (Z.of_nat (length q));
  rep_cnt : cnt mb = Z.of_nat (length q);
  rep_bound : Z.of_nat (length q) <= n;
  rep_slots : forall i x, q !! i = Some x ->
    buffer mb !! Z.to_nat (ring n (rdptr mb) (Z.of_nat i)) = Some x
}.

Lemma ring_range n p i : 0 < n -> 0 <= ring n p i < n.
Proof. intros. by apply Z.mod_pos_bound. Qed.

Lemma ring_succ n p :
  0 <= p < n -> (if decide (n <= p + 1) then 0 else p + 1) = ring n p 1.
Proof.
  intros. unfold ring. case_decide.
  - replace (p + 1) with n by lia. by rewrite Z.mod_same by lia.
  - by rewrite Z.mod_small by lia.
Qed.

Lemma ring_pred n p :
  0 <= p < n -> (if decide (p - 1 < 0) then n - 1 else p - 1) = ring n p (n - 1).
Proof.
  intros. unfold ring. case_decide.
  - assert (p = 0) as -> by lia. rewrite Z.mod_small; lia.
  - replace (p + (n - 1)) with (p - 1 + 1 * n) by lia.
    rewrite Z.mod_add by lia. rewrite Z.mod_small; lia.
Qed.

Lemma ring_ring n p i j : 0 < n -> ring n (ring n p i) j = ring n p (i + j).
Proof.
  intros. unfold ring. rewrite Zplus_mod_idemp_l. f_equal. lia.
Qed.

Lemma ring_full n p i : 0 < n -> ring n p (i + n) = ring n p i.
Proof.
  intros. unfold ring. replace (p + (i + n)) with (p + i + 1 * n) by lia.
  by rewrite Z.mod_add by lia.
Qed.

Lemma ring_inj n p i j :
  0 < n -> 0 <= i < n -> 0 <= j < n -> ring n p i = ring n p j -> i = j.
Proof.
  unfold ring. intros Hn Hi Hj Heq.
  assert (Hd : (p + i - (p + j)) `mod` n = 0)
    by (rewrite Zminus_mod, Heq, Z.sub_diag; apply Z.mod_0_l; lia).
  replace (p + i - (p + j)) with (i - j) in Hd by lia.
  apply Z.mod_divide in Hd as [k Hk]; [|lia].
  assert (- 1 < k) by (apply (Z.mul_lt_mono_pos_r n); lia).
  assert (k < 1) by (apply (Z.mul_lt_mono_pos_r n); lia).
  assert (k = 0) as -> by lia. lia.
Qed.

Lemma ring_0 n p : 0 <= p < n -> ring n p 0 = p.
Proof. intros. unfold ring. rewrite Z.add_0_r. by apply Z.mod_small. Qed.

Lemma free_count n mb q : mb_rep n mb q -> chMBGetFreeCountI mb = n - Z.of_nat (length q).
Proof.
  intros []. unfold chMBGetFreeCountI, chMBGetSizeI, chMBGetUsedCountI, top.
  rewrite u32_small; lia.
Qed.

Lemma wake_reader_rep n mb q msg : mb_rep n mb q -> mb_rep n (wake_reader msg mb) q.
Proof. intros []. unfold wake_reader. destruct (qr mb); by constructor. Qed.

Lemma wake_writer_rep n mb q msg : mb_rep n mb q -> mb_rep n (wake_writer msg mb) q.
Proof. intros []. unfold wake_writer. destruct (qw mb); by constructor. Qed.

Lemma wake_reader_reset mb msg : reset (wake_reader msg mb) = reset mb.
Proof. unfold wake_reader. by destruct (qr mb). Qed.

Lemma wake_writer_reset mb msg : reset (wake_writer msg mb) = reset mb.
Proof. unfold wake_writer. by destruct (qw mb). Qed.

Lemma put_msg_rep n mb q msg :
  mb_rep n mb q -> Z.of_nat (length q) < n ->
  exists mb', put_msg msg mb = Some mb' /\ mb_rep n mb' (q ++ [msg])
              /\ reset mb' = reset mb.
Proof.
  intros [Hsz Hcap Hrd Hwr Hcnt Hb Hsl] Hroom. unfold put_msg, top.
  pose proof (ring_range n (rdptr mb) (Z.of_nat (length q)) ltac:(lia)) as Hw.
  rewrite store_in by lia. cbn. eexists. split; [done|]. split; [|done].
  rewrite Hsz, Hwr, ring_succ, ring_ring by lia.
  constructor; cbn [buffer wrptr rdptr cnt length]; rewrite ?length_insert, ?length_app;
    cbn [length]; try lia.
  - f_equal. lia.
  - rewrite u32_small by lia. lia.
  - intros i x Hi. destruct (decide (i < length q)%nat) as [Hlt|Hge].
    + rewrite lookup_app_l in Hi by done.
      rewrite list_lookup_insert_ne; [by apply Hsl|].
      intros Heq. apply Z2Nat.inj in Heq; [|apply ring_range; lia..].
      apply ring_inj in Heq; lia.
    + rewrite lookup_app_r in Hi by lia. apply list_lookup_singleton_Some in Hi as [Hi <-].
      assert (i = length q) as -> by lia. apply list_lookup_insert_eq. lia.
Qed.

Lemma put_ahead_rep n mb q msg :
  mb_rep n mb q -> Z.of_nat (length q) < n ->
  exists mb', put_ahead msg mb = Some mb' /\ mb_rep n mb' (msg :: q)
              /\ reset mb' = reset mb.
Proof.
  intros [Hsz Hcap Hrd Hwr Hcnt Hb Hsl] Hroom. unfold put_ahead, top.
  rewrite Hsz, ring_pred by lia.
  pose proof (ring_range n (rdptr mb) (n - 1) ltac:(lia)) as Hr.
  rewrite store_in by lia. cbn. eexists. split; [done|]. split; [|done].
  constructor; cbn [buffer wrptr rdptr cnt length]; rewrite ?length_insert; try lia.
  - rewrite Hwr, ring_ring by lia.
    replace (n - 1 + Z.of_nat (S (length q))) with (Z.of_nat (length q) + n) by lia.
    by rewrite ring_full by lia.
  - rewrite u32_small by lia. lia.
  - intros [|i] x Hi; cbn in Hi.
    + simplify_eq. change (Z.of_nat 0) with 0. rewrite ring_0 by lia.
      apply list_lookup_insert_eq. lia.
    + rewrite ring_ring by lia.
      replace (n - 1 + Z.of_nat (S i)) with (Z.of_nat i + n) by lia.
      rewrite ring_full by lia.
      rewrite list_lookup_insert_ne; [by apply Hsl|].
      apply lookup_lt_Some in Hi. intros Heq.
      apply Z2Nat.inj in Heq; [|apply ring_range; lia..]. apply ring_inj in Heq; lia.
Qed.

Lemma take_msg_rep n mb x q :
  mb_rep n mb (x :: q) ->
  exists mb', take_msg mb = Some (x, mb') /\ mb_rep n mb' q /\ reset mb' = reset mb.
Proof.
  intros [Hsz Hcap Hrd Hwr Hcnt Hb Hsl]. cbn [length] in *. unfold take_msg, top.
  pose proof (Hsl 0%nat x eq_refl) as H0. change (Z.of_nat 0) with 0 in H0.
  rewrite ring_0 in H0 by lia. rewrite load_lookup, H0 by lia. cbn.
  eexists. split; [done|]. split; [|done].
  rewrite Hsz, ring_succ by lia.
  constructor; cbn; try lia.
  - apply ring_range. lia.
  - rewrite Hwr, ring_ring by lia. f_equal. lia.
  - rewrite u32_small by lia. lia.
  - intros i y Hi. rewrite ring_ring by lia.
    replace (1 + Z.of_nat i) with (Z.of_nat (S i)) by lia. by apply Hsl.
Qed.

Lemma mb_init_rep buf mb :
  Z.of_nat (length buf) < 2 ^ 31 -> chMBObjectInit buf = Some mb ->
  mb_rep (Z.of_nat (length buf)) mb [] /\ reset mb = false.
Proof.
  unfold chMBObjectInit. intros Hl. case_decide as Hb; [|done]. intros [= <-].
  assert (length buf <> 0%nat) by (by destruct buf).
  split; [|done]. constructor; cbn; try lia; [|done].
  by rewrite ring_0 by lia.
Qed.

(** *** Operation traces *)

(** The I-class operations; every blocking call with [TIME_IMMEDIATE] is one. *)
Inductive mb_op := OpPost (m : Z) | OpPostAhead (m : Z) | OpFetch | OpReset | OpResume.

(** The observable result: status and fetched message. *)
Definition mb_exec (op : mb_op) : M mailbox_t (Z * Z) :=
  match op with
  | OpPost m => let! r := chMBPostI m in ret (r, 0)
  | OpPostAhead m => let! r := chMBPostAheadI m in ret (r, 0)
  | OpFetch => chMBFetchI
  | OpReset => modify chMBResetI ;;; ret (MSG_OK, 0)
  | OpResume => modify chMBResumeX ;;; ret (MSG_OK, 0)
  end.

Fixpoint mb_execs (ops : list mb_op) : M mailbox_t (list (Z * Z)) :=
  match ops with
  | [] => ret []
  | op :: ops' => let! r := mb_exec op in let! rs := mb_execs ops' in ret (r :: rs)
  end.

(** The specification: a list of at most [n] messages and a reset flag. *)
Definition fifo_exec (n : Z) (op : mb_op) (st : list Z * bool) : (Z * Z) * (list Z * bool) :=
  let '(q, rst) := st in
  let room := Z.of_nat (length q) <? n in
  match op with
  | OpPost m =>
      if rst then ((MSG_RESET, 0), st)
      else if room then ((MSG_OK, 0), (q ++ [m], rst)) else ((MSG_TIMEOUT, 0), st)
  | OpPostAhead m =>
      if rst then ((MSG_RESET, 0), st)
      else if room then ((MSG_OK, 0), (m :: q, rst)) else ((MSG_TIMEOUT, 0), st)
  | OpFetch =>
      if rst then ((MSG_RESET, 0), st)
      else match q with
           | [] => ((MSG_TIMEOUT, 0), st)
           | x :: q' => ((MSG_OK, x), (q', rst))
           end
  | OpReset => ((MSG_OK, 0), ([], true))
  | OpResume => ((MSG_OK, 0), (q, false))
  end.

Fixpoint fifo_execs (n : Z) (ops : list mb_op) (st : list Z * bool) : list (Z * Z) :=
  match ops with
  | [] => []
  | op :: ops' => let r := fifo_exec n op st in fst r :: fifo_execs n ops' (snd r)
  end.

Definition mb_sim (n : Z) (mb : mailbox_t) (st : list Z * bool) : Prop :=
  mb_rep n mb (fst st) /\ reset mb = snd st.

Lemma post_spec n mb q msg :
  mb_rep n mb q -> reset mb = false ->
  wp (chMBPostI msg) (fun r mb' =>
    reset mb' = false /\
    if Z.of_nat (length q) <? n then r = MSG_OK /\ mb_rep n mb' (q ++ [msg])
    else r = MSG_TIMEOUT /\ mb' = mb) mb.
Proof.
  intros Hrep Hr. unfold wp, chMBPostI, bind, get. rewrite Hr, (free_count _ _ _ Hrep).
  destruct (Z.ltb_spec (Z.of_nat (length q)) n).
  - rewrite decide_True by lia.
    destruct (put_msg_rep _ _ _ msg Hrep) as (mb' & -> & Hrep' & Hr'); [lia|]. cbn.
    rewrite wake_reader_reset, Hr', Hr. split_and!; auto using wake_reader_rep.
  - rewrite decide_False by lia. done.
Qed.

Lemma post_ahead_spec n mb q msg :
  mb_rep n mb q -> reset mb = false ->
  wp (chMBPostAheadI msg) (fun r mb' =>
    reset mb' = false /\
    if Z.of_nat (length q) <? n then r = MSG_OK /\ mb_rep n mb' (msg :: q)
    else r = MSG_TIMEOUT /\ mb' = mb) mb.
Proof.
  intros Hrep Hr. unfold wp, chMBPostAheadI, bind, get. rewrite Hr, (free_count _ _ _ Hrep).
  destruct (Z.ltb_spec (Z.of_nat (length q)) n).
  - rewrite decide_True by lia.
    destruct (put_ahead_rep _ _ _ msg Hrep) as (mb' & -> & Hrep' & Hr'); [lia|]. cbn.
    rewrite wake_reader_reset, Hr', Hr. split_and!; auto using wake_reader_rep.
  - rewrite decide_False by lia. done.
Qed.

Lemma fetch_spec n mb q :
  mb_rep n mb q -> reset mb = false ->
  wp chMBFetchI (fun r mb' =>
    reset mb' = false /\
    match q with
    | [] => r = (MSG_TIMEOUT, 0) /\ mb' = mb
    | x :: q' => r = (MSG_OK, x) /\ mb_rep n mb' q'
    end) mb.
Proof.
  intros Hrep Hr. unfold wp, chMBFetchI, bind, get, chMBGetUsedCountI.
  rewrite Hr, (rep_cnt _ _ _ Hrep). destruct q as [|x q].
  - rewrite decide_False by (cbn; lia). done.
  - rewrite decide_True by (cbn; lia).
    destruct (take_msg_rep _ _ _ _ Hrep) as (mb' & -> & Hrep' & Hr'). cbn.
    rewrite wake_writer_reset, Hr', Hr. split_and!; auto using wake_writer_rep.
Qed.

Lemma mb_exec_sim n op mb st :
  mb_sim n mb st ->
  wp (mb_exec op) (fun r mb' => r = fst (fifo_exec n op st) /\
                                mb_sim n mb' (snd (fifo_exec n op st))) mb.
Proof.
  destruct st as [q rst]. intros [Hrep Hr]; cbn in Hrep, Hr.
  destruct op as [m|m| | |]; cbn [mb_exec fifo_exec].
  - apply wp_bind. destruct rst.
    { unfold wp at 1, chMBPostI, bind, get. rewrite Hr. by apply wp_ret. }
    eapply wp_conseq; [by apply (post_spec n mb q m)|]. cbn. intros r mb' [Hr' H].
    apply wp_ret. destruct (_ <? n); destruct H as [-> H]; subst; done.
  - apply wp_bind. destruct rst.
    { unfold wp at 1, chMBPostAheadI, bind, get. rewrite Hr. by apply wp_ret. }
    eapply wp_conseq; [by apply (post_ahead_spec n mb q m)|]. cbn. intros r mb' [Hr' H].
    apply wp_ret. destruct (_ <? n); destruct H as [-> H]; subst; done.
  - destruct rst.
    { unfold wp at 1, chMBFetchI, bind, get. rewrite Hr. done. }
    eapply wp_conseq; [by apply (fetch_spec n mb q)|]. cbn. intros r mb' [Hr' H].
    destruct q; destruct H as [-> H]; subst; done.
  - unfold wp, bind, modify, ret. cbn. split; [done|]. split; [|done].
    destruct Hrep. constructor; cbn; try lia; [by rewrite ring_0 by lia|done].
  - unfold wp, bind, modify, ret. cbn. split; [done|]. split; [|done].
    destruct Hrep. by constructor.
Qed.

(** C2: for every capacity and every sequence of posts, posts ahead, fetches,
    resets and resumes, the circular-buffer mailbox returns exactly the
    statuses and messages of a bounded FIFO list, without ever touching memory
    outside its buffer. *)
Theorem mailbox_refines_fifo (buf : list Z) (mb : mailbox_t) (ops : list mb_op) :
  Z.of_nat (length buf) < 2 ^ 31 -> chMBObjectInit buf = Some mb ->
  wp (mb_execs ops)
     (fun rs _ => rs = fifo_execs (Z.of_nat (length buf)) ops ([], false)) mb.
Proof.
  intros Hl Hinit. destruct (mb_init_rep buf mb Hl Hinit) as [Hrep Hr].
  assert (Hsim : mb_sim (Z.of_nat (length buf)) mb ([], false)) by done.
  clear Hinit Hrep Hr. revert mb Hsim. generalize (([], false) : list Z * bool).
  induction ops as [|op ops IH]; intros st mb Hsim; cbn [mb_execs fifo_execs].
  - by apply wp_ret.
  - apply wp_bind. eapply wp_conseq; [by apply (mb_exec_sim (Z.of_nat (length buf)) op mb st)|].
    cbn. intros r mb' [-> Hsim']. apply wp_bind.
    eapply wp_conseq; [by apply IH|]. cbn. intros rs mb'' ->. by apply wp_ret.
Qed.

Lemma mailbox_refines_fifo_witness :
  wp (mb_execs [OpPost 7; OpPost 8; OpPost 9; OpPostAhead 5; OpFetch; OpFetch; OpPost 9;
                OpFetch; OpReset; OpPost 1; OpResume; OpFetch])
     (fun rs _ => rs = [(0,0); (0,0); (-1,0); (-1,0); (0,7); (0,8); (0,0); (0,9);
                        (0,0); (-2,0); (0,0); (-1,0)])
     (Mailbox [0; 0] 0 0 0 false [] [] []).
Proof.
  apply (mailbox_refines_fifo [0; 0] (Mailbox [0; 0] 0 0 0 false [] [] [])
    [OpPost 7; OpPost 8; OpPost 9; OpPostAhead 5; OpFetch; OpFetch; OpPost 9;
     OpFetch; OpReset; OpPost 1; OpResume; OpFetch]); [cbn; lia|reflexivity].
Defined.

(** With [TIME_IMMEDIATE] the blocking post never sleeps: it is the I-class
    post. *)
Lemma post_immediate go_sleep fuel msg mb :
  chMBPostTimeout go_sleep (S fuel) msg TIME_IMMEDIATE mb = chMBPostI msg mb.
Proof.
  unfold chMBPostTimeout, chMBPostTimeoutS, chMBPostI, chThdEnqueueTimeoutS.
  cbn [loop]. unfold bind, get, ret. destruct (reset mb); [done|].
  destruct (decide (0 < _)); [|done]. by destruct (put_msg msg mb).
Qed.

(** When the wait on an empty mailbox runs out, the blocking fetch is the
    I-class fetch. *)
Lemma fetch_timed_out fuel timeout mb :
  chMBFetchTimeout (fun _ => ret MSG_TIMEOUT) (S fuel) timeout mb = chMBFetchI mb.
Proof.
  unfold chMBFetchTimeout, chMBFetchTimeoutS, chMBFetchI, chThdEnqueueTimeoutS.
  cbn [loop]. unfold bind, get, ret. destruct (reset mb); [done|].
  destruct (decide (0 < _)).
  - by destruct (take_msg mb) as [[]|].
  - by destruct (decide (timeout = TIME_IMMEDIATE)).
Qed.

(** A fetch with a message in the queue does not sleep, whatever its timeout. *)
Lemma fetch_ready go_sleep fuel timeout mb x q n :
  mb_rep n mb (x :: q) -> reset mb = false ->
  chMBFetchTimeout go_sleep (S fuel) timeout mb = chMBFetchI mb.
Proof.
  intros Hrep Hr. unfold chMBFetchTimeout, chMBFetchTimeoutS, chMBFetchI.
  cbn [loop]. unfold bind, get, ret. rewrite Hr.
  unfold chMBGetUsedCountI. rewrite (rep_cnt _ _ _ Hrep).
  rewrite decide_True by (cbn; lia). by destruct (take_msg mb) as [[]|].
Qed.

End Mbox.
