(* ===== verification/Sem.v ===== *)
(** * Semaphores

    [src/ChibiOS/os/rt/src/chsem.c] and [src/ChibiOS/os/oslib/include/chbsem.h]:
    the counting semaphore with its queue of waiting threads, and the binary
    semaphore on top of it that guards the radio ([uart_bsem]) and the
    lightning sensor ([as3935_bsem]).  Threads are numbers.  A wait that has to
    sleep puts the thread in the queue; a signal, a reset or the expiry of its
    time-out makes it ready with a message.

    The counter is negative while threads wait, its queue is served first in
    first out, and each operation asserts that counter and queue agree.  The
    specification has a number of tokens and a line of threads instead. *)

From S2P Require Import Prelude Oslib.

Module Sem.

(** [semaphore_t], and the threads made ready so far with their messages. *)
Record semaphore_t := Semaphore {
  cnt : Z;
  queue : list nat;
  ready : list (nat * Z)
}.

(** [chDbgAssert] of every operation. *)
Definition consistent (sp : semaphore_t) : bool :=
  ((0 <=? cnt sp) && bool_decide (queue sp = [])) || ((cnt sp <? 0) && negb (bool_decide (queue sp = []))).

Definition check : M semaphore_t unit :=
  let! sp := get in assert (consistent sp) "inconsistent semaphore".

Definition set_cnt (n : Z) : M semaphore_t unit := modify (fun sp => Semaphore n (queue sp) (ready sp)).

Definition chSemObjectInit (n : Z) : M semaphore_t unit :=
  assert (0 <=? n) "chSemObjectInit" ;;;
  modify (fun sp => Semaphore n [] (ready sp)).

(** [chSchReadyI(ch_queue_fifo_remove(&sp->queue))->u.rdymsg = msg], and the
    same from the other end of the queue. *)
Definition fifo_ready (msg : Z) : M semaphore_t unit :=
  let! sp := get in
  match queue sp with
  | t :: q => put (Semaphore (cnt sp) q (ready sp ++ [(t, msg)]))
  | [] => halt "empty queue"
  end.

Fixpoint lifo_ready (n : nat) (msg : Z) : M semaphore_t unit :=
  match n with
  | O => ret tt
  | S n =>
      let! sp := get in
      match last (queue sp) with
      | None => ret tt
      | Some t =>
          put (Semaphore (cnt sp) (removelast (queue sp)) (ready sp ++ [(t, msg)])) ;;;
          lifo_ready n msg
      end
  end.

(** The [while] runs once per waiting thread. *)
Definition chSemResetWithMessageI (n msg : Z) : M semaphore_t unit :=
  assert (0 <=? n) "chSemResetWithMessageI" ;;;
  check ;;;
  set_cnt n ;;;
  let! sp := get in
  lifo_ready (length (queue sp)) msg.

Definition chSemResetI (n : Z) : M semaphore_t unit := chSemResetWithMessageI n MSG_RESET.

(** A wait of the thread [t]: its result, or [None] when it sleeps.
    [None] as time-out is [TIME_INFINITE] ([chSemWaitS]). *)
Definition chSemWaitTimeoutS (t : nat) (timeout : option Z) : M semaphore_t (option Z) :=
  check ;;;
  let! sp := get in
  let c := s32 (cnt sp - 1) in
  set_cnt c ;;;
  if decide (c < 0) then
    if decide (timeout = Some TIME_IMMEDIATE) then
      set_cnt (s32 (c + 1)) ;;;
      ret (Some MSG_TIMEOUT)
    else
      modify (fun sp => Semaphore (cnt sp) (queue sp ++ [t]) (ready sp)) ;;;
      ret None
  else ret (Some MSG_OK).

Definition chSemSignalI : M semaphore_t unit :=
  check ;;;
  let! sp := get in
  let c := s32 (cnt sp + 1) in
  set_cnt c ;;;
  if decide (c <= 0) then fifo_ready MSG_OK else ret tt.

(** The [while (n > 0)] of [chSemAddCounterI]. *)
Fixpoint add_loop (n : nat) : M semaphore_t unit :=
  match n with
  | O => ret tt
  | S n =>
      let! sp := get in
      let c := s32 (cnt sp + 1) in
      set_cnt c ;;;
      (if decide (c <= 0) then fifo_ready MSG_OK else ret tt) ;;;
      add_loop n
  end.

Definition chSemAddCounterI (n : Z) : M semaphore_t unit :=
  assert (0 <? n) "chSemAddCounterI" ;;;
  check ;;;
  add_loop (Z.to_nat n).

(** Takes the thread out of the middle of the queue. *)
Fixpoint ch_queue_dequeue (t : nat) (q : list nat) : list nat :=
  match q with
  | [] => []
  | x :: q => if decide (x = t) then q else x :: ch_queue_dequeue t q
  end.

(** [__sch_wakeup], the time-out of a thread's wait: nothing when the thread
    has been made ready in the meantime, else [chSemFastSignalI] and out of the
    queue. *)
Definition sch_wakeup (t : nat) : M semaphore_t unit :=
  let! sp := get in
  if decide (t ∈ queue sp) then
    put (Semaphore (s32 (cnt sp + 1)) (ch_queue_dequeue t (queue sp)) (ready sp ++ [(t, MSG_TIMEOUT)]))
  else ret tt.

(** ** Binary semaphores *)

Definition chBSemObjectInit (taken : bool) : M semaphore_t unit :=
  chSemObjectInit (if taken then 0 else 1).

Definition chBSemWaitTimeoutS (t : nat) (timeout : option Z) : M semaphore_t (option Z) :=
  chSemWaitTimeoutS t timeout.

Definition chBSemResetI (taken : bool) : M semaphore_t unit := chSemResetI (if taken then 0 else 1).

Definition chBSemSignalI : M semaphore_t unit :=
  let! sp := get in
  if decide (cnt sp < 1) then chSemSignalI else ret tt.

Definition chBSemGetStateI (sp : semaphore_t) : bool := if decide (cnt sp > 0) then false else true.

(** ** Specification *)

(** The number of waits that may pass at once, and the threads in line; no
    thread is in line while there is a token. *)
Record spec := Spec { tokens : Z; line : list nat }.

Inductive op :=
  | Wait (t : nat) (timeout : option Z)
  | Signal
  | Add (n : nat)
  | BSignal
  | Expire (t : nat)
  | Reset (n : Z).

(** The threads an operation lets go on, with their messages, and what is left. *)
Definition spec_signal (s : spec) : list (nat * Z) * spec :=
  match line s with
  | t :: q => ([(t, MSG_OK)], Spec (tokens s) q)
  | [] => ([], Spec (tokens s + 1) [])
  end.

Fixpoint spec_add (n : nat) (s : spec) : list (nat * Z) * spec :=
  match n with
  | O => ([], s)
  | S n => let '(o, s) := spec_signal s in let '(os, s) := spec_add n s in (o ++ os, s)
  end.

Definition spec_exec (o : op) (s : spec) : list (nat * Z) * spec :=
  match o with
  | Wait t timeout =>
      if decide (0 < tokens s) then ([(t, MSG_OK)], Spec (tokens s - 1) (line s))
      else if decide (timeout = Some TIME_IMMEDIATE) then ([(t, MSG_TIMEOUT)], s)
      else ([], Spec (tokens s) (line s ++ [t]))
  | Signal => spec_signal s
  | Add n => spec_add n s
  | BSignal => if decide (0 < tokens s) then ([], s) else spec_signal s
  | Expire t =>
      if decide (t ∈ line s) then ([(t, MSG_TIMEOUT)], Spec (tokens s) (ch_queue_dequeue t (line s)))
      else ([], s)
  | Reset n => ((fun t => (t, MSG_RESET)) <$> reverse (line s), Spec n [])
  end.

Fixpoint spec_execs (ops : list op) (s : spec) : list (list (nat * Z)) * spec :=
  match ops with
  | [] => ([], s)
  | o :: ops => let '(out, s) := spec_exec o s in let '(outs, s) := spec_execs ops s in (out :: outs, s)
  end.

(** The same observation of the code: the immediate result of a wait, and the
    threads made ready. *)
Definition sem_op (o : op) : M semaphore_t (list (nat * Z)) :=
  match o with
  | Wait t timeout =>
      let! r := chSemWaitTimeoutS t timeout in
      ret (match r with Some msg => [(t, msg)] | None => [] end)
  | Signal => chSemSignalI ;;; ret []
  | Add n => chSemAddCounterI (Z.of_nat n) ;;; ret []
  | BSignal => chBSemSignalI ;;; ret []
  | Expire t => sch_wakeup t ;;; ret []
  | Reset n => chSemResetI n ;;; ret []
  end.

Definition sem_exec (o : op) : M semaphore_t (list (nat * Z)) :=
  modify (fun sp => Semaphore (cnt sp) (queue sp) []) ;;;
  let! out := sem_op o in
  let! sp := get in
  ret (out ++ ready sp).

Fixpoint sem_execs (ops : list op) : M semaphore_t (list (list (nat * Z))) :=
  match ops with
  | [] => ret []
  | o :: ops => let! out := sem_exec o in let! outs := sem_execs ops in ret (out :: outs)
  end.

(** ** Refinement *)

Record rep (sp : semaphore_t) (s : spec) : Prop := {
  rep_cnt : cnt sp = tokens s - Z.of_nat (length (line s));
  rep_queue : queue sp = line s;
  rep_pos : 0 <= tokens s;
  rep_one : tokens s = 0 \/ line s = []
}.

(** No number is larger than [b]. *)
Definition within (b : Z) (s : spec) : Prop := tokens s <= b /\ Z.of_nat (length (line s)) <= b.

Lemma rep_consistent sp s : rep sp s -> consistent sp = true.
Proof.
  intros [Hc Hq Hp H1]. unfold consistent. rewrite Hc, Hq. destruct (line s) as [|t q]; cbn [length].
  - by rewrite bool_decide_true, (proj2 (Z.leb_le 0 _)) by (done || lia).
  - destruct H1 as [->|]; [|done]. rewrite bool_decide_false by done.
    apply orb_true_intro. right. rewrite (proj2 (Z.ltb_lt _ 0)) by lia. done.
Qed.

Lemma wp_check sp s (Q : unit -> semaphore_t -> Prop) : rep sp s -> Q tt sp -> wp check Q sp.
Proof.
  intros Hr HQ. unfold check. apply wp_bind, wp_get. unfold wp, assert.
  by rewrite (rep_consistent sp s Hr).
Qed.

Lemma wp_set_cnt n sp (Q : unit -> semaphore_t -> Prop) :
  Q tt (Semaphore n (queue sp) (ready sp)) -> wp (set_cnt n) Q sp.
Proof. done. Qed.

(** One increment of the counter and what follows it. *)
Lemma increment_spec sp s b :
  rep sp s -> within b s -> b < 2 ^ 31 - 1 ->
  wp (set_cnt (s32 (cnt sp + 1)) ;;; if decide (s32 (cnt sp + 1) <= 0) then fifo_ready MSG_OK else ret tt)
     (fun _ sp' => rep sp' (snd (spec_signal s)) /\ ready sp' = ready sp ++ fst (spec_signal s)) sp.
Proof.
  intros [Hc Hq Hp H1] [Ht Hl] Hb. rewrite s32_small by lia. apply wp_bind, wp_set_cnt. unfold spec_signal.
  destruct (line s) as [|t q] eqn:Hs; cbn [length] in *.
  - rewrite decide_False by lia. apply wp_ret. cbn [fst snd ready]. rewrite app_nil_r. split; [|done].
    constructor; cbn [cnt queue tokens line length]; [lia|done|lia|by right].
  - destruct H1 as [H0|]; [|done]. rewrite decide_True by lia. unfold fifo_ready. apply wp_bind, wp_get.
    cbn [queue cnt ready]. rewrite Hq. split; [|done].
    constructor; cbn [cnt queue tokens line length fst snd]; [lia|done|lia|by left].
Qed.

Lemma signal_spec sp s b :
  rep sp s -> within b s -> b < 2 ^ 31 - 1 ->
  wp chSemSignalI
     (fun _ sp' => rep sp' (snd (spec_signal s)) /\ ready sp' = ready sp ++ fst (spec_signal s)) sp.
Proof.
  intros Hr Hw Hb. unfold chSemSignalI. apply wp_bind, (wp_check sp s); [done|]. apply wp_bind, wp_get.
  by apply (increment_spec sp s b).
Qed.

Lemma within_signal b s : within b s -> within (b + 1) (snd (spec_signal s)).
Proof. intros []. unfold spec_signal, within. destruct (line s); cbn in *; lia. Qed.

Lemma add_spec n sp s b :
  rep sp s -> within b s -> b + Z.of_nat n < 2 ^ 31 ->
  wp (add_loop n) (fun _ sp' => rep sp' (snd (spec_add n s)) /\ ready sp' = ready sp ++ fst (spec_add n s)) sp.
Proof.
  revert sp s b. induction n as [|n IH]; intros sp s b Hr Hw Hb.
  - cbn. rewrite app_nil_r. done.
  - cbn [add_loop spec_add]. apply wp_bind, wp_get.
    pose proof (increment_spec sp s b Hr Hw ltac:(lia)) as Hi. apply wp_bind_inv in Hi.
    apply wp_bind. eapply wp_conseq; [exact Hi|]. cbn beta. intros ? sp1 H1. apply wp_bind.
    eapply wp_conseq; [exact H1|]. intros ? sp2 [Hr2 Hy2].
    pose proof (within_signal b s Hw) as Hw2. destruct (spec_signal s) as [o1 s1]. cbn [fst snd] in *.
    eapply wp_conseq; [apply (IH sp2 s1 (b + 1)); [done|done|lia]|]. intros ? sp3 [Hr3 Hy3].
    destruct (spec_add n s1) as [o2 s2]. cbn [fst snd] in *. split; [done|]. by rewrite Hy3, Hy2, app_assoc.
Qed.

Lemma wait_spec sp s b t timeout :
  rep sp s -> within b s -> b < 2 ^ 31 - 1 -> ready sp = [] ->
  wp (chSemWaitTimeoutS t timeout)
     (fun r sp' => rep sp' (snd (spec_exec (Wait t timeout) s)) /\ ready sp' = [] /\
        match r with Some msg => [(t, msg)] | None => [] end = fst (spec_exec (Wait t timeout) s)) sp.
Proof.
  intros Hr [Ht Hl] Hb Hy. unfold chSemWaitTimeoutS. apply wp_bind, (wp_check sp s); [done|].
  destruct Hr as [Hc Hq Hp H1]. apply wp_bind, wp_get. rewrite s32_small by lia. apply wp_bind, wp_set_cnt.
  cbn [spec_exec]. destruct (decide (0 < tokens s)) as [H0|H0].
  - destruct H1 as [|Hs]; [lia|]. rewrite Hs in *. cbn [length] in *. rewrite decide_False by lia. apply wp_ret.
    split; [|done]. constructor; cbn [cnt queue tokens line length fst snd]; [lia|done|lia|by right].
  - rewrite decide_True by lia. case_decide.
    + apply wp_bind, wp_set_cnt, wp_ret. split; [|done]. rewrite s32_small by lia.
      constructor; cbn [cnt queue tokens line length fst snd]; [lia|done|lia|done].
    + apply wp_bind. unfold wp at 1, modify. apply wp_ret. cbn [queue ready cnt]. split; [|done].
      constructor; cbn [cnt queue tokens line fst snd]; [rewrite length_app; cbn; lia|by rewrite Hq|lia|left; lia].
Qed.

Lemma dequeue_length t q : t ∈ q -> length q = S (length (ch_queue_dequeue t q)).
Proof.
  induction q as [|x q IH]; [by intros ?%elem_of_nil|]. cbn. case_decide; [done|].
  intros [->|Hin]%elem_of_cons; [done|]. cbn. by rewrite <- IH.
Qed.

Lemma expire_spec sp s b t :
  rep sp s -> within b s -> b < 2 ^ 31 - 1 -> ready sp = [] ->
  wp (sch_wakeup t) (fun _ sp' => rep sp' (snd (spec_exec (Expire t) s)) /\
                                  ready sp' = fst (spec_exec (Expire t) s)) sp.
Proof.
  intros Hr [Ht Hl] Hb Hy. pose proof Hr as [Hc Hq Hp H1]. unfold sch_wakeup. apply wp_bind, wp_get.
  rewrite Hq. cbn [spec_exec]. case_decide as Hin; [|by apply wp_ret].
  unfold wp, put. cbn [ready fst snd]. rewrite Hy. split; [|done].
  pose proof (dequeue_length t (line s) Hin) as Hd. rewrite s32_small by lia.
  destruct H1 as [H0|H0]; [|rewrite H0 in Hin; by apply elem_of_nil in Hin].
  constructor; cbn [cnt queue tokens line]; [lia|done|lia|by left].
Qed.

Lemma lifo_spec q sp msg :
  queue sp = q ->
  wp (lifo_ready (length q) msg)
     (fun _ sp' => cnt sp' = cnt sp /\ queue sp' = [] /\
                   ready sp' = ready sp ++ ((fun t => (t, msg)) <$> reverse q)) sp.
Proof.
  revert sp. induction q as [|t q IH] using rev_ind; intros sp Hq.
  - by cbn; rewrite app_nil_r.
  - rewrite length_app, Nat.add_comm. cbn [length Nat.add lifo_ready]. apply wp_bind, wp_get.
    rewrite Hq, last_snoc. apply wp_bind. unfold wp at 1, put. rewrite removelast_last.
    eapply wp_conseq; [by apply IH|]. cbn [cnt queue ready]. intros ? sp' (Hc & Hq' & Hy).
    split_and!; [done..|]. by rewrite Hy, reverse_app, fmap_app, <- app_assoc.
Qed.

Lemma reset_spec sp s n :
  rep sp s -> 0 <= n -> ready sp = [] ->
  wp (chSemResetI n) (fun _ sp' => rep sp' (snd (spec_exec (Reset n) s)) /\
                                   ready sp' = fst (spec_exec (Reset n) s)) sp.
Proof.
  intros Hr Hn Hy. unfold chSemResetI, chSemResetWithMessageI. apply wp_bind.
  unfold wp at 1, assert. rewrite (proj2 (Z.leb_le 0 n)) by done. cbn [ret].
  apply wp_bind, (wp_check sp s); [done|]. apply wp_bind, wp_set_cnt, wp_bind, wp_get. cbn [queue].
  eapply wp_conseq; [by apply lifo_spec|]. cbn [cnt ready]. intros ? sp' (Hc & Hq & Hy').
  rewrite (rep_queue _ _ Hr) in *. cbn [spec_exec fst snd]. split; [|by rewrite Hy', Hy].
  constructor; cbn [tokens line length]; [lia|done|done|by right].
Qed.

(** How much an operation can raise the counter or the line, and which
    arguments the code accepts. *)
Definition weight (o : op) : Z := match o with Add n => Z.of_nat n | _ => 1 end.
Definition op_ok (o : op) : Prop :=
  match o with Add n => (0 < n)%nat | Reset n => 0 <= n <= 2 ^ 30 | _ => True end.

Lemma within_add n b s : within b s -> within (b + Z.of_nat n) (snd (spec_add n s)).
Proof.
  revert b s. induction n as [|n IH]; intros b s Hw; [by rewrite Z.add_0_r|]. cbn [spec_add].
  pose proof (within_signal b s Hw) as H1. destruct (spec_signal s) as [o s1]. cbn [snd] in H1.
  specialize (IH (b + 1) s1 H1). destruct (spec_add n s1) as [os s2]. cbn [snd] in *.
  by replace (b + Z.of_nat (S n)) with (b + 1 + Z.of_nat n) by lia.
Qed.

Lemma within_mono b b' s : b <= b' -> within b s -> within b' s.
Proof. intros ? []. split; lia. Qed.

Lemma within_exec o b s :
  op_ok o -> 2 ^ 30 <= b -> within b s -> within (b + weight o) (snd (spec_exec o s)).
Proof.
  intros Hok Hb Hw. pose proof Hw as [Ht Hl]. destruct o as [t timeout| |n| |t|n]; cbn [spec_exec weight op_ok] in *.
  - repeat case_decide; split; cbn; rewrite ?length_app; cbn; lia.
  - by apply within_signal.
  - by apply within_add.
  - case_decide; [by apply (within_mono b); [lia|]|by apply within_signal].
  - case_decide as Hin; [|by apply (within_mono b); [lia|]].
    pose proof (dequeue_length _ _ Hin). split; cbn; lia.
  - split; cbn; lia.
Qed.

(** The end of [sem_exec]: the result and the threads made ready. *)
Ltac observed := apply wp_ret, wp_bind, wp_get, wp_ret.

(** One operation of the code is one operation of the specification. *)
Lemma op_refines o sp s b :
  op_ok o -> rep sp s -> within b s -> b + weight o < 2 ^ 31 ->
  wp (sem_exec o) (fun out sp' => rep sp' (snd (spec_exec o s)) /\ out = fst (spec_exec o s)) sp.
Proof.
  intros Hok [Hc Hq Hp H1] Hw Hb. unfold sem_exec. apply wp_bind. unfold wp at 1, modify.
  set (sp1 := Semaphore (cnt sp) (queue sp) []). assert (Hr : rep sp1 s) by (by constructor).
  assert (Hy : ready sp1 = []) by done. clearbody sp1. clear sp Hc Hq Hp H1.
  apply wp_bind. destruct o as [t timeout| |n| |t|n]; cbn [sem_op weight op_ok] in *; apply wp_bind.
  - eapply wp_conseq; [by apply (wait_spec sp1 s b); try lia|]. intros r sp2 (Hr2 & Hy2 & Ho).
    observed; by rewrite Hy2, app_nil_r.
  - eapply wp_conseq; [by apply (signal_spec sp1 s b); try lia|]. intros ? sp2 (Hr2 & Hy2).
    observed; by rewrite Hy2, Hy.
  - unfold chSemAddCounterI. apply wp_bind. unfold wp at 1, assert. rewrite (proj2 (Z.ltb_lt 0 _)) by lia. cbn [ret].
    apply wp_bind, (wp_check sp1 s); [done|]. rewrite Nat2Z.id.
    eapply wp_conseq; [by apply (add_spec n sp1 s b); try lia|]. intros ? sp2 (Hr2 & Hy2).
    observed; by rewrite Hy2, Hy.
  - unfold chBSemSignalI. apply wp_bind, wp_get. cbn [spec_exec]. pose proof Hr as [Hc Hq Hp H1].
    destruct (decide (0 < tokens s)) as [H0|H0].
    + destruct H1 as [|Hs]; [lia|]. rewrite Hs in Hc. cbn in Hc. rewrite decide_False by lia.
      apply wp_ret; observed; by rewrite Hy.
    + rewrite decide_True by lia. eapply wp_conseq; [by apply (signal_spec sp1 s b); try lia|]. intros ? sp2 (Hr2 & Hy2).
      observed; by rewrite Hy2, Hy.
  - eapply wp_conseq; [by apply (expire_spec sp1 s b); try lia|]. intros ? sp2 (Hr2 & Hy2).
    observed; by rewrite Hy2.
  - eapply wp_conseq; [by apply reset_spec; [|lia|]|]. intros ? sp2 (Hr2 & Hy2).
    observed; by rewrite Hy2.
Qed.

Fixpoint weights (ops : list op) : Z := match ops with [] => 0 | o :: ops => weight o + weights ops end.

Lemma weights_pos ops : 0 <= weights ops.
Proof. induction ops as [|o ops IH]; [done|]. destruct o; cbn; lia. Qed.

Lemma ops_refine ops sp s b :
  Forall op_ok ops -> rep sp s -> 2 ^ 30 <= b -> within b s -> b + weights ops < 2 ^ 31 ->
  wp (sem_execs ops) (fun outs sp' => rep sp' (snd (spec_execs ops s)) /\ outs = fst (spec_execs ops s)) sp.
Proof.
  intros Hok. revert sp s b. induction Hok as [|o ops Ho _ IH]; intros sp s b Hr Hb Hw Hlt; [done|].
  cbn [sem_execs spec_execs weights] in *. pose proof (weights_pos ops) as Hpos.
  apply wp_bind. eapply wp_conseq; [apply (op_refines o sp s b); [done|done|done|lia]|]. intros out sp1 [Hr1 ->].
  pose proof (within_exec o b s Ho Hb Hw) as Hw1. destruct (spec_exec o s) as [o1 s1]. cbn [fst snd] in *.
  apply wp_bind. eapply wp_conseq.
  { apply (IH sp1 s1 (b + weight o)); [done| |done|lia]. destruct o; cbn; lia. }
  intros outs sp2 [Hr2 ->]. destruct (spec_execs ops s1) as [os s2]. by apply wp_ret.
Qed.

Lemma init_rep n sp :
  0 <= n -> wp (chSemObjectInit n) (fun _ sp' => rep sp' (Spec n [])) sp.
Proof.
  intros Hn. unfold chSemObjectInit. apply wp_bind. unfold wp at 1, assert.
  rewrite (proj2 (Z.leb_le 0 n)) by done. cbn [ret]. unfold wp, modify.
  constructor; cbn; [lia|done|done|by right].
Qed.

(** C25: The semaphore is a pot of tokens with a line of threads.  For every
    sequence of waits, signals, time-outs and resets (with fewer than a
    thousand million signals), no consistency assertion of the kernel fails,
    and each operation lets go on exactly the threads the specification names,
    with the same messages and in the same order: a wait passes if and only if
    there is a token, a signal goes to the thread that has waited longest, a
    thread whose wait expires leaves the line and takes no token, and a reset
    releases everybody. *)
Theorem semaphore_refines_tokens n ops sp :
  0 <= n <= 2 ^ 30 -> Forall op_ok ops -> weights ops < 2 ^ 30 ->
  exists sp', (chSemObjectInit n ;;; sem_execs ops) sp = Done (fst (spec_execs ops (Spec n [])), sp').
Proof.
  intros Hn Hok Hw.
  assert (H : wp (chSemObjectInit n ;;; sem_execs ops) (fun outs _ => outs = fst (spec_execs ops (Spec n []))) sp).
  { apply wp_bind. eapply wp_conseq; [apply init_rep; lia|]. intros ? sp1 Hr.
    eapply wp_conseq; [apply (ops_refine ops sp1 (Spec n []) (2 ^ 30)); [done|done|done| |lia]|by intros outs sp2 [_ ->]].
    split; cbn; lia. }
  destruct (wp_run _ _ _ H) as (outs & sp' & Hex & ->). eauto.
Qed.

(** A second waiter overtakes nobody: 7 waits first, is served first, and 8
    times out. *)
Definition contended : list op := [Wait 3 None; Wait 7 None; Wait 8 (Some 500); Wait 9 (Some 0); Expire 8; Signal; Reset 1].

Lemma semaphore_refines_tokens_witness :
  fst (spec_execs contended (Spec 1 [])) =
    [[(3%nat, MSG_OK)]; []; []; [(9%nat, MSG_TIMEOUT)]; [(8%nat, MSG_TIMEOUT)]; [(7%nat, MSG_OK)]; []] /\
  exists sp', (chSemObjectInit 1 ;;; sem_execs contended) (Semaphore 0 [] []) =
    Done (fst (spec_execs contended (Spec 1 [])), sp').
Proof.
  split; [reflexivity|]. apply (semaphore_refines_tokens 1 contended (Semaphore 0 [] [])); [lia| |reflexivity].
  repeat constructor; cbn; lia.
Defined.

(** ** Mutual exclusion *)

(** Threads that use a binary semaphore as a lock: [holders] are those whose
    wait returned [MSG_OK] and that have not signalled since. *)
Record client := Client { sem : semaphore_t; holders : list nat }.

Inductive act := AWait (t : nat) (timeout : option Z) | ASignal (t : nat) | AExpire (t : nat).

Section locking.
(** The number of threads. *)
Context (N : nat) (HN : Z.of_nat N < 2 ^ 30).

(** A thread waits only when it neither waits nor holds, and signals only what
    it holds. *)
Definition act_ok (a : act) (c : client) : Prop :=
  match a with
  | AWait t _ => (t < N)%nat /\ t ∉ queue (sem c) ++ holders c
  | ASignal t => t ∈ holders c
  | AExpire _ => True
  end.

Definition granted (out : list (nat * Z)) : list nat :=
  map fst (filter (fun x => snd x = MSG_OK) out).

Definition client_op (a : act) : op :=
  match a with AWait t timeout => Wait t timeout | ASignal _ => BSignal | AExpire t => Expire t end.

Definition client_step (a : act) (c : client) : outcome client :=
  match sem_exec (client_op a) (sem c) with
  | Done (out, sp) =>
      let left := match a with ASignal t => ch_queue_dequeue t (holders c) | _ => holders c end in
      Done (Client sp (left ++ granted out))
  | Halt why => Halt why
  | Hang => Hang
  end.

Inductive locking : client -> Prop :=
  | lock_init sp sp' : chBSemObjectInit false sp = Done (tt, sp') -> locking (Client sp' [])
  | lock_step a c c' : locking c -> act_ok a c -> client_step a c = Done c' -> locking c'.

(** One token, in the pot or with a thread. *)
Record lock_inv (c : client) (s : spec) : Prop := {
  lock_rep : rep (sem c) s;
  lock_one : tokens s + Z.of_nat (length (holders c)) = 1;
  lock_nodup : NoDup (line s ++ holders c);
  lock_known : Forall (fun t => t < N)%nat (line s ++ holders c)
}.

Lemma known_length l : NoDup l -> Forall (fun t => t < N)%nat l -> (length l <= N)%nat.
Proof.
  intros Hnd Hl. transitivity (length (seq 0 N)); [|by rewrite length_seq]. apply submseteq_length, NoDup_submseteq; [done|].
  intros x Hx. apply elem_of_seq. pose proof (proj1 (Forall_forall _ _) Hl x Hx). cbn in *. lia.
Qed.

Lemma lock_within c s : lock_inv c s -> within (2 ^ 30) s.
Proof.
  intros [Hr H1 Hnd Hk]. pose proof (known_length _ Hnd Hk) as Hl. rewrite length_app in Hl.
  pose proof (rep_pos _ _ Hr). split; lia.
Qed.

(** A step of a client is the specification's. *)
Lemma client_refines a c s :
  lock_inv c s ->
  exists sp, rep sp (snd (spec_exec (client_op a) s)) /\
    client_step a c = Done (Client sp
      (match a with ASignal t => ch_queue_dequeue t (holders c) | _ => holders c end
       ++ granted (fst (spec_exec (client_op a) s)))).
Proof.
  intros Hinv.
  destruct (wp_run _ _ _ (op_refines (client_op a) (sem c) s (2 ^ 30) ltac:(by destruct a) (lock_rep _ _ Hinv)
    (lock_within c s Hinv) ltac:(by destruct a))) as (out & sp & Hex & Hr & ->).
  exists sp. split; [done|]. unfold client_step. by rewrite Hex.
Qed.

Lemma holder_alone c s t : lock_inv c s -> t ∈ holders c -> tokens s = 0 /\ holders c = [t].
Proof.
  intros [Hr H1 _ _] Hin. pose proof (rep_pos _ _ Hr).
  destruct (holders c) as [|x [|y h]]; cbn [length] in *; [by apply elem_of_nil in Hin| |lia].
  apply list_elem_of_singleton in Hin as ->. split; [lia|done].
Qed.

Lemma dequeue_perm t q : t ∈ q -> q ≡ₚ t :: ch_queue_dequeue t q.
Proof.
  induction q as [|x q IH]; [by intros ?%elem_of_nil|]. cbn. case_decide; [by subst|].
  intros [->|Hin]%elem_of_cons; [done|]. rewrite (IH Hin) at 1. apply Permutation_swap.
Qed.

Lemma lock_preserved a c s :
  lock_inv c s -> act_ok a c -> exists c' s', client_step a c = Done c' /\ lock_inv c' s'.
Proof.
  intros Hinv Hok. destruct (client_refines a c s Hinv) as (sp & Hr & Hst).
  eexists _, (snd (spec_exec (client_op a) s)). split; [exact Hst|]. pose proof Hinv as [Hr0 H1 Hnd Hk].
  pose proof (rep_one _ _ Hr0) as Hone. pose proof (rep_queue _ _ Hr0) as Hq. pose proof (rep_pos _ _ Hr0) as Hpos.
  destruct a as [t timeout|t|t]; cbn [client_op spec_exec act_ok] in *.
  - destruct Hok as [Ht Hnew]. rewrite Hq in Hnew. destruct (decide (0 < tokens s)) as [H0|H0].
    + destruct Hone as [|Hs]; [lia|]. destruct (holders c) as [|h hs]; cbn [length] in H1; [|lia].
      cbn [fst snd app] in *. change (granted [(t, MSG_OK)]) with [t] in *.
      constructor; cbn [sem holders tokens line length]; [done|lia|..]; rewrite Hs; [apply NoDup_singleton|by repeat constructor].
    + destruct (decide (timeout = Some TIME_IMMEDIATE)); cbn [fst snd] in *.
      * constructor; cbn [sem holders]; [done|..]; change (granted [(t, MSG_TIMEOUT)]) with (@nil nat); by rewrite app_nil_r.
      * assert (Hp : (line s ++ [t]) ++ holders c ≡ₚ t :: line s ++ holders c) by solve_Permutation.
        constructor; cbn [sem holders tokens line]; change (granted []) with (@nil nat); rewrite ?app_nil_r; [done|done|..].
        -- rewrite Hp. by constructor.
        -- rewrite Hp. by constructor.
  - destruct (holder_alone c s t Hinv Hok) as [H0 Hh]. rewrite decide_False in * by lia.
    rewrite Hh in *. cbn [ch_queue_dequeue] in *. rewrite decide_True by done. unfold spec_signal in *.
    destruct (line s) as [|w q]; cbn [fst snd] in *.
    + constructor; cbn; [done|lia|by constructor|by constructor].
    + change (granted [(w, MSG_OK)]) with [w].
      assert (Hp : q ++ [] ++ [w] ≡ₚ w :: q) by solve_Permutation.
      constructor; cbn [sem holders tokens line]; [done|cbn; lia|..]; rewrite Hp;
        [by apply NoDup_app in Hnd as (? & _)|by apply Forall_app in Hk as (? & _)].
  - destruct (decide (t ∈ line s)) as [Hin|Hin]; cbn [fst snd] in *.
    + change (granted [(t, MSG_TIMEOUT)]) with (@nil nat) in *. rewrite app_nil_r in *.
      rewrite (dequeue_perm _ _ Hin), <- app_comm_cons in Hnd, Hk. apply NoDup_cons in Hnd as [_ Hnd].
      apply Forall_cons in Hk as [_ Hk]. by constructor.
    + change (granted []) with (@nil nat). rewrite app_nil_r. by constructor.
Qed.

Lemma locking_inv c : locking c -> exists s, lock_inv c s.
Proof.
  induction 1 as [sp sp' Hi|a c c' _ [s Hinv] Hok Hst].
  - exists (Spec 1 []). pose proof (init_rep 1 sp ltac:(lia)) as H. unfold wp in H.
    change (chSemObjectInit 1 sp) with (chBSemObjectInit false sp) in H. rewrite Hi in H.
    constructor; [done|done|constructor|constructor].
  - destruct (lock_preserved a c s Hinv Hok) as (c1 & s1 & Hst1 & Hinv1).
    rewrite Hst in Hst1. injection Hst1 as <-. eauto.
Qed.
End locking.

(** C26: A binary semaphore is a fair lock.  For any threads that wait for it,
    with or without a time-out, and signal it when they hold it, in any order:
    no assertion fails, at most one thread holds it, its state tells whether
    one does, no thread waits for a free semaphore, and a signal hands it
    straight to the thread that has waited longest. *)
Theorem bsem_excludes (N : nat) (c : client) :
  Z.of_nat N < 2 ^ 30 -> locking N c ->
  (length (holders c) <= 1)%nat /\
  chBSemGetStateI (sem c) = negb (bool_decide (holders c = [])) /\
  (queue (sem c) <> [] -> holders c <> []) /\
  (forall a, act_ok N a c -> exists c', client_step a c = Done c' /\ locking N c') /\
  (forall t w q, t ∈ holders c -> queue (sem c) = w :: q ->
     exists c', client_step (ASignal t) c = Done c' /\ holders c' = [w] /\ queue (sem c') = q).
Proof.
  intros HN Hc. destruct (locking_inv N HN c Hc) as [s Hinv]. pose proof Hinv as [Hr H1 _ _].
  pose proof Hr as [Hcnt Hq Hpos Hone]. split_and!.
  - lia.
  - unfold chBSemGetStateI. destruct (holders c) as [|h hs]; cbn [length] in H1.
    + destruct Hone as [|Hl]; [lia|]. rewrite Hl in Hcnt. cbn in Hcnt. by rewrite decide_True by lia.
    + by rewrite decide_False by lia.
  - rewrite Hq. intros Hne Hh. rewrite Hh in H1. cbn in H1. destruct Hone as [|]; [lia|done].
  - intros a Hok. destruct (lock_preserved N HN a c s Hinv Hok) as (c' & _ & Hst & _).
    exists c'. split; [done|]. by eapply lock_step.
  - intros t w q Hin Hw. destruct (holder_alone N c s t Hinv Hin) as [H0 Hh].
    destruct (client_refines N HN (ASignal t) c s Hinv) as (sp & Hr' & Hst). cbn [client_op spec_exec] in *.
    rewrite decide_False in Hr', Hst by lia. unfold spec_signal in *. rewrite <- Hq, Hw in Hr', Hst.
    cbn [fst snd] in *. change (granted [(w, MSG_OK)]) with [w] in Hst. rewrite Hh in Hst. cbn [ch_queue_dequeue] in Hst.
    rewrite decide_True in Hst by done. eexists. split; [exact Hst|]. split; [done|]. apply (rep_queue _ _ Hr').
Qed.

(** The radio thread (1) holds the semaphore, the power thread (2) and the
    shell (3) wait. *)
Definition busy_radio : client := Client (Semaphore (-2) [2; 3]%nat []) [1%nat].

Lemma busy_radio_locking : locking 4 busy_radio.
Proof.
  eapply (lock_step 4 (AWait 3 (Some 500))).
  { eapply (lock_step 4 (AWait 2 (Some 1000))).
    { eapply (lock_step 4 (AWait 1 None)).
      { by apply (lock_init 4 (Semaphore 0 [] [])). }
      { split; [lia|by apply not_elem_of_nil]. }
      by vm_compute. }
    { split; [lia|]. cbn. by rewrite list_elem_of_singleton. }
    by vm_compute. }
  { split; [lia|]. cbn. set_solver. }
  by vm_compute.
Qed.

Lemma bsem_excludes_witness :
  (length (holders busy_radio) <= 1)%nat /\
  chBSemGetStateI (sem busy_radio) = negb (bool_decide (holders busy_radio = [])) /\
  (queue (sem busy_radio) <> [] -> holders busy_radio <> []) /\
  (forall a, act_ok 4 a busy_radio -> exists c', client_step a busy_radio = Done c' /\ locking 4 c') /\
  (forall t w q, t ∈ holders busy_radio -> queue (sem busy_radio) = w :: q ->
     exists c', client_step (ASignal t) busy_radio = Done c' /\ holders c' = [w] /\ queue (sem c') = q).
Proof. apply (bsem_excludes 4 busy_radio); [done|apply busy_radio_locking]. Defined.
End Sem.
