(* ===== verification/Vt.v ===== *)
(** * Virtual timers

    [src/ChibiOS/os/rt/src/chvt.c]: the delta list behind every time-out and
    sleep of the firmware, as it is configured: a 16-bit clock of 1000 ticks per
    second, 32-bit intervals and a minimum distance of two ticks
    ([CH_CFG_ST_TIMEDELTA]).  The sensor threads wait for minutes, longer than
    the clock's 65 seconds.

    A timer is a number; [func] is non-null exactly for the timers in the list.
    The callback of the firmware's timers is [__sch_wakeup], which makes a
    thread ready and leaves the timers alone; here it is recorded.  The list's
    header, whose delta is the largest number, is the end of the list.

    The specification keeps the time at which each timer is due on a clock that
    never wraps.  Proved for every history of arming, disarming and interrupts:
    a timer fires once, never early and at most one tick late, and every event
    completes but one kind of disarm, which halts the station ([too_late]). *)

From S2P Require Import Prelude Oslib.

Definition CH_CFG_ST_TIMEDELTA : Z := 2.

(** [(sysinterval_t)-1], the delta of the header. *)
Definition header_delta : Z := 2 ^ 32 - 1.

(** [virtual_timers_list_t], the compare value of the hardware timer while its
    alarm is on, and the timers whose callback was called. *)
Record virtual_timers_list_t := VTList {
  dlist : list (nat * Z);
  lasttime : Z;
  alarm : option Z;
  fired : list nat
}.

Definition set_dlist l (v : virtual_timers_list_t) := VTList l (lasttime v) (alarm v) (fired v).
Definition set_lasttime n (v : virtual_timers_list_t) := VTList (dlist v) n (alarm v) (fired v).

(** [port_timer_start_alarm], [port_timer_set_alarm], [port_timer_stop_alarm]. *)
Definition set_alarm (a : Z) (v : virtual_timers_list_t) := VTList (dlist v) (lasttime v) (Some a) (fired v).
Definition stop_alarm (v : virtual_timers_list_t) := VTList (dlist v) (lasttime v) None (fired v).

(** [__vt_object_init] *)
Definition vt_object_init : virtual_timers_list_t := VTList [] 0 None [].

(** The delta of [vtlp->dlist.next]. *)
Definition first_delta (l : list (nat * Z)) : Z := match l with [] => header_delta | (_, d) :: _ => d end.

Definition VT := M virtual_timers_list_t.

(** [if (delta > TIME_MAX_SYSTIME) delta = TIME_MAX_SYSTIME], and the alarm at
    [base + delta]. *)
Definition clamp (delta : Z) : Z := if decide (delta > TIME_MAX_SYSTIME) then TIME_MAX_SYSTIME else delta.
Definition alarm_at (base delta : Z) : VT unit :=
  let! a := lift_opt (chTimeAddX base delta) "chTimeAddX" in modify (set_alarm a).

(** The loop of [vt_list_compress]: the list and what is left of [deltanow]. *)
Fixpoint compress_loop (l : list (nat * Z)) (deltanow : Z) : list (nat * Z) * Z :=
  match l with
  | [] => ([], deltanow)
  | (t, d) :: l =>
      if decide (d < deltanow) then
        let '(l', rest) := compress_loop l (u32 (deltanow - d)) in ((t, 0) :: l', rest)
      else ((t, u32 (d - deltanow)) :: l, deltanow)
  end.

Definition vt_list_compress (deltanow : Z) : VT unit :=
  let! v := get in
  let '(l, rest) := compress_loop (dlist v) deltanow in
  put (set_dlist l (set_lasttime (u16 (lasttime v + rest)) v)).

(** The scan for the position and the insertion: [None] is the assertion that
    the timer is not in the list. *)
Fixpoint vt_insert (vtp : nat) (delta : Z) (l : list (nat * Z)) : option (list (nat * Z)) :=
  match l with
  | [] => Some [(vtp, delta)]
  | (t, d) :: l' =>
      if decide (d < delta) then
        if decide (t = vtp) then None else cons (t, d) <$> vt_insert vtp (u32 (delta - d)) l'
      else Some ((vtp, delta) :: (t, u32 (d - delta)) :: l')
  end.

Definition enlist (vtp : nat) (delta : Z) : VT unit :=
  let! v := get in
  let! l := lift_opt (vt_insert vtp delta (dlist v)) "timer already armed" in
  put (set_dlist l v).

(** [now] is what the clock reads. *)
Definition chVTDoSetI (vtp : nat) (delay now : Z) : VT unit :=
  assert (bool_decide (delay <> TIME_IMMEDIATE)) "chVTDoSetI" ;;;
  let delay := if decide (delay < CH_CFG_ST_TIMEDELTA) then CH_CFG_ST_TIMEDELTA else delay in
  let! v := get in
  match dlist v with
  | [] =>
      put (set_dlist [(vtp, delay)] (set_lasttime now v)) ;;;
      alarm_at now (clamp delay)
  | _ =>
      let deltanow := chTimeDiffX (lasttime v) now in
      let delta := u32 (deltanow + delay) in
      if decide (delta < deltanow) then
        vt_list_compress deltanow ;;;
        enlist vtp (u32 (delta - deltanow))
      else
        (if decide (delta < first_delta (dlist v)) then alarm_at (lasttime v) (clamp delta) else ret tt) ;;;
        enlist vtp delta
  end.

(** Unlinking a timer that is not the first: its delta goes to the next one. *)
Fixpoint unlink (vtp : nat) (l : list (nat * Z)) : list (nat * Z) :=
  match l with
  | [] => []
  | (t, d) :: l' =>
      if decide (t = vtp) then
        match l' with [] => [] | (t', d') :: l'' => (t', u32 (d' + d)) :: l'' end
      else (t, d) :: unlink vtp l'
  end.

Definition armed (vtp : nat) (v : virtual_timers_list_t) : bool := bool_decide (vtp ∈ (dlist v).*1).

Definition chVTDoResetI (vtp : nat) (now : Z) : VT unit :=
  let! v := get in
  assert (armed vtp v) "timer not set or already triggered" ;;;
  match dlist v with
  | (t, d) :: l =>
      put (set_dlist (unlink vtp (dlist v)) v) ;;;
      if decide (t <> vtp) then ret tt
      else
        match unlink vtp (dlist v) with
        | [] => modify stop_alarm
        | (_, next) :: _ =>
            let nowdelta := chTimeDiffX (lasttime v) now in
            if decide (nowdelta >= next) then ret tt
            else
              let delta := u32 (next - nowdelta) in
              if decide (delta < CH_CFG_ST_TIMEDELTA)
              then alarm_at (lasttime v) (u32 (nowdelta + CH_CFG_ST_TIMEDELTA))
              else alarm_at (lasttime v) (clamp (u32 (nowdelta + delta)))
        end
  | [] => ret tt
  end.

(** The inner loop of [chVTDoTickI]: it takes timers off the list while they are
    due; [nowdelta] is the time not yet used up. *)
Fixpoint consume (l : list (nat * Z)) (last nowdelta : Z) (out : list nat) : virtual_timers_list_t * Z :=
  match l with
  | (t, d) :: l' =>
      if decide (d <= nowdelta) then consume l' (u16 (last + d)) (u32 (nowdelta - d)) (out ++ [t])
      else (VTList l last None out, nowdelta)
  | [] => (VTList [] last None out, nowdelta)
  end.

(** The outer loop, with [clk k] the [k]-th reading of the clock: the time last
    read, what is left of it, and the number of readings. *)
Fixpoint tick_loop (fuel : nat) (clk : nat -> Z) (k : nat) : VT (Z * Z * nat) :=
  match fuel with
  | O => hang
  | S fuel =>
      let! v := get in
      let now := clk k in
      let nowdelta := chTimeDiffX (lasttime v) now in
      if decide (nowdelta < first_delta (dlist v)) then ret (now, nowdelta, S k)
      else
        let '(v', _) := consume (dlist v) (lasttime v) nowdelta (fired v) in
        put (VTList (dlist v') (lasttime v') (match dlist v' with [] => None | _ => alarm v end) (fired v')) ;;;
        tick_loop fuel clk (S k)
  end.

Definition chVTDoTickI (clk : nat -> Z) : VT unit :=
  let! v := get in
  let! r := tick_loop (S (length (dlist v))) clk 0 in
  let '(now, nowdelta, k) := r in
  let! v := get in
  match dlist v with
  | [] => ret tt
  | (t, d) :: l =>
      let last := u16 (lasttime v + nowdelta) in
      let d' := u32 (d - nowdelta) in
      put (set_lasttime last (set_dlist ((t, d') :: l) v)) ;;;
      let delta := u32 (d' - chTimeDiffX last now) in
      let delta := if decide (delta < CH_CFG_ST_TIMEDELTA) then CH_CFG_ST_TIMEDELTA else clamp delta in
      alarm_at now delta ;;;
      let! a := lift_opt (chTimeAddX now delta) "chTimeAddX" in
      assert (chTimeDiffX last (clk k) <=? chTimeDiffX last a) "exceeding delta"
  end.

(** ** Times that do not wrap *)

(** When the timers of a list are due, if the list counts from [L]. *)
Fixpoint deadlines (L : Z) (l : list (nat * Z)) : list (nat * Z) :=
  match l with [] => [] | (t, d) :: l => (t, L + d) :: deadlines (L + d) l end.

Fixpoint span (l : list (nat * Z)) : Z := match l with [] => 0 | (_, d) :: l => d + span l end.

Notation counts l := (Forall (fun x => 0 <= snd x) l).

Lemma span_pos l : counts l -> 0 <= span l.
Proof. induction 1 as [|[t d] l Hd _ IH]; cbn in *; lia. Qed.

Lemma deadlines_fst L l : (deadlines L l).*1 = l.*1.
Proof. revert L. induction l as [|[t d] l IH]; intros L; [done|]. cbn. by rewrite IH. Qed.

Lemma deadlines_ge L l t D : counts l -> (t, D) ∈ deadlines L l -> L + first_delta l <= D <= L + span l.
Proof.
  intros Hl. revert L. induction Hl as [|[x d] l Hd Hl IH]; intros L; cbn [deadlines]; [by intros ?%elem_of_nil|].
  cbn [snd] in Hd. pose proof (span_pos l Hl). cbn [first_delta span].
  unfold header_delta in *. intros [[= -> ->]|Hin]%elem_of_cons; [lia|]. apply IH in Hin. destruct l as [|[y e] l]; cbn [first_delta span] in *; unfold header_delta in *; [lia|].
  apply Forall_cons in Hl as [He _]. cbn in He. lia.
Qed.

(** The clock's reading at time [T], and the distance of two readings. *)
Lemma diff_exact L T : 0 <= T - L < 65536 -> chTimeDiffX (u16 L) (u16 T) = T - L.
Proof.
  intros H. unfold chTimeDiffX, u16. rewrite Zminus_mod_idemp_l, Zminus_mod_idemp_r. by apply Z.mod_small.
Qed.

Lemma u16_add L d : u16 (u16 L + d) = u16 (L + d).
Proof. unfold u16. by rewrite Zplus_mod_idemp_l. Qed.

Lemma time_add L d : 0 <= d <= 65535 -> chTimeAddX (u16 L) d = Some (u16 (L + d)).
Proof.
  intros H. unfold chTimeAddX. rewrite decide_True by (unfold TIME_MAX_SYSTIME, CH_CFG_ST_RESOLUTION; lia).
  by rewrite (u16_small d), u16_add by lia.
Qed.

Lemma clamp_min d : clamp d = Z.min d 65535.
Proof. unfold clamp, TIME_MAX_SYSTIME, CH_CFG_ST_RESOLUTION. case_decide; lia. Qed.

Lemma wp_alarm L d v (Q : unit -> virtual_timers_list_t -> Prop) :
  0 <= d <= 65535 -> Q tt (set_alarm (u16 (L + d)) v) -> wp (alarm_at (u16 L) d) Q v.
Proof.
  intros Hd HQ. unfold alarm_at. apply wp_bind. eapply wp_opt; [by apply time_add|]. exact HQ.
Qed.

(** Insertion puts the new timer where it is due and moves no other one. *)
Lemma insert_spec vtp delta L l :
  counts l -> span l < 2 ^ 32 -> 0 <= delta < 2 ^ 32 -> vtp ∉ l.*1 ->
  exists l', vt_insert vtp delta l = Some l' /\ counts l' /\ span l' = Z.max (span l) delta /\
    deadlines L l' ≡ₚ (vtp, L + delta) :: deadlines L l /\ l'.*1 ≡ₚ vtp :: l.*1 /\
    first_delta l' = (match l with [] => delta | _ => Z.min delta (first_delta l) end).
Proof.
  intros Hl. revert delta L. induction Hl as [|[t d] l Hd Hl IH]; intros delta L Hs Hdel Hnew; cbn [snd span] in *.
  - exists [(vtp, delta)]. cbn. split_and!; [done|constructor; [cbn; lia|constructor]|lia|done|done|done].
  - pose proof (span_pos l Hl). cbn [vt_insert first_delta]. rewrite fmap_cons, not_elem_of_cons in Hnew. cbn [fst] in Hnew.
    destruct Hnew as [Hne Hnew]. destruct (decide (d < delta)) as [Hlt|Hge].
    + rewrite decide_False by done. rewrite u32_small by lia.
      destruct (IH (delta - d) (L + d)) as (l' & -> & Hl' & Hs' & Hdl & Hf & _); [lia|lia|done|].
      exists ((t, d) :: l'). cbn [fmap option_fmap option_map]. split_and!.
      * done.
      * by constructor.
      * cbn. lia.
      * cbn [deadlines]. rewrite Hdl. replace (L + d + (delta - d)) with (L + delta) by lia. apply Permutation_swap.
      * rewrite !fmap_cons, Hf. cbn [fst]. apply Permutation_swap.
      * cbn. lia.
    + exists ((vtp, delta) :: (t, d - delta) :: l). rewrite u32_small by lia. split_and!.
      * done.
      * constructor; [cbn; lia|]. constructor; [cbn; lia|done].
      * cbn. lia.
      * cbn [deadlines]. by replace (L + delta + (d - delta)) with (L + d) by lia.
      * done.
      * cbn. lia.
Qed.

(** ** The invariant *)

(** At time [T] the list counts from [L]: everything is due at most 2^31 ticks
    ahead, and the alarm is neither behind the clock nor more than one tick
    behind the first timer, nor further ahead than the clock can tell. *)
Record vt_inv (T L : Z) (v : virtual_timers_list_t) : Prop := {
  vi_last : lasttime v = u16 L;
  vi_nodup : NoDup (dlist v).*1;
  vi_counts : counts (dlist v);
  vi_span : L + span (dlist v) <= T + 2 ^ 31;
  vi_alarm : match dlist v with
    | [] => alarm v = None
    | (_, d) :: _ => exists A, alarm v = Some (u16 A) /\ L <= T <= A /\ A <= L + 65535 /\ A <= L + d + 1
    end
}.

Lemma raise_delay d : (if decide (d < CH_CFG_ST_TIMEDELTA) then CH_CFG_ST_TIMEDELTA else d) = Z.max d 2.
Proof. unfold CH_CFG_ST_TIMEDELTA. case_decide; lia. Qed.

Lemma set_spec T L v t delay :
  vt_inv T L v -> t ∉ (dlist v).*1 -> 0 < delay < 2 ^ 31 ->
  wp (chVTDoSetI t delay (u16 T)) (fun _ v' => fired v' = fired v /\ exists L', vt_inv T L' v' /\
       deadlines L' (dlist v') ≡ₚ (t, T + Z.max delay 2) :: deadlines L (dlist v)) v.
Proof.
  intros [Hl Hnd Hc Hs Ha] Hnew Hd. unfold chVTDoSetI. apply wp_bind. unfold wp at 1, assert.
  rewrite bool_decide_true by (unfold TIME_IMMEDIATE; lia). cbn [ret]. rewrite raise_delay.
  apply wp_bind, wp_get. destruct (dlist v) as [|[t1 d1] l] eqn:Hv.
  - apply wp_bind. unfold wp at 1, put. rewrite clamp_min. apply wp_alarm; [lia|]. split; [done|]. exists T. split; [|done].
    constructor; cbn [dlist lasttime alarm set_dlist set_lasttime set_alarm span]; [done| | |lia|].
    + apply NoDup_singleton.
    + constructor; [cbn; lia|constructor].
    + exists (T + Z.min (Z.max delay 2) 65535). split; [done|]. lia.
  - destruct Ha as (A & HA & HT & HA1 & HA2). rewrite Hl. rewrite diff_exact by lia.
    pose proof (span_pos _ Hc) as Hpos. rewrite u32_small by lia. rewrite decide_False by lia.
    set (delta := T - L + Z.max delay 2). assert (Hdelta : L + delta = T + Z.max delay 2) by lia.
    destruct (insert_spec t delta L ((t1, d1) :: l)) as (l' & Hins & Hc' & Hs' & Hdl & Hf & Hfd); [done|lia|lia|done|].
    cbn [first_delta] in *. apply wp_bind.
    apply (wp_conseq _ (fun _ v1 => lasttime v1 = lasttime v /\ dlist v1 = dlist v /\ fired v1 = fired v /\
      exists A', alarm v1 = Some (u16 A') /\ T <= A' <= L + 65535 /\ A' <= L + Z.min delta d1 + 1)).
    { case_decide.
      - rewrite clamp_min. apply wp_alarm; [lia|]. split_and!; [done..|]. exists (L + Z.min delta 65535). split; [done|]. lia.
      - apply wp_ret. split_and!; [done..|]. exists A. split; [done|]. lia. }
    intros ? v1 (Hl1 & Hv1 & Hf1 & A' & HA' & HTA & HA3). unfold enlist. apply wp_bind, wp_get, wp_bind.
    rewrite Hv1, Hv. eapply wp_opt; [exact Hins|]. unfold wp, put. split; [done|]. exists L.
    cbn [dlist set_dlist]. split; [|by rewrite Hdl, Hdelta].
    constructor; cbn [dlist lasttime alarm set_dlist].
    + by rewrite Hl1.
    + rewrite Hf. by constructor.
    + done.
    + lia.
    + destruct l' as [|[t2 d2] l2]; [by apply Permutation_nil_cons in Hf|]. cbn [first_delta] in Hfd. subst d2.
      exists A'. split; [done|]. lia.
Qed.

(** Unlinking moves no other timer. *)
Lemma unlink_spec vtp L l :
  counts l -> span l < 2 ^ 32 -> vtp ∈ l.*1 ->
  exists D, counts (unlink vtp l) /\ span (unlink vtp l) <= span l /\
    (vtp, D) :: deadlines L (unlink vtp l) ≡ₚ deadlines L l /\ vtp :: (unlink vtp l).*1 ≡ₚ l.*1.
Proof.
  intros Hl. revert L. induction Hl as [|[t d] l Hd Hl IH]; intros L Hs Hin; [by apply elem_of_nil in Hin|].
  cbn [snd span unlink] in *. pose proof (span_pos l Hl). case_decide as Ht.
  - subst t. exists (L + d). destruct l as [|[t' d'] l'].
    + split_and!; [done|cbn; lia|done|done].
    + apply Forall_cons in Hl as [Hd' Hl]. cbn [snd span] in *. pose proof (span_pos l' Hl).
      rewrite u32_small by lia. split_and!.
      * constructor; [cbn; lia|done].
      * cbn. lia.
      * cbn [deadlines]. by replace (L + (d' + d)) with (L + d + d') by lia.
      * done.
  - rewrite fmap_cons, elem_of_cons in Hin. destruct Hin as [->|Hin]; [done|].
    destruct (IH (L + d)) as (D & Hc & Hsp & Hdl & Hf); [lia|done|]. exists D. split_and!.
    + by constructor.
    + cbn. lia.
    + cbn [deadlines]. rewrite <- Hdl. apply Permutation_swap.
    + rewrite !fmap_cons, <- Hf. apply Permutation_swap.
Qed.

(** The one disarm that fails: of the first timer, in the last two ticks of the
    clock's range after [lasttime], with the next timer due in one tick. *)
Definition too_late (t : nat) (now : Z) (v : virtual_timers_list_t) : Prop :=
  match dlist v with
  | (t1, d1) :: (_, d2) :: _ =>
      t = t1 /\ 65534 <= chTimeDiffX (lasttime v) now /\ d1 + d2 = chTimeDiffX (lasttime v) now + 1
  | _ => False
  end.

#[global] Instance too_late_dec t now v : Decision (too_late t now v).
Proof. unfold too_late. destruct (dlist v) as [|[? ?] [|[? ?] ?]]; apply _. Defined.

Lemma disarm_late T L v t :
  vt_inv T L v -> too_late t (u16 T) v -> chVTDoResetI t (u16 T) v = Halt "chTimeAddX".
Proof.
  intros [Hl Hnd Hc Hs Ha] Hlate. unfold too_late in Hlate. destruct (dlist v) as [|[t1 d1] [|[t2 d2] l]] eqn:Hv; try done.
  destruct Hlate as (-> & Hbig & Hnext), Ha as (A & _ & HT & HA & _). rewrite Hl, diff_exact in Hbig, Hnext by lia.
  unfold chVTDoResetI, bind, get, put, assert, armed. rewrite Hv, bool_decide_true by (by left). cbn [ret].
  rewrite decide_False by (intros []; done). cbn [unlink]. rewrite decide_True by done. cbn [span] in Hs.
  rewrite !Forall_cons in Hc. destruct Hc as (? & ? & Hc). cbn [snd] in *. pose proof (span_pos _ Hc).
  rewrite Hl, diff_exact, (u32_small (d2 + d1)) by lia. rewrite decide_False by lia.
  rewrite (u32_small (d2 + d1 - (T - L))), decide_True by (unfold CH_CFG_ST_TIMEDELTA; lia).
  unfold alarm_at, CH_CFG_ST_TIMEDELTA. rewrite u32_small by lia. unfold bind, lift_opt, chTimeAddX.
  rewrite decide_False by (unfold TIME_MAX_SYSTIME, CH_CFG_ST_RESOLUTION; lia). done.
Qed.

Lemma disarm_spec T L v t :
  vt_inv T L v -> t ∈ (dlist v).*1 -> ~ too_late t (u16 T) v ->
  wp (chVTDoResetI t (u16 T)) (fun _ v' => fired v' = fired v /\ vt_inv T L v' /\
       exists D, (t, D) :: deadlines L (dlist v') ≡ₚ deadlines L (dlist v)) v.
Proof.
  intros [Hl Hnd Hc Hs Ha] Hin Hlate. unfold too_late in Hlate. unfold chVTDoResetI. apply wp_bind, wp_get, wp_bind. unfold wp at 1, assert.
  unfold armed. rewrite bool_decide_true by done. cbn [ret].
  destruct (dlist v) as [|[t1 d1] l] eqn:Hv; [by apply elem_of_nil in Hin|].
  destruct Ha as (A & HA & HT & HA1 & HA2).
  destruct (unlink_spec t L _ Hc ltac:(lia) Hin) as (D & Hc' & Hs' & Hdl & Hf).
  assert (Hnd' : NoDup (unlink t ((t1, d1) :: l)).*1) by (rewrite <- Hf in Hnd; by apply NoDup_cons in Hnd as [_ ?]).
  pose proof (span_pos _ Hc'). apply wp_bind. unfold wp at 1, put.
  enough (Hend : forall v', fired v' = fired v -> lasttime v' = lasttime v -> dlist v' = unlink t ((t1, d1) :: l) ->
    match dlist v' with [] => alarm v' = None
    | (_, d) :: _ => exists A, alarm v' = Some (u16 A) /\ L <= T <= A /\ A <= L + 65535 /\ A <= L + d + 1 end ->
    fired v' = fired v /\ vt_inv T L v' /\ exists D, (t, D) :: deadlines L (dlist v') ≡ₚ deadlines L ((t1, d1) :: l)).
  { case_decide as Hne.
    - apply wp_ret, Hend; [done..|]. cbn [unlink dlist set_dlist alarm]. rewrite decide_False by done. exists A. split; [done|]. lia.
    - subst t1. cbn [unlink] in *. rewrite decide_True in * by done.
      destruct l as [|[t2 d2] l2]; [by apply Hend|]. cbn [span snd] in *.
      apply Forall_cons in Hc as [Hd1 Hc]. apply Forall_cons in Hc as [Hd2 Hc]. cbn [snd] in *. pose proof (span_pos _ Hc).
      rewrite u32_small in * by lia. rewrite Hl, diff_exact by lia. unfold CH_CFG_ST_TIMEDELTA.
      destruct (decide (T - L >= d2 + d1)).
      { apply wp_ret, Hend; [done..|]. exists A. split; [done|]. lia. }
      rewrite Hl, diff_exact in Hlate by lia.
      rewrite (u32_small (d2 + d1 - (T - L))) by lia. rewrite !u32_small by lia.
      case_decide; [|rewrite clamp_min]; (apply wp_alarm; [lia|]); (apply Hend; [done..|]);
        cbn [dlist set_dlist set_alarm alarm]; eexists; (split; [done|]); lia. }
  intros v' Hf' Hl' Hd' Ha'. split; [done|]. rewrite Hd' in *. split; [|by exists D].
  constructor; rewrite ?Hd'; [by rewrite Hl'|done|done|lia|done].
Qed.

(** The inner loop takes off exactly the timers that are due. *)
Lemma consume_spec l L nd out :
  counts l -> 0 <= nd < 65536 ->
  exists due l' L', consume l (u16 L) nd out = (VTList l' (u16 L') None (out ++ due.*1), L + nd - L') /\
    deadlines L l = due ++ deadlines L' l' /\ Forall (fun x => snd x <= L + nd) due /\
    L <= L' <= L + nd /\ counts l' /\ L' + span l' = L + span l /\ L + nd - L' < first_delta l'.
Proof.
  intros Hl. revert L nd out. induction Hl as [|[t d] l Hd Hl IH]; intros L nd out Hnd; cbn [consume snd] in *.
  - exists [], [], L. cbn. rewrite app_nil_r. replace (L + nd - L) with nd by lia. unfold header_delta.
    split_and!; [done|done|constructor|lia|lia|constructor|lia|lia].
  - case_decide as Hle.
    + rewrite u16_add. rewrite u32_small by lia.
      destruct (IH (L + d) (nd - d) (out ++ [t])) as (due & l' & L' & -> & Hdl & Hdue & HL & Hc & Hs & Hf); [lia|].
      exists ((t, L + d) :: due), l', L'. replace (L + d + (nd - d) - L') with (L + nd - L') in * by lia.
      replace (L + d + (nd - d)) with (L + nd) in * by lia. rewrite fmap_cons, <- app_assoc.
      split_and!; [done|cbn [deadlines]; by rewrite Hdl|constructor; [cbn; lia|done]|lia|lia|done|cbn; lia|done].
    + exists [], ((t, d) :: l), L. rewrite app_nil_r. replace (L + nd - L) with nd by lia.
      split_and!; [done|done|constructor|lia|lia|by constructor|lia|cbn; lia].
Qed.

Lemma header_large n : n < 65536 -> n < header_delta.
Proof. unfold header_delta. lia. Qed.

(** The outer loop in an interrupt shorter than a tick: everything due at [T]
    has fired, and nothing else. *)
Lemma tick_loop_spec T L v k :
  vt_inv T L v -> (dlist v <> [] -> L <= T) ->
  wp (tick_loop (S (length (dlist v))) (fun _ => u16 T) k)
     (fun r v' => exists due L' k', r = (u16 T, (if decide (dlist v = []) then chTimeDiffX (lasttime v) (u16 T) else T - L'), k') /\
        lasttime v' = u16 L' /\ deadlines L (dlist v) = due ++ deadlines L' (dlist v') /\
        Forall (fun x => snd x <= T) due /\ fired v' = fired v ++ due.*1 /\
        counts (dlist v') /\ L' + span (dlist v') = L + span (dlist v) /\
        (dlist v <> [] -> L <= L' <= T /\ T - L' < first_delta (dlist v')) /\
        (dlist v' = [] -> alarm v' = None) /\ (dlist v <> [] -> T - L' < 65536)) v.
Proof.
  intros [Hl Hnd Hc Hs Ha] HT. destruct (dlist v) as [|[t d] l] eqn:Hv.
  - cbn [length tick_loop]. apply wp_bind, wp_get. rewrite Hv, decide_True.
    2:{ apply header_large. unfold chTimeDiffX. pose proof (u16_range (u16 T - lasttime v)). lia. }
    apply wp_ret. exists [], L, (S k). rewrite Hv. cbn. rewrite app_nil_r.
    split_and!; try done.
  - destruct Ha as (A & HA & HTA & HA1 & HA2). set (fuel := S (length l)).
    change (S (length ((t, d) :: l))) with (S fuel). cbn [tick_loop]. apply wp_bind, wp_get. rewrite Hv, Hl, diff_exact by lia.
    cbn [first_delta]. case_decide as Hlt.
    + apply wp_ret. exists [], L, (S k). rewrite decide_False by done. rewrite app_nil_r, Hv.
      split_and!; try done; cbn [first_delta]; lia.
    + destruct (consume_spec ((t, d) :: l) L (T - L) (fired v) Hc ltac:(lia)) as (due & l' & L' & -> & Hdl & Hdue & HL & Hc' & Hs' & Hf).
      replace (L + (T - L)) with T in * by lia. apply wp_bind. unfold wp at 1, put. cbn [dlist lasttime fired].
      subst fuel. cbn [tick_loop]. apply wp_bind, wp_get. cbn [dlist lasttime]. rewrite diff_exact by lia.
      rewrite decide_True by lia. apply wp_ret. exists due, L', (S (S k)). rewrite decide_False by done. cbn [dlist lasttime fired alarm].
      split_and!; try done; [by intros ->|intros _; lia].
Qed.

Lemma deadlines_shift L d l : deadlines L l = deadlines (L + d) (match l with [] => [] | (t, e) :: l => (t, e - d) :: l end).
Proof. destruct l as [|[t e] l]; [done|]. cbn. by replace (L + d + (e - d)) with (L + e) by lia. Qed.

Lemma tick_spec T L v :
  vt_inv T L v ->
  wp (chVTDoTickI (fun _ => u16 T)) (fun _ v' => exists due L', vt_inv T L' v' /\
       deadlines L (dlist v) = due ++ deadlines L' (dlist v') /\ Forall (fun x => snd x <= T) due /\
       fired v' = fired v ++ due.*1 /\
       match dlist v' with [] => True | (_, d) :: _ => T < L' + d /\ exists A, alarm v' = Some (u16 A) /\ T < A <= T + 65535 end) v.
Proof.
  intros Hinv. pose proof Hinv as [Hl Hnd Hc Hs Ha]. unfold chVTDoTickI. apply wp_bind, wp_get, wp_bind.
  eapply wp_conseq.
  { apply (tick_loop_spec T L v 0 Hinv). destruct (dlist v) as [|[]]; [done|]. destruct Ha as (? & _ & ? & _). lia. }
  intros r v1 (due & L1 & k & -> & Hl1 & Hdl & Hdue & Hf & Hc1 & Hs1 & HT & Hal & HT2).
  apply wp_bind, wp_get.
  assert (Hnd1 : NoDup (dlist v1).*1).
  { rewrite <- (deadlines_fst L), Hdl, fmap_app in Hnd. apply NoDup_app in Hnd as (_ & _ & Hnd). by rewrite deadlines_fst in Hnd. }
  destruct (dlist v1) as [|[t d] l] eqn:Hv1.
  { apply wp_ret. exists due, L1. rewrite Hv1. split_and!; [|done..].
    constructor; rewrite ?Hv1; [done|constructor|constructor|lia|by apply Hal]. }
  assert (Hne : dlist v <> []).
  { intros Hv. rewrite Hv in Hdl. cbn in Hdl. by destruct due. }
  specialize (HT Hne) as [HL1 Hfirst]. specialize (HT2 Hne). cbn [first_delta] in Hfirst.
  rewrite decide_False by done. apply Forall_cons in Hc1 as [Hd Hc1]. cbn [snd span] in *. pose proof (span_pos _ Hc1).
  rewrite Hl1, u16_add. replace (L1 + (T - L1)) with T by lia. rewrite (u32_small (d - (T - L1))) by lia.
  rewrite diff_exact by lia. rewrite Z.sub_diag, Z.sub_0_r, u32_small by lia.
  set (e := d - (T - L1)). assert (He : 0 < e) by lia.
  set (delta := if decide (e < CH_CFG_ST_TIMEDELTA) then CH_CFG_ST_TIMEDELTA else clamp e).
  assert (Hdelta : 2 <= delta <= 65535 /\ delta <= e + 1).
  { subst delta. unfold CH_CFG_ST_TIMEDELTA. case_decide; [lia|]. rewrite clamp_min. lia. }
  clearbody delta. apply wp_bind. unfold wp at 1, put. apply wp_bind, wp_alarm; [lia|].
  apply wp_bind. eapply wp_opt; [apply time_add; lia|]. unfold wp, assert.
  rewrite !diff_exact by lia. rewrite (proj2 (Z.leb_le _ _)) by lia. cbn [ret].
  exists due, T. cbn [dlist set_alarm set_lasttime set_dlist alarm fired].
  rewrite (deadlines_shift L1 (T - L1)) in Hdl. replace (L1 + (T - L1)) with T in Hdl by lia.
  split_and!; [|done|done|done|lia|exists (T + delta); split; [done|lia]].
  constructor; cbn [dlist lasttime alarm set_alarm set_lasttime set_dlist span]; [done|done| |lia|].
  - constructor; [cbn; lia|done].
  - exists (T + delta). split; [done|]. lia.
Qed.

(** ** Timers and the clock *)

(** The list, the time, when each armed timer is due, and the history of the
    timers that fired: timer, when it was due, when it fired. *)
Record timed := Timed {
  vt : virtual_timers_list_t;
  time : Z;
  want : gmap nat Z;
  history : list (nat * Z * Z)
}.

Inductive event := Arm (t : nat) (delay : Z) | Disarm (t : nat) | Interrupt | Pass (n : Z).

(** The entries of the history for the timers [ts] that fire at [now]. *)
Definition fire (ts : list nat) (now : Z) (w : gmap nat Z) : list (nat * Z * Z) :=
  omap (fun t => (fun D => (t, D, now)) <$> w !! t) ts.

Definition happen (ev : event) (s : timed) : outcome timed :=
  let run m k := match m (vt s) with Done (_, v) => Done (k v) | Halt why => Halt why | Hang => Hang end in
  match ev with
  | Arm t delay => run (chVTDoSetI t delay (u16 (time s)))
      (fun v => Timed v (time s) (<[t := time s + Z.max delay 2]> (want s)) (history s))
  | Disarm t => run (chVTDoResetI t (u16 (time s)))
      (fun v => Timed v (time s) (delete t (want s)) (history s))
  | Interrupt => run (chVTDoTickI (fun _ => u16 (time s)))
      (fun v => let ts := drop (length (fired (vt s))) (fired v) in
                Timed v (time s) (foldr delete (want s) ts) (history s ++ fire ts (time s) (want s)))
  | Pass n => Done (Timed (vt s) (time s + n) (want s) (history s))
  end.

(** A timer is armed for less than 2^31 ticks while it is not armed already; it is
    disarmed while it is armed; time passes up to the alarm, whose interrupt is
    served within its tick. *)
Definition possible (ev : event) (s : timed) : Prop :=
  match ev with
  | Arm t delay => want s !! t = None /\ 0 < delay < 2 ^ 31
  | Disarm t => is_Some (want s !! t)
  | Interrupt => True
  | Pass n => 0 <= n /\ forall x, time s <= x < time s + n -> alarm (vt s) <> Some (u16 x)
  end.

(** The events that fail. *)
Definition late (ev : event) (s : timed) : Prop :=
  match ev with Disarm t => too_late t (u16 (time s)) (vt s) | _ => False end.

#[global] Instance late_dec ev s : Decision (late ev s).
Proof. destruct ev; apply _. Defined.

Inductive passing : timed -> Prop :=
  | pass_start T : 0 <= T -> passing (Timed vt_object_init T ∅ [])
  | pass_event s ev s' : passing s -> possible ev s -> happen ev s = Done s' -> passing s'.

(** What is due is what the list says, and what fired did so on time. *)
Definition timely (s : timed) (L : Z) : Prop :=
  vt_inv (time s) L (vt s) /\ deadlines L (dlist (vt s)) ≡ₚ map_to_list (want s) /\
  Forall (fun x => snd (fst x) <= snd x <= snd (fst x) + 1) (history s).

Lemma timely_due s L t D : timely s L -> want s !! t = Some D -> (t, D) ∈ deadlines L (dlist (vt s)) /\ time s <= D + 1.
Proof.
  intros ([Hl Hnd Hc Hs Ha] & Hw & _) Ht. assert (Hin : (t, D) ∈ deadlines L (dlist (vt s))).
  { rewrite Hw. by apply elem_of_map_to_list. }
  split; [done|]. destruct (dlist (vt s)) as [|[t1 d1] l]; [by apply elem_of_nil in Hin|].
  destruct Ha as (A & _ & HT & _ & HA). apply (deadlines_ge L _ t D Hc) in Hin. cbn [first_delta] in Hin. lia.
Qed.

Lemma timely_armed s L t : timely s L -> t ∈ (dlist (vt s)).*1 <-> is_Some (want s !! t).
Proof.
  intros (_ & Hw & _). rewrite <- (deadlines_fst L), Hw, list_elem_of_fmap. split.
  - intros ([t' D] & -> & Hin%elem_of_map_to_list). eauto.
  - intros [D HD]. exists (t, D). split; [done|]. by apply elem_of_map_to_list.
Qed.

(** The interrupt removes from [want] what fired. *)
Lemma fire_log due now (w : gmap nat Z) :
  Forall (fun x => w !! fst x = Some (snd x)) due -> fire due.*1 now w = (fun x => (x, now)) <$> due.
Proof. induction 1 as [|[t D] due Ht _ IH]; [done|]. cbn in *. rewrite Ht. cbn. by f_equal. Qed.

Lemma fire_rest due rest (w : gmap nat Z) :
  due ++ rest ≡ₚ map_to_list w -> rest ≡ₚ map_to_list (foldr delete w due.*1).
Proof.
  revert rest. induction due as [|[t D] due IH]; intros rest Hw; [done|]. cbn [fmap list_fmap foldr fst].
  assert (Hw' : (t, D) :: rest ≡ₚ map_to_list (foldr delete w due.*1)).
  { apply IH. rewrite <- Hw. cbn. by rewrite Permutation_middle. }
  assert (Ht : foldr delete w due.*1 !! t = Some D).
  { apply elem_of_map_to_list. rewrite <- Hw'. left. }
  rewrite <- (map_to_list_delete _ _ _ Ht) in Hw'. by apply Permutation_cons_inv in Hw'.
Qed.

(** The timers whose callbacks an interrupt calls. *)
Definition newly_fired (s s' : timed) : list nat := drop (length (fired (vt s))) (fired (vt s')).

(** What the interrupt does in a timely state. *)
Lemma timers_interrupt s L :
  timely s L ->
  exists s', happen Interrupt s = Done s' /\
    NoDup (newly_fired s s') /\ (forall t, t ∈ newly_fired s s' <-> exists D, want s !! t = Some D /\ D <= time s) /\
    (forall t D, want s' !! t = Some D <-> want s !! t = Some D /\ time s < D) /\
    (forall t D, want s !! t = Some D -> D <= time s -> (t, D, time s) ∈ history s') /\
    possible (Pass 1) s'.
Proof.
  intros (Hinv & Hw & Hh). cbn [happen].
  destruct (wp_run _ _ _ (tick_spec _ _ _ Hinv)) as ([] & v & -> & due & L' & Hinv' & Hdl & Hdue & Hf & Hnext).
  eexists. split; [done|]. unfold newly_fired. cbn [vt]. rewrite Hf, !drop_app_length. cbn [want history time vt possible].
  assert (Hnd : NoDup due.*1).
  { pose proof (vi_nodup _ _ _ Hinv) as Hnd. rewrite <- (deadlines_fst L), Hdl, fmap_app in Hnd. by apply NoDup_app in Hnd as (? & _). }
  rewrite Hdl in Hw.
  assert (Hin : Forall (fun x => want s !! fst x = Some (snd x)) due).
  { apply Forall_forall. intros [t D] Hx. apply elem_of_map_to_list. rewrite <- Hw. set_solver. }
  pose proof (fire_rest _ _ _ Hw) as Hrest. rewrite fire_log by done. rewrite Forall_forall in Hdue.
  assert (Hlater : forall t D, (t, D) ∈ deadlines L' (dlist v) -> time s < D).
  { intros t D Hx. destruct (dlist v) as [|[t1 d1] l] eqn:Hv; [by apply elem_of_nil in Hx|]. destruct Hnext as [Hnext _].
    pose proof (vi_counts _ _ _ Hinv') as Hc. rewrite Hv in Hc. apply (deadlines_ge _ _ _ _ Hc) in Hx. cbn in Hx. lia. }
  assert (Hcase : forall t D, want s !! t = Some D <-> (t, D) ∈ due \/ (t, D) ∈ deadlines L' (dlist v)).
  { intros t D. by rewrite <- elem_of_map_to_list, <- Hw, elem_of_app. }
  split_and!.
  - done.
  - intros t. rewrite list_elem_of_fmap. split.
    + intros ([t' D] & -> & Hx). exists D. split; [apply Hcase; by left|]. exact (Hdue _ Hx).
    + intros (D & Ht & Hle). exists (t, D). split; [done|]. apply Hcase in Ht as [?|Hx]; [done|]. apply Hlater in Hx. lia.
  - intros t D. rewrite <- elem_of_map_to_list, <- Hrest, Hcase. split; [eauto|]. intros [[Hx|Hx] Hlt]; [|done].
    specialize (Hdue _ Hx). cbn in Hdue. lia.
  - intros t D Ht Hle. apply elem_of_app. right. apply list_elem_of_fmap. exists (t, D). split; [done|].
    apply Hcase in Ht as [|Hx]; [done|]. apply Hlater in Hx. lia.
  - lia.
  - intros x Hx. assert (x = time s) as -> by lia. pose proof (vi_alarm _ _ _ Hinv') as Ha.
    destruct (dlist v) as [|[t1 d1] l]; [by rewrite Ha|]. destruct Hnext as [_ (A & -> & HA)]. intros [= Heq].
    revert Heq. unfold u16. zdiv.
Qed.

(** An event from a timely state that does not fail leaves a timely state; one
    that fails halts the station. *)
Lemma happen_timely ev s L :
  timely s L -> possible ev s -> ~ late ev s -> exists s' L', happen ev s = Done s' /\ timely s' L'.
Proof.
  intros Htime Hp Hlate. pose proof Htime as (Hinv & Hw & Hh). destruct ev as [t delay|t| |n]; cbn [possible happen] in *.
  - destruct Hp as [Hnew Hd].
    assert (Hni : t ∉ (dlist (vt s)).*1) by (rewrite (timely_armed s L t Htime), Hnew; by intros [? [=]]).
    destruct (wp_run _ _ _ (set_spec _ _ _ t delay Hinv Hni Hd)) as ([] & v & -> & Hf & L' & Hinv' & Hdl).
    eexists _, L'. split; [done|]. split_and!; [done| |done]. cbn [vt want].
    by rewrite Hdl, Hw, map_to_list_insert.
  - pose proof (proj2 (timely_armed s L t Htime) Hp) as Hin.
    destruct (wp_run _ _ _ (disarm_spec _ _ _ t Hinv Hin Hlate)) as ([] & v & -> & Hf & Hinv' & D & Hdl).
    eexists _, L. split; [done|]. split_and!; [done| |done]. cbn [vt want].
    rewrite Hw in Hdl. assert (Ht : want s !! t = Some D) by (apply elem_of_map_to_list; rewrite <- Hdl; left).
    rewrite <- (map_to_list_delete _ _ _ Ht) in Hdl. by apply Permutation_cons_inv in Hdl.
  - destruct (wp_run _ _ _ (tick_spec _ _ _ Hinv)) as ([] & v & -> & due & L' & Hinv' & Hdl & Hdue & Hf & _).
    eexists _, L'. split; [done|]. rewrite Hdl in Hw.
    assert (Hin : Forall (fun x => want s !! fst x = Some (snd x)) due).
    { apply Forall_forall. intros [t D] Hx. apply elem_of_map_to_list. rewrite <- Hw. set_solver. }
    rewrite Hf, drop_app_length. split_and!; cbn [vt want history time]; [done|by apply fire_rest|].
    rewrite fire_log by done. apply Forall_app. split; [done|]. apply Forall_fmap.
    rewrite Forall_forall in Hin, Hdue |- *. intros [t D] Hx. cbn.
    destruct (timely_due s L t D Htime (Hin _ Hx)) as [_ ?]. specialize (Hdue _ Hx). cbn in Hdue. lia.
  - destruct Hp as [Hn Hal]. eexists _, L. split; [done|]. split_and!; [|done|done]. destruct Hinv as [Hl Hnd Hc Hs Ha].
    constructor; cbn [time vt]; [done|done|done|lia|]. destruct (dlist (vt s)) as [|[t1 d1] l]; [done|].
    destruct Ha as (A & HA & HT & HA1 & HA2). exists A. split_and!; [done|lia| |lia|lia].
    destruct (Z.le_gt_cases (time s + n) A) as [|Hgt]; [done|]. exfalso. by apply (Hal A); [lia|].
Qed.

Lemma happen_late ev s L : timely s L -> late ev s -> happen ev s = Halt "chTimeAddX".
Proof.
  intros (Hinv & _) Hlate. destruct ev as [|t| |]; try done. cbn [happen]. by rewrite (disarm_late _ _ _ _ Hinv Hlate).
Qed.

(** An event that happened did not fail. *)
Lemma happened_timely ev s s' L :
  timely s L -> possible ev s -> happen ev s = Done s' -> exists L', timely s' L'.
Proof.
  intros Hs Hp He. destruct (decide (late ev s)) as [Hlate|Hlate]; [by rewrite (happen_late _ _ _ Hs Hlate) in He|].
  destruct (happen_timely ev s L Hs Hp Hlate) as (s1 & L1 & He1 & Hs1). rewrite He in He1. injection He1 as <-. eauto.
Qed.

Lemma passing_timely s : passing s -> exists L, timely s L.
Proof.
  induction 1 as [T HT|s ev s' _ [L Hs] Hp He].
  - exists 0. split_and!; [|done|by apply Forall_nil].
    constructor; cbn; [done|apply NoDup_nil_2|by apply Forall_nil|lia|done].
  - by eapply happened_timely.
Qed.

(** ** Properties *)

(** C22: Timers fire on time.  For every history of arming (for less than 2^31
    ticks), disarming and interrupts (each served within its tick): no armed
    timer is overdue by more than one tick, and every timer that fired did so
    once, not before it was due and at most one tick after.  Every next event
    completes, with one exception, which is exact: disarming the first timer in
    the last two ticks of the clock's range (65534 or 65535 ticks after
    [lasttime]) while the next one is due in one tick halts in the check of
    [chTimeAddX]. *)
Theorem timers_fire_on_time (s : timed) :
  passing s ->
  (forall t D, want s !! t = Some D -> time s <= D + 1) /\
  Forall (fun x => snd (fst x) <= snd x <= snd (fst x) + 1) (history s) /\
  (forall ev, possible ev s ->
     if decide (late ev s) then happen ev s = Halt "chTimeAddX"
     else exists s', happen ev s = Done s' /\ passing s').
Proof.
  intros Hs. destruct (passing_timely s Hs) as [L HL]. split_and!.
  - intros t D Ht. by apply (timely_due s L t D HL).
  - apply HL.
  - intros ev Hp. case_decide as Hlate; [by eapply happen_late|].
    destruct (happen_timely ev s L HL Hp Hlate) as (s' & _ & He & _). exists s'. split; [done|]. by eapply pass_event.
Qed.

(** C37: The clock is never stuck: in every state the interrupt fires everything
    that is due and sets the next alarm strictly ahead, so that time can pass;
    a timer further ahead than the clock's range is reached by alarms in
    between. *)
Theorem interrupt_moves_on (s : timed) :
  passing s ->
  exists s', happen Interrupt s = Done s' /\ passing s' /\
    (forall t D, want s' !! t = Some D <-> want s !! t = Some D /\ time s < D) /\
    (forall t D, want s !! t = Some D -> D <= time s -> (t, D, time s) ∈ history s') /\
    possible (Pass 1) s'.
Proof.
  intros Hs. destruct (passing_timely s Hs) as [L HL].
  destruct (timers_interrupt s L HL) as (s' & He & _ & _ & H). exists s'. split; [done|].
  split; [by eapply (pass_event s Interrupt)|done].
Qed.

(** Two timers: one further ahead than the clock's range, and one that fires
    10000 ticks later, after the clock has wrapped. *)
Definition lunch_break : list event := [Arm 0 100000; Arm 1 10000; Pass 10000; Interrupt].

Fixpoint happens (evs : list event) (s : timed) : timed :=
  match evs with
  | [] => s
  | ev :: evs => match happen ev s with Done s' => happens evs s' | _ => s end
  end.

Definition noon : timed := Timed vt_object_init 60000 ∅ [].

Lemma passing_step ev evs s :
  passing s -> possible ev s -> (forall s', happen ev s = Done s' -> passing s' -> passing (happens evs s')) ->
  passing (happens (ev :: evs) s).
Proof.
  intros Hs Hp Hk. cbn [happens]. destruct (happen ev s) as [s'| |] eqn:He; [|done..].
  apply Hk; [done|]. by eapply pass_event.
Qed.

(** Runs the next event of a concrete history, leaving its side condition. *)
Ltac next_event := apply passing_step; [done| |let s := fresh "s" in let H := fresh in
  intros s H ?; vm_compute in H; injection H as <-].

Lemma lunch_break_passing : passing (happens lunch_break noon).
Proof.
  assert (passing noon) by (by apply pass_start).
  unfold lunch_break. next_event; [by vm_compute|]. next_event; [by vm_compute|].
  next_event; [|next_event; [done|done]].
  split; [done|]. cbn. intros x Hx [= Heq]. revert Heq. unfold u16. zdiv.
Qed.

Lemma timers_fire_on_time_witness :
  let s := happens lunch_break noon in
  history s = [(1%nat, 70000, 70000)] /\ want s !! 0%nat = Some 160000 /\
  (forall t D, want s !! t = Some D -> time s <= D + 1) /\
  Forall (fun x => snd (fst x) <= snd x <= snd (fst x) + 1) (history s) /\
  (forall ev, possible ev s ->
     if decide (late ev s) then happen ev s = Halt "chTimeAddX"
     else exists s', happen ev s = Done s' /\ passing s').
Proof.
  cbv zeta. split; [by vm_compute|]. split; [by vm_compute|].
  apply (timers_fire_on_time (happens lunch_break noon)), lunch_break_passing.
Defined.

Lemma interrupt_moves_on_witness :
  let s := happens lunch_break noon in
  exists s', happen Interrupt s = Done s' /\ passing s' /\
    (forall t D, want s' !! t = Some D <-> want s !! t = Some D /\ time s < D) /\
    (forall t D, want s !! t = Some D -> D <= time s -> (t, D, time s) ∈ history s') /\
    possible (Pass 1) s'.
Proof. apply (interrupt_moves_on (happens lunch_break noon)), lunch_break_passing. Defined.

(** ** Two mistakes of the timer list *)

(** Disarming can halt the station.  Two threads whose waits end in the same
    tick, 65535 ticks after the list's base, and one of them is woken by an
    event one tick before: the alarm for the other is to be set two ticks ahead,
    65536 ticks after the base, which [chTimeAddX] refuses. *)
Theorem disarm_halts :
  exists s, passing s /\ is_Some (want s !! 0%nat) /\ happen (Disarm 0) s = Halt "chTimeAddX".
Proof.
  exists (happens [Arm 1 65535; Arm 0 65535; Pass 65534] noon). split; [|split; [by eexists; vm_compute|by vm_compute]].
  assert (passing noon) by (by apply pass_start).
  next_event; [by vm_compute|]. next_event; [by vm_compute|]. next_event; [|done].
  split; [done|]. cbn. intros x Hx [= Heq]. revert Heq. unfold u16. zdiv.
Qed.

(** [vt_list_compress], used for delays of almost 2^32 ticks, advances the
    list's base only by what is left of the elapsed time after the expired
    timers: a timer due at 115 is due at 105 afterwards. *)
Example compress_early :
  let v := VTList [(0%nat, 10); (1%nat, 5)] 100 (Some 110) [] in
  deadlines (lasttime v) (dlist v) = [(0%nat, 110); (1%nat, 115)] /\
  match vt_list_compress 11 v with
  | Done (_, v') => deadlines (lasttime v') (dlist v')
  | _ => []
  end = [(0%nat, 101); (1%nat, 105)].
Proof. by vm_compute. Qed.
