(* ===== verification/Sched.v ===== *)
(** * The scheduler

    [src/ChibiOS/os/rt/src/chschd.c] with the priority queue of [chlists.h]:
    threads, the ready list, and the switch from one thread to another.  Thread
    [0] is the idle thread.  A function that ends in a context switch is modelled
    up to the switch; the calls that use it continue when the thread runs again.
    The firmware is built with [CH_CFG_TIME_QUANTUM] 0: no round robin.

    Specification: every priority has a line of threads; the running thread is
    the head of the highest line that is not empty.  A thread that becomes ready
    joins its line at the end, one that goes to sleep leaves it, one that yields
    goes to its end, and nothing else changes a line.  So a thread is never
    overtaken by another one of its priority: what [Coop] assumes of the radio
    thread, the power thread and the shell. *)

From stdpp Require Import functions sorting.
From S2P Require Import Prelude Oslib.

Module Sched.

Inductive tstate_t :=
  | CH_STATE_READY | CH_STATE_CURRENT | CH_STATE_WTSTART | CH_STATE_SUSPENDED
  | CH_STATE_QUEUED | CH_STATE_WTSEM | CH_STATE_WTMTX | CH_STATE_WTCOND
  | CH_STATE_SLEEPING | CH_STATE_WTEXIT | CH_STATE_WTOREVT | CH_STATE_WTANDEVT
  | CH_STATE_SNDMSGQ | CH_STATE_SNDMSG | CH_STATE_WTMSG | CH_STATE_FINAL.

#[global] Instance tstate_eq_dec : EqDecision tstate_t.
Proof. solve_decision. Defined.

(** [thread_t].  [u] is the union of the wake-up message, the message sent and
    the pointers to what is waited for: one word. *)
Record thread_t := Thread {
  prio : Z;
  state : tstate_t;
  u : Z;
  msgqueue : list nat
}.

(** [os_instance_t]: the threads, which are never deleted, and [rlist]. *)
Record os_instance := Os {
  threads : nat -> thread_t;
  pqueue : list nat;
  current : nat
}.

Definition K := M os_instance.

Definition thd (s : os_instance) (t : nat) : thread_t := threads s t.
Definition set_thread (t : nat) (x : thread_t) (s : os_instance) : os_instance :=
  Os (<[t := x]> (threads s)) (pqueue s) (current s).
Definition set_state (st : tstate_t) (t : nat) (s : os_instance) : os_instance :=
  set_thread t (Thread (prio (thd s t)) st (u (thd s t)) (msgqueue (thd s t))) s.
Definition set_u (w : Z) (t : nat) (s : os_instance) : os_instance :=
  set_thread t (Thread (prio (thd s t)) (state (thd s t)) w (msgqueue (thd s t))) s.
Definition set_msgqueue (q : list nat) (t : nat) (s : os_instance) : os_instance :=
  set_thread t (Thread (prio (thd s t)) (state (thd s t)) (u (thd s t)) q) s.
Definition set_pqueue (l : list nat) (s : os_instance) : os_instance := Os (threads s) l (current s).
Definition set_current (t : nat) (s : os_instance) : os_instance := Os (threads s) (pqueue s) t.

Definition IDLEPRIO : Z := 1.
Definition idle : nat := 0%nat.

(** ** The priority queue *)

(** The scan from the highest priority on; the header of the circular list has
    priority 0, so that a thread of priority 0 would never find its place. *)
Fixpoint insert_behind (pr : nat -> Z) (t : nat) (l : list nat) : option (list nat) :=
  match l with
  | [] => if decide (0 >= pr t) then None else Some [t]
  | x :: l' => if decide (pr x >= pr t) then cons x <$> insert_behind pr t l' else Some (t :: l)
  end.

Fixpoint insert_ahead (pr : nat -> Z) (t : nat) (l : list nat) : option (list nat) :=
  match l with
  | [] => if decide (0 > pr t) then None else Some [t]
  | x :: l' => if decide (pr x > pr t) then cons x <$> insert_ahead pr t l' else Some (t :: l)
  end.

Definition ch_pqueue_insert_behind (t : nat) : K unit :=
  let! s := get in
  match insert_behind (fun x => prio (thd s x)) t (pqueue s) with
  | Some l => put (set_pqueue l s)
  | None => hang
  end.

Definition ch_pqueue_insert_ahead (t : nat) : K unit :=
  let! s := get in
  match insert_ahead (fun x => prio (thd s x)) t (pqueue s) with
  | Some l => put (set_pqueue l s)
  | None => hang
  end.

(** The first of an empty list is its header, which is no thread. *)
Definition ch_pqueue_remove_highest : K nat :=
  let! s := get in
  match pqueue s with
  | [] => halt "empty ready list"
  | t :: l => put (set_pqueue l s) ;;; ret t
  end.

Definition firstprio (s : os_instance) : Z :=
  match pqueue s with [] => 0 | t :: _ => prio (thd s t) end.

(** ** Operations *)

Definition can_be_readied (st : tstate_t) : bool :=
  bool_decide (st <> CH_STATE_READY) && bool_decide (st <> CH_STATE_FINAL).

Definition sch_ready_behind (t : nat) : K unit :=
  let! s := get in
  assert (can_be_readied (state (thd s t))) "invalid state" ;;;
  modify (set_state CH_STATE_READY t) ;;;
  ch_pqueue_insert_behind t.

Definition sch_ready_ahead (t : nat) : K unit :=
  let! s := get in
  assert (can_be_readied (state (thd s t))) "invalid state" ;;;
  modify (set_state CH_STATE_READY t) ;;;
  ch_pqueue_insert_ahead t.

(** The first ready thread becomes current. *)
Definition pick_next : K unit :=
  let! ntp := ch_pqueue_remove_highest in
  modify (set_state CH_STATE_CURRENT ntp) ;;;
  modify (set_current ntp).

Definition sch_reschedule_behind : K unit :=
  let! s := get in pick_next ;;; sch_ready_behind (current s).

Definition sch_reschedule_ahead : K unit :=
  let! s := get in pick_next ;;; sch_ready_ahead (current s).

Definition chSchReadyI (t : nat) : K unit := sch_ready_behind t.

Definition chSchGoSleepS (newstate : tstate_t) : K unit :=
  let! s := get in
  assert (bool_decide (current s <> idle)) "sleeping in idle thread" ;;;
  modify (set_state newstate (current s)) ;;;
  pick_next.

Definition chSchWakeupS (ntp : nat) (msg : Z) : K unit :=
  let! s := get in
  assert (bool_decide (pqueue s = []) || (firstprio s <=? prio (thd s (current s)))) "priority order violation" ;;;
  modify (set_u msg ntp) ;;;
  if decide (prio (thd s ntp) <= prio (thd s (current s))) then sch_ready_behind ntp
  else
    sch_ready_ahead (current s) ;;;
    modify (set_state CH_STATE_CURRENT ntp) ;;;
    modify (set_current ntp).

Definition chSchRescheduleS : K unit :=
  let! s := get in
  if decide (firstprio s > prio (thd s (current s))) then sch_reschedule_ahead else ret tt.

Definition chSchIsPreemptionRequired (s : os_instance) : bool := prio (thd s (current s)) <? firstprio s.

Definition chSchDoPreemption : K unit :=
  let! s := get in pick_next ;;; sch_ready_ahead (current s).

Definition chSchDoYieldS : K unit :=
  let! s := get in
  if decide (firstprio s >= prio (thd s (current s))) then sch_reschedule_behind else ret tt.

(** The end of an interrupt, [_port_irq_epilogue]. *)
Definition irq_epilogue : K unit :=
  let! s := get in
  if chSchIsPreemptionRequired s then chSchDoPreemption else ret tt.

(** [__sch_wakeup], the time-out of a sleeping thread; what it does to the object
    the thread waited for is up to that object ([Sem.sch_wakeup]). *)
Definition sch_wakeup (t : nat) : K unit :=
  let! s := get in
  if decide (state (thd s t) = CH_STATE_READY) then ret tt
  else modify (set_u MSG_TIMEOUT t) ;;; sch_ready_behind t.

(** ** Lines *)

Section order.
Context (pr : nat -> Z).

(** Not of lower priority than. *)
Definition above (x y : nat) : Prop := pr x >= pr y.
Definition sorted (l : list nat) : Prop := StronglySorted above l.
Definition line_of (p : Z) (l : list nat) : list nat := filter (fun t => pr t = p) l.

Lemma line_of_cons p x l : line_of p (x :: l) = (if decide (pr x = p) then [x] else []) ++ line_of p l.
Proof. unfold line_of. rewrite filter_cons. by case_decide. Qed.

(** Nobody of a priority above the first of a sorted list is in it. *)
Lemma line_of_empty p l : Forall (fun x => pr x < p) l -> line_of p l = [].
Proof.
  intros H. induction H as [|x l Hx _ IH]; [done|]. by rewrite line_of_cons, IH, decide_False by lia.
Qed.

Lemma sorted_inv x l : sorted (x :: l) -> sorted l /\ Forall (fun y => pr y <= pr x) l.
Proof.
  intros H. apply StronglySorted_inv in H as [Hl Hx]. split; [done|].
  eapply Forall_impl; [exact Hx|]. unfold above. intros; cbn in *; lia.
Qed.

Lemma sorted_cons x l : sorted l -> Forall (fun y => pr y <= pr x) l -> sorted (x :: l).
Proof. intros Hl Hx. constructor; [done|]. eapply Forall_impl; [exact Hx|]. unfold above. intros; cbn in *; lia. Qed.

Lemma insert_behind_spec t l :
  0 < pr t -> sorted l ->
  exists l', insert_behind pr t l = Some l' /\ l' ≡ₚ t :: l /\ sorted l' /\
    (forall p, line_of p l' = line_of p l ++ if decide (pr t = p) then [t] else []).
Proof.
  intros Ht. induction l as [|x l IH]; intros Hl; cbn [insert_behind].
  - rewrite decide_False by lia. exists [t]. split; [done|]. split; [done|]. split; [by repeat constructor|].
    intros p. by rewrite line_of_cons, app_nil_r.
  - pose proof Hl as Hl0. apply sorted_inv in Hl as [Hl Hx]. case_decide as Hge.
    + destruct (IH Hl) as (l' & -> & Hp & Hs & Hlines). exists (x :: l'). split; [done|].
      split; [rewrite Hp; constructor|]. split.
      * apply sorted_cons; [done|]. rewrite Hp. constructor; [lia|done].
      * intros p. by rewrite !line_of_cons, Hlines, app_assoc.
    + exists (t :: x :: l). split; [done|]. split; [done|]. split.
      * apply sorted_cons; [done|]. constructor; [lia|]. eapply Forall_impl; [exact Hx|]. intros; cbn in *; lia.
      * intros p. rewrite (line_of_cons p t). case_decide as Hp; [|by rewrite app_nil_r].
        rewrite (line_of_empty p (x :: l)); [done|]. constructor; [lia|]. eapply Forall_impl; [exact Hx|]. intros; cbn in *; lia.
Qed.

Lemma insert_ahead_spec t l :
  0 < pr t -> sorted l ->
  exists l', insert_ahead pr t l = Some l' /\ l' ≡ₚ t :: l /\ sorted l' /\
    (forall p, line_of p l' = (if decide (pr t = p) then [t] else []) ++ line_of p l).
Proof.
  intros Ht. induction l as [|x l IH]; intros Hl; cbn [insert_ahead].
  - rewrite decide_False by lia. exists [t]. split; [done|]. split; [done|]. split; [by repeat constructor|].
    intros p. by rewrite line_of_cons.
  - pose proof Hl as Hl0. apply sorted_inv in Hl as [Hl Hx]. case_decide as Hge.
    + destruct (IH Hl) as (l' & -> & Hp & Hs & Hlines). exists (x :: l'). split; [done|].
      split; [rewrite Hp; constructor|]. split.
      * apply sorted_cons; [done|]. rewrite Hp. constructor; [lia|done].
      * intros p. rewrite !line_of_cons, Hlines. repeat case_decide; try done. lia.
    + exists (t :: x :: l). split; [done|]. split; [done|]. split; [|intros p; by rewrite (line_of_cons p t)].
      apply sorted_cons; [done|]. constructor; [lia|]. eapply Forall_impl; [exact Hx|]. intros; cbn in *; lia.
Qed.
End order.

Lemma line_of_ext pr pr' p l : (forall x, pr x = pr' x) -> line_of pr p l = line_of pr' p l.
Proof. intros H. unfold line_of. apply list_filter_iff. intros x. by rewrite H. Qed.

Lemma sorted_ext pr pr' l : (forall x, pr x = pr' x) -> sorted pr l -> sorted pr' l.
Proof.
  intros H Hs. induction Hs as [|x l Hs IH Hx]; [constructor|]. constructor; [done|].
  eapply Forall_impl; [exact Hx|]. unfold above. intros y. by rewrite !H.
Qed.

(** ** Fields after an update *)

Lemma prio_set_state st t s x : prio (thd (set_state st t s) x) = prio (thd s x).
Proof. unfold thd, set_state, set_thread; cbn. destruct (decide (x = t)) as [->|]; [by rewrite fn_lookup_insert|by rewrite fn_lookup_insert_ne]. Qed.
Lemma state_set_state st t s x : state (thd (set_state st t s) x) = if decide (x = t) then st else state (thd s x).
Proof. unfold thd, set_state, set_thread; cbn. case_decide as He; [subst; by rewrite fn_lookup_insert|by rewrite fn_lookup_insert_ne]. Qed.
Lemma u_set_state st t s x : u (thd (set_state st t s) x) = u (thd s x).
Proof. unfold thd, set_state, set_thread; cbn. destruct (decide (x = t)) as [->|]; [by rewrite fn_lookup_insert|by rewrite fn_lookup_insert_ne]. Qed.
Lemma msgqueue_set_state st t s x : msgqueue (thd (set_state st t s) x) = msgqueue (thd s x).
Proof. unfold thd, set_state, set_thread; cbn. destruct (decide (x = t)) as [->|]; [by rewrite fn_lookup_insert|by rewrite fn_lookup_insert_ne]. Qed.
Lemma u_set_u w t s x : u (thd (set_u w t s) x) = if decide (x = t) then w else u (thd s x).
Proof. unfold thd, set_u, set_thread; cbn. case_decide as He; [subst; by rewrite fn_lookup_insert|by rewrite fn_lookup_insert_ne]. Qed.
Lemma prio_set_u w t s x : prio (thd (set_u w t s) x) = prio (thd s x).
Proof. unfold thd, set_u, set_thread; cbn. destruct (decide (x = t)) as [->|]; [by rewrite fn_lookup_insert|by rewrite fn_lookup_insert_ne]. Qed.
Lemma state_set_u w t s x : state (thd (set_u w t s) x) = state (thd s x).
Proof. unfold thd, set_u, set_thread; cbn. destruct (decide (x = t)) as [->|]; [by rewrite fn_lookup_insert|by rewrite fn_lookup_insert_ne]. Qed.
Lemma msgqueue_set_u w t s x : msgqueue (thd (set_u w t s) x) = msgqueue (thd s x).
Proof. unfold thd, set_u, set_thread; cbn. destruct (decide (x = t)) as [->|]; [by rewrite fn_lookup_insert|by rewrite fn_lookup_insert_ne]. Qed.

Lemma fields_set_msgqueue q t s x :
  prio (thd (set_msgqueue q t s) x) = prio (thd s x) /\ state (thd (set_msgqueue q t s) x) = state (thd s x) /\
  u (thd (set_msgqueue q t s) x) = u (thd s x) /\
  msgqueue (thd (set_msgqueue q t s) x) = if decide (x = t) then q else msgqueue (thd s x).
Proof. unfold thd, set_msgqueue, set_thread; cbn. case_decide as He; [subst; by rewrite fn_lookup_insert|by rewrite fn_lookup_insert_ne]. Qed.

Create Rewrite HintDb sched.
#[export] Hint Rewrite prio_set_state state_set_state u_set_state msgqueue_set_state
  u_set_u prio_set_u state_set_u msgqueue_set_u : sched.

(** ** The invariant *)

Definition prios (s : os_instance) (t : nat) : Z := prio (thd s t).
Definition run_list (s : os_instance) : list nat := current s :: pqueue s.
Definition line (s : os_instance) (p : Z) : list nat := line_of (prios s) p (run_list s).

(** What a thread that is neither running nor ready waits for. *)
Definition asleep (s : os_instance) (t : nat) : option tstate_t :=
  match state (thd s t) with CH_STATE_READY | CH_STATE_CURRENT => None | st => Some st end.

Record sched_ok (s : os_instance) : Prop := {
  ok_prio : forall t, 0 < prios s t;
  ok_current : forall t, state (thd s t) = CH_STATE_CURRENT <-> t = current s;
  ok_ready : forall t, state (thd s t) = CH_STATE_READY <-> t ∈ pqueue s;
  ok_nodup : NoDup (pqueue s);
  ok_sorted : sorted (prios s) (pqueue s);
  ok_idle : idle ∈ run_list s
}.

(** The running thread is not of lower priority than a ready one. *)
Definition dispatched (s : os_instance) : Prop := firstprio s <= prios s (current s).

(** Priorities, wake-up words and message queues are as before. *)
Record same_data (s s' : os_instance) : Prop := {
  sd_prio : forall t, prios s' t = prios s t;
  sd_u : forall t, u (thd s' t) = u (thd s t);
  sd_msgqueue : forall t, msgqueue (thd s' t) = msgqueue (thd s t)
}.

#[global] Instance same_data_refl : Reflexive same_data.
Proof. by constructor. Qed.
#[global] Instance same_data_trans : Transitive same_data.
Proof. intros a b c [] []. constructor; intros; congruence. Qed.

Lemma asleep_not_awake s t st : asleep s t = Some st -> state (thd s t) = st /\ st <> CH_STATE_READY /\ st <> CH_STATE_CURRENT.
Proof. unfold asleep. destruct (state (thd s t)); intros [= <-]; done. Qed.

Lemma asleep_None s t : sched_ok s -> asleep s t = None <-> t ∈ run_list s.
Proof.
  intros Hok. unfold run_list. rewrite elem_of_cons, <- (ok_ready _ Hok), <- (ok_current _ Hok).
  unfold asleep. destruct (state (thd s t)); naive_solver.
Qed.

Lemma dispatched_sorted s : sched_ok s -> dispatched s -> Forall (fun x => prios s x <= prios s (current s)) (pqueue s).
Proof.
  intros Hok Hd. pose proof (ok_sorted s Hok) as Hs. unfold dispatched, firstprio in Hd.
  destruct (pqueue s) as [|h l]; [done|]. apply sorted_inv in Hs as [_ Hs]. constructor; [done|].
  eapply Forall_impl; [exact Hs|]. unfold prios in *. intros; cbn in *; lia.
Qed.

Lemma sorted_dispatched s : Forall (fun x => prios s x <= prios s (current s)) (pqueue s) -> 0 < prios s (current s) -> dispatched s.
Proof. unfold dispatched, firstprio. destruct (pqueue s); [lia|]. intros Hf ?. by apply Forall_cons in Hf as [? _]. Qed.

Lemma current_not_ready s : sched_ok s -> current s ∉ pqueue s.
Proof. intros Hok Hin. apply (ok_ready _ Hok) in Hin. by rewrite (proj2 (ok_current _ Hok _) eq_refl) in Hin. Qed.

Lemma current_awake s : sched_ok s -> asleep s (current s) = None.
Proof. intros Hok. apply asleep_None; [done|]. apply elem_of_cons. by left. Qed.

(** A state with the same data and a new run list is well formed. *)
Lemma sched_ok_intro s s' :
  sched_ok s -> same_data s s' ->
  NoDup (run_list s') -> sorted (prios s) (pqueue s') -> idle ∈ run_list s' ->
  state (thd s' (current s')) = CH_STATE_CURRENT -> (forall x, x ∈ pqueue s' -> state (thd s' x) = CH_STATE_READY) ->
  (forall x, x ∉ run_list s' -> asleep s' x <> None) ->
  sched_ok s'.
Proof.
  intros Hok Hd Hnd Hsort Hidle Hcur Hst Hout. apply NoDup_cons in Hnd as [Hc Hnd].
  assert (Hcase : forall x, x = current s' \/ x ∈ pqueue s' \/ asleep s' x <> None).
  { intros x. destruct (decide (x ∈ run_list s')) as [Hx|Hx]; [apply elem_of_cons in Hx; tauto|auto]. }
  constructor.
  - intros t. rewrite (sd_prio _ _ Hd). apply Hok.
  - intros t. split; [|by intros ->]. intros Ht.
    destruct (Hcase t) as [?|[Hx|Hx]]; [done|by rewrite Hst in Ht|by unfold asleep in Hx; rewrite Ht in Hx].
  - intros t. split; [|by apply Hst]. intros Ht.
    destruct (Hcase t) as [->|[Hx|Hx]]; [by rewrite Hcur in Ht|done|by unfold asleep in Hx; rewrite Ht in Hx].
  - done.
  - eapply sorted_ext; [|exact Hsort]. intros. by rewrite (sd_prio _ _ Hd).
  - done.
Qed.

(** ** What each operation does *)

(** [s'] has the same data, the threads [woken] are awake in addition, and the
    line of every priority is [lines]. *)
Record becomes (s : os_instance) (woken : nat -> option tstate_t) (lines : Z -> list nat) (s' : os_instance) : Prop := {
  b_ok : sched_ok s';
  b_data : same_data s s';
  b_asleep : forall x, asleep s' x = woken x;
  b_lines : forall p, line s' p = lines p
}.

(** The line of every priority with [t] at its end. *)
Definition joined (s : os_instance) (t : nat) (p : Z) : list nat :=
  line s p ++ if decide (prios s t = p) then [t] else [].
Definition awoken (s : os_instance) (t : nat) (x : nat) : option tstate_t :=
  if decide (x = t) then None else asleep s x.

Lemma sch_ready_behind_spec s t st :
  sched_ok s -> asleep s t = Some st -> st <> CH_STATE_FINAL ->
  wp (sch_ready_behind t) (fun _ s' => becomes s (awoken s t) (joined s t) s' /\ current s' = current s) s.
Proof.
  intros Hok Hst Hfin. destruct (asleep_not_awake _ _ _ Hst) as (Hs & Hr & Hc). unfold sch_ready_behind.
  apply wp_bind, wp_get, wp_bind. unfold wp at 1, assert, can_be_readied. rewrite Hs, !bool_decide_true by done. cbn [andb ret].
  apply wp_bind. unfold wp at 1, modify. unfold ch_pqueue_insert_behind. apply wp_bind, wp_get.
  set (s1 := set_state CH_STATE_READY t s). assert (Hpr : forall x, prios s x = prio (thd s1 x)) by (intros; unfold prios, s1; by rewrite prio_set_state).
  change (pqueue s1) with (pqueue s).
  destruct (insert_behind_spec (fun x => prio (thd s1 x)) t (pqueue s)) as (l & -> & Hp & Hsort & Hl).
  { rewrite <- Hpr. apply Hok. }
  { eapply sorted_ext; [exact Hpr|apply Hok]. }
  unfold wp, put. split; [|done].
  assert (Hd : same_data s (set_pqueue l s1)).
  { constructor; intros x; [symmetry; apply Hpr|apply u_set_state|apply msgqueue_set_state]. }
  assert (Hnot : t ∉ run_list s) by (rewrite <- asleep_None by done; by rewrite Hst).
  assert (Hst1 : forall x, state (thd (set_pqueue l s1) x) = if decide (x = t) then CH_STATE_READY else state (thd s x)).
  { intros x. apply state_set_state. }
  constructor; [|done| |].
  - apply (sched_ok_intro s); [done|done| | | | | |]; change (run_list (set_pqueue l s1)) with (current s :: l);
      change (pqueue (set_pqueue l s1)) with l; change (current (set_pqueue l s1)) with (current s).
    + rewrite Hp. rewrite (Permutation_swap t (current s)). apply NoDup_cons. split; [done|].
      apply NoDup_cons. split; [by apply current_not_ready|apply Hok].
    + eapply sorted_ext; [|exact Hsort]. intros; symmetry; apply Hpr.
    + rewrite Hp. rewrite (Permutation_swap t (current s)). apply elem_of_cons. right. apply Hok.
    + rewrite Hst1, decide_False by (intros <-; apply Hnot, elem_of_cons; by left). by apply (ok_current _ Hok).
    + intros x Hx. rewrite Hp, elem_of_cons in Hx. rewrite Hst1. case_decide; [done|].
      apply (ok_ready _ Hok). tauto.
    + intros x Hx Hn. apply Hx. rewrite Hp, !elem_of_cons. unfold asleep in Hn. rewrite Hst1 in Hn. case_decide; [tauto|].
      apply (asleep_None s x Hok), elem_of_cons in Hn. tauto.
  - intros x. unfold awoken, asleep. rewrite Hst1. by case_decide.
  - intros p. unfold joined, line, run_list. cbn [pqueue current set_pqueue s1 set_state set_thread].
    rewrite !line_of_cons. rewrite (line_of_ext (prios (set_pqueue l s1)) (fun x => prio (thd s1 x))) by done.
    rewrite Hl, <- app_assoc. rewrite (line_of_ext (prios s) (fun x => prio (thd s1 x))) by exact Hpr.
    by rewrite (sd_prio _ _ Hd), !Hpr.
Qed.

(** The running thread and the first ready one change places. *)
Lemma switched s s' h l :
  sched_ok s -> pqueue s = h :: l -> same_data s s' -> current s' = h -> pqueue s' ≡ₚ current s :: l ->
  sorted (prios s) (pqueue s') ->
  (forall x, state (thd s' x) = if decide (x = current s) then CH_STATE_READY else
     if decide (x = h) then CH_STATE_CURRENT else state (thd s x)) ->
  sched_ok s' /\ forall x, asleep s' x = asleep s x.
Proof.
  intros Hok Hq Hd Hc Hp Hsort Hst. pose proof (current_not_ready s Hok) as Hnr. rewrite Hq, elem_of_cons in Hnr.
  assert (Hperm : run_list s' ≡ₚ run_list s) by (unfold run_list; rewrite Hp, Hc, Hq; constructor).
  assert (Has : forall x, asleep s' x = asleep s x).
  { intros x. unfold asleep. rewrite Hst. destruct (decide (x = current s)) as [->|].
    - by rewrite (proj2 (ok_current _ Hok _) eq_refl).
    - destruct (decide (x = h)) as [->|]; [|done]. rewrite (proj2 (ok_ready _ Hok h)); [done|].
      rewrite Hq. apply elem_of_cons. by left. }
  split; [|done]. apply (sched_ok_intro s); [done|done| |done| | | |].
  - rewrite Hperm. apply NoDup_cons. split; [by apply current_not_ready|apply Hok].
  - rewrite Hperm. apply Hok.
  - rewrite Hst, Hc, decide_False by (intros Hx; apply Hnr; by left). by rewrite decide_True.
  - intros x Hx. rewrite Hp, elem_of_cons in Hx. rewrite Hst. case_decide; [done|]. destruct Hx as [|Hx]; [done|].
    rewrite decide_False; [apply (ok_ready _ Hok); rewrite Hq; by apply elem_of_cons; right|].
    intros ->. pose proof (ok_nodup _ Hok) as Hn. rewrite Hq in Hn. by apply NoDup_cons in Hn as [? _].
  - intros x Hx. rewrite Has. rewrite Hperm in Hx. by rewrite asleep_None.
Qed.

(** The state in which the two have changed places but for the ready list. *)
Definition mid_switch (h : nat) (l : list nat) (s : os_instance) : os_instance :=
  set_state CH_STATE_READY (current s) (set_current h (set_state CH_STATE_CURRENT h (set_pqueue l s))).

Lemma mid_switch_fields h l s x :
  prio (thd (mid_switch h l s) x) = prios s x /\
  u (thd (mid_switch h l s) x) = u (thd s x) /\ msgqueue (thd (mid_switch h l s) x) = msgqueue (thd s x) /\
  state (thd (mid_switch h l s) x) = if decide (x = current s) then CH_STATE_READY else
     if decide (x = h) then CH_STATE_CURRENT else state (thd s x).
Proof.
  unfold mid_switch. autorewrite with sched.
  change (thd (set_current h (set_state CH_STATE_CURRENT h (set_pqueue l s)))) with (thd (set_state CH_STATE_CURRENT h (set_pqueue l s))).
  by autorewrite with sched.
Qed.

Lemma pick_next_spec s h l (Q : unit -> os_instance -> Prop) :
  pqueue s = h :: l -> Q tt (set_current h (set_state CH_STATE_CURRENT h (set_pqueue l s))) -> wp pick_next Q s.
Proof. intros Hq HQ. unfold wp, pick_next, ch_pqueue_remove_highest, bind, get, modify, put, ret. by rewrite Hq. Qed.

Lemma was_current s h l x : sched_ok s -> pqueue s = h :: l -> x = current s ->
  can_be_readied (state (thd (set_current h (set_state CH_STATE_CURRENT h (set_pqueue l s))) x)) = true.
Proof.
  intros Hok Hq ->. change (thd (set_current h _)) with (thd (set_state CH_STATE_CURRENT h (set_pqueue l s))).
  rewrite state_set_state. case_decide; [done|]. change (thd (set_pqueue l s)) with (thd s).
  by rewrite (proj2 (ok_current _ Hok _) eq_refl).
Qed.

Lemma switch_ahead_spec s h l :
  sched_ok s -> pqueue s = h :: l -> prios s h > prios s (current s) ->
  wp (pick_next ;;; sch_ready_ahead (current s)) (fun _ s' => becomes s (asleep s) (line s) s' /\ dispatched s') s.
Proof.
  intros Hok Hq Hlt. apply wp_bind, (pick_next_spec s h l); [done|]. unfold sch_ready_ahead. apply wp_bind, wp_get, wp_bind.
  unfold wp at 1, assert. rewrite (was_current s h l) by done. cbn [ret]. apply wp_bind. unfold wp at 1, modify.
  fold (mid_switch h l s). unfold ch_pqueue_insert_ahead. apply wp_bind, wp_get. change (pqueue (mid_switch h l s)) with l.
  pose proof (ok_sorted _ Hok) as Hs. rewrite Hq in Hs. apply sorted_inv in Hs as [Hs Hh].
  assert (Hpr : forall x, prios s x = prio (thd (mid_switch h l s) x)) by (intros x; symmetry; apply mid_switch_fields).
  destruct (insert_ahead_spec (fun x => prio (thd (mid_switch h l s) x)) (current s) l) as (l' & -> & Hp & Hsort & Hl).
  { rewrite <- Hpr. apply Hok. }
  { by eapply sorted_ext. }
  unfold wp, put. set (s' := set_pqueue l' (mid_switch h l s)). assert (Hd : same_data s s').
  { constructor; intros x; apply mid_switch_fields. }
  destruct (switched s s' h l) as [Hok' Has]; [done|done|done|done|done| | |].
  { eapply sorted_ext; [|exact Hsort]. intros; symmetry; apply Hpr. }
  { intros x. apply mid_switch_fields. }
  split; [constructor; [done|done|done|]|].
  - intros p. unfold line, run_list. change (current s') with h. change (pqueue s') with l'. rewrite Hq.
    rewrite (line_of_ext (prios s') (fun x => prio (thd (mid_switch h l s) x))) by done. rewrite line_of_cons, Hl.
    rewrite (line_of_ext (prios s) (fun x => prio (thd (mid_switch h l s) x))) by done. rewrite !line_of_cons.
    rewrite !Hpr in Hlt. repeat case_decide; try done. lia.
  - apply sorted_dispatched; [|apply Hok']. change (pqueue s') with l'. change (current s') with h. rewrite Hp.
    constructor; [change (prios s' (current s) <= prios s' h); rewrite !(sd_prio _ _ Hd); lia|].
    eapply Forall_impl; [exact Hh|]. intros x Hx. cbn in Hx |- *. by rewrite !(sd_prio _ _ Hd).
Qed.

(** The line of the running thread without it, and with it at the end. *)
Definition quit (s : os_instance) (p : Z) : list nat :=
  if decide (prios s (current s) = p) then tail (line s p) else line s p.
Definition rotated (s : os_instance) (p : Z) : list nat :=
  quit s p ++ if decide (prios s (current s) = p) then [current s] else [].

Lemma quit_pqueue s p : quit s p = line_of (prios s) p (pqueue s).
Proof. unfold quit, line, run_list. rewrite line_of_cons. by case_decide. Qed.

Lemma switch_behind_spec s h l :
  sched_ok s -> pqueue s = h :: l -> prios s h = prios s (current s) ->
  wp (pick_next ;;; sch_ready_behind (current s)) (fun _ s' => becomes s (asleep s) (rotated s) s' /\ dispatched s') s.
Proof.
  intros Hok Hq Heq. apply wp_bind, (pick_next_spec s h l); [done|]. unfold sch_ready_behind. apply wp_bind, wp_get, wp_bind.
  unfold wp at 1, assert. rewrite (was_current s h l) by done. cbn [ret]. apply wp_bind. unfold wp at 1, modify.
  fold (mid_switch h l s). unfold ch_pqueue_insert_behind. apply wp_bind, wp_get. change (pqueue (mid_switch h l s)) with l.
  pose proof (ok_sorted _ Hok) as Hs. rewrite Hq in Hs. apply sorted_inv in Hs as [Hs Hh].
  assert (Hpr : forall x, prios s x = prio (thd (mid_switch h l s) x)) by (intros x; symmetry; apply mid_switch_fields).
  destruct (insert_behind_spec (fun x => prio (thd (mid_switch h l s) x)) (current s) l) as (l' & -> & Hp & Hsort & Hl).
  { rewrite <- Hpr. apply Hok. }
  { by eapply sorted_ext. }
  unfold wp, put. set (s' := set_pqueue l' (mid_switch h l s)). assert (Hd : same_data s s').
  { constructor; intros x; apply mid_switch_fields. }
  destruct (switched s s' h l) as [Hok' Has]; [done|done|done|done|done| | |].
  { eapply sorted_ext; [|exact Hsort]. intros; symmetry; apply Hpr. }
  { intros x. apply mid_switch_fields. }
  split; [constructor; [done|done|done|]|].
  - intros p. unfold rotated. rewrite quit_pqueue. unfold line, run_list. change (current s') with h. change (pqueue s') with l'. rewrite Hq.
    rewrite (line_of_ext (prios s') (fun x => prio (thd (mid_switch h l s) x))) by done. rewrite line_of_cons, Hl.
    rewrite (line_of_ext (prios s) (fun x => prio (thd (mid_switch h l s) x))) by done. rewrite !line_of_cons, Hpr.
    by rewrite app_assoc.
  - apply sorted_dispatched; [|apply Hok']. change (pqueue s') with l'. change (current s') with h. rewrite Hp.
    constructor; [change (prios s' (current s) <= prios s' h); rewrite !(sd_prio _ _ Hd); lia|].
    eapply Forall_impl; [exact Hh|]. intros x Hx. cbn in Hx |- *. by rewrite !(sd_prio _ _ Hd).
Qed.

Lemma chSchRescheduleS_spec s :
  sched_ok s -> wp chSchRescheduleS (fun _ s' => becomes s (asleep s) (line s) s' /\ dispatched s') s.
Proof.
  intros Hok. unfold chSchRescheduleS. apply wp_bind, wp_get. case_decide as Hgt.
  - unfold sch_reschedule_ahead. apply wp_bind, wp_get. unfold firstprio in Hgt. destruct (pqueue s) as [|h l] eqn:Hq.
    { pose proof (ok_prio _ Hok (current s)). unfold prios in *. lia. }
    by apply (switch_ahead_spec s h l).
  - apply wp_ret. split; [by constructor|]. unfold dispatched, prios. lia.
Qed.

Lemma irq_epilogue_reschedules s : irq_epilogue s = chSchRescheduleS s.
Proof.
  unfold irq_epilogue, chSchRescheduleS, chSchIsPreemptionRequired, bind, get.
  destruct (Z.ltb_spec (prio (thd s (current s))) (firstprio s)); [by rewrite decide_True by lia|by rewrite decide_False by lia].
Qed.

Lemma chSchDoYieldS_spec s :
  sched_ok s -> dispatched s -> wp chSchDoYieldS (fun _ s' => becomes s (asleep s) (rotated s) s' /\ dispatched s') s.
Proof.
  intros Hok Hd. unfold chSchDoYieldS. apply wp_bind, wp_get. case_decide as Hgt.
  - unfold sch_reschedule_behind. apply wp_bind, wp_get. unfold firstprio, dispatched in *. destruct (pqueue s) as [|h l] eqn:Hq.
    { pose proof (ok_prio _ Hok (current s)). unfold prios in *. lia. }
    unfold prios in Hd. unfold firstprio in Hd. rewrite Hq in Hd. apply (switch_behind_spec s h l); [done|done|unfold prios; lia].
  - apply wp_ret. split; [|done]. constructor; [done|done|done|]. intros p. unfold rotated. rewrite quit_pqueue.
    unfold line, run_list. rewrite line_of_cons. case_decide; [|by rewrite app_nil_r]. rewrite line_of_empty; [done|].
    pose proof (ok_sorted _ Hok) as Hs. unfold firstprio in Hgt. destruct (pqueue s) as [|h l]; [done|].
    apply sorted_inv in Hs as [_ Hs]. unfold prios in *. constructor; [lia|]. eapply Forall_impl; [exact Hs|]. intros; cbn in *; lia.
Qed.

Definition fell_asleep (st : tstate_t) (s : os_instance) (x : nat) : option tstate_t :=
  if decide (x = current s) then Some st else asleep s x.

(** A state a thread can sleep in and be woken from. *)
Definition put_to_sleep (st : tstate_t) : Prop := st <> CH_STATE_READY /\ st <> CH_STATE_CURRENT /\ st <> CH_STATE_FINAL.

Lemma gosleep_spec s st :
  sched_ok s -> current s <> idle -> st <> CH_STATE_READY -> st <> CH_STATE_CURRENT ->
  wp (chSchGoSleepS st) (fun _ s' => becomes s (fell_asleep st s) (quit s) s' /\ dispatched s') s.
Proof.
  intros Hok Hni Hr Hcu. unfold chSchGoSleepS. apply wp_bind, wp_get, wp_bind. unfold wp at 1, assert.
  rewrite bool_decide_true by done. cbn [ret]. apply wp_bind. unfold wp at 1, modify.
  destruct (pqueue s) as [|h l] eqn:Hq.
  { pose proof (ok_idle _ Hok) as Hi. unfold run_list in Hi. rewrite Hq in Hi. apply list_elem_of_singleton in Hi. congruence. }
  apply (pick_next_spec _ h l); [done|]. set (s' := set_current h _).
  assert (Hf : forall x, state (thd s' x) = if decide (x = h) then CH_STATE_CURRENT else if decide (x = current s) then st else state (thd s x)).
  { intros x. unfold s'. change (thd (set_current h ?a)) with (thd a). rewrite state_set_state.
    change (thd (set_pqueue l ?a)) with (thd a). by rewrite state_set_state. }
  assert (Hd : same_data s s').
  { constructor; intros x; unfold s', prios; change (thd (set_current h ?a)) with (thd a); autorewrite with sched;
      change (thd (set_pqueue l ?a)) with (thd a); by autorewrite with sched. }
  pose proof (current_not_ready s Hok) as Hnr. rewrite Hq, elem_of_cons in Hnr.
  pose proof (ok_nodup _ Hok) as Hnd. rewrite Hq in Hnd. pose proof (ok_sorted _ Hok) as Hs. rewrite Hq in Hs.
  apply sorted_inv in Hs as [Hs Hh].
  assert (Hhq : forall x, x ∈ h :: l -> state (thd s x) = CH_STATE_READY) by (intros x Hx; apply (ok_ready _ Hok); by rewrite Hq).
  assert (Has : forall x, asleep s' x = fell_asleep st s x).
  { intros x. unfold fell_asleep, asleep. rewrite Hf. destruct (decide (x = h)) as [->|].
    - rewrite decide_False by (intros Hx; apply Hnr; by left). by rewrite Hhq by (apply elem_of_cons; by left).
    - case_decide; [|done]. by destruct st. }
  assert (Hok' : sched_ok s').
  { apply (sched_ok_intro s); [done|done|done|done| | | |]; change (run_list s') with (h :: l); change (pqueue s') with l; change (current s') with h.
    - pose proof (ok_idle _ Hok) as Hi. unfold run_list in Hi. rewrite Hq, elem_of_cons in Hi. destruct Hi; [congruence|done].
    - by rewrite Hf, decide_True.
    - intros x Hx. rewrite Hf. apply NoDup_cons in Hnd as [Hhl _]. rewrite !decide_False by (intros ->; tauto).
      apply Hhq, elem_of_cons. by right.
    - intros x Hx. rewrite Has. unfold fell_asleep. case_decide; [done|]. rewrite (asleep_None s x Hok). unfold run_list.
      rewrite Hq. set_solver. }
  split; [constructor; [done|done|done|]|].
  - intros p. rewrite quit_pqueue, Hq. unfold line. change (run_list s') with (h :: l).
    apply line_of_ext. intros x. by rewrite (sd_prio _ _ Hd).
  - apply sorted_dispatched; [|apply Hok']. change (pqueue s') with l. change (current s') with h.
    eapply Forall_impl; [exact Hh|]. intros x Hx. cbn in Hx |- *. by rewrite !(sd_prio _ _ Hd).
Qed.

Lemma chSchGoSleepS_spec s st :
  sched_ok s -> current s <> idle -> put_to_sleep st ->
  wp (chSchGoSleepS st) (fun _ s' => becomes s (fell_asleep st s) (quit s) s' /\ dispatched s') s.
Proof. intros Hok Hni (Hr & Hcu & _). by apply gosleep_spec. Qed.

(** Nothing depends on the wake-up words or the message queues. *)
Lemma same_sched s s' :
  pqueue s' = pqueue s -> current s' = current s ->
  (forall x, prio (thd s' x) = prio (thd s x)) -> (forall x, state (thd s' x) = state (thd s x)) ->
  (sched_ok s -> sched_ok s') /\ (dispatched s -> dispatched s') /\ (forall x, asleep s' x = asleep s x) /\
  (forall p, line s' p = line s p) /\ (forall x, prios s' x = prios s x).
Proof.
  intros Hq Hc Hpr Hst. assert (Hl : forall p, line s' p = line s p).
  { intros p. unfold line, run_list. rewrite Hq, Hc. by apply line_of_ext. }
  split; [|split; [|split; [intros x; unfold asleep; by rewrite Hst|done]]].
  - intros [H1 H2 H3 H4 H5 H6]. constructor; unfold run_list; rewrite ?Hq, ?Hc; [|intros x..|done| |done].
    + intros x. unfold prios. rewrite Hpr. apply H1.
    + rewrite Hst. apply H2.
    + rewrite Hst. apply H3.
    + eapply sorted_ext; [|exact H5]. intros. symmetry. apply Hpr.
  - unfold dispatched, firstprio, prios. rewrite Hq, Hc, Hpr. destruct (pqueue s); [done|]. by rewrite Hpr.
Qed.

Lemma set_u_view w t s :
  (sched_ok s -> sched_ok (set_u w t s)) /\ (dispatched s -> dispatched (set_u w t s)) /\
  (forall x, asleep (set_u w t s) x = asleep s x) /\
  (forall p, line (set_u w t s) p = line s p) /\ (forall x, prios (set_u w t s) x = prios s x).
Proof. apply same_sched; [done|done|intros; by autorewrite with sched..]. Qed.

(** A sleeping thread takes the processor from one of lower priority. *)
Lemma take_over_spec s t st :
  sched_ok s -> dispatched s -> asleep s t = Some st -> prios s t > prios s (current s) ->
  wp (sch_ready_ahead (current s) ;;; modify (set_state CH_STATE_CURRENT t) ;;; modify (set_current t))
     (fun _ s' => becomes s (awoken s t) (joined s t) s' /\ dispatched s') s.
Proof.
  intros Hok Hdis Hst Hgt. unfold sch_ready_ahead. apply wp_bind, wp_bind, wp_get, wp_bind. unfold wp at 1, assert.
  rewrite (proj2 (ok_current _ Hok _) eq_refl). cbn [can_be_readied bool_decide ret].
  change (can_be_readied CH_STATE_CURRENT) with true. cbn [ret]. apply wp_bind. unfold wp at 1, modify.
  unfold ch_pqueue_insert_ahead. apply wp_bind, wp_get. set (c := current s) in *. set (s1 := set_state CH_STATE_READY c s).
  change (pqueue s1) with (pqueue s).
  assert (Hpr : forall x, prios s x = prio (thd s1 x)) by (intros; unfold prios, s1; by rewrite prio_set_state).
  destruct (insert_ahead_spec (fun x => prio (thd s1 x)) c (pqueue s)) as (l & -> & Hp & Hsort & Hl).
  { rewrite <- Hpr. apply Hok. }
  { eapply sorted_ext; [exact Hpr|apply Hok]. }
  unfold wp at 1, put. apply wp_bind. unfold wp, modify. set (s' := set_current t _).
  assert (Hf : forall x, state (thd s' x) = if decide (x = t) then CH_STATE_CURRENT else if decide (x = c) then CH_STATE_READY else state (thd s x)).
  { intros x. unfold s'. change (thd (set_current t ?a)) with (thd a). rewrite state_set_state.
    change (thd (set_pqueue l ?a)) with (thd a). unfold s1. by rewrite state_set_state. }
  assert (Hd : same_data s s').
  { constructor; intros x; unfold s', prios; change (thd (set_current t ?a)) with (thd a); autorewrite with sched;
      change (thd (set_pqueue l ?a)) with (thd a); unfold s1; by autorewrite with sched. }
  assert (Hnot : t ∉ run_list s) by (rewrite <- asleep_None by done; by rewrite Hst).
  assert (Hnt : t <> c /\ t ∉ pqueue s) by (unfold run_list in Hnot; rewrite elem_of_cons in Hnot; tauto).
  assert (Hrun : run_list s' = t :: l) by done. assert (Hpq : pqueue s' = l) by done. assert (Hcur : current s' = t) by done.
  assert (Has : forall x, asleep s' x = awoken s t x).
  { intros x. unfold awoken, asleep. rewrite Hf. case_decide; [done|]. case_decide as Hxc; [|done].
    rewrite Hxc. unfold c. by rewrite (proj2 (ok_current _ Hok _) eq_refl). }
  assert (Hok' : sched_ok s').
  { apply (sched_ok_intro s); [done|done| | | | | |]; rewrite ?Hrun, ?Hpq, ?Hcur.
    - rewrite Hp. apply NoDup_cons. split; [done|]. apply NoDup_cons. split; [by apply current_not_ready|apply Hok].
    - eapply sorted_ext; [|exact Hsort]. intros; symmetry; apply Hpr.
    - rewrite Hp. apply elem_of_cons. right. apply Hok.
    - by rewrite Hf, decide_True.
    - intros x Hx. rewrite Hp, elem_of_cons in Hx. rewrite Hf. rewrite decide_False by (intros ->; tauto).
      case_decide; [done|]. apply (ok_ready _ Hok). tauto.
    - intros x Hx. rewrite Has. rewrite Hp, elem_of_cons in Hx. unfold awoken. rewrite decide_False by tauto.
      rewrite (asleep_None s x Hok). tauto. }
  pose proof (dispatched_sorted s Hok Hdis) as Hall. fold c in Hall. split; [constructor; [done|done|done|]|].
  - intros p. unfold line, joined. rewrite Hrun. rewrite (line_of_ext (prios s') (prios s)) by apply Hd. rewrite line_of_cons.
    rewrite (line_of_ext (prios s) (fun x => prio (thd s1 x)) _ l) by done. rewrite Hl. unfold line, run_list. rewrite line_of_cons.
    fold c. rewrite <- Hpr. rewrite (line_of_ext (fun x => prio (thd s1 x)) (prios s)) by done.
    repeat case_decide; rewrite ?app_nil_r; try done; [lia|]. rewrite line_of_empty; [done|].
    eapply Forall_impl; [exact Hall|]. intros x Hx. cbn in *. lia.
  - apply sorted_dispatched; [|apply Hok']. rewrite Hpq, Hcur, Hp.
    constructor; [rewrite !(sd_prio _ _ Hd); lia|]. eapply Forall_impl; [exact Hall|].
    intros x Hx. cbn in Hx |- *. rewrite !(sd_prio _ _ Hd). lia.
Qed.

Lemma chSchWakeupS_spec s t st msg :
  sched_ok s -> dispatched s -> asleep s t = Some st -> st <> CH_STATE_FINAL ->
  wp (chSchWakeupS t msg) (fun _ s' => becomes (set_u msg t s) (awoken s t) (joined s t) s' /\ dispatched s') s.
Proof.
  intros Hok Hdis Hst Hfin. destruct (set_u_view msg t s) as (Hok1 & Hdis1 & Has1 & Hl1 & Hp1). specialize (Hok1 Hok). specialize (Hdis1 Hdis).
  assert (Hlines : forall p, joined (set_u msg t s) t p = joined s t p) by (intros; unfold joined; by rewrite Hl1, Hp1).
  assert (Haw : forall x, awoken (set_u msg t s) t x = awoken s t x) by (intros; unfold awoken; by rewrite Has1).
  assert (Hgo : forall s', becomes (set_u msg t s) (awoken (set_u msg t s) t) (joined (set_u msg t s) t) s' ->
    becomes (set_u msg t s) (awoken s t) (joined s t) s').
  { intros s' [? ? Ha Hl]. constructor; [done|done|intros; by rewrite Ha|intros; by rewrite Hl]. }
  unfold chSchWakeupS. apply wp_bind, wp_get, wp_bind. unfold wp at 1, assert.
  rewrite (proj2 (Z.leb_le _ _)) by exact Hdis. rewrite orb_true_r. cbn [ret]. apply wp_bind. unfold wp at 1, modify.
  assert (Hst1 : asleep (set_u msg t s) t = Some st) by by rewrite Has1.
  case_decide as Hle.
  - eapply wp_conseq; [by eapply sch_ready_behind_spec|]. intros ? s' [Hb Hc]. split; [by apply Hgo|].
    apply sorted_dispatched; [|apply Hb]. pose proof (b_data _ _ _ _ Hb) as Hd.
    apply Forall_forall. intros x Hx. rewrite Hc, !(sd_prio _ _ Hd), !Hp1. change (current (set_u msg t s)) with (current s).
    apply (ok_ready _ (b_ok _ _ _ _ Hb)) in Hx. assert (Hax : asleep s' x = None) by (unfold asleep; by rewrite Hx).
    rewrite (b_asleep _ _ _ _ Hb) in Hax. unfold awoken in Hax. case_decide as Hxt; [by rewrite Hxt|].
    rewrite Has1, (asleep_None s x Hok) in Hax. apply elem_of_cons in Hax as [->|Hax]; [done|].
    pose proof (dispatched_sorted s Hok Hdis) as Hall. rewrite Forall_forall in Hall. by apply Hall.
  - apply (wp_conseq _ (fun _ s' => becomes (set_u msg t s) (awoken (set_u msg t s) t) (joined (set_u msg t s) t) s' /\ dispatched s')).
    + change (current s) with (current (set_u msg t s)). eapply take_over_spec; [done|done|exact Hst1|].
      rewrite !Hp1. unfold prios. cbn [current set_u set_thread]. lia.
    + intros ? s' [Hb ?]. split; [by apply Hgo|done].
Qed.

(** ** Sequences of events *)

(** Making threads ready, each with its message. *)
Fixpoint ready_all (ts : list (nat * Z)) : K unit :=
  match ts with
  | [] => ret tt
  | (t, msg) :: ts => modify (set_u msg t) ;;; chSchReadyI t ;;; ready_all ts
  end.

(** What may happen: the running thread sleeps, yields, wakes another one or
    readies some and reschedules; an interrupt readies some; a time-out fires. *)
Inductive kevent :=
  | KSleep (st : tstate_t)
  | KYield
  | KWakeup (t : nat) (msg : Z)
  | KReady (ts : list (nat * Z))
  | KInterrupt (ts : list (nat * Z))
  | KTimeout (t : nat).

Definition kstep (e : kevent) : K unit :=
  match e with
  | KSleep st => chSchGoSleepS st
  | KYield => chSchDoYieldS
  | KWakeup t msg => chSchWakeupS t msg
  | KReady ts => ready_all ts ;;; chSchRescheduleS
  | KInterrupt ts => ready_all ts ;;; irq_epilogue
  | KTimeout t => sch_wakeup t ;;; irq_epilogue
  end.

(** A thread that can be made ready. *)
Definition wakeable (s : os_instance) (t : nat) : Prop := exists st, asleep s t = Some st /\ st <> CH_STATE_FINAL.

Definition possible (s : os_instance) (e : kevent) : Prop :=
  match e with
  | KSleep st => current s <> idle /\ put_to_sleep st
  | KYield => True
  | KWakeup t _ => wakeable s t
  | KReady ts | KInterrupt ts => NoDup (map fst ts) /\ Forall (wakeable s) (map fst ts)
  | KTimeout t => t <> current s /\ (asleep s t = None \/ wakeable s t)
  end.

(** The line of a priority afterwards. *)
Definition line_after (s : os_instance) (e : kevent) (p : Z) : list nat :=
  match e with
  | KSleep _ => quit s p
  | KYield => rotated s p
  | KWakeup t _ => joined s t p
  | KReady ts | KInterrupt ts => line s p ++ line_of (prios s) p (map fst ts)
  | KTimeout t => match asleep s t with None => line s p | Some _ => joined s t p end
  end.

Lemma ready_all_spec ts : forall s,
  sched_ok s -> NoDup (map fst ts) -> Forall (wakeable s) (map fst ts) ->
  wp (ready_all ts) (fun _ s' => sched_ok s' /\ (forall x, prios s' x = prios s x) /\
    (forall p, line s' p = line s p ++ line_of (prios s) p (map fst ts))) s.
Proof.
  induction ts as [|[t msg] ts IH]; intros s Hok Hnd Hw; cbn [ready_all map fst] in *.
  { apply wp_ret. split; [done|]. split; [done|]. intros; by rewrite app_nil_r. }
  apply NoDup_cons in Hnd as [Hnt Hnd]. apply Forall_cons in Hw as [(st & Hst & Hfin) Hw].
  destruct (set_u_view msg t s) as (Hok1 & _ & Has1 & Hl1 & Hp1). apply wp_bind. unfold wp at 1, modify. apply wp_bind.
  eapply wp_conseq; [apply (sch_ready_behind_spec _ t st); [by apply Hok1|by rewrite Has1|done]|].
  intros ? s1 [[Hok2 Hd2 Has2 Hl2] _]. assert (Hpr : forall x, prios s1 x = prios s x) by (intros; by rewrite (sd_prio _ _ Hd2)).
  eapply wp_conseq; [apply IH; [done|done|]|].
  - apply Forall_forall. intros x Hx. rewrite Forall_forall in Hw. destruct (Hw x Hx) as (st' & Hs' & Hf').
    exists st'. split; [|done]. rewrite Has2. unfold awoken. rewrite decide_False by (intros ->; done). by rewrite Has1.
  - intros ? s2 (Hok3 & Hp3 & Hl3). split; [done|]. split; [intros; by rewrite Hp3|].
    intros p. rewrite Hl3, Hl2. unfold joined. rewrite Hl1, Hp1, <- app_assoc, line_of_cons. do 2 f_equal. by apply line_of_ext.
Qed.

Lemma then_reschedule (m : K unit) s (lines : Z -> list nat) :
  wp m (fun _ s' => sched_ok s' /\ (forall x, prios s' x = prios s x) /\ forall p, line s' p = lines p) s ->
  wp (m ;;; chSchRescheduleS) (fun _ s' => sched_ok s' /\ dispatched s' /\ (forall x, prios s' x = prios s x) /\ forall p, line s' p = lines p) s.
Proof.
  intros Hm. apply wp_bind. eapply wp_conseq; [exact Hm|]. intros ? s1 (Hok & Hp & Hl).
  eapply wp_conseq; [by apply chSchRescheduleS_spec|]. intros ? s2 [[Hok2 Hd2 _ Hl2] Hdis].
  split; [done|]. split; [done|]. split; [intros; by rewrite (sd_prio _ _ Hd2)|]. intros; by rewrite Hl2.
Qed.

Lemma then_epilogue (m : K unit) : forall s, (m ;;; irq_epilogue) s = (m ;;; chSchRescheduleS) s.
Proof. intros s. unfold bind. destruct (m s) as [[]| |]; [apply irq_epilogue_reschedules|done|done]. Qed.

Lemma sch_wakeup_spec s t :
  sched_ok s -> possible s (KTimeout t) ->
  wp (sch_wakeup t) (fun _ s' => sched_ok s' /\ (forall x, prios s' x = prios s x) /\ (forall p, line s' p = line_after s (KTimeout t) p)) s.
Proof.
  intros Hok [Hnc Hc]. unfold sch_wakeup. apply wp_bind, wp_get. cbn [line_after]. case_decide as Hr.
  - apply wp_ret. assert (Hn : asleep s t = None) by (unfold asleep; by rewrite Hr). by rewrite Hn.
  - destruct Hc as [Hn|(st & Hst & Hfin)].
    { apply (asleep_None s t Hok), elem_of_cons in Hn as [?|Hn]; [done|]. by apply (ok_ready _ Hok) in Hn. }
    rewrite Hst. destruct (set_u_view MSG_TIMEOUT t s) as (Hok1 & _ & Has1 & Hl1 & Hp1). apply wp_bind. unfold wp at 1, modify.
    eapply wp_conseq; [apply (sch_ready_behind_spec _ t st); [by apply Hok1|by rewrite Has1|done]|].
    intros ? s1 [[Hok2 Hd2 _ Hl2] _]. split; [done|]. split; [intros; by rewrite (sd_prio _ _ Hd2)|].
    intros p. rewrite Hl2. unfold joined. by rewrite Hl1, Hp1.
Qed.

(** One event. *)
Lemma kstep_spec s e :
  sched_ok s -> dispatched s -> possible s e ->
  wp (kstep e) (fun _ s' => sched_ok s' /\ dispatched s' /\ (forall x, prios s' x = prios s x) /\ forall p, line s' p = line_after s e p) s.
Proof.
  intros Hok Hdis Hpos.
  assert (Hb : forall w lines s', becomes s w lines s' /\ dispatched s' ->
    sched_ok s' /\ dispatched s' /\ (forall x, prios s' x = prios s x) /\ forall p, line s' p = lines p).
  { intros w lines s' [[? Hd ? ?] ?]. split_and!; [done|done|apply Hd|done]. }
  destruct e as [st| |t msg|ts|ts|t]; cbn [kstep line_after].
  - destruct Hpos. eapply wp_conseq; [by apply chSchGoSleepS_spec|]. intros ? s'. apply Hb.
  - eapply wp_conseq; [by apply chSchDoYieldS_spec|]. intros ? s'. apply Hb.
  - destruct Hpos as (st & Hst & Hfin). eapply wp_conseq; [by eapply chSchWakeupS_spec|]. intros ? s' [[? Hd ? ?] ?].
    split_and!; [done|done| |done]. intros x. rewrite (sd_prio _ _ Hd). by apply set_u_view.
  - destruct Hpos. apply then_reschedule. by apply ready_all_spec.
  - destruct Hpos. eapply wp_eq; [apply then_epilogue|]. apply then_reschedule. by apply ready_all_spec.
  - eapply wp_eq; [apply then_epilogue|]. apply then_reschedule. by apply sch_wakeup_spec.
Qed.

(** ** Which threads an event wakes *)

Definition words (s : os_instance) (t : nat) : Z := u (thd s t).

Definition woken (e : kevent) : list nat :=
  match e with
  | KSleep _ | KYield => []
  | KWakeup t _ | KTimeout t => [t]
  | KReady ts | KInterrupt ts => map fst ts
  end.

Definition asleep_after (s : os_instance) (e : kevent) (x : nat) : option tstate_t :=
  if decide (x ∈ woken e) then None
  else match e with KSleep st => fell_asleep st s x | _ => asleep s x end.

(** The threads an event does not wake keep their words. *)
Definition only_woken (s : os_instance) (A : nat -> option tstate_t) (ts : list nat) (s' : os_instance) : Prop :=
  sched_ok s' /\ (forall x, prios s' x = prios s x) /\ (forall x, asleep s' x = A x) /\
  (forall x, x ∉ ts -> words s' x = words s x).

Lemma becomes_only_woken s w lines s' A ts :
  becomes s w lines s' -> (forall x, w x = A x) -> only_woken s A ts s'.
Proof. intros [H1 [Hp Hu _] H3 _] Hw. split; [done|]. split; [done|]. split; [intros x; by rewrite H3|]. intros x _. apply Hu. Qed.

Lemma ready_one s t st msg :
  sched_ok s -> asleep s t = Some st -> st <> CH_STATE_FINAL ->
  wp (modify (set_u msg t) ;;; chSchReadyI t) (fun _ => only_woken s (awoken s t) [t]) s.
Proof.
  intros Hok Hst Hfin. destruct (set_u_view msg t s) as (Hok1 & _ & Has1 & _ & Hp1). apply wp_bind. unfold wp at 1, modify.
  eapply wp_conseq; [apply (sch_ready_behind_spec _ t st); [by apply Hok1|by rewrite Has1|done]|].
  intros ? s1 [[Hok2 [Hp Hu _] Ha _] _]. split; [done|]. split; [intros x; by rewrite Hp|]. split.
  - intros x. rewrite Ha. unfold awoken. by rewrite Has1.
  - intros x Hx. rewrite list_elem_of_singleton in Hx. unfold words. by rewrite Hu, u_set_u, decide_False.
Qed.

Lemma ready_all_woken ts : forall s,
  sched_ok s -> NoDup (map fst ts) -> Forall (wakeable s) (map fst ts) ->
  wp (ready_all ts) (fun _ => only_woken s (fun x => if decide (x ∈ map fst ts) then None else asleep s x) (map fst ts)) s.
Proof.
  induction ts as [|[t msg] ts IH]; intros s Hok Hnd Hw; cbn [ready_all map fst] in *; [by apply wp_ret|].
  apply NoDup_cons in Hnd as [Hnt Hnd]. apply Forall_cons in Hw as [(st & Hst & Hfin) Hw].
  eapply (wp_eq _ ((modify (set_u msg t) ;;; chSchReadyI t) ;;; ready_all ts)).
  { unfold bind at 1 3. unfold modify. unfold bind. done. }
  apply wp_bind. eapply wp_conseq; [by eapply ready_one|]. intros ? s1 (Hok1 & Hp1 & Ha1 & Hu1).
  eapply wp_conseq; [apply IH; [done|done|]|].
  - apply Forall_forall. intros x Hx. rewrite Forall_forall in Hw. destruct (Hw x Hx) as (st' & Hs' & Hf').
    exists st'. split; [|done]. rewrite Ha1. unfold awoken. by rewrite decide_False by (intros ->; done).
  - intros ? s2 (Hok2 & Hp2 & Ha2 & Hu2). split; [done|]. split; [intros; by rewrite Hp2|]. split.
    + intros x. rewrite Ha2, Ha1. unfold awoken. destruct (decide (x = t)) as [->|Hx].
      * rewrite (decide_True (P := t ∈ t :: _)) by (apply elem_of_cons; by left). by case_decide.
      * apply decide_ext. rewrite elem_of_cons. tauto.
    + intros x Hx. rewrite not_elem_of_cons in Hx. rewrite Hu2 by tauto. apply Hu1. rewrite list_elem_of_singleton. tauto.
Qed.

Lemma then_reschedule_woken s A ts s1 :
  only_woken s A ts s1 -> wp chSchRescheduleS (fun _ s' => only_woken s A ts s' /\ dispatched s') s1.
Proof.
  intros (Hok & Hp & Ha & Hu). eapply wp_conseq; [by apply chSchRescheduleS_spec|]. intros ? s' [[Hok' [Hp' Hu' _] Ha' _] Hd].
  split; [|done]. split; [done|]. split; [intros x; by rewrite Hp'|]. split; [intros x; by rewrite Ha'|].
  intros x Hx. unfold words. rewrite Hu'. by apply Hu.
Qed.

Lemma only_woken_ext s A A' ts s' : (forall x, A x = A' x) -> only_woken s A ts s' -> only_woken s A' ts s'.
Proof. intros He (H1 & H2 & H3 & H4). split; [done|]. split; [done|]. split; [intros x; by rewrite H3|done]. Qed.

Lemma kstep_woken s e :
  sched_ok s -> dispatched s -> possible s e ->
  wp (kstep e) (fun _ s' => only_woken s (asleep_after s e) (woken e) s' /\ dispatched s') s.
Proof.
  intros Hok Hdis Hpos. unfold asleep_after.
  assert (Hone : forall t x, awoken s t x = if decide (x ∈ [t]) then None else asleep s x).
  { intros t x. unfold awoken. apply decide_ext. by rewrite list_elem_of_singleton. }
  destruct e as [st| |t msg|ts|ts|t]; cbn [kstep woken].
  - destruct Hpos. eapply wp_conseq; [by apply chSchGoSleepS_spec|]. intros ? s' [Hb ?]. split; [|done].
    by eapply becomes_only_woken.
  - eapply wp_conseq; [by apply chSchDoYieldS_spec|]. intros ? s' [Hb ?]. split; [|done]. by eapply becomes_only_woken.
  - destruct Hpos as (st & Hst & Hfin). eapply wp_conseq; [by eapply chSchWakeupS_spec|]. intros ? s' [[? [Hp Hu _] Ha _] ?].
    split; [|done]. split; [done|]. split; [intros x; rewrite Hp; by apply set_u_view|]. split; [intros x; by rewrite Ha|].
    intros x Hx. rewrite list_elem_of_singleton in Hx. unfold words. by rewrite Hu, u_set_u, decide_False.
  - destruct Hpos. apply wp_bind. eapply wp_conseq; [by apply ready_all_woken|]. intros ? s1 H1. by apply then_reschedule_woken.
  - destruct Hpos. eapply wp_eq; [apply then_epilogue|]. apply wp_bind. eapply wp_conseq; [by apply ready_all_woken|].
    intros ? s1 H1. by apply then_reschedule_woken.
  - destruct Hpos as [Hnc Hw]. eapply wp_eq; [apply then_epilogue|]. apply wp_bind.
    eapply (wp_conseq _ (fun _ => only_woken s (awoken s t) [t])).
    + unfold sch_wakeup. apply wp_bind, wp_get. case_decide as Hr.
      * apply wp_ret. split; [done|]. split; [done|]. split; [|done]. intros x. unfold awoken. case_decide as Hx; [|done].
        subst x. unfold asleep. by rewrite Hr.
      * destruct Hw as [Hn|(st & Hst & Hfin)]; [|by eapply ready_one].
        apply (asleep_None s t Hok), elem_of_cons in Hn as [?|Hn]; [done|]. by apply (ok_ready _ Hok) in Hn.
    + intros ? s1 H1. apply then_reschedule_woken. eapply only_woken_ext; [|exact H1]. apply Hone.
Qed.

(** The running thread is at the head of the highest line that is not empty. *)
Definition runs_highest (s : os_instance) : Prop :=
  head (line s (prios s (current s))) = Some (current s) /\ forall p, prios s (current s) < p -> line s p = [].

Lemma dispatched_runs_highest s : sched_ok s -> dispatched s -> runs_highest s.
Proof.
  intros Hok Hd. pose proof (dispatched_sorted s Hok Hd) as Hall. split.
  - unfold line, run_list. by rewrite line_of_cons, decide_True.
  - intros p Hp. apply line_of_empty. constructor; [done|]. eapply Forall_impl; [exact Hall|]. intros; cbn in *; lia.
Qed.

(** C12: The scheduler is a set of lines, one per priority: a thread that becomes
    ready, by a call, an interrupt or a time-out, joins the line of its
    priority at the end; the thread that sleeps leaves its line; the one that
    yields goes to its end; a pre-emption changes no line.  After every event
    the running thread is the head of the highest line that is not empty, and
    no assertion of the scheduler fails. *)
Theorem scheduler_refines_lines (s : os_instance) (e : kevent) :
  sched_ok s -> dispatched s -> possible s e ->
  wp (kstep e) (fun _ s' => sched_ok s' /\ dispatched s' /\ runs_highest s' /\ forall p, line s' p = line_after s e p) s.
Proof.
  intros Hok Hd Hp. eapply wp_conseq; [by apply kstep_spec|]. intros ? s' (Hok' & Hd' & _ & Hl).
  split; [done|]. split; [done|]. split; [by apply dispatched_runs_highest|done].
Qed.

(** Runs of events that can happen. *)
Inductive kruns : os_instance -> list kevent -> os_instance -> Prop :=
  | kruns_nil s : kruns s [] s
  | kruns_cons s e es s1 s2 : possible s e -> kstep e s = Done (tt, s1) -> kruns s1 es s2 -> kruns s (e :: es) s2.

(** Thread [t] gives up its turn in a run: it sleeps or yields. *)
Inductive gives_way (t : nat) : os_instance -> list kevent -> Prop :=
  | gw_here s e es : current s = t -> e = KYield \/ (exists st, e = KSleep st) -> gives_way t s (e :: es)
  | gw_later s e es s1 : kstep e s = Done (tt, s1) -> gives_way t s1 es -> gives_way t s (e :: es).

Lemma line_after_head s e t :
  head (line s (prios s t)) = Some t -> ~ gives_way t s [e] -> head (line_after s e (prios s t)) = Some t.
Proof.
  intros Hh Hn. set (p := prios s t) in *.
  assert (Hin : forall l, head (line s p ++ l) = Some t) by (intros l; by destruct (line s p)).
  assert (Hquit : current s <> t -> head (quit s p) = Some t).
  { intros Hc. unfold quit. case_decide as Hp; [|done]. unfold line, run_list in Hh. rewrite line_of_cons, decide_True in Hh by done.
    by injection Hh. }
  destruct e as [st| |t' msg|ts|ts|t']; cbn [line_after]; [| |by apply Hin..|].
  - apply Hquit. intros Hc. apply Hn, gw_here; [done|]. right. by exists st.
  - unfold rotated. assert (Hc : current s <> t) by (intros Hc; apply Hn, gw_here; auto).
    specialize (Hquit Hc). by destruct (quit s p).
  - destruct (asleep s t'); [apply Hin|done].
Qed.

(** C13: A thread is never overtaken by another of its priority: in every run
    of events, as long as the thread at the head of a line does not itself
    sleep or yield, it stays at the head, and whenever a thread of its priority
    runs it is this one.  Interrupts, time-outs, wake-ups and threads of higher
    priority that run in between do not change that. *)
Theorem peers_never_overtake (s s' : os_instance) (es : list kevent) (t : nat) :
  sched_ok s -> dispatched s -> kruns s es s' ->
  head (line s (prios s t)) = Some t -> ~ gives_way t s es ->
  head (line s' (prios s' t)) = Some t /\ (prios s' (current s') = prios s' t -> current s' = t).
Proof.
  intros Hok Hd Hrun. induction Hrun as [s|s e es s1 s2 Hp He Hrun IH]; intros Hh Hn.
  - split; [done|]. intros Hc. destruct (dispatched_runs_highest s Hok Hd) as [Hr _]. rewrite Hc in Hr. congruence.
  - pose proof (kstep_spec s e Hok Hd Hp) as Hs. unfold wp in Hs. rewrite He in Hs. destruct Hs as (Hok1 & Hd1 & Hp1 & Hl1).
    apply IH; [done|done| |intros Hg; apply Hn; by eapply gw_later].
    rewrite Hl1, Hp1. apply line_after_head; [done|]. intros Hg. apply Hn.
    inversion Hg as [? ? ? Hc Hx|? ? ? ? _ Hg']; subst; [by apply gw_here|inversion Hg'].
Qed.

(** The idle thread, the shell and a sensor thread of one priority, and the
    registry thread above them; the shell runs. *)
Definition four_threads : os_instance :=
  Os (fun t => match t with
      | 0%nat => Thread IDLEPRIO CH_STATE_READY 0 []
      | 1%nat => Thread 138 CH_STATE_CURRENT 0 []
      | 2%nat => Thread 138 CH_STATE_SLEEPING 0 []
      | 3%nat => Thread 148 CH_STATE_SUSPENDED 0 []
      | _ => Thread 128 CH_STATE_WTSTART 0 []
      end) [0%nat] 1%nat.

Lemma four_threads_ok : sched_ok four_threads /\ dispatched four_threads.
Proof.
  split; [|unfold dispatched, firstprio, prios, thd; cbn; unfold IDLEPRIO; lia]. constructor.
  - intros [|[|[|[|t]]]]; unfold prios; cbn; unfold IDLEPRIO; lia.
  - intros [|[|[|[|t]]]]; cbn; split; try done; lia.
  - intros [|[|[|[|t]]]]; cbn; split; intros H; try done; try set_solver; apply list_elem_of_singleton in H; lia.
  - by repeat constructor; set_solver.
  - by repeat constructor.
  - set_solver.
Qed.

Lemma four_threads_interrupt :
  possible four_threads (KInterrupt [(2%nat, MSG_OK); (3%nat, MSG_OK)]) /\
  exists s', kstep (KInterrupt [(2%nat, MSG_OK); (3%nat, MSG_OK)]) four_threads = Done (tt, s') /\ current s' = 3%nat /\
    exists s2, kstep (KSleep CH_STATE_SUSPENDED) s' = Done (tt, s2) /\ current s2 = 1%nat.
Proof.
  split.
  - split; [repeat constructor; set_solver|]. repeat constructor; [by exists CH_STATE_SLEEPING|by exists CH_STATE_SUSPENDED].
  - eexists. split; [vm_compute; reflexivity|]. split; [reflexivity|]. eexists. split; vm_compute; reflexivity.
Qed.

Lemma scheduler_refines_lines_witness :
  possible four_threads (KInterrupt [(2%nat, MSG_OK); (3%nat, MSG_OK)]) /\
  wp (kstep (KInterrupt [(2%nat, MSG_OK); (3%nat, MSG_OK)])) (fun _ s' => current s' = 3%nat /\ line s' 138 = [1; 2]%nat) four_threads.
Proof.
  destruct four_threads_interrupt as (H & s1 & H1 & Hc & _). split; [exact H|].
  pose proof (scheduler_refines_lines four_threads _ (proj1 four_threads_ok) (proj2 four_threads_ok) H) as Hw.
  unfold wp in *. rewrite H1 in *. destruct Hw as (_ & _ & _ & Hl). split; [exact Hc|exact (Hl 138)].
Defined.

(** The registry thread runs in between; then the shell goes on, although the
    sensor thread has become ready. *)
Lemma peers_never_overtake_witness : exists s',
  kruns four_threads [KInterrupt [(2%nat, MSG_OK); (3%nat, MSG_OK)]; KSleep CH_STATE_SUSPENDED] s' /\
  head (line s' (prios s' 1%nat)) = Some 1%nat /\ (prios s' (current s') = prios s' 1%nat -> current s' = 1%nat).
Proof.
  destruct four_threads_interrupt as (H & s1 & H1 & Hc & s2 & H2 & _). exists s2.
  assert (Hrun : kruns four_threads [KInterrupt [(2%nat, MSG_OK); (3%nat, MSG_OK)]; KSleep CH_STATE_SUSPENDED] s2).
  { eapply kruns_cons; [exact H|exact H1|]. eapply kruns_cons; [|exact H2|apply kruns_nil].
    split; [rewrite Hc; discriminate|by repeat split]. }
  split; [exact Hrun|].
  apply (peers_never_overtake four_threads s2 _ 1%nat (proj1 four_threads_ok) (proj2 four_threads_ok) Hrun); [vm_compute; reflexivity|].
  intros Hg. inversion Hg as [? ? ? ? [?|[? ?]]|? ? ? s3 H3 Hg2]; subst; [done|done|].
  rewrite H1 in H3. injection H3 as <-. inversion Hg2 as [? ? ? Hx|? ? ? ? ? Hg3]; [by rewrite Hc in Hx|inversion Hg3].
Defined.
End Sched.
