(* ===== verification/Msg.v ===== *)
(** * Messages between threads

    [src/ChibiOS/os/rt/src/chmsg.c]: the shell command [sch] sends a new interval
    to a sensor thread with [chMsgSend] and sleeps until it is answered; the
    sensor thread waits for it, or for its time-out, with [chMsgWaitTimeout] and
    answers with [chMsgRelease].  The operations run on the scheduler of
    [Sched]; a call that sleeps is in two parts, up to the switch and from the
    moment the thread runs again.

    Proved, for any number of threads, interrupts and time-outs in any order:
    no assertion fails, messages to a thread are handled in the order in which
    they were sent, each once, and a send returns when its message has been
    handled.  [chMsgSend] wakes the receiver without storing a wake-up message:
    a wait that follows a time-out then ends as if it had timed out, and the
    message is found by the next one ([stale_wakeup]). *)

From stdpp Require Import functions.
From S2P Require Import Prelude Oslib Sched.
Import Sched.

Module Msg.

(** ** Operations *)

(** Up to the switch, and what is returned after it. *)
Definition chMsgSend (tp : nat) (msg : Z) : K unit :=
  let! s := get in
  modify (set_u msg (current s)) ;;;
  modify (fun s => set_msgqueue (msgqueue (thd s tp) ++ [current s]) tp s) ;;;
  let! s := get in
  (if decide (state (thd s tp) = CH_STATE_WTMSG) then chSchReadyI tp else ret tt) ;;;
  chSchGoSleepS CH_STATE_SNDMSGQ.

Definition chMsgSend_return : K Z := gets (fun s => u (thd s (current s))).

Definition chMsgIsPendingI (s : os_instance) (t : nat) : bool := negb (bool_decide (msgqueue (thd s t) = [])).

(** The head of the queue is taken as a thread, which the header of an empty
    queue is not. *)
Definition fetch_message : K nat :=
  let! s := get in
  match msgqueue (thd s (current s)) with
  | [] => halt "empty message queue"
  | t :: q =>
      modify (set_msgqueue q (current s)) ;;;
      modify (set_state CH_STATE_SNDMSG t) ;;;
      ret t
  end.

(** [chMsgWaitTimeoutS]: a pending message at once, or sleep. *)
Definition chMsgWaitTimeoutS : K (option nat) :=
  let! s := get in
  if chMsgIsPendingI s (current s) then let! t := fetch_message in ret (Some t)
  else chSchGoSleepS CH_STATE_WTMSG ;;; ret None.

Definition chMsgWaitTimeoutS_resume : K (option nat) :=
  let! s := get in
  if decide (u (thd s (current s)) <> MSG_OK) then ret None
  else let! t := fetch_message in ret (Some t).

Definition chMsgGet (t : nat) : K Z :=
  let! s := get in
  assert (bool_decide (state (thd s t) = CH_STATE_SNDMSG)) "invalid state" ;;;
  ret (u (thd s t)).

Definition chMsgRelease (t : nat) (msg : Z) : K unit :=
  let! s := get in
  assert (bool_decide (state (thd s t) = CH_STATE_SNDMSG)) "invalid state" ;;;
  chSchWakeupS t msg.

(** ** The threads *)

(** Where a thread is: in its own code or asleep in another call, in
    [chMsgSend], in [chMsgWaitTimeout] with or without its timer armed, or
    between receiving a message and answering it. *)
Inductive place :=
  | PFree
  | PSend (to : nat) (msg : Z)
  | PWait (armed : bool)
  | PGot (from : nat).

(** Messages as (from, to, what): those sent, handled, and whose send has
    returned with an answer. *)
Record msys := Msys {
  os : os_instance;
  at_ : nat -> place;
  interval : nat -> Z;
  sent_log : list (nat * nat * Z);
  handled_log : list (nat * nat * Z);
  returned_log : list (nat * nat * Z * Z)
}.

Definition os_lens : lens msys os_instance :=
  Lens os (fun s y => Msys s (at_ y) (interval y) (sent_log y) (handled_log y) (returned_log y)).

Definition goto (t : nat) (p : place) (y : msys) : msys :=
  Msys (os y) (<[t := p]> (at_ y)) (interval y) (sent_log y) (handled_log y) (returned_log y).
Definition log_sent (m : nat * nat * Z) (y : msys) : msys :=
  Msys (os y) (at_ y) (interval y) (sent_log y ++ [m]) (handled_log y) (returned_log y).
Definition log_handled (m : nat * nat * Z) (y : msys) : msys :=
  Msys (os y) (at_ y) (interval y) (sent_log y) (handled_log y ++ [m]) (returned_log y).
Definition log_returned (m : nat * nat * Z * Z) (y : msys) : msys :=
  Msys (os y) (at_ y) (interval y) (sent_log y) (handled_log y) (returned_log y ++ [m]).
Definition set_interval (t : nat) (v : Z) (y : msys) : msys :=
  Msys (os y) (at_ y) (<[t := v]> (interval y)) (sent_log y) (handled_log y) (returned_log y).

(** Something the running thread does, or an interrupt. *)
Inductive mevent :=
  | ESend (to : nat) (msg : Z)      (* chMsgSend *)
  | EWait                           (* chMsgWaitTimeout *)
  | EReturn                         (* a call continues after its switch *)
  | EHandle                         (* interval = chMsgGet(tp); chMsgRelease(tp, MSG_OK) *)
  | ESleep (st : tstate_t) (w : Z)  (* another call that sleeps, with its word *)
  | EWake (t : nat) (msg : Z)       (* the end of another call that sleeps *)
  | ETimer (t : nat).               (* the time-out of chMsgWaitTimeout *)

(** The code of the sensor threads that handles a message. *)
Definition handle_message (r f : nat) : M msys unit :=
  let! v := zoom os_lens (chMsgGet f) in
  modify (set_interval r (u16 v)) ;;;
  modify (log_handled (f, r, v)) ;;;
  modify (goto r PFree) ;;;
  zoom os_lens (chMsgRelease f MSG_OK).

Definition arrived (r : nat) (o : option nat) (otherwise : place) : M msys unit :=
  modify (goto r (match o with Some f => PGot f | None => otherwise end)).

Definition mstep (e : mevent) : M msys unit :=
  let! y := get in
  let t := current (os y) in
  match e with
  | ESend to msg =>
      modify (goto t (PSend to msg)) ;;; modify (log_sent (t, to, msg)) ;;; zoom os_lens (chMsgSend to msg)
  | EWait => let! o := zoom os_lens chMsgWaitTimeoutS in arrived t o (PWait true)
  | EReturn =>
      match at_ y t with
      | PSend to msg =>
          let! a := zoom os_lens chMsgSend_return in
          modify (log_returned (t, to, msg, a)) ;;; modify (goto t PFree)
      | PWait _ => let! o := zoom os_lens chMsgWaitTimeoutS_resume in arrived t o PFree
      | _ => ret tt
      end
  | EHandle => match at_ y t with PGot f => handle_message t f | _ => ret tt end
  | ESleep st w => zoom os_lens (modify (set_u w t) ;;; chSchGoSleepS st)
  | EWake x msg => zoom os_lens (modify (set_u msg x) ;;; chSchReadyI x ;;; chSchRescheduleS)
  | ETimer x => zoom os_lens (sch_wakeup x ;;; irq_epilogue) ;;; modify (goto x (PWait false))
  end.

Definition in_message (st : tstate_t) : bool :=
  match st with CH_STATE_SNDMSGQ | CH_STATE_SNDMSG | CH_STATE_WTMSG => true | _ => false end.

(** When an event can happen. *)
Definition mpossible (y : msys) (e : mevent) : Prop :=
  let t := current (os y) in
  match e with
  | ESend to _ => t <> idle /\ at_ y t = PFree /\ to <> t
  | EWait => t <> idle /\ at_ y t = PFree
  | EReturn => (exists to msg, at_ y t = PSend to msg) \/ (exists a, at_ y t = PWait a)
  | EHandle => exists f, at_ y t = PGot f
  | ESleep st _ => t <> idle /\ at_ y t = PFree /\ put_to_sleep st /\ in_message st = false
  | EWake x _ => at_ y x = PFree /\ wakeable (os y) x
  | ETimer x => at_ y x = PWait true /\ x <> t
  end.

(** ** The invariant *)

(** On what the threads sleep [A], their words [U], message queues [Q] and places
    [P], and the messages sent, handled and answered. *)
Definition pending (Q : nat -> list nat) (P : nat -> place) (r : nat) : list nat :=
  match P r with PGot f => [f] | _ => [] end ++ Q r.
Definition to_thread (r : nat) (l : list (nat * nat * Z)) : list (nat * nat * Z) := filter (fun m => snd (fst m) = r) l.
Definition from_thread (t : nat) (l : list (nat * nat * Z)) : list (nat * nat * Z) := filter (fun m => fst (fst m) = t) l.

Definition place_ok (A : nat -> option tstate_t) (U : nat -> Z) (Q : nat -> list nat) (P : nat -> place) (t : nat) : Prop :=
  match P t with
  | PFree => forall st, A t = Some st -> in_message st = false
  | PSend r m =>
      (A t = Some CH_STATE_SNDMSGQ /\ t ∈ Q r /\ U t = m) \/
      (A t = Some CH_STATE_SNDMSG /\ P r = PGot t /\ U t = m) \/
      (A t = None /\ U t = MSG_OK)
  | PWait a =>
      (A t = Some CH_STATE_WTMSG /\ a = true /\ Q t = []) \/
      (A t = None /\ (U t = MSG_OK -> Q t <> []))
  | PGot f => A t = None /\ A f = Some CH_STATE_SNDMSG /\ exists m, P f = PSend t m
  end.

(** The message whose handler has answered, until its send returns. *)
Definition answered (A : nat -> option tstate_t) (P : nat -> place) (t : nat) : list (nat * nat * Z) :=
  match P t, A t with PSend r m, None => [(t, r, m)] | _, _ => [] end.

Record msg_inv (A : nat -> option tstate_t) (U : nat -> Z) (Q : nat -> list nat) (P : nat -> place)
    (S H : list (nat * nat * Z)) (R : list (nat * nat * Z * Z)) : Prop := {
  i_queue : forall r t, t ∈ Q r -> A t = Some CH_STATE_SNDMSGQ /\ exists m, P t = PSend r m;
  i_nodup : forall r, NoDup (Q r);
  i_place : forall t, place_ok A U Q P t;
  i_order : forall r, to_thread r S = to_thread r H ++ map (fun t => (t, r, U t)) (pending Q P r);
  i_answer : forall t, from_thread t H = from_thread t (map fst R) ++ answered A P t;
  i_ok : Forall (fun x => snd x = MSG_OK) R
}.

Ltac upd x y := destruct (decide (x = y)) as [?|?]; [subst; rewrite ?fn_lookup_insert|rewrite ?(fn_lookup_insert_ne _ y x) by congruence].

Section transitions.
Context (A : nat -> option tstate_t) (U : nat -> Z) (Q : nat -> list nat) (P : nat -> place).
Context (S H : list (nat * nat * Z)) (R : list (nat * nat * Z * Z)).
Hypothesis I : msg_inv A U Q P S H R.

Lemma awake_not_queued t r : A t = None -> t ∉ pending Q P r.
Proof.
  intros Ha Hin. unfold pending in Hin. apply elem_of_app in Hin as [Hin|Hin]; [|by destruct (i_queue _ _ _ _ _ _ _ I r t Hin); congruence].
  pose proof (i_place _ _ _ _ _ _ _ I r) as Hp. unfold place_ok in Hp. destruct (P r); try (by apply not_elem_of_nil in Hin).
  apply list_elem_of_singleton in Hin as ->. destruct Hp as (_ & Hx & _). congruence.
Qed.

Lemma waiting_place t : A t = Some CH_STATE_WTMSG -> exists a, P t = PWait a /\ Q t = [].
Proof.
  intros Ha. pose proof (i_place _ _ _ _ _ _ _ I t) as Hp. unfold place_ok in Hp. rewrite Ha in Hp.
  destruct (P t) as [|r m|a|f]; [by specialize (Hp _ eq_refl)| | |]; [naive_solver| |naive_solver].
  exists a. naive_solver.
Qed.

(** Thread [c] sends: what [chMsgSend] does to the sender and the receiver. *)
Definition awakened (to t : nat) : option tstate_t :=
  if decide (t = to /\ A to = Some CH_STATE_WTMSG) then None else A t.

Lemma inv_send c to m :
  A c = None -> P c = PFree -> to <> c ->
  msg_inv (<[c := Some CH_STATE_SNDMSGQ]> (awakened to)) (<[c := m]> U) (<[to := Q to ++ [c]]> Q) (<[c := PSend to m]> P)
    (S ++ [(c, to, m)]) H R.
Proof.
  intros Hac Hpc Hne. pose proof (awake_not_queued c) as Hnq.
  assert (Haw : forall t st, A t = Some st -> st <> CH_STATE_WTMSG -> awakened to t = Some st).
  { intros t st Ht Hs. unfold awakened. rewrite decide_False; [done|]. intros [-> ?]. congruence. }
  constructor.
  - intros r t. upd r to.
    + rewrite elem_of_app, list_elem_of_singleton. upd t c; [intros _; eauto|]. intros [Hin|?]; [|done].
      destruct (i_queue _ _ _ _ _ _ _ I to t Hin) as [? ?]. split; [by apply Haw|done].
    + intros Hin. upd t c.
      * destruct (i_queue _ _ _ _ _ _ _ I r c Hin); congruence.
      * destruct (i_queue _ _ _ _ _ _ _ I r t Hin) as [? ?]. split; [by apply Haw|done].
  - intros r. upd r to; [|apply I]. apply NoDup_app. split; [apply I|]. split; [|apply NoDup_singleton].
    intros x Hx Hc. apply list_elem_of_singleton in Hc as ->. destruct (i_queue _ _ _ _ _ _ _ I to c Hx). congruence.
  - intros t. pose proof (i_place _ _ _ _ _ _ _ I t) as Hp. unfold place_ok in *. upd t c.
    { left. upd to to; [|done]. split; [done|]. split; [|done]. apply elem_of_app. right. by apply list_elem_of_singleton. }
    destruct (P t) as [|r m0|a|f] eqn:HPt.
    + unfold awakened. case_decide; [done|exact Hp].
    + destruct Hp as [(Ha & Hin & Hu)|[(Ha & Hg & Hu)|(Ha & Hu)]].
      * left. split; [by apply Haw|]. split; [|done]. upd r to; [|done]. apply elem_of_app. by left.
      * right. left. split; [by apply Haw|]. upd r c; [congruence|done].
      * right. right. unfold awakened. by case_decide.
    + assert (Hq : Q t = [] -> t <> to -> (<[to:=Q to ++ [c]]> Q) t = []) by (intros; by rewrite fn_lookup_insert_ne).
      destruct Hp as [(Ha & -> & Hq0)|(Ha & Hu)].
      * upd t to; [right|left; unfold awakened; rewrite decide_False by naive_solver; done].
        unfold awakened. rewrite decide_True by done. split; [done|]. intros _ Hx. by destruct (Q to).
      * right. split; [unfold awakened; by case_decide|]. intros Hu'. upd t to; [by destruct (Q to)|by apply Hu].
    + destruct Hp as (Ha & Hf & m0 & Hpf). split; [unfold awakened; by case_decide|]. upd f c; [congruence|].
      split; [by apply Haw|eauto].
  - intros r. unfold to_thread. rewrite filter_app. fold (to_thread r S). rewrite (i_order _ _ _ _ _ _ _ I r).
    assert (Hsame : map (fun t => (t, r, (<[c := m]> U) t)) (pending Q P r) = map (fun t => (t, r, U t)) (pending Q P r)).
    { apply map_ext_in. intros t Ht. apply list_elem_of_In in Ht. rewrite fn_lookup_insert_ne; [done|].
      intros <-. by apply (Hnq r). }
    assert (Hpend : pending (<[to := Q to ++ [c]]> Q) (<[c := PSend to m]> P) r = pending Q P r ++ if decide (r = to) then [c] else []).
    { unfold pending. rewrite <- app_assoc. f_equal; [upd r c; [by rewrite Hpc|done]|]. upd r to; [done|].
      by rewrite app_nil_r. }
    rewrite Hpend, map_app, Hsame. rewrite <- app_assoc. do 2 f_equal. rewrite filter_cons, filter_nil. cbn [fst snd].
    destruct (decide (to = r)) as [->|Hn].
    + rewrite decide_True by done. cbn [map]. by rewrite fn_lookup_insert.
    + by rewrite decide_False by congruence.
  - intros t. rewrite (i_answer _ _ _ _ _ _ _ I t). f_equal. unfold answered. upd t c; [by rewrite Hpc|].
    unfold awakened. case_decide as Hd; [|done]. destruct Hd as [-> Hw]. destruct (waiting_place to Hw) as (a & -> & _). done.
  - apply I.
Qed.

(** A step of thread [c] outside any message. *)
Definition no_message (p : place) : Prop := match p with PFree | PWait _ => True | _ => False end.

Lemma no_message_not_pending c r : no_message (P c) -> c ∉ pending Q P r.
Proof.
  intros Hc Hin. unfold pending in Hin. apply elem_of_app in Hin as [Hin|Hin].
  - pose proof (i_place _ _ _ _ _ _ _ I r) as Hp. unfold place_ok in Hp. destruct (P r); try (by apply not_elem_of_nil in Hin).
    apply list_elem_of_singleton in Hin as ->. destruct Hp as (_ & _ & m & Hx). by rewrite Hx in Hc.
  - destruct (i_queue _ _ _ _ _ _ _ I r c Hin) as (_ & m & Hx). by rewrite Hx in Hc.
Qed.

Lemma inv_local c a w p :
  no_message (P c) -> no_message p -> place_ok (<[c := a]> A) (<[c := w]> U) Q (<[c := p]> P) c ->
  msg_inv (<[c := a]> A) (<[c := w]> U) Q (<[c := p]> P) S H R.
Proof.
  intros Hc Hp Hok. pose proof (no_message_not_pending c) as Hnp.
  assert (Hq : forall r t, t ∈ Q r -> t <> c).
  { intros r t Ht ->. apply (Hnp r Hc). apply elem_of_app. by right. }
  constructor.
  - intros r t Ht. rewrite !fn_lookup_insert_ne by (intros <-; by apply (Hq r c)). by apply I.
  - apply I.
  - intros t. destruct (decide (t = c)) as [->|Ht]; [done|]. pose proof (i_place _ _ _ _ _ _ _ I t) as Ho. unfold place_ok in *.
    rewrite !fn_lookup_insert_ne by done. destruct (P t) as [|r m|b|f] eqn:HPt; [done| |done|].
    + destruct Ho as [?|[(Ha & Hg & Hu)|?]]; [by left| |by right; right]. right. left. split; [done|]. split; [|done].
      rewrite fn_lookup_insert_ne; [done|]. intros <-. by rewrite Hg in Hc.
    + destruct Ho as (? & Hf & m & Hpf). assert (f <> c) by (intros ->; by rewrite Hpf in Hc).
      split; [done|]. rewrite !fn_lookup_insert_ne by done. eauto.
  - intros r. rewrite (i_order _ _ _ _ _ _ _ I r). f_equal.
    assert (Hpend : pending Q (<[c := p]> P) r = pending Q P r).
    { unfold pending. upd r c; [|done]. by destruct (P c), p. }
    rewrite Hpend. apply map_ext_in. intros t Ht. apply list_elem_of_In in Ht. rewrite fn_lookup_insert_ne; [done|].
    intros <-. by apply (Hnp r).
  - intros t. rewrite (i_answer _ _ _ _ _ _ _ I t). f_equal. unfold answered. upd t c; [|done].
    by destruct (P c), p.
  - apply I.
Qed.

(** The first message of the queue of [c] is fetched. *)
Lemma inv_fetch c f q :
  A c = None -> no_message (P c) -> Q c = f :: q ->
  msg_inv (<[f := Some CH_STATE_SNDMSG]> A) U (<[c := q]> Q) (<[c := PGot f]> P) S H R.
Proof.
  intros Hac Hc Hq. assert (Hf : f ∈ Q c) by (rewrite Hq; apply elem_of_cons; by left).
  destruct (i_queue _ _ _ _ _ _ _ I c f Hf) as (Haf & m & Hpf). assert (Hfc : f <> c) by congruence.
  pose proof (i_nodup _ _ _ _ _ _ _ I c) as Hnd. rewrite Hq in Hnd. apply NoDup_cons in Hnd as [Hnf Hnd].
  assert (Hother : forall r t, t ∈ (<[c := q]> Q) r -> t ∈ Q r /\ t <> f /\ t <> c).
  { intros r t. upd r c.
    - intros Ht. rewrite Hq. split; [apply elem_of_cons; by right|]. split; [congruence|].
      intros ->. apply (no_message_not_pending c c Hc). apply elem_of_app. right. rewrite Hq. apply elem_of_cons. by right.
    - intros Ht. split; [done|]. destruct (i_queue _ _ _ _ _ _ _ I r t Ht) as (? & m' & Hx). split; congruence. }
  constructor.
  - intros r t Ht. destruct (Hother r t Ht) as (Hin & ? & ?). rewrite !fn_lookup_insert_ne by done. by apply I.
  - intros r. upd r c; [done|apply I].
  - intros t. pose proof (i_place _ _ _ _ _ _ _ I t) as Ho. unfold place_ok in *. upd t c.
    { rewrite ?fn_lookup_insert, fn_lookup_insert_ne by done. split; [done|]. split; [done|]. exists m.
      by rewrite fn_lookup_insert_ne. }
    upd t f.
    { rewrite Hpf. right. left. split; [done|]. rewrite ?fn_lookup_insert. split; [done|]. rewrite Hpf in Ho. naive_solver. }
    destruct (P t) as [|r m'|b|f'] eqn:HPt; [done| | |].
    + destruct Ho as [(Ha & Hin & Hu)|[(Ha & Hg & Hu)|?]]; [left|right; left|by right; right].
      * split; [done|]. split; [|done]. upd r c; [|done]. rewrite Hq in Hin. apply elem_of_cons in Hin as [?|?]; done.
      * split; [done|]. split; [|done]. rewrite fn_lookup_insert_ne; [done|]. intros <-. by rewrite Hg in Hc.
    + done.
    + destruct Ho as (? & Hf' & m' & Hpf'). assert (f' <> f) by congruence. assert (f' <> c) by congruence.
      split; [done|]. rewrite !fn_lookup_insert_ne by done. eauto.
  - intros r. rewrite (i_order _ _ _ _ _ _ _ I r). do 2 f_equal. unfold pending. upd r c; [|done].
    rewrite Hq. by destruct (P c).
  - intros t. rewrite (i_answer _ _ _ _ _ _ _ I t). f_equal. unfold answered. upd t c; [by destruct (P c)|].
    upd t f; [by rewrite Haf|done].
  - apply I.
Qed.

(** The holder [c] of the message of [f] answers it. *)
Lemma inv_handle c f :
  P c = PGot f ->
  msg_inv (<[f := None]> A) (<[f := MSG_OK]> U) Q (<[c := PFree]> P) S (H ++ [(f, c, U f)]) R.
Proof.
  intros Hc. pose proof (i_place _ _ _ _ _ _ _ I c) as Ho. unfold place_ok in Ho. rewrite Hc in Ho.
  destruct Ho as (Hac & Haf & m & Hpf). assert (Hfc : f <> c) by congruence.
  assert (Huf : U f = m). { pose proof (i_place _ _ _ _ _ _ _ I f) as Ho. unfold place_ok in Ho. rewrite Hpf in Ho.
    destruct Ho as [(? & _)|[(_ & _ & ?)|(? & _)]]; congruence. }
  assert (Hq : forall r t, t ∈ Q r -> t <> f) by (intros r t Ht ->; destruct (i_queue _ _ _ _ _ _ _ I r f Ht); congruence).
  assert (Hg : forall r, P r = PGot f -> r = c).
  { intros r Hr. pose proof (i_place _ _ _ _ _ _ _ I r) as Ho. unfold place_ok in Ho. rewrite Hr in Ho.
    destruct Ho as (_ & _ & ? & ?). congruence. }
  constructor.
  - intros r t Ht. assert (t <> f) by (by eapply Hq). assert (t <> c) by (intros ->; destruct (i_queue _ _ _ _ _ _ _ I r c Ht); congruence).
    rewrite !fn_lookup_insert_ne by done. by apply I.
  - apply I.
  - intros t. pose proof (i_place _ _ _ _ _ _ _ I t) as Ho. unfold place_ok in *. upd t c.
    { rewrite fn_lookup_insert_ne by done. intros st Hst. congruence. }
    upd t f; [rewrite Hpf; by right; right|].
    destruct (P t) as [|r m'|b|f'] eqn:HPt; [done| |done|].
    + destruct Ho as [?|[(Ha & Hr & Hu)|?]]; [by left| |by right; right]. right. left. split; [done|]. split; [|done].
      upd r c; [congruence|done].
    + destruct Ho as (? & Hf' & m' & Hpf'). assert (f' <> f) by (intros ->; by apply n, Hg). assert (f' <> c) by congruence.
      split; [done|]. rewrite !fn_lookup_insert_ne by done. eauto.
  - intros r. rewrite (i_order _ _ _ _ _ _ _ I r). unfold to_thread. rewrite filter_app, filter_cons, filter_nil. cbn [fst snd].
    rewrite <- app_assoc. f_equal. rewrite (map_ext_in (fun t => (t, r, (<[f := MSG_OK]> U) t)) (fun t => (t, r, U t))).
    2:{ intros t Ht. apply list_elem_of_In in Ht. rewrite fn_lookup_insert_ne; [done|]. intros <-.
        apply elem_of_app in Ht as [Ht|Ht]; [|by apply (Hq r f)]. destruct (decide (r = c)) as [->|n];
          [rewrite fn_lookup_insert in Ht; by apply not_elem_of_nil in Ht|rewrite fn_lookup_insert_ne in Ht by done].
        destruct (P r) eqn:HPr; try (by apply not_elem_of_nil in Ht). apply list_elem_of_singleton in Ht as ->. by apply n, Hg. }
    unfold pending. upd r c; [|by rewrite decide_False by congruence]. rewrite Hc, decide_True by done. done.
  - intros t. unfold from_thread. rewrite filter_app, filter_cons, filter_nil. cbn [fst snd]. fold (from_thread t H).
    rewrite (i_answer _ _ _ _ _ _ _ I t), <- app_assoc. f_equal. unfold answered. destruct (decide (f = t)) as [<-|Hn].
    + rewrite Haf, Hpf, fn_lookup_insert_ne, fn_lookup_insert, Hpf, Huf by done. done.
    + rewrite app_nil_r. upd t c; [by rewrite Hc|]. by rewrite (fn_lookup_insert_ne _ f t) by done.
  - apply I.
Qed.

(** The send of [c], whose message was answered, returns. *)
Lemma inv_return c r m :
  P c = PSend r m -> A c = None ->
  msg_inv A U Q (<[c := PFree]> P) S H (R ++ [((c, r, m), U c)]) /\ U c = MSG_OK.
Proof.
  intros Hc Hac. pose proof (i_place _ _ _ _ _ _ _ I c) as Ho. unfold place_ok in Ho. rewrite Hc in Ho.
  assert (Huc : U c = MSG_OK) by (destruct Ho as [(? & _)|[(? & _)|(_ & ?)]]; congruence). split; [|done]. constructor.
  - intros r' t Ht. destruct (i_queue _ _ _ _ _ _ _ I r' t Ht) as (Ha & m' & Hp). upd t c; [congruence|]. eauto.
  - apply I.
  - intros t. pose proof (i_place _ _ _ _ _ _ _ I t) as Ht. unfold place_ok in *. upd t c; [congruence|].
    destruct (P t) as [|r' m'|b|f'] eqn:HPt; [done| |done|].
    + destruct Ht as [?|[(Ha & Hr & Hu)|?]]; [by left| |by right; right]. right. left. split; [done|]. split; [|done].
      upd r' c; [congruence|done].
    + destruct Ht as (? & Hf' & m' & Hpf'). assert (f' <> c) by congruence.
      split; [done|]. rewrite !fn_lookup_insert_ne by done. eauto.
  - intros r'. rewrite (i_order _ _ _ _ _ _ _ I r'). do 2 f_equal. unfold pending. upd r' c; [by rewrite Hc|done].
  - intros t. rewrite (i_answer _ _ _ _ _ _ _ I t), map_app. unfold from_thread. rewrite filter_app, <- app_assoc. f_equal.
    cbn [map]. rewrite filter_cons, filter_nil. cbn [fst snd]. unfold answered. upd t c.
    + by rewrite Hc, Hac, decide_True.
    + by rewrite decide_False by congruence.
  - apply Forall_app. split; [apply I|]. by repeat constructor.
Qed.
End transitions.

Lemma inv_ext A A' U U' Q Q' P S H R :
  (forall x, A' x = A x) -> (forall x, U' x = U x) -> (forall x, Q' x = Q x) -> msg_inv A U Q P S H R -> msg_inv A' U' Q' P S H R.
Proof.
  intros HA HU HQ [H1 H2 H3 H4 H5 H6]. constructor; [| | | | |done].
  - intros r t. rewrite HQ, HA. apply H1.
  - intros r. rewrite HQ. apply H2.
  - intros t. specialize (H3 t). unfold place_ok in *. rewrite HA, HU, HQ.
    destruct (P t) as [|r m|b|f]; [done|by rewrite HQ|done|by rewrite HA].
  - intros r. rewrite H4. f_equal. unfold pending. rewrite HQ. apply map_ext. intros t. by rewrite HU.
  - intros t. rewrite H5. unfold answered. by rewrite HA.
Qed.

(** ** The operations on the scheduler's state *)

Definition queues (s : os_instance) (t : nat) : list nat := msgqueue (thd s t).

(** The scheduler is well formed and has the given view. *)
Record viewed (A : nat -> option tstate_t) (U : nat -> Z) (Q : nat -> list nat) (s : os_instance) : Prop := {
  v_ok : sched_ok s;
  v_dispatched : dispatched s;
  v_asleep : forall x, asleep s x = A x;
  v_words : forall x, words s x = U x;
  v_queues : forall x, queues s x = Q x
}.

Lemma gosleep_viewed s st :
  sched_ok s -> current s <> idle -> put_to_sleep st ->
  wp (chSchGoSleepS st) (fun _ => viewed (<[current s := Some st]> (asleep s)) (words s) (queues s)) s.
Proof.
  intros Hok Hi Hst. eapply wp_conseq; [by apply chSchGoSleepS_spec|]. intros ? s' [[? [_ Hu Hq] Ha _] ?].
  constructor; [done|done| |done|done]. intros x. rewrite Ha. unfold fell_asleep.
  case_decide; [subst; by rewrite fn_lookup_insert|by rewrite fn_lookup_insert_ne].
Qed.

(** A call that stores a word and sleeps. *)
Lemma sleep_viewed s st w :
  sched_ok s -> current s <> idle -> put_to_sleep st ->
  wp (modify (set_u w (current s)) ;;; chSchGoSleepS st)
     (fun _ => viewed (<[current s := Some st]> (asleep s)) (<[current s := w]> (words s)) (queues s)) s.
Proof.
  intros Hok Hi Hst. apply wp_bind. unfold wp at 1, modify. destruct (set_u_view w (current s) s) as (Hok1 & _ & Has1 & _ & _).
  eapply wp_conseq; [apply gosleep_viewed; [by apply Hok1|done|done]|]. intros ? s' [? ? Ha Hu Hq].
  change (current (set_u w (current s) s)) with (current s) in *. constructor; [done|done| | |].
  - intros x. rewrite Ha. upd x (current s); [done|apply Has1].
  - intros x. rewrite Hu. unfold words. rewrite u_set_u. case_decide; [subst; by rewrite fn_lookup_insert|by rewrite fn_lookup_insert_ne].
  - intros x. rewrite Hq. unfold queues. by rewrite msgqueue_set_u.
Qed.

(** A thread is woken with a word. *)
Lemma woken_viewed s t w s' lines :
  becomes (set_u w t s) (awoken s t) lines s' -> dispatched s' ->
  viewed (<[t := None]> (asleep s)) (<[t := w]> (words s)) (queues s) s'.
Proof.
  intros [? [_ Hu Hq] Ha _] ?. constructor; [done|done| | |].
  - intros x. rewrite Ha. unfold awoken. case_decide; [subst; by rewrite fn_lookup_insert|by rewrite fn_lookup_insert_ne].
  - intros x. unfold words. rewrite Hu, u_set_u. case_decide; [subst; by rewrite fn_lookup_insert|by rewrite fn_lookup_insert_ne].
  - intros x. unfold queues. by rewrite Hq, msgqueue_set_u.
Qed.

Lemma wake_viewed s t w :
  sched_ok s -> wakeable s t ->
  wp (modify (set_u w t) ;;; chSchReadyI t ;;; chSchRescheduleS)
     (fun _ => viewed (<[t := None]> (asleep s)) (<[t := w]> (words s)) (queues s)) s.
Proof.
  intros Hok (st & Hst & Hfin). apply wp_bind. unfold wp at 1, modify. destruct (set_u_view w t s) as (Hok1 & _ & Has1 & _ & _).
  apply wp_bind. eapply wp_conseq; [apply (sch_ready_behind_spec _ t st); [by apply Hok1|by rewrite Has1|done]|].
  intros ? s1 [Hb1 _]. eapply wp_conseq; [apply chSchRescheduleS_spec, Hb1|]. intros ? s2 [Hb2 Hd].
  apply (woken_viewed s t w s2 (line s2)); [|done]. constructor; [apply Hb2| | |done].
  - etransitivity; [apply Hb1|apply Hb2].
  - intros x. rewrite (b_asleep _ _ _ _ Hb2), (b_asleep _ _ _ _ Hb1). unfold awoken. by rewrite Has1.
Qed.

Lemma release_viewed s t w :
  sched_ok s -> dispatched s -> asleep s t = Some CH_STATE_SNDMSG ->
  wp (chMsgRelease t w) (fun _ => viewed (<[t := None]> (asleep s)) (<[t := w]> (words s)) (queues s)) s.
Proof.
  intros Hok Hd Hst. unfold chMsgRelease. apply wp_bind, wp_get, wp_bind. unfold wp at 1, assert.
  rewrite bool_decide_true by (by apply asleep_not_awake in Hst as [? _]). cbn [ret].
  eapply wp_conseq; [by eapply chSchWakeupS_spec|]. intros ? s' [Hb ?]. by eapply woken_viewed.
Qed.

Lemma timer_viewed s t :
  sched_ok s -> asleep s t = Some CH_STATE_WTMSG ->
  wp (sch_wakeup t ;;; irq_epilogue) (fun _ => viewed (<[t := None]> (asleep s)) (<[t := MSG_TIMEOUT]> (words s)) (queues s)) s.
Proof.
  intros Hok Hst. pose proof (wake_viewed s t MSG_TIMEOUT Hok ltac:(by exists CH_STATE_WTMSG)) as Hw.
  eapply wp_eq; [|exact Hw]. rewrite then_epilogue. unfold sch_wakeup, chSchReadyI, bind, get, modify.
  rewrite decide_False by (apply asleep_not_awake in Hst as [-> _]; done).
  destruct (sch_ready_behind t (set_u MSG_TIMEOUT t s)) as [[]| |]; reflexivity.
Qed.

Lemma late_timer_viewed s t :
  sched_ok s -> dispatched s -> t <> current s -> asleep s t = None ->
  wp (sch_wakeup t ;;; irq_epilogue) (fun _ => viewed (asleep s) (words s) (queues s)) s.
Proof.
  intros Hok Hd Hc Hn. assert (Hr : state (thd s t) = CH_STATE_READY).
  { apply (ok_ready _ Hok). apply (asleep_None s t Hok), elem_of_cons in Hn as [?|?]; done. }
  eapply wp_eq; [apply then_epilogue|]. apply wp_bind. unfold sch_wakeup. apply wp_bind, wp_get. rewrite decide_True by done.
  apply wp_ret. eapply wp_conseq; [by apply chSchRescheduleS_spec|]. intros ? s' [[? [_ Hu Hq] Ha _] ?]. by constructor.
Qed.

Lemma fetch_viewed s f q :
  sched_ok s -> dispatched s -> queues s (current s) = f :: q -> asleep s f = Some CH_STATE_SNDMSGQ ->
  wp fetch_message (fun r s' => r = f /\
    viewed (<[f := Some CH_STATE_SNDMSG]> (asleep s)) (words s) (<[current s := q]> (queues s)) s') s.
Proof.
  intros Hok Hd Hq Hf. destruct (asleep_not_awake _ _ _ Hf) as (Hsf & _ & _). unfold fetch_message. apply wp_bind, wp_get.
  unfold queues in Hq. rewrite Hq. apply wp_bind. unfold wp at 1, modify. apply wp_bind. unfold wp at 1. apply wp_ret.
  split; [done|]. set (s1 := set_msgqueue q (current s) s).
  pose proof (fun x => fields_set_msgqueue q (current s) s x) as Hm. fold s1 in Hm.
  destruct (same_sched s s1) as (Hok1 & Hd1 & Has1 & _ & Hp1); [done|done|apply Hm|apply Hm|].
  set (s2 := set_state CH_STATE_SNDMSG f s1).
  assert (Hnf : f ∉ run_list s) by (rewrite <- asleep_None by done; by rewrite Hf).
  assert (Has2 : forall x, asleep s2 x = <[f := Some CH_STATE_SNDMSG]> (asleep s) x).
  { intros x. unfold asleep at 1, s2. rewrite state_set_state. case_decide; [subst; by rewrite fn_lookup_insert|].
    rewrite fn_lookup_insert_ne by done. apply Has1. }
  assert (Hdata : same_data s1 s2) by (constructor; intros x; unfold s2, prios; by autorewrite with sched).
  constructor.
  - apply (sched_ok_intro s1); [by apply Hok1|done| | | | | |].
    + apply NoDup_cons. split; [exact (current_not_ready s Hok)|apply Hok].
    + apply (ok_sorted _ (Hok1 Hok)).
    + apply Hok.
    + unfold s2. rewrite state_set_state, decide_False by (intros Hx; apply Hnf; rewrite <- Hx; apply elem_of_cons; by left).
      apply (ok_current _ (Hok1 Hok)). done.
    + intros x Hx. unfold s2. rewrite state_set_state, decide_False by (intros ->; apply Hnf; apply elem_of_cons; by right).
      by apply (ok_ready _ (Hok1 Hok)).
    + intros x Hx. rewrite Has2. upd x f; [done|]. rewrite (asleep_None s x Hok). exact Hx.
  - apply sorted_dispatched; [|rewrite (sd_prio _ _ Hdata); apply (Hok1 Hok)].
    pose proof (dispatched_sorted s1 (Hok1 Hok) (Hd1 Hd)) as Hall. eapply Forall_impl; [exact Hall|].
    intros x Hx. cbn in Hx |- *. by rewrite !(sd_prio _ _ Hdata).
  - done.
  - intros x. unfold words. rewrite (sd_u _ _ Hdata). apply Hm.
  - intros x. unfold queues. rewrite (sd_msgqueue _ _ Hdata). destruct (Hm x) as (_ & _ & _ & ->).
    case_decide; [subst; by rewrite fn_lookup_insert|by rewrite fn_lookup_insert_ne].
Qed.

Lemma send_viewed s to m :
  sched_ok s -> current s <> idle -> to <> current s ->
  wp (chMsgSend to m) (fun _ => viewed (<[current s := Some CH_STATE_SNDMSGQ]> (awakened (asleep s) to))
    (<[current s := m]> (words s)) (<[to := queues s to ++ [current s]]> (queues s))) s.
Proof.
  intros Hok Hi Hto. set (c := current s). unfold chMsgSend. apply wp_bind, wp_get, wp_bind. unfold wp at 1, modify. fold c.
  apply wp_bind. unfold wp at 1. change (current (set_u m c s)) with c. set (s0 := set_u m c s). set (s1 := set_msgqueue _ to s0).
  destruct (set_u_view m c s) as (Hok0 & _ & Has0 & _ & _). fold s0 in Hok0, Has0. specialize (Hok0 Hok).
  pose proof (fun x => fields_set_msgqueue (msgqueue (thd s0 to) ++ [c]) to s0 x) as Hm. fold s1 in Hm.
  destruct (same_sched s0 s1) as (Hok1 & _ & Has1 & _ & _); [done|done|apply Hm|apply Hm|]. specialize (Hok1 Hok0).
  apply wp_bind, wp_get, wp_bind.
  apply (wp_conseq _ (fun _ s2 => sched_ok s2 /\ current s2 = c /\ same_data s1 s2 /\ forall x, asleep s2 x = awakened (asleep s) to x)).
  { assert (Hst : state (thd s1 to) = CH_STATE_WTMSG <-> asleep s to = Some CH_STATE_WTMSG).
    { rewrite <- Has0, <- Has1. unfold asleep. by destruct (state (thd s1 to)). }
    case_decide as Hw.
    - eapply wp_conseq; [apply (sch_ready_behind_spec s1 to CH_STATE_WTMSG); [done|by rewrite Has1, Has0, <- Hst|done]|].
      intros ? s2 [[? ? Ha _] Hc]. split_and!; [done|done|done|]. intros x. rewrite Ha. unfold awoken, awakened.
      rewrite Has1, Has0. apply Hst in Hw. repeat case_decide; naive_solver.
    - apply wp_ret. split_and!; [done|done|done|]. intros x. rewrite Has1, Has0. unfold awakened. rewrite decide_False; [done|].
      intros [_ Hx]. by apply Hw, Hst. }
  intros ? s2 (Hok2 & Hc2 & Hd2 & Ha2).
  eapply wp_conseq; [apply chSchGoSleepS_spec; [done|by rewrite Hc2|done]|]. intros ? s3 [[? Hd3 Ha3 _] ?].
  constructor; [done|done| | |].
  - intros x. rewrite Ha3. unfold fell_asleep. rewrite Hc2, Ha2. case_decide; [subst; by rewrite fn_lookup_insert|by rewrite fn_lookup_insert_ne].
  - intros x. unfold words. rewrite (sd_u _ _ Hd3), (sd_u _ _ Hd2). destruct (Hm x) as (_ & _ & -> & _). unfold s0. rewrite u_set_u.
    case_decide; [subst; by rewrite fn_lookup_insert|by rewrite fn_lookup_insert_ne].
  - intros x. unfold queues. rewrite (sd_msgqueue _ _ Hd3), (sd_msgqueue _ _ Hd2). destruct (Hm x) as (_ & _ & _ & ->).
    unfold s0. rewrite !msgqueue_set_u. case_decide; [subst; by rewrite fn_lookup_insert|by rewrite fn_lookup_insert_ne].
Qed.

(** ** The system *)

(** The interval of the last message handled, or the one before any. *)
Definition latest (iv : nat -> Z) (H : list (nat * nat * Z)) (r : nat) : Z :=
  match last (to_thread r H) with Some m => u16 (snd m) | None => iv r end.

Record msg_ok (iv : nat -> Z) (y : msys) : Prop := {
  m_sched : sched_ok (os y);
  m_dispatched : dispatched (os y);
  m_inv : msg_inv (asleep (os y)) (words (os y)) (queues (os y)) (at_ y) (sent_log y) (handled_log y) (returned_log y);
  m_interval : forall r, interval y r = latest iv (handled_log y) r
}.

Lemma msg_ok_intro iv A U Q y :
  viewed A U Q (os y) -> msg_inv A U Q (at_ y) (sent_log y) (handled_log y) (returned_log y) ->
  (forall r, interval y r = latest iv (handled_log y) r) -> msg_ok iv y.
Proof. intros [] Hi Hl. constructor; [done|done|by eapply inv_ext|done]. Qed.

(** The same operation on the scheduler, then on the whole system. *)
Lemma zoom_viewed {B} (m : K B) y (Qs : B -> os_instance -> Prop) (R : B -> msys -> Prop) :
  wp m Qs (os y) -> (forall b s', Qs b s' -> R b (over os_lens s' y)) -> wp (zoom os_lens m) R y.
Proof. intros Hm HR. apply wp_zoom. eapply wp_conseq; [exact Hm|exact HR]. Qed.

(** The running thread takes the first message of its queue. *)
Lemma fetch_step iv y p :
  msg_ok iv y -> no_message (at_ y (current (os y))) -> queues (os y) (current (os y)) <> [] ->
  wp (let! o := zoom os_lens (let! f := fetch_message in ret (Some f)) in arrived (current (os y)) o p) (fun _ => msg_ok iv) y.
Proof.
  intros [Hok Hd Hi Hl] Hc Hq. destruct (queues (os y) (current (os y))) as [|f q] eqn:Hqe; [done|]. clear Hq.
  assert (Hf : asleep (os y) f = Some CH_STATE_SNDMSGQ).
  { eapply (i_queue _ _ _ _ _ _ _ Hi (current (os y))). rewrite Hqe. apply elem_of_cons. by left. }
  apply wp_bind. eapply zoom_viewed; [apply wp_bind; eapply wp_conseq; [by apply (fetch_viewed _ f q)|]|].
  { intros ? s' H. apply wp_ret. instantiate (1 := fun o s' => o = Some f /\ _ s'). destruct H as [-> Hv]. split; [done|exact Hv]. }
  intros o s' [-> Hv]. unfold wp, arrived, modify. eapply msg_ok_intro; [exact Hv| |exact Hl].
  by apply inv_fetch; [|apply current_awake| |].
Qed.

(** A thread outside any message changes place, or its word or sleep. *)
Lemma local_step iv y s' A U Q c a w p :
  msg_ok iv y -> no_message (at_ y c) -> no_message p ->
  (forall x, A x = (<[c := a]> (asleep (os y))) x) -> (forall x, U x = (<[c := w]> (words (os y))) x) ->
  (forall x, Q x = queues (os y) x) ->
  place_ok (<[c := a]> (asleep (os y))) (<[c := w]> (words (os y))) (queues (os y)) (<[c := p]> (at_ y)) c ->
  viewed A U Q s' -> msg_ok iv (goto c p (over os_lens s' y)).
Proof.
  intros [Hok Hd Hi Hl] Hc Hp HA HU HQ Hpl Hv. eapply msg_ok_intro; [exact Hv| |exact Hl].
  eapply inv_ext; [exact HA|exact HU|exact HQ|]. by apply inv_local.
Qed.

Lemma goto_same c (y : msys) iv : msg_ok iv (goto c (at_ y c) y) -> msg_ok iv y.
Proof.
  intros [Hok Hd [H1 H2 H3 H4 H5 H6] Hl]. cbn [os at_ interval sent_log handled_log returned_log goto] in *.
  assert (HP : forall x, (<[c := at_ y c]> (at_ y)) x = at_ y x) by (intros x; by upd x c).
  constructor; [done|done| |done]. constructor; [| | | | |done].
  - intros r t Ht. specialize (H1 r t Ht). by rewrite HP in H1.
  - apply H2.
  - intros t. specialize (H3 t). unfold place_ok in *. rewrite HP in H3. destruct (at_ y t) as [|r m|b|f]; [done| |done|].
    + by rewrite HP in H3.
    + by rewrite HP in H3.
  - intros r. rewrite H4. unfold pending. by rewrite HP.
  - intros t. rewrite H5. unfold answered. by rewrite HP.
Qed.

Lemma upd_same {B} (f : nat -> B) c x : f x = (<[c := f c]> f) x.
Proof. by upd x c. Qed.

Lemma wait_sleeps s (R : option nat -> os_instance -> Prop) :
  queues s (current s) = [] -> wp (chSchGoSleepS CH_STATE_WTMSG ;;; ret None) R s -> wp chMsgWaitTimeoutS R s.
Proof.
  intros Hq Hw. unfold chMsgWaitTimeoutS, chMsgIsPendingI. apply wp_bind, wp_get.
  rewrite bool_decide_true by exact Hq. exact Hw.
Qed.

Lemma wait_fetches s : queues s (current s) <> [] -> chMsgWaitTimeoutS s = (let! f := fetch_message in ret (Some f)) s.
Proof.
  intros Hq. unfold chMsgWaitTimeoutS, chMsgIsPendingI. unfold bind at 1, get. by rewrite bool_decide_false by exact Hq.
Qed.

Lemma resume_fetches s : words s (current s) = MSG_OK -> chMsgWaitTimeoutS_resume s = (let! f := fetch_message in ret (Some f)) s.
Proof. intros Hw. unfold chMsgWaitTimeoutS_resume. unfold bind at 1, get. rewrite decide_False; [done|]. intros Hx. by apply Hx. Qed.

Lemma resume_gives_up s : words s (current s) <> MSG_OK -> chMsgWaitTimeoutS_resume s = Done (None, s).
Proof. intros Hw. unfold chMsgWaitTimeoutS_resume. unfold bind at 1, get. by rewrite decide_True by exact Hw. Qed.

Lemma mstep_ok iv y e : msg_ok iv y -> mpossible y e -> wp (mstep e) (fun _ => msg_ok iv) y.
Proof.
  intros Hm Hp. pose proof Hm as [Hok Hd Hi Hl]. pose proof (current_awake _ Hok) as Haw. pose proof (i_place _ _ _ _ _ _ _ Hi) as Hpl.
  unfold mstep. apply wp_bind, wp_get. set (c := current (os y)) in *. destruct e as [to m| | | |st w|x w|x]; cbn [mpossible] in Hp; fold c in Hp.
  - destruct Hp as (Hni & Hc & Hto). apply wp_bind. unfold wp at 1, modify. apply wp_bind. unfold wp at 1.
    eapply zoom_viewed; [by apply send_viewed|]. intros ? s' Hv. eapply msg_ok_intro; [exact Hv| |exact Hl]. by apply inv_send.
  - destruct Hp as (Hni & Hc). destruct (decide (queues (os y) c = [])) as [Hq|Hq].
    + apply wp_bind. eapply (zoom_viewed _ _ (fun o s' => o = None /\ viewed _ _ _ s')).
      { apply wait_sleeps; [done|]. apply wp_bind. eapply wp_conseq; [by apply gosleep_viewed|]. intros ? s' Hv. apply wp_ret. split; [done|exact Hv]. }
      intros o s' [-> Hv]. unfold wp, arrived, modify.
      eapply local_step; [exact Hm|by rewrite Hc|done| | | | |exact Hv]; [done|apply upd_same|done|].
      unfold place_ok. rewrite !fn_lookup_insert. by left.
    + eapply wp_eq; [|apply (fetch_step iv y (PWait true)); [done|fold c; by rewrite Hc|done]].
      unfold bind at 1 3, zoom. by rewrite wait_fetches.
  - destruct Hp as [(to & m & Hc)|(a & Hc)]; fold c in Hc; rewrite Hc.
    + apply wp_bind. unfold wp at 1, zoom, chMsgSend_return, gets. apply wp_bind. unfold wp at 1, modify. unfold wp.
      destruct (inv_return _ _ _ _ _ _ _ Hi c to m Hc Haw) as [Hi' _]. by constructor.
    + specialize (Hpl c). unfold place_ok in Hpl. rewrite Hc in Hpl. destruct Hpl as [[Ha _]|[_ Hu]]; [congruence|].
      destruct (decide (words (os y) c = MSG_OK)) as [Hw|Hw].
      * eapply wp_eq; [|apply (fetch_step iv y PFree); [done|fold c; by rewrite Hc|by apply Hu]].
        unfold bind at 1 3, zoom. by rewrite resume_fetches.
      * apply wp_bind. unfold wp at 1, zoom. cbn [view os_lens]. rewrite resume_gives_up by done. unfold wp, arrived, modify.
        eapply (local_step iv y (os y) _ _ _ c (asleep (os y) c) (words (os y) c)); [exact Hm|by rewrite Hc|done|apply upd_same|apply upd_same|done| |by constructor].
        unfold place_ok. rewrite !fn_lookup_insert. by rewrite Haw.
  - destruct Hp as (f & Hc). rewrite Hc. specialize (Hpl c). unfold place_ok in Hpl. rewrite Hc in Hpl. destruct Hpl as (_ & Hf & _).
    unfold handle_message. apply wp_bind. eapply (zoom_viewed _ _ (fun v s' => v = words (os y) f /\ s' = os y)).
    { unfold chMsgGet. apply wp_bind, wp_get, wp_bind. unfold wp at 1, assert.
      rewrite bool_decide_true by (by apply asleep_not_awake in Hf as [? _]). cbn [ret]. by apply wp_ret. }
    intros v s' [-> ->]. apply wp_bind. unfold wp at 1, modify. apply wp_bind. unfold wp at 1. apply wp_bind. unfold wp at 1.
    eapply zoom_viewed; [by apply (release_viewed (os y) f MSG_OK)|]. intros ? s' Hv. eapply msg_ok_intro; [exact Hv|by apply inv_handle|].
    intros r. cbn [interval handled_log over os_lens goto log_handled set_interval].
    unfold latest, to_thread. rewrite filter_app, filter_cons, filter_nil. cbn [fst snd]. upd r c.
    + by rewrite decide_True, last_snoc by done.
    + rewrite decide_False, app_nil_r by done. apply Hl.
  - destruct Hp as (Hni & Hc & Hst & Hin). apply (wp_conseq _ (fun _ y' => msg_ok iv (goto c (at_ y' c) y'))); [|intros ? y'; apply goto_same].
    eapply zoom_viewed; [by apply sleep_viewed|]. intros ? s' Hv. cbn [at_ over os_lens].
    eapply local_step; [exact Hm|by rewrite Hc|by rewrite Hc| | | | |exact Hv]; [done|done|done|].
    unfold place_ok. rewrite fn_lookup_insert, Hc. intros st'. rewrite fn_lookup_insert. by intros [= <-].
  - destruct Hp as (Hx & Hw). apply (wp_conseq _ (fun _ y' => msg_ok iv (goto x (at_ y' x) y'))); [|intros ? y'; apply goto_same].
    eapply zoom_viewed; [by apply wake_viewed|]. intros ? s' Hv. cbn [at_ over os_lens].
    eapply local_step; [exact Hm|by rewrite Hx|by rewrite Hx| | | | |exact Hv]; [done|done|done|].
    unfold place_ok. rewrite fn_lookup_insert, Hx. intros st'. by rewrite fn_lookup_insert.
  - destruct Hp as (Hx & Hxc). fold c in Hxc. specialize (Hpl x). unfold place_ok in Hpl. rewrite Hx in Hpl.
    apply wp_bind. destruct Hpl as [(Ha & _ & Hq)|(Ha & Hu)].
    + eapply zoom_viewed; [by apply timer_viewed|]. intros ? s' Hv. unfold wp, modify.
      eapply local_step; [exact Hm|by rewrite Hx|done| | | | |exact Hv]; [done|done|done|].
      unfold place_ok. rewrite !fn_lookup_insert. by right.
    + eapply zoom_viewed; [by apply late_timer_viewed|]. intros ? s' Hv. unfold wp, modify.
      eapply local_step; [exact Hm|by rewrite Hx|done| | | | |exact Hv]; [apply upd_same|apply upd_same|done|].
      unfold place_ok. rewrite !fn_lookup_insert. by right.
Qed.

(** A start: no message anywhere, the intervals [iv]. *)
Record msg_start (iv : nat -> Z) (y : msys) : Prop := {
  st_sched : sched_ok (os y);
  st_dispatched : dispatched (os y);
  st_free : forall t, at_ y t = PFree;
  st_asleep : forall t st, asleep (os y) t = Some st -> in_message st = false;
  st_queues : forall t, queues (os y) t = [];
  st_logs : sent_log y = [] /\ handled_log y = [] /\ returned_log y = [];
  st_interval : forall t, interval y t = iv t
}.

Inductive mruns : msys -> list mevent -> msys -> Prop :=
  | mruns_nil y : mruns y [] y
  | mruns_cons y e es y1 y2 : mpossible y e -> mstep e y = Done (tt, y1) -> mruns y1 es y2 -> mruns y (e :: es) y2.

Lemma msg_start_ok iv y : msg_start iv y -> msg_ok iv y.
Proof.
  intros [Hok Hd Hf Ha Hq (Hs & Hh & Hr) Hi]. constructor; [done|done| |].
  - rewrite Hs, Hh, Hr. constructor.
    + intros r t. by rewrite Hq, elem_of_nil.
    + intros r. rewrite Hq. constructor.
    + intros t. unfold place_ok. rewrite Hf. apply Ha.
    + intros r. unfold pending. by rewrite Hf, Hq.
    + intros t. unfold answered. by rewrite Hf.
    + constructor.
  - intros r. by rewrite Hh, Hi.
Qed.

Lemma mruns_ok iv y es y' : mruns y es y' -> msg_ok iv y -> msg_ok iv y'.
Proof.
  induction 1 as [|y e es y1 y2 Hp He _ IH]; [done|]. intros Hm. apply IH.
  pose proof (mstep_ok iv y e Hm Hp) as Hs. unfold wp in Hs. by rewrite He in Hs.
Qed.

(** C14: Any number of threads that send each other messages, wait for them with
    a time-out, answer them and do other work, interrupted in any order, never
    trip an assertion of the kernel.  The messages handled by a thread are
    those sent to it, in order and each once, but for the ones still waiting;
    a send returns exactly when its message has been handled, with the answer
    [MSG_OK]; and a thread's interval is that of the last message it handled
    (a message still waiting does not count), or the one it started with. *)
Theorem messages_handled_in_order (iv : nat -> Z) (y0 y : msys) (es : list mevent) :
  msg_start iv y0 -> mruns y0 es y ->
  (forall e, mpossible y e -> wp (mstep e) (fun _ _ => True) y) /\
  (forall r, to_thread r (sent_log y) =
     to_thread r (handled_log y) ++ map (fun t => (t, r, words (os y) t)) (pending (queues (os y)) (at_ y) r)) /\
  (forall t, from_thread t (handled_log y) = from_thread t (map fst (returned_log y)) ++ answered (asleep (os y)) (at_ y) t) /\
  Forall (fun x => snd x = MSG_OK) (returned_log y) /\
  (forall r, interval y r = latest iv (handled_log y) r).
Proof.
  intros Hs Hr. pose proof (mruns_ok iv _ _ _ Hr (msg_start_ok _ _ Hs)) as Hm. split; [|pose proof Hm as [_ _ [] ?]; done].
  intros e He. eapply wp_conseq; [by apply (mstep_ok iv)|done].
Qed.

(** The idle thread, the shell waiting for input, and a sensor thread running. *)
Definition station : msys :=
  Msys (Os (fun t => match t with
      | 0%nat => Thread IDLEPRIO CH_STATE_READY 0 []
      | 1%nat => Thread 138 CH_STATE_QUEUED 0 []
      | 2%nat => Thread 138 CH_STATE_CURRENT 0 []
      | _ => Thread 128 CH_STATE_WTSTART 0 []
      end) [0%nat] 2%nat) (fun _ => PFree) (fun _ => 60) [] [] [].

Lemma station_start : msg_start (fun _ => 60) station.
Proof.
  constructor; [|unfold dispatched, firstprio, prios, thd; cbn; unfold IDLEPRIO; lia|done| |by intros [|[|[|t]]]|done|done].
  - constructor.
    + intros [|[|[|t]]]; unfold prios; cbn; unfold IDLEPRIO; lia.
    + intros [|[|[|t]]]; cbn; split; try done; lia.
    + intros [|[|[|t]]]; cbn; split; intros H; try done; try set_solver; apply list_elem_of_singleton in H; lia.
    + by repeat constructor; set_solver.
    + by repeat constructor.
    + set_solver.
  - intros [|[|[|t]]] st; cbn; intros [=]; by subst.
Qed.

(** The sensor thread waits; the shell gets a line and sends it 5, which it
    handles. *)
Definition new_interval : list mevent :=
  [EWait; EWake 1%nat MSG_OK; ESend 2%nat 5; EReturn; EHandle].

Definition after (y : msys) (e : mevent) : msys := match mstep e y with Done (_, y') => y' | _ => y end.

Ltac mrun_step := eapply mruns_cons; [|vm_compute; reflexivity|].

Lemma new_interval_runs : mruns station new_interval (foldl after station new_interval).
Proof.
  mrun_step; [by split|]. mrun_step; [split; [done|by exists CH_STATE_QUEUED]|]. mrun_step; [by split|].
  mrun_step; [right; by exists true|]. mrun_step; [by exists 1%nat|]. apply mruns_nil.
Qed.

Lemma messages_handled_in_order_witness : exists y,
  mruns station new_interval y /\ handled_log y = [(1%nat, 2%nat, 5)] /\ interval y 2%nat = 5 /\
  from_thread 1%nat (handled_log y) = from_thread 1%nat (map fst (returned_log y)) ++ answered (asleep (os y)) (at_ y) 1%nat.
Proof.
  exists (foldl after station new_interval). split; [apply new_interval_runs|]. split; [reflexivity|]. split; [reflexivity|].
  apply (messages_handled_in_order (fun _ => 60) station _ new_interval station_start new_interval_runs).
Defined.

(** ** A message to a thread whose word is stale *)

(** [r] is in [chMsgWaitTimeout] and awake again, its word is not [MSG_OK], the
    message of [c] is the first of its queue, and its interval is [i]. *)
Definition stale (c r : nat) (i : Z) (y : msys) : Prop :=
  (exists a, at_ y r = PWait a) /\ asleep (os y) r = None /\ words (os y) r <> MSG_OK /\
  head (queues (os y) r) = Some c /\ interval y r = i /\ r <> idle.

(** The runs in which [r] does not come to continue its call. *)
Inductive runs_without (r : nat) : msys -> list mevent -> msys -> Prop :=
  | without_nil y : runs_without r y [] y
  | without_cons y e es y1 y2 :
      mpossible y e -> ~ (e = EReturn /\ current (os y) = r) -> mstep e y = Done (tt, y1) ->
      runs_without r y1 es y2 -> runs_without r y (e :: es) y2.

(** What the scheduler does to other threads leaves it so. *)
Lemma stale_view c r i A U Q s' y y' :
  stale c r i y -> viewed A U Q s' -> A r = None -> U r = words (os y) r -> head (Q r) = Some c ->
  os y' = s' -> (exists a, at_ y' r = PWait a) -> interval y' r = i -> stale c r i y'.
Proof.
  intros (_ & _ & Hu & _ & _ & Hid) [_ _ HA HU HQ] Ha Hw Hq Hos Hp Hi. unfold stale. rewrite Hos, HA, HU, HQ, Hw. by split_and!.
Qed.

(** Another thread takes a message out of its own queue. *)
Lemma stale_fetch c r i iv y p :
  msg_ok iv y -> stale c r i y -> current (os y) <> r -> queues (os y) (current (os y)) <> [] ->
  wp (let! o := zoom os_lens (let! f := fetch_message in ret (Some f)) in arrived (current (os y)) o p)
     (fun _ => stale c r i) y.
Proof.
  intros [Hok Hd Hi Hl] Hst Hc Hq. pose proof Hst as (Hp & Ha & _ & Hh & Hiv & Hid).
  destruct (queues (os y) (current (os y))) as [|f q] eqn:Hqe; [done|]. clear Hq.
  assert (Hf : asleep (os y) f = Some CH_STATE_SNDMSGQ).
  { eapply (i_queue _ _ _ _ _ _ _ Hi (current (os y))). rewrite Hqe. apply elem_of_cons. by left. }
  assert (Hfr : r <> f) by congruence.
  apply wp_bind. eapply (zoom_viewed _ _ (fun _ s' => viewed _ _ _ s')); [apply wp_bind; eapply wp_conseq; [by apply (fetch_viewed _ f q)|]|].
  { intros ? s' H. apply wp_ret. exact (proj2 H). }
  intros o s' Hv. unfold wp, arrived, modify.
  eapply stale_view; [exact Hst|exact Hv| | | |reflexivity| |done].
  - by rewrite fn_lookup_insert_ne.
  - done.
  - by rewrite fn_lookup_insert_ne.
  - destruct Hp as [a Hp]. exists a. cbn. by rewrite fn_lookup_insert_ne.
Qed.

Ltac stale_tac Hst Hv := eapply stale_view; [exact Hst|exact Hv| | | |reflexivity| |]; cbn;
  rewrite ?fn_lookup_insert_ne by done; try done.

Lemma stale_step c r i iv y e :
  msg_ok iv y -> mpossible y e -> ~ (e = EReturn /\ current (os y) = r) -> stale c r i y ->
  wp (mstep e) (fun _ => stale c r i) y.
Proof.
  intros Hm Hpos Hne Hst. pose proof Hm as [Hok Hd Hi Hl]. pose proof Hst as ([a Hp] & Ha & Hu & Hh & Hiv & Hid).
  pose proof (i_place _ _ _ _ _ _ _ Hi) as Hpl. assert (HPW : exists a, at_ y r = PWait a) by eauto.
  unfold mstep. apply wp_bind, wp_get. set (k := current (os y)) in *.
  destruct e as [to m| | | |st w|x w|x]; cbn [mpossible] in Hpos; fold k in Hpos.
  - destruct Hpos as (Hni & Hc & Hto). assert (r <> k) by congruence.
    apply wp_bind. unfold wp at 1, modify. apply wp_bind. unfold wp at 1.
    eapply zoom_viewed; [by apply send_viewed|]. intros ? s' Hv. stale_tac Hst Hv.
    + unfold awakened. cbn. by case_decide.
    + upd r to; [|done]. cbn. by destruct (queues (os y) to).
  - destruct Hpos as (Hni & Hc). assert (r <> k) by congruence.
    destruct (decide (queues (os y) k = [])) as [Hq|Hq].
    + apply wp_bind. eapply (zoom_viewed _ _ (fun o s' => o = None /\ viewed _ _ _ s')).
      { apply wait_sleeps; [done|]. apply wp_bind. eapply wp_conseq; [by apply gosleep_viewed|].
        intros ? s' Hv. apply wp_ret. split; [done|exact Hv]. }
      intros o s' [-> Hv]. unfold wp, arrived, modify. stale_tac Hst Hv.
    + eapply wp_eq; [|by apply (stale_fetch c r i iv y (PWait true))]. unfold bind at 1 3, zoom. by rewrite wait_fetches.
  - assert (Hk : k <> r) by (intros Hx; by apply Hne). destruct Hpos as [(to & m & Hc)|(b & Hc)]; fold k in Hc; rewrite Hc.
    + apply wp_bind. unfold wp at 1, zoom, chMsgSend_return, gets. apply wp_bind. unfold wp at 1, modify. unfold wp.
      unfold stale. cbn. rewrite fn_lookup_insert_ne by done. by split_and!.
    + specialize (Hpl k). unfold place_ok in Hpl. rewrite Hc, (current_awake _ Hok : asleep (os y) k = None) in Hpl.
      destruct Hpl as [[? _]|[_ Hw']]; [done|]. destruct (decide (words (os y) k = MSG_OK)) as [Hw|Hw].
      * eapply wp_eq; [|apply (stale_fetch c r i iv y PFree); [done|done|done|by apply Hw']]. unfold bind at 1 3, zoom. by rewrite resume_fetches.
      * apply wp_bind. unfold wp at 1, zoom. cbn [view os_lens]. rewrite resume_gives_up by done. unfold wp, arrived, modify, stale.
        cbn. rewrite fn_lookup_insert_ne by done. by split_and!.
  - destruct Hpos as (f & Hc). assert (r <> k) by congruence. rewrite Hc. specialize (Hpl k). unfold place_ok in Hpl. rewrite Hc in Hpl.
    destruct Hpl as (_ & Hf & _). assert (r <> f) by congruence.
    unfold handle_message. apply wp_bind. eapply (zoom_viewed _ _ (fun v s' => v = words (os y) f /\ s' = os y)).
    { unfold chMsgGet. apply wp_bind, wp_get, wp_bind. unfold wp at 1, assert.
      rewrite bool_decide_true by (by apply asleep_not_awake in Hf as [? _]). cbn [ret]. by apply wp_ret. }
    intros v s' [-> ->]. apply wp_bind. unfold wp at 1, modify. apply wp_bind. unfold wp at 1. apply wp_bind. unfold wp at 1.
    eapply zoom_viewed; [by apply (release_viewed (os y) f MSG_OK)|]. intros ? s' Hv. stale_tac Hst Hv.
  - destruct Hpos as (Hni & Hc & Hs & Hin). assert (r <> k) by congruence.
    eapply zoom_viewed; [by apply sleep_viewed|]. intros ? s' Hv. stale_tac Hst Hv.
  - destruct Hpos as (Hx & Hw). assert (r <> x) by congruence.
    eapply zoom_viewed; [by apply wake_viewed|]. intros ? s' Hv. stale_tac Hst Hv.
  - destruct Hpos as (Hx & Hxc). fold k in Hxc. specialize (Hpl x). unfold place_ok in Hpl. rewrite Hx in Hpl.
    apply wp_bind. destruct Hpl as [(Hax & _ & Hq)|(Hax & Hux)].
    + assert (r <> x) by congruence. eapply zoom_viewed; [by apply timer_viewed|]. intros ? s' Hv. unfold wp, modify. stale_tac Hst Hv.
    + eapply zoom_viewed; [by apply late_timer_viewed|]. intros ? s' Hv. unfold wp, modify. stale_tac Hst Hv.
      upd r x; [eauto|done].
Qed.

Lemma runs_without_stale c r i iv y es y' :
  runs_without r y es y' -> msg_ok iv y -> stale c r i y -> msg_ok iv y' /\ stale c r i y'.
Proof.
  induction 1 as [|y e es y1 y2 Hp Hne He _ IH]; [done|]. intros Hm Hst. apply IH.
  - pose proof (mstep_ok iv y e Hm Hp) as Hs. unfold wp in Hs. by rewrite He in Hs.
  - pose proof (stale_step c r i iv y e Hm Hp Hne Hst) as Hs. unfold wp in Hs. by rewrite He in Hs.
Qed.

(** The send makes it so. *)
Lemma send_stale iv y r v :
  msg_ok iv y -> mpossible y (ESend r v) -> asleep (os y) r = Some CH_STATE_WTMSG -> words (os y) r <> MSG_OK ->
  exists y1, mstep (ESend r v) y = Done (tt, y1) /\ stale (current (os y)) r (interval y r) y1 /\ msg_ok iv y1.
Proof.
  intros Hm Hp Ha Hu. pose proof (mstep_ok iv y _ Hm Hp) as Hok. pose proof Hm as [Hs Hd Hi Hl].
  destruct (waiting_place _ _ _ _ _ _ _ Hi r Ha) as (a & Hpr & Hq). destruct Hp as (Hni & Hc & Hne).
  assert (Hst : wp (mstep (ESend r v)) (fun _ => stale (current (os y)) r (interval y r)) y).
  { unfold mstep. apply wp_bind, wp_get, wp_bind. unfold wp at 1, modify. apply wp_bind. unfold wp at 1.
    eapply zoom_viewed; [by apply send_viewed|]. intros ? s' [_ _ HA HU HQ]. unfold stale. cbn. rewrite HA, HU, HQ.
    cbn. rewrite !(fn_lookup_insert_ne _ (current (os y)) r) by done. rewrite fn_lookup_insert. unfold awakened.
    rewrite decide_True by done. split_and!; [eauto|done|done| |done|].
    { unfold queues in Hq |- *. by rewrite Hq. }
    intros ->. pose proof (ok_idle _ Hs) as Hidle. apply (asleep_None _ _ Hs) in Hidle. congruence. }
  unfold wp in Hst, Hok. destruct (mstep _ y) as [[[] y1]| |]; [eauto|done|done].
Qed.

(** Its wait then ends without a message, and the next one finds it. *)
Lemma stale_returns iv c r i y :
  msg_ok iv y -> stale c r i y -> current (os y) = r ->
  exists y3 y4, mstep EReturn y = Done (tt, y3) /\ at_ y3 r = PFree /\ interval y3 r = i /\
    handled_log y3 = handled_log y /\ mpossible y3 EWait /\ mstep EWait y3 = Done (tt, y4) /\ at_ y4 r = PGot c.
Proof.
  intros Hm Hst Hc. pose proof Hst as ([a Hp] & Ha & Hu & Hh & Hiv & Hid). set (y3 := goto r PFree (over os_lens (os y) y)).
  assert (H3 : mstep EReturn y = Done (tt, y3)).
  { unfold mstep. unfold bind at 1, get. rewrite Hc, Hp. unfold bind, zoom. cbn [view os_lens]. by rewrite resume_gives_up by (by rewrite Hc). }
  destruct (queues (os y) r) as [|f q] eqn:Hq; [done|]. injection Hh as ->.
  assert (Hm3 : msg_ok iv y3).
  { pose proof (mstep_ok iv y EReturn Hm (or_intror (ex_intro _ a (eq_trans (f_equal (at_ y) Hc) Hp)))) as Hs. unfold wp in Hs. by rewrite H3 in Hs. }
  assert (H4 : wp (mstep EWait) (fun _ y' => at_ y' r = PGot c) y3).
  { unfold mstep. apply wp_bind, wp_get, wp_bind. eapply (zoom_viewed _ _ (fun o _ => o = Some c)).
    - eapply wp_eq; [apply wait_fetches; cbn; rewrite Hc, Hq; done|]. apply wp_bind.
      pose proof Hm3 as [Hok3 Hd3 Hi3 _]. eapply wp_conseq; [apply (fetch_viewed _ c q); [done|done|cbn; by rewrite Hc|]|].
      + eapply (i_queue _ _ _ _ _ _ _ Hi3 r). cbn. rewrite Hq. apply elem_of_cons. by left.
      + intros ? ? [-> _]. by apply wp_ret.
    - intros o s' ->. unfold wp, arrived, modify. cbn. rewrite Hc. by rewrite fn_lookup_insert. }
  unfold wp in H4. destruct (mstep EWait y3) as [[[] y4]| |] eqn:He4; [|done|done].
  exists y3, y4. split_and!; try done.
  - cbn. by rewrite fn_lookup_insert.
  - cbn. rewrite Hc. split; [by apply Hst|by rewrite fn_lookup_insert].
Qed.

(** C38: [chMsgSend] wakes the receiver without storing a wake-up message, so a
    wait whose thread still has the word of an earlier time-out ends like one.
    In any run of the threads: let a thread [r] sleep in [chMsgWaitTimeout]
    with a word other than [MSG_OK] (the word [MSG_TIMEOUT] of its last wait,
    if it has slept on nothing else since), and let another send it a message.
    The send completes and wakes [r]; whatever the other threads and the
    interrupts do until [r] runs again, its wait then reports that no message
    came, with the message pending and the interval as it was; the next wait of
    [r] gets the message. *)
Theorem stale_wakeup (iv : nat -> Z) (y0 y : msys) (es : list mevent) (r : nat) (v : Z) :
  msg_start iv y0 -> mruns y0 es y -> mpossible y (ESend r v) ->
  asleep (os y) r = Some CH_STATE_WTMSG -> words (os y) r <> MSG_OK ->
  exists y1, mstep (ESend r v) y = Done (tt, y1) /\
  forall es' y2, runs_without r y1 es' y2 ->
    asleep (os y2) r = None /\
    (current (os y2) = r ->
     exists y3 y4, mstep EReturn y2 = Done (tt, y3) /\ at_ y3 r = PFree /\
       interval y3 r = interval y r /\ handled_log y3 = handled_log y2 /\
       mpossible y3 EWait /\ mstep EWait y3 = Done (tt, y4) /\ at_ y4 r = PGot (current (os y))).
Proof.
  intros Hs Hr Hp Ha Hu. pose proof (mruns_ok iv _ _ _ Hr (msg_start_ok _ _ Hs)) as Hm.
  destruct (send_stale iv y r v Hm Hp Ha Hu) as (y1 & H1 & Hst & Hm1). exists y1. split; [done|].
  intros es' y2 Hw. destruct (runs_without_stale _ _ _ iv _ _ _ Hw Hm1 Hst) as [Hm2 Hst2].
  split; [apply Hst2|]. intros Hc. by apply (stale_returns iv).
Qed.

(** The sensor thread's wait times out, and it waits again; the shell gets a
    line. *)
Definition waits_again : list mevent := [EWait; ETimer 2%nat; EReturn; EWait; EWake 1%nat MSG_OK].

Lemma waits_again_runs : mruns station waits_again (foldl after station waits_again).
Proof.
  mrun_step; [by split|]. mrun_step; [by split|]. mrun_step; [right; by exists false|]. mrun_step; [by split|].
  mrun_step; [split; [done|by exists CH_STATE_QUEUED]|]. apply mruns_nil.
Qed.

Lemma stale_wakeup_witness : exists y1 y3 y4,
  mstep (ESend 2%nat 5) (foldl after station waits_again) = Done (tt, y1) /\
  mstep EReturn y1 = Done (tt, y3) /\ at_ y3 2%nat = PFree /\ interval y3 2%nat = 60 /\
  mstep EWait y3 = Done (tt, y4) /\ at_ y4 2%nat = PGot 1%nat.
Proof.
  destruct (stale_wakeup (fun _ => 60) station _ waits_again 2%nat 5 station_start waits_again_runs)
    as (y1 & H1 & Hrun).
  - split; [discriminate|]. split; [reflexivity|discriminate].
  - vm_compute. reflexivity.
  - vm_compute. discriminate.
  - assert (Hc : current (os y1) = 2%nat).
    { assert (Hf : (fun o => match o with Done (_, y) => current (os y) | _ => 0%nat end)
                     (mstep (ESend 2%nat 5) (foldl after station waits_again)) = 2%nat) by (vm_compute; reflexivity).
      rewrite H1 in Hf. exact Hf. }
    destruct (Hrun [] y1 (without_nil 2%nat y1)) as [_ Hret].
    destruct (Hret Hc) as (y3 & y4 & H3 & Hfree & Hi & _ & _ & H4 & Hg).
    exists y1, y3, y4. split; [exact H1|]. split; [exact H3|]. split; [exact Hfree|].
    split; [rewrite Hi; vm_compute; reflexivity|]. split; [exact H4|]. rewrite Hg. vm_compute. reflexivity.
Defined.
End Msg.
