(* ===== verification/Mtx.v ===== *)
(** * Mutexes with priority inheritance

    [src/ChibiOS/os/rt/src/chmtx.c] on the scheduler of [Sched].  The I2C bus and
    the ADC are each shared through a mutex ([i2cAcquireBus], [adcAcquireBus]).
    A thread that finds a mutex taken lends its priority to the owner, and on
    along the chain of owners that wait themselves, and sleeps; an unlock
    computes the owner's priority anew and hands the mutex to the first of the
    waiting threads.

    The list of owned mutexes of a thread, linked through [mutex_t.next], is a
    list; [wtmtxp] is the word [u] of the thread.  [chMtxLock] is in two parts, up
    to the switch and from the moment the thread runs again.  The firmware is
    built with [CH_CFG_USE_MUTEXES_RECURSIVE] FALSE and [CH_CFG_USE_CONDVARS]
    TRUE; it uses no condition variable.

    Proved, for any number of threads and nested mutexes and any order of
    events, deadlocks included: no assertion fails and the walk along the owners
    ends; two threads are never inside one mutex; the priority of a thread is
    its own or the highest of those that wait for its mutexes, never more; so a
    thread that waits for a mutex is not held up by one of lower priority than
    its own. *)

From stdpp Require Import functions sorting.
From S2P Require Import Prelude Oslib Sched.
Import Sched.

Module Mtx.

(** ** State *)

(** [mutex_t]; [next] is the place in the list of the owner. *)
Record mutex_t := Mutex {
  owner : option nat;
  queue : list nat
}.

(** The scheduler, the fields of [thread_t] for mutexes, the mutexes, numbered
    below [mtx_count], and the queues of the condition variables. *)
Record ksys := Ksys {
  os : os_instance;
  realprio : nat -> Z;
  mtxlist : nat -> list nat;
  mutexes : nat -> mutex_t;
  condqueue : nat -> list nat;
  mtx_count : nat
}.

Definition X := M ksys.

Definition set_os (s : os_instance) (y : ksys) : ksys :=
  Ksys s (realprio y) (mtxlist y) (mutexes y) (condqueue y) (mtx_count y).
Definition os_lens : lens ksys os_instance := Lens os set_os.
Definition set_mtxlist (t : nat) (l : list nat) (y : ksys) : ksys :=
  Ksys (os y) (realprio y) (<[t := l]> (mtxlist y)) (mutexes y) (condqueue y) (mtx_count y).
Definition set_mutex (m : nat) (v : mutex_t) (y : ksys) : ksys :=
  Ksys (os y) (realprio y) (mtxlist y) (<[m := v]> (mutexes y)) (condqueue y) (mtx_count y).
Definition set_owner (m : nat) (o : option nat) (y : ksys) : ksys :=
  set_mutex m (Mutex o (queue (mutexes y m))) y.
Definition set_queue (m : nat) (q : list nat) (y : ksys) : ksys :=
  set_mutex m (Mutex (owner (mutexes y m)) q) y.
Definition set_condqueue (v : nat) (q : list nat) (y : ksys) : ksys :=
  Ksys (os y) (realprio y) (mtxlist y) (mutexes y) (<[v := q]> (condqueue y)) (mtx_count y).

Definition set_prio (p : Z) (t : nat) (s : os_instance) : os_instance :=
  set_thread t (Thread p (state (thd s t)) (u (thd s t)) (msgqueue (thd s t))) s.

(** The object a thread waits for. *)
Definition wtmtxp (s : os_instance) (t : nat) : nat := Z.to_nat (u (thd s t)).

(** ** Operations *)

Definition chMtxObjectInit (m : nat) : X unit := modify (set_mutex m (Mutex None [])).

(** Behind all threads that are not of lower priority. *)
Fixpoint ch_sch_prio_insert (pr : nat -> Z) (t : nat) (l : list nat) : list nat :=
  match l with
  | [] => [t]
  | x :: l' => if decide (pr x >= pr t) then x :: ch_sch_prio_insert pr t l' else t :: l
  end.

Definition ch_queue_dequeue (t : nat) (l : list nat) : list nat := filter (fun x => x <> t) l.

(** The walk of [chMtxLockS] along the owners, from [tp] on.  The firmware's loop
    has no bound. *)
Fixpoint boost (fuel : nat) (currtp tp : nat) : X unit :=
  match fuel with
  | O => hang
  | S fuel =>
      let! y := get in
      if decide (prios (os y) tp < prios (os y) currtp) then
        modify (set_os (set_prio (prios (os y) currtp) tp (os y))) ;;;
        let! y := get in
        let m := wtmtxp (os y) tp in
        match state (thd (os y) tp) with
        | CH_STATE_WTMTX =>
            modify (set_queue m (ch_sch_prio_insert (prios (os y)) tp (ch_queue_dequeue tp (queue (mutexes y m))))) ;;;
            match owner (mutexes y m) with
            | Some tp' => boost fuel currtp tp'
            | None => halt "no owner"
            end
        | CH_STATE_WTCOND =>
            modify (set_condqueue m (ch_sch_prio_insert (prios (os y)) tp (ch_queue_dequeue tp (condqueue y m))))
        | CH_STATE_READY =>
            zoom os_lens (
              modify (set_state CH_STATE_CURRENT tp) ;;;
              modify (fun s => set_pqueue (ch_queue_dequeue tp (pqueue s)) s) ;;;
              chSchReadyI tp)
        | _ => ret tt
        end
      else ret tt
  end.

(** The mutex becomes the first of the list of [t]. *)
Definition take_mutex (m t : nat) (y : ksys) : ksys :=
  set_mtxlist t (m :: mtxlist y t) (set_owner m (Some t) y).

(** Up to the switch; [true] when there is none. *)
Definition chMtxLockS (m : nat) : X bool :=
  let! y := get in
  let currtp := current (os y) in
  match owner (mutexes y m) with
  | Some tp =>
      boost (S (mtx_count y)) currtp tp ;;;
      modify (fun y => set_queue m (ch_sch_prio_insert (prios (os y)) currtp (queue (mutexes y m))) y) ;;;
      zoom os_lens (modify (set_u (Z.of_nat m) currtp)) ;;;
      zoom os_lens (chSchGoSleepS CH_STATE_WTMTX) ;;;
      ret false
  | None => modify (take_mutex m currtp) ;;; ret true
  end.

Definition chMtxLockS_resume (m : nat) : X unit :=
  let! y := get in
  let currtp := current (os y) in
  assert (bool_decide (owner (mutexes y m) = Some currtp)) "not owner" ;;;
  assert (bool_decide (head (mtxlist y currtp) = Some m)) "not owned".

Definition chMtxTryLockS (m : nat) : X bool :=
  let! y := get in
  match owner (mutexes y m) with
  | Some _ => ret false
  | None => modify (take_mutex m (current (os y))) ;;; ret true
  end.

(** The scan of the mutexes that stay owned. *)
Fixpoint newprio (y : ksys) (p : Z) (lmp : list nat) : Z :=
  match lmp with
  | [] => p
  | m :: lmp =>
      newprio y (match queue (mutexes y m) with
                 | x :: _ => if decide (prios (os y) x > p) then prios (os y) x else p
                 | [] => p
                 end) lmp
  end.

(** The first waiting thread gets the mutex. *)
Definition hand_over (m : nat) : X unit :=
  let! y := get in
  match queue (mutexes y m) with
  | [] => halt "empty queue"
  | tp :: q =>
      modify (set_queue m q) ;;;
      modify (take_mutex m tp) ;;;
      zoom os_lens (chSchReadyI tp)
  end.

(** What [chMtxUnlock] and [chMtxUnlockS] share; [true] when a thread was made
    ready. *)
Definition unlock_top (mp : nat) : X bool :=
  let! y := get in
  let currtp := current (os y) in
  match mtxlist y currtp with
  | [] => halt "owned mutexes list empty"
  | top :: next =>
      assert (bool_decide (owner (mutexes y top) = Some currtp)) "ownership failure" ;;;
      assert (bool_decide (top = mp)) "not next in list" ;;;
      modify (set_mtxlist currtp next) ;;;
      let! y := get in
      if decide (queue (mutexes y mp) <> []) then
        modify (set_os (set_prio (newprio y (realprio y currtp) (mtxlist y currtp)) currtp (os y))) ;;;
        hand_over mp ;;;
        ret true
      else modify (set_owner mp None) ;;; ret false
  end.

Definition chMtxUnlockS (mp : nat) : X unit := unlock_top mp ;;; ret tt.

Definition chMtxUnlock (mp : nat) : X unit :=
  let! woken := unlock_top mp in
  if woken then zoom os_lens chSchRescheduleS else ret tt.

(** The loop of [chMtxUnlockAllS] over the owned mutexes of [currtp]. *)
Fixpoint unlock_each (currtp : nat) (l : list nat) : X unit :=
  match l with
  | [] => ret tt
  | mp :: next =>
      modify (set_mtxlist currtp next) ;;;
      let! y := get in
      (if decide (queue (mutexes y mp) <> []) then hand_over mp else modify (set_owner mp None)) ;;;
      unlock_each currtp next
  end.

Definition chMtxUnlockAllS : X unit :=
  let! y := get in
  let currtp := current (os y) in
  if decide (mtxlist y currtp <> []) then
    unlock_each currtp (mtxlist y currtp) ;;;
    modify (fun y => set_os (set_prio (realprio y currtp) currtp (os y)) y) ;;;
    zoom os_lens chSchRescheduleS
  else ret tt.

(** ** The threads *)

(** [at_ t] is the mutex whose lock call thread [t] has slept in and not yet
    returned from; [inside t] are the mutexes it has locked, by calls that have
    returned, and not yet begun to unlock. *)
Record xsys := Xsys {
  ks : ksys;
  at_ : nat -> option nat;
  inside : nat -> list nat
}.

Definition ks_lens : lens xsys ksys := Lens ks (fun y x => Xsys y (at_ x) (inside x)).
Definition goto (t : nat) (p : option nat) (x : xsys) : xsys := Xsys (ks x) (<[t := p]> (at_ x)) (inside x).
Definition set_inside (t : nat) (l : list nat) (x : xsys) : xsys := Xsys (ks x) (at_ x) (<[t := l]> (inside x)).
Definition enter (t m : nat) (x : xsys) : xsys := set_inside t (m :: inside x t) x.

(** What the running thread does, or an interrupt. *)
Inductive xevent :=
  | ELock (m : nat)        (* chMtxLock *)
  | ETryLock (m : nat)     (* chMtxTryLock *)
  | EReturn                (* chMtxLock continues after its switch *)
  | EUnlock (m : nat)      (* chMtxUnlock *)
  | EUnlockS (m : nat)     (* chMtxUnlockS, then chSchRescheduleS *)
  | EUnlockAll             (* chMtxUnlockAll *)
  | EKernel (e : kevent).  (* anything else that sleeps, yields or wakes threads *)

Definition xstep (e : xevent) : M xsys unit :=
  let! x := get in
  let t := current (os (ks x)) in
  match e with
  | ELock m =>
      let! got := zoom ks_lens (chMtxLockS m) in
      modify (if got then enter t m else goto t (Some m))
  | ETryLock m =>
      let! got := zoom ks_lens (chMtxTryLockS m) in
      if got then modify (enter t m) else ret tt
  | EReturn =>
      match at_ x t with
      | Some m => zoom ks_lens (chMtxLockS_resume m) ;;; modify (goto t None) ;;; modify (enter t m)
      | None => ret tt
      end
  | EUnlock m => modify (set_inside t (tail (inside x t))) ;;; zoom ks_lens (chMtxUnlock m)
  | EUnlockS m =>
      modify (set_inside t (tail (inside x t))) ;;;
      zoom ks_lens (chMtxUnlockS m ;;; zoom os_lens chSchRescheduleS)
  | EUnlockAll => modify (set_inside t []) ;;; zoom ks_lens chMtxUnlockAllS
  | EKernel e => zoom ks_lens (zoom os_lens (kstep e))
  end.

(** A thread that waits for a mutex is woken by nobody else; a thread that is
    about to return from a lock call does nothing else before. *)
Definition kernel_possible (x : xsys) (e : kevent) : Prop :=
  let s := os (ks x) in
  possible s e /\
  match e with
  | KSleep st => at_ x (current s) = None /\ st <> CH_STATE_WTMTX
  | KYield => at_ x (current s) = None
  | KWakeup t _ => at_ x (current s) = None /\ asleep s t <> Some CH_STATE_WTMTX
  | KReady ts => at_ x (current s) = None /\ Forall (fun t => asleep s t <> Some CH_STATE_WTMTX) (map fst ts)
  | KInterrupt ts => Forall (fun t => asleep s t <> Some CH_STATE_WTMTX) (map fst ts)
  | KTimeout t => asleep s t <> Some CH_STATE_WTMTX
  end.

Definition xpossible (x : xsys) (e : xevent) : Prop :=
  let t := current (os (ks x)) in
  match e with
  | ELock m => at_ x t = None /\ t <> idle /\ (m < mtx_count (ks x))%nat
  | ETryLock m => at_ x t = None /\ (m < mtx_count (ks x))%nat
  | EReturn => at_ x t <> None
  | EUnlock m | EUnlockS m => at_ x t = None /\ head (inside x t) = Some m
  | EUnlockAll => at_ x t = None
  | EKernel e => kernel_possible x e
  end.

(** ** Priority queues *)

Lemma prio_insert_behind pr t l : 0 < pr t -> insert_behind pr t l = Some (ch_sch_prio_insert pr t l).
Proof.
  intros Ht. induction l as [|x l IH]; cbn; [by rewrite decide_False by lia|]. case_decide; [by rewrite IH|done].
Qed.

Lemma prio_insert_spec pr t l :
  0 < pr t -> sorted pr l -> ch_sch_prio_insert pr t l ≡ₚ t :: l /\ sorted pr (ch_sch_prio_insert pr t l).
Proof.
  intros Ht Hl. destruct (insert_behind_spec pr t l Ht Hl) as (l' & Heq & Hp & Hs & _).
  rewrite prio_insert_behind in Heq by done. by injection Heq as ->.
Qed.

Lemma sorted_ext_in pr pr' l : (forall x, x ∈ l -> pr x = pr' x) -> sorted pr l -> sorted pr' l.
Proof.
  intros He Hs. induction Hs as [|x l Hs IH Hx]; [constructor|]. constructor.
  - apply IH. intros; apply He. by apply elem_of_cons; right.
  - rewrite Forall_forall in *. intros y Hy. specialize (Hx y Hy). unfold above in *.
    rewrite <- !He by (rewrite elem_of_cons; auto). done.
Qed.

Lemma sorted_dequeue pr t l : sorted pr l -> sorted pr (ch_queue_dequeue t l).
Proof.
  intros Hs. induction Hs as [|x l Hs IH Hx]; [constructor|]. unfold ch_queue_dequeue in *. rewrite filter_cons. case_decide; [|done].
  constructor; [done|]. rewrite Forall_forall in *. intros y Hy. apply list_elem_of_filter in Hy as [_ Hy]. by apply Hx.
Qed.

Lemma queue_dequeue_perm t l : NoDup l -> t ∈ l -> l ≡ₚ t :: ch_queue_dequeue t l.
Proof.
  intros Hnd Ht. apply NoDup_Permutation; [done| |].
  - apply NoDup_cons. split; [|by apply NoDup_filter]. intros H. by apply list_elem_of_filter in H as [? _].
  - intros x. unfold ch_queue_dequeue. rewrite elem_of_cons, list_elem_of_filter. destruct (decide (x = t)); naive_solver.
Qed.

(** A thread of a queue that gets a new priority takes its place in it. *)
Lemma requeue_spec pr pr' t l :
  0 < pr' t -> (forall x, x <> t -> pr' x = pr x) -> NoDup l -> t ∈ l -> sorted pr l ->
  let l' := ch_sch_prio_insert pr' t (ch_queue_dequeue t l) in l' ≡ₚ l /\ sorted pr' l'.
Proof.
  intros Ht He Hnd Hin Hs l'. destruct (prio_insert_spec pr' t (ch_queue_dequeue t l)) as [Hp Hs']; [done| |].
  - eapply sorted_ext_in; [|by apply (sorted_dequeue pr t)]. intros x Hx. symmetry. apply He.
    by apply list_elem_of_filter in Hx as [? _].
  - split; [|done]. unfold l'. rewrite Hp. symmetry. by apply queue_dequeue_perm.
Qed.

(** ** Fields after an update *)

Lemma fields_set_prio p t s x :
  prios (set_prio p t s) x = (if decide (x = t) then p else prios s x) /\ state (thd (set_prio p t s) x) = state (thd s x) /\
  u (thd (set_prio p t s) x) = u (thd s x) /\ msgqueue (thd (set_prio p t s) x) = msgqueue (thd s x).
Proof.
  unfold prios, thd, set_prio, set_thread; cbn. case_decide as He; [subst; by rewrite fn_lookup_insert|by rewrite fn_lookup_insert_ne].
Qed.

Lemma asleep_set_prio p t s x : asleep (set_prio p t s) x = asleep s x.
Proof. unfold asleep. by destruct (fields_set_prio p t s x) as (_ & -> & _). Qed.

(** [s'] has the words of [s], sleeping threads [A] and priorities [P]. *)
Record rescheduled (s : os_instance) (A : nat -> option tstate_t) (P : nat -> Z) (s' : os_instance) : Prop := {
  r_ok : sched_ok s';
  r_asleep : forall x, asleep s' x = A x;
  r_prio : forall x, prios s' x = P x;
  r_words : forall x, words s' x = words s x
}.

(** A new priority for a thread that is not in the ready list. *)
Lemma set_prio_spec s t p :
  sched_ok s -> 0 < p -> t ∉ pqueue s ->
  rescheduled s (asleep s) (fun x => if decide (x = t) then p else prios s x) (set_prio p t s).
Proof.
  intros Hok Hp Ht. pose proof (fields_set_prio p t s) as Hf. constructor.
  - destruct Hok as [H1 H2 H3 H4 H5 H6]. constructor; [| | |done| |done].
    + intros x. destruct (Hf x) as (-> & _). case_decide; [done|apply H1].
    + intros x. destruct (Hf x) as (_ & -> & _). apply H2.
    + intros x. destruct (Hf x) as (_ & -> & _). apply H3.
    + eapply sorted_ext_in; [|exact H5]. intros x Hx. destruct (Hf x) as (-> & _). by rewrite decide_False by (intros ->; done).
  - intros x. apply asleep_set_prio.
  - intros x. apply Hf.
  - intros x. apply Hf.
Qed.

(** A new priority for a ready thread, which is put in the list anew. *)
Lemma boost_ready_spec s t p :
  sched_ok s -> 0 < p -> state (thd s t) = CH_STATE_READY ->
  wp (modify (set_state CH_STATE_CURRENT t) ;;;
      modify (fun s => set_pqueue (ch_queue_dequeue t (pqueue s)) s) ;;; chSchReadyI t)
    (fun _ s' => rescheduled s (asleep s) (fun x => if decide (x = t) then p else prios s x) s' /\ current s' = current s)
    (set_prio p t s).
Proof.
  intros Hok Hp Ht. set (s0 := set_prio p t s). pose proof (fields_set_prio p t s) as Hf. fold s0 in Hf.
  apply wp_bind. unfold wp at 1, modify at 1. apply wp_bind. unfold wp at 1, modify at 1.
  set (s1 := set_pqueue _ _). unfold chSchReadyI, sch_ready_behind. apply wp_bind, wp_get, wp_bind. unfold wp at 1, assert.
  assert (Hs1 : state (thd s1 t) = CH_STATE_CURRENT) by (unfold s1; change (thd (set_pqueue ?l ?a)) with (thd a); by rewrite state_set_state, decide_True).
  rewrite Hs1. change (can_be_readied CH_STATE_CURRENT) with true. cbn [ret]. apply wp_bind. unfold wp at 1, modify.
  unfold ch_pqueue_insert_behind. apply wp_bind, wp_get. set (s2 := set_state CH_STATE_READY t s1).
  assert (Hpr : forall x, prio (thd s2 x) = prios s0 x).
  { intros x. unfold s2. rewrite prio_set_state. unfold s1. change (thd (set_pqueue ?l ?a)) with (thd a). by rewrite prio_set_state. }
  assert (Hst : forall x, state (thd s2 x) = state (thd s x)).
  { intros x. unfold s2. rewrite state_set_state. case_decide as Hx; [by subst x|]. unfold s1. change (thd (set_pqueue ?l ?a)) with (thd a).
    rewrite state_set_state, decide_False by done. apply Hf. }
  change (pqueue s2) with (ch_queue_dequeue t (pqueue s)).
  assert (Hin : t ∈ pqueue s) by by apply (ok_ready _ Hok).
  destruct (requeue_spec (prios s) (fun x => prio (thd s2 x)) t (pqueue s)) as [Hperm Hsort]; [| |apply Hok|done|apply Hok|].
  { cbv beta. rewrite Hpr. destruct (Hf t) as (-> & _). by rewrite decide_True. }
  { intros x Hx. cbv beta. rewrite Hpr. destruct (Hf x) as (-> & _). by rewrite decide_False. }
  rewrite prio_insert_behind.
  2:{ rewrite Hpr. destruct (Hf t) as (-> & _). by rewrite decide_True. }
  unfold wp, put. split; [|done]. set (l := ch_sch_prio_insert _ _ _) in *.
  change (thd (set_pqueue l s2)) with (thd s2). destruct Hok as [H1 H2 H3 H4 H5 H6]. constructor.
  - constructor; [| | | | |].
    + intros x. change (0 < prio (thd s2 x)). rewrite Hpr. destruct (Hf x) as (-> & _). case_decide; [done|apply H1].
    + intros x. change (state (thd s2 x) = CH_STATE_CURRENT <-> x = current s). rewrite Hst. apply H2.
    + intros x. change (state (thd s2 x) = CH_STATE_READY <-> x ∈ l). rewrite Hst, Hperm. apply H3.
    + change (NoDup l). by rewrite Hperm.
    + exact Hsort.
    + change (idle ∈ current s :: l). by rewrite Hperm.
  - intros x. unfold asleep. change (thd (set_pqueue l s2)) with (thd s2). by rewrite Hst.
  - intros x. change (prio (thd s2 x) = if decide (x = t) then p else prios s x). rewrite Hpr. apply Hf.
  - intros x. unfold words. change (thd (set_pqueue l s2)) with (thd s2). unfold s2. rewrite u_set_state. unfold s1.
    change (thd (set_pqueue ?l ?a)) with (thd a). rewrite u_set_state. apply Hf.
Qed.

(** ** The invariant *)

Definition prio_of (y : ksys) (t : nat) : Z := prios (os y) t.
Definition waiting (y : ksys) (m : nat) : list nat := queue (mutexes y m).
Definition owner_of (y : ksys) (m : nat) : option nat := owner (mutexes y m).
Definition waits_for (y : ksys) (t m : nat) : Prop :=
  asleep (os y) t = Some CH_STATE_WTMTX /\ words (os y) t = Z.of_nat m.

Record locks_ok (y : ksys) : Prop := {
  l_sched : sched_ok (os y);
  l_real : forall t, 0 < realprio y t;
  l_owner : forall m t, owner_of y m = Some t <-> m ∈ mtxlist y t;
  l_nodup : forall t, NoDup (mtxlist y t);
  l_valid : forall m t, owner_of y m = Some t -> (m < mtx_count y)%nat;
  l_waits : forall m t, t ∈ waiting y m <-> waits_for y t m;
  l_some : forall t, asleep (os y) t = Some CH_STATE_WTMTX -> exists m, t ∈ waiting y m;
  l_qnodup : forall m, NoDup (waiting y m);
  l_sorted : forall m, sorted (prio_of y) (waiting y m);
  l_free : forall m, owner_of y m = None -> waiting y m = []
}.

(** [x] waits for a mutex of [t]. *)
Definition waits_on (y : ksys) (x t : nat) : Prop := exists m, m ∈ mtxlist y t /\ x ∈ waiting y m.

(** The priority of [t] is the highest of its own and of those of the threads
    that wait for its mutexes. *)
Record inherits (y : ksys) (t : nat) : Prop := {
  in_real : realprio y t <= prio_of y t;
  in_upper : forall x, waits_on y x t -> prio_of y x <= prio_of y t;
  in_attained : prio_of y t = realprio y t \/ exists x, waits_on y x t /\ prio_of y x = prio_of y t
}.

Lemma awake_not_waiting y t m : locks_ok y -> asleep (os y) t = None -> t ∉ waiting y m.
Proof. intros Hok Ha Hin. apply (l_waits _ Hok) in Hin as [? _]. congruence. Qed.

Lemma waits_for_one y t m m' : locks_ok y -> t ∈ waiting y m -> t ∈ waiting y m' -> m = m'.
Proof. intros Hok H1 H2. apply (l_waits _ Hok) in H1 as [_ H1], H2 as [_ H2]. lia. Qed.

Lemma waits_on_one y x t t' : locks_ok y -> waits_on y x t -> waits_on y x t' -> t = t'.
Proof.
  intros Hok (m & Hm & Hx) (m' & Hm' & Hx'). rewrite (waits_for_one y x m m') in Hm by done.
  apply (l_owner _ Hok) in Hm, Hm'. congruence.
Qed.

(** ** Along the owners *)

(** Everything but the priorities and the order in the queues is as before. *)
Record same_locks (y y' : ksys) : Prop := {
  sl_real : realprio y' = realprio y;
  sl_list : mtxlist y' = mtxlist y;
  sl_count : mtx_count y' = mtx_count y;
  sl_current : current (os y') = current (os y);
  sl_owner : forall m, owner_of y' m = owner_of y m;
  sl_asleep : forall x, asleep (os y') x = asleep (os y) x;
  sl_words : forall x, words (os y') x = words (os y) x;
  sl_queue : forall m x, x ∈ waiting y' m <-> x ∈ waiting y m
}.

#[global] Instance same_locks_refl : Reflexive same_locks.
Proof. by constructor. Qed.
#[global] Instance same_locks_trans : Transitive same_locks.
Proof. intros a b c [] []. constructor; intros; try congruence. naive_solver. Qed.

Lemma same_waits_on y y' x t : same_locks y y' -> waits_on y' x t <-> waits_on y x t.
Proof. intros H. unfold waits_on. rewrite (sl_list _ _ H). by setoid_rewrite (sl_queue _ _ H). Qed.

Section walk.
(** Thread [c], of priority [p], asks for a mutex of [t0]. *)
Context (c t0 : nat) (p : Z).

(** As [in_attained]; [t0] has its priority from [c], which is not yet in the
    queue. *)
Definition attained (y : ksys) (t : nat) : Prop :=
  prio_of y t = realprio y t \/ (exists x, waits_on y x t /\ prio_of y x = prio_of y t) \/ (t = t0 /\ prio_of y t = p).

(** The walk is at [tp]: all other priorities are as they must be. *)
Record walking (y : ksys) (tp : nat) : Prop := {
  w_ok : locks_ok y;
  w_prio : prio_of y c = p;
  w_owner : exists m, owner_of y m = Some tp;
  w_real : forall t, realprio y t <= prio_of y t;
  w_upper : forall t x, waits_on y x t -> prio_of y x <= prio_of y t \/ (t = tp /\ prio_of y x <= p);
  w_attained : forall t, attained y t \/ (t = tp /\ prio_of y t < p);
  w_source : tp = t0 \/ exists x, waits_on y x tp /\ prio_of y x = p;
  w_first : tp = t0 \/ p <= prio_of y t0
}.

(** It has ended. *)
Record walked (y : ksys) : Prop := {
  d_ok : locks_ok y;
  d_prio : prio_of y c = p;
  d_real : forall t, realprio y t <= prio_of y t;
  d_upper : forall t x, waits_on y x t -> prio_of y x <= prio_of y t;
  d_attained : forall t, attained y t;
  d_first : p <= prio_of y t0
}.

Lemma walk_stops y tp : walking y tp -> p <= prio_of y tp -> walked y.
Proof.
  intros [Hok Hp _ Hreal Hup Hat _ Hf] Htp. constructor; [done|done|done| | |].
  - intros t x Hx. destruct (Hup t x Hx) as [?|[-> ?]]; [done|lia].
  - intros t. destruct (Hat t) as [?|[-> ?]]; [done|lia].
  - by destruct Hf as [<-|?].
Qed.

(** Raising [tp], with its place in the queues. *)
Definition raised (tp : nat) (y y' : ksys) : Prop :=
  same_locks y y' /\ locks_ok y' /\ forall x, prio_of y' x = if decide (x = tp) then p else prio_of y x.

Section raise.
Context (y y' : ksys) (tp : nat).
Hypothesis (Hw : walking y tp) (Hlow : prio_of y tp < p) (Hr : raised tp y y').

Lemma raised_prio_c : prio_of y' c = p.
Proof. destruct Hr as (_ & _ & ->). case_decide; [done|apply Hw]. Qed.

Lemma raised_real t : realprio y' t <= prio_of y' t.
Proof.
  destruct Hr as (Hs & _ & ->). rewrite (sl_real _ _ Hs). pose proof (w_real _ _ Hw t). case_decide; [subst; lia|done].
Qed.

Lemma raised_first : p <= prio_of y' t0.
Proof. destruct Hr as (_ & _ & ->). case_decide; [done|]. destruct (w_first _ _ Hw); congruence. Qed.

(** Threads that [tp] does not wait for. *)
Lemma raised_upper t x : waits_on y' x t -> x <> tp -> prio_of y' x <= prio_of y' t.
Proof.
  destruct Hr as (Hs & _ & Hp). rewrite (same_waits_on y y' x t Hs), !Hp. intros Hx Hne. rewrite (decide_False (P := x = tp)) by done.
  destruct (w_upper _ _ Hw t x Hx) as [?|[-> ?]]; case_decide; try lia; subst; try done; lia.
Qed.

Lemma raised_attained t : attained y' t \/ (waits_on y tp t /\ prio_of y' t < p).
Proof.
  destruct Hr as (Hs & _ & Hp). unfold attained. rewrite (sl_real _ _ Hs). setoid_rewrite (same_waits_on y y' _ _ Hs).
  destruct (decide (t = tp)) as [->|Hne].
  - left. right. rewrite Hp, decide_True by done. destruct (w_source _ _ Hw) as [->|(x & Hx & Hpx)]; [by right|].
    left. exists x. split; [done|]. rewrite Hp. by case_decide.
  - rewrite Hp, decide_False by done. destruct (w_attained _ _ Hw t) as [[H|[(x & Hx & Hpx)|[-> H]]]|[? _]]; [auto| |auto|done].
    destruct (decide (x = tp)) as [->|Hxt]; [right; split; [done|lia]|]. left. right. left. exists x.
    split; [done|]. by rewrite Hp, decide_False.
Qed.

(** [tp] waits for no mutex: the walk ends. *)
Lemma raised_last : (forall t, ~ waits_on y tp t) -> walked y'.
Proof.
  intros Hno. pose proof Hr as (Hs & Hok & Hp). constructor.
  - done.
  - exact raised_prio_c.
  - exact raised_real.
  - intros t x Hx. apply raised_upper; [done|]. intros ->. apply (Hno t). by apply (same_waits_on y y' _ _ Hs).
  - intros t. destruct (raised_attained t) as [?|[? _]]; [done|]. by destruct (Hno t).
  - exact raised_first.
Qed.

(** It waits for a mutex of [o]: the walk goes on there. *)
Lemma raised_next o : waits_on y tp o -> walking y' o.
Proof.
  intros Ho. pose proof Hr as (Hs & Hok & Hp). constructor.
  - done.
  - exact raised_prio_c.
  - destruct Ho as (m & Hm & _). exists m. rewrite (sl_owner _ _ Hs). by apply (l_owner _ (w_ok _ _ Hw)).
  - exact raised_real.
  - intros t x Hx. destruct (decide (x = tp)) as [->|Hne]; [|left; by apply raised_upper].
    right. split; [|by rewrite Hp, decide_True]. apply (same_waits_on y y' _ _ Hs) in Hx.
    apply (waits_on_one y tp); [apply Hw|done|done].
  - intros t. destruct (raised_attained t) as [?|[Ht ?]]; [by left|]. right. split; [|done].
    apply (waits_on_one y tp); [apply Hw|done|done].
  - right. exists tp. split; [by apply (same_waits_on y y' _ _ Hs)|]. by rewrite Hp, decide_True.
  - right. exact raised_first.
Qed.
End raise.

(** ** The walk ends *)

(** The owner of [m] is of lower priority than [c]. *)
Definition low (y : ksys) (m : nat) : Prop := match owner_of y m with Some t => prio_of y t < p | None => False end.
#[global] Instance low_dec y m : Decision (low y m).
Proof. unfold low. destruct (owner_of y m); apply _. Defined.

Definition lows (y : ksys) : nat := length (filter (low y) (seq 0 (mtx_count y))).

Lemma lows_bound y : (lows y <= mtx_count y)%nat.
Proof. unfold lows. rewrite length_filter. by rewrite length_seq. Qed.

Lemma filter_fewer {A} (P Q : A -> Prop) `{!forall x, Decision (P x), !forall x, Decision (Q x)} (l : list A) a :
  (forall x, P x -> Q x) -> a ∈ l -> Q a -> ~ P a -> (length (filter P l) < length (filter Q l))%nat.
Proof.
  intros Hsub Ha HQ HP. assert (Hle : forall l', (length (filter P l') <= length (filter Q l'))%nat).
  { intros l'. induction l' as [|x l' IH]; [done|]. rewrite !filter_cons. repeat case_decide; cbn; try lia. naive_solver. }
  induction l as [|x l IH]; [by apply not_elem_of_nil in Ha|]. specialize (Hle l). rewrite !filter_cons.
  apply elem_of_cons in Ha as [<-|Ha].
  - rewrite decide_False, decide_True by done. cbn. lia.
  - specialize (IH Ha). repeat case_decide; cbn; try lia. naive_solver.
Qed.

Lemma lows_decrease y y' tp : walking y tp -> prio_of y tp < p -> raised tp y y' -> (lows y' < lows y)%nat.
Proof.
  intros Hw Hlow (Hs & _ & Hp). destruct (w_owner _ _ Hw) as [m Hm]. unfold lows. rewrite (sl_count _ _ Hs).
  apply (filter_fewer _ _ _ m); unfold low.
  - intros x. rewrite (sl_owner _ _ Hs). destruct (owner_of y x) as [t|]; [|done]. rewrite Hp. case_decide; [subst; lia|done].
  - apply elem_of_seq. pose proof (l_valid _ (w_ok _ _ Hw) m tp Hm). lia.
  - by rewrite Hm.
  - rewrite (sl_owner _ _ Hs), Hm, Hp, decide_True by done. lia.
Qed.

Lemma raised_intro y y' tp :
  locks_ok y -> same_locks y y' -> sched_ok (os y') ->
  (forall x, prio_of y' x = if decide (x = tp) then p else prio_of y x) ->
  (forall m, NoDup (waiting y' m) /\ sorted (prio_of y') (waiting y' m)) -> raised tp y y'.
Proof.
  intros Hok Hs Hsch Hp Hq. split; [done|]. split; [|done]. constructor; [done|..].
  - rewrite (sl_real _ _ Hs). apply Hok.
  - intros m t. rewrite (sl_owner _ _ Hs), (sl_list _ _ Hs). apply Hok.
  - rewrite (sl_list _ _ Hs). apply Hok.
  - intros m t. rewrite (sl_owner _ _ Hs), (sl_count _ _ Hs). apply Hok.
  - intros m t. unfold waits_for. rewrite (sl_queue _ _ Hs), (sl_asleep _ _ Hs), (sl_words _ _ Hs). apply Hok.
  - intros t. rewrite (sl_asleep _ _ Hs). setoid_rewrite (sl_queue _ _ Hs). apply Hok.
  - apply Hq.
  - apply Hq.
  - intros m. rewrite (sl_owner _ _ Hs). intros Hm. apply (l_free _ Hok) in Hm. apply elem_of_nil_inv.
    intros x Hx. apply (sl_queue _ _ Hs) in Hx. rewrite Hm in Hx. by apply not_elem_of_nil in Hx.
Qed.

(** A thread that waits for no mutex is raised. *)
Lemma raised_elsewhere y y' tp :
  locks_ok y -> asleep (os y) tp <> Some CH_STATE_WTMTX ->
  realprio y' = realprio y -> mtxlist y' = mtxlist y -> mutexes y' = mutexes y -> mtx_count y' = mtx_count y ->
  current (os y') = current (os y) ->
  rescheduled (os y) (asleep (os y)) (fun x => if decide (x = tp) then p else prio_of y x) (os y') ->
  raised tp y y'.
Proof.
  intros Hok Htp Hr Hl Hm Hc Hcur [Hsch Ha Hp Hu].
  assert (Hq : forall m, waiting y' m = waiting y m) by (intros; unfold waiting; by rewrite Hm).
  apply raised_intro; [done| |done|exact Hp|].
  - constructor; try done; intros m; [unfold owner_of; by rewrite Hm|by rewrite Hq].
  - intros m. rewrite Hq. split; [apply Hok|]. eapply sorted_ext_in; [|apply Hok]. intros x Hx. unfold prio_of at 2. rewrite Hp.
    rewrite decide_False; [done|]. intros ->. apply (l_waits _ Hok) in Hx as [? _]. done.
Qed.

Lemma not_waiting_on y tp t : locks_ok y -> asleep (os y) tp <> Some CH_STATE_WTMTX -> ~ waits_on y tp t.
Proof. intros Hok Hn (m & _ & Hx). apply (l_waits _ Hok) in Hx as [? _]. done. Qed.

(** A thread that waits for a mutex is raised and queued anew. *)
Lemma raised_waiting y tp m :
  locks_ok y -> 0 < p -> tp ∈ waiting y m ->
  let y1 := set_os (set_prio p tp (os y)) y in
  raised tp y (set_queue m (ch_sch_prio_insert (prios (os y1)) tp (ch_queue_dequeue tp (waiting y m))) y1).
Proof.
  intros Hok Hp0 Htp y1. set (y' := set_queue _ _ _). assert (Hnr : tp ∉ pqueue (os y)).
  { intros Hin. apply (ok_ready _ (l_sched _ Hok)) in Hin. apply (l_waits _ Hok) in Htp as [Htp _].
    apply asleep_not_awake in Htp as (Htp & _). congruence. }
  destruct (set_prio_spec (os y) tp p (l_sched _ Hok) Hp0 Hnr) as [Hsch Ha Hp Hu].
  destruct (requeue_spec (prio_of y) (prio_of y') tp (waiting y m)) as [Hperm Hsort]; [| |apply Hok|done|apply Hok|].
  { change (0 < prios (set_prio p tp (os y)) tp). by rewrite Hp, decide_True. }
  { intros x Hx. change (prios (set_prio p tp (os y)) x = prio_of y x). by rewrite Hp, decide_False. }
  assert (Hq : forall n, waiting y' n = if decide (n = m) then ch_sch_prio_insert (prio_of y') tp (ch_queue_dequeue tp (waiting y m)) else waiting y n).
  { intros n. unfold waiting, y', set_queue, set_mutex; cbn. case_decide as Hn; [subst; by rewrite fn_lookup_insert|by rewrite fn_lookup_insert_ne]. }
  apply raised_intro; [done| |done|exact Hp|].
  - constructor; try done; intros n.
    + unfold owner_of, y', set_queue, set_mutex; cbn. destruct (decide (n = m)) as [->|]; [by rewrite fn_lookup_insert|by rewrite fn_lookup_insert_ne].
    + intros x. rewrite Hq. case_decide; [subst; by rewrite Hperm|done].
  - intros n. rewrite Hq. case_decide as Hn; [split; [by rewrite Hperm; apply Hok|done]|]. split; [apply Hok|].
    eapply sorted_ext_in; [|apply Hok]. intros x Hx. change (prio_of y x = prios (set_prio p tp (os y)) x).
    rewrite Hp, decide_False; [done|]. intros ->. apply Hn. by apply (waits_for_one y tp).
Qed.

Lemma waiting_wtmtxp y t m : locks_ok y -> t ∈ waiting y m -> wtmtxp (os y) t = m /\ exists o, owner_of y m = Some o.
Proof.
  intros Hok Ht. split.
  - apply (l_waits _ Hok) in Ht as [_ Hu]. unfold wtmtxp, words in *. rewrite Hu. apply Nat2Z.id.
  - destruct (owner_of y m) eqn:Ho; [eauto|]. rewrite (l_free _ Hok m Ho) in Ht. by apply not_elem_of_nil in Ht.
Qed.

Lemma boost_spec fuel : forall y tp,
  walking y tp -> (lows y < fuel)%nat -> wp (boost fuel c tp) (fun _ y' => same_locks y y' /\ walked y') y.
Proof.
  induction fuel as [|fuel IH]; intros y tp Hw Hf; [lia|]. cbn [boost]. apply wp_bind, wp_get.
  pose proof (w_prio _ _ Hw) as Hc. unfold prio_of in Hc. rewrite Hc. pose proof (w_ok _ _ Hw) as Hok.
  assert (Hp0 : 0 < p) by (rewrite <- Hc; apply (l_sched _ Hok)).
  case_decide as Hlow; [|apply wp_ret; split; [done|]; apply (walk_stops y tp); [done|unfold prio_of; lia]].
  apply wp_bind. unfold wp at 1, modify at 1. apply wp_bind, wp_get. set (y1 := set_os _ y).
  destruct (fields_set_prio p tp (os y) tp) as (_ & Hst & Hu & _). change (os y1) with (set_prio p tp (os y)). rewrite Hst.
  assert (Hnr : state (thd (os y) tp) <> CH_STATE_READY -> tp ∉ pqueue (os y)).
  { intros Hn Hin. by apply (ok_ready _ (l_sched _ Hok)) in Hin. }
  assert (Hlast : forall y', asleep (os y) tp <> Some CH_STATE_WTMTX -> raised tp y y' -> same_locks y y' /\ walked y').
  { intros y' Hn Hr. split; [apply Hr|]. apply (raised_last y y' tp); [done|done|done|]. intros t. by apply not_waiting_on. }
  assert (Hplace : forall y', state (thd (os y) tp) <> CH_STATE_READY -> asleep (os y) tp <> Some CH_STATE_WTMTX ->
    os y' = set_prio p tp (os y) -> realprio y' = realprio y -> mtxlist y' = mtxlist y -> mutexes y' = mutexes y ->
    mtx_count y' = mtx_count y -> same_locks y y' /\ walked y').
  { intros y' Hr Hn Ho ? ? ? ?. apply Hlast; [done|]. apply raised_elsewhere; try done; rewrite Ho; [done|].
    apply set_prio_spec; [apply Hok|done|by apply Hnr]. }
  destruct (state (thd (os y) tp)) eqn:Hs; try (apply wp_ret, Hplace; try done; unfold asleep; by rewrite Hs).
  - apply wp_zoom. eapply wp_conseq; [apply boost_ready_spec; [apply Hok|done|done]|]. intros ? s' [Hr Hcur].
    assert (Hn : asleep (os y) tp <> Some CH_STATE_WTMTX) by (unfold asleep; by rewrite Hs).
    apply Hlast; [done|]. by apply raised_elsewhere.
  - apply wp_bind. unfold wp at 1, modify.
    destruct (l_some _ Hok tp) as [m Htp]; [unfold asleep; by rewrite Hs|]. destruct (waiting_wtmtxp y tp m) as [Hm (o & Ho)]; [done|done|].
    unfold wtmtxp in *. rewrite Hu, Hm. change (mutexes y1) with (mutexes y). unfold owner_of in Ho. rewrite Ho.
    pose proof (raised_waiting y tp m Hok Hp0 Htp) as Hr. cbv zeta in Hr. fold y1 in Hr.
    assert (Hon : waits_on y tp o) by (exists m; split; [by apply (l_owner _ Hok)|done]).
    eapply wp_conseq; [apply IH|].
    + apply (raised_next y _ tp); [exact Hw|done|exact Hr|done].
    + eapply Nat.lt_le_trans; [exact (lows_decrease y _ tp Hw Hlow Hr)|lia].
    + intros ? y' [Hs' Hd]. split; [|done]. etransitivity; [apply Hr|done].
Qed.
End walk.

(** ** What each operation does *)

Definition good (y : ksys) : Prop := locks_ok y /\ forall t, inherits y t.

(** What an operation of [c] does to another thread: nothing, or a mutex is
    handed over to it. *)
Definition handed (c : nat) (y y' : ksys) : Prop := forall x, x <> c ->
  (mtxlist y' x = mtxlist y x /\ asleep (os y') x = asleep (os y) x /\ forall m, x ∈ waiting y' m <-> x ∈ waiting y m) \/
  (exists m, x ∈ waiting y m /\ asleep (os y') x = None /\ mtxlist y' x = m :: mtxlist y x).

Lemma handed_refl c y : handed c y y.
Proof. intros x _. by left. Qed.

Lemma handed_trans c y y1 y2 : locks_ok y1 -> handed c y y1 -> handed c y1 y2 -> handed c y y2.
Proof.
  intros Hok H1 H2 x Hx. destruct (H1 x Hx) as [(Hl & Ha & Hq)|(m & Hm & Ha & Hl)], (H2 x Hx) as [(Hl' & Ha' & Hq')|(m' & Hm' & Ha' & Hl')].
  - left. split_and!; [congruence|congruence|]. intros n. by rewrite Hq'.
  - right. exists m'. rewrite <- Hl. split; [by apply Hq|done].
  - right. exists m. split; [done|]. split; congruence.
  - by apply (awake_not_waiting y1 x m') in Hm'.
Qed.

(** Steps of the scheduler that touch no thread that waits for a mutex. *)
Lemma other_step y s' :
  good y -> sched_ok s' -> (forall x, prios s' x = prio_of y x) ->
  (forall x, asleep s' x = Some CH_STATE_WTMTX <-> asleep (os y) x = Some CH_STATE_WTMTX) ->
  (forall x, asleep (os y) x = Some CH_STATE_WTMTX -> words s' x = words (os y) x) ->
  good (set_os s' y).
Proof.
  intros [Hok Hin] Hs Hp Ha Hu. split.
  - constructor; try apply Hok; [done| | |].
    + intros m t. change (t ∈ waiting y m <-> asleep s' t = Some CH_STATE_WTMTX /\ words s' t = Z.of_nat m).
      rewrite (l_waits _ Hok). unfold waits_for. rewrite Ha. split; intros [H1 H2]; rewrite Hu in * by done; done.
    + intros t. change (asleep s' t = Some CH_STATE_WTMTX -> exists m, t ∈ waiting y m). rewrite Ha. apply Hok.
    + intros m. eapply sorted_ext; [|apply Hok]. intros x. symmetry. apply Hp.
  - intros t. destruct (Hin t) as [H1 H2 H3]. constructor.
    + change (realprio y t <= prios s' t). by rewrite Hp.
    + intros x Hx. change (prios s' x <= prios s' t). rewrite !Hp. by apply H2.
    + change (prios s' t = realprio y t \/ exists x, waits_on y x t /\ prios s' x = prios s' t). rewrite Hp. by setoid_rewrite Hp.
Qed.

Lemma reschedule_spec y :
  good y -> wp (zoom os_lens chSchRescheduleS) (fun _ y' => good y' /\ dispatched (os y') /\
    mtxlist y' = mtxlist y /\ mutexes y' = mutexes y /\ mtx_count y' = mtx_count y /\
    (forall x, asleep (os y') x = asleep (os y) x)) y.
Proof.
  intros Hg. pose proof Hg as [Hok _]. apply wp_zoom. eapply wp_conseq; [apply chSchRescheduleS_spec, Hok|].
  intros ? s' [[Hs [Hp Hu _] Ha _] Hd]. split; [|done]. apply other_step; [done|done|done| |].
  - intros x. change (os y) with (view os_lens y). by rewrite Ha.
  - intros x _. apply Hu.
Qed.

(** *** Locking *)

Lemma take_mutex_spec y m c :
  good y -> owner_of y m = None -> (m < mtx_count y)%nat ->
  good (take_mutex m c y) /\ handed c y (take_mutex m c y) /\ mtxlist (take_mutex m c y) c = m :: mtxlist y c.
Proof.
  intros [Hok Hin] Hno Hm. set (y' := take_mutex m c y).
  assert (Hl : forall x, mtxlist y' x = if decide (x = c) then m :: mtxlist y c else mtxlist y x).
  { intros x. unfold y', take_mutex, set_mtxlist; cbn. case_decide as Hx; [subst; by rewrite fn_lookup_insert|by rewrite fn_lookup_insert_ne]. }
  assert (Hmx : forall n, mutexes y' n = if decide (n = m) then Mutex (Some c) (waiting y m) else mutexes y n).
  { intros n. unfold y', take_mutex, set_mtxlist, set_owner, set_mutex; cbn. case_decide as Hx; [subst; by rewrite fn_lookup_insert|by rewrite fn_lookup_insert_ne]. }
  assert (Hq : forall n, waiting y' n = waiting y n) by (intros n; unfold waiting; rewrite Hmx; case_decide; by subst).
  assert (Ho : forall n, owner_of y' n = if decide (n = m) then Some c else owner_of y n) by (intros n; unfold owner_of; rewrite Hmx; by case_decide).
  assert (Hfree : forall t, m ∉ mtxlist y t) by (intros t Ht; apply (l_owner _ Hok) in Ht; congruence).
  assert (Hon : forall x t, waits_on y' x t <-> waits_on y x t).
  { intros x t. unfold waits_on. setoid_rewrite Hq. rewrite Hl. case_decide as Ht; [|done]. subst t. split; intros (n & Hn & Hx); exists n; (split; [|done]).
    - apply elem_of_cons in Hn as [->|?]; [|done]. rewrite (l_free _ Hok m Hno) in Hx. by apply not_elem_of_nil in Hx.
    - by apply elem_of_cons; right. }
  split; [split|split].
  - constructor; try apply Hok.
    + intros n t. rewrite Ho, Hl. pose proof (l_owner _ Hok n t) as Hn. destruct (decide (n = m)) as [->|].
      * destruct (decide (t = c)) as [->|]; [split; [intros _; apply elem_of_cons; by left|done]|].
        split; [intros [=]; congruence|intros Ht; by apply Hfree in Ht].
      * destruct (decide (t = c)) as [->|]; [rewrite elem_of_cons; naive_solver|done].
    + intros t. rewrite Hl. case_decide; [|apply Hok]. apply NoDup_cons. split; [apply Hfree|apply Hok].
    + intros n t. rewrite Ho. case_decide; [by subst|apply Hok].
    + intros n t. rewrite Hq. apply Hok.
    + intros t. setoid_rewrite Hq. apply Hok.
    + intros n. rewrite Hq. apply Hok.
    + intros n. rewrite Hq. apply Hok.
    + intros n. rewrite Ho, Hq. case_decide; [done|apply Hok].
  - intros t. destruct (Hin t) as [H1 H2 H3]. constructor; [done| |]; setoid_rewrite Hon; done.
  - intros x Hx. left. rewrite Hl, decide_False by done. split; [done|]. split; [done|]. intros n. by rewrite Hq.
  - by rewrite Hl, decide_True.
Qed.

(** Thread [c] takes its place in the queue of [m], whose owner has been raised. *)
Lemma queued_ok c t0 p m y y' :
  walked c t0 p y -> owner_of y m = Some t0 -> asleep (os y) c = None -> sched_ok (os y') ->
  realprio y' = realprio y -> mtxlist y' = mtxlist y -> mtx_count y' = mtx_count y ->
  (forall n, owner_of y' n = owner_of y n) -> (forall x, prio_of y' x = prio_of y x) ->
  (forall x, asleep (os y') x = if decide (x = c) then Some CH_STATE_WTMTX else asleep (os y) x) ->
  (forall x, words (os y') x = if decide (x = c) then Z.of_nat m else words (os y) x) ->
  (forall n, waiting y' n = if decide (n = m) then ch_sch_prio_insert (prio_of y) c (waiting y m) else waiting y n) ->
  good y' /\ handed c y y' /\ c ∈ waiting y' m.
Proof.
  intros [Hok Hpc Hreal Hup Hat Hf] Hom Hac Hs' Hr Hl Hc Ho Hp Ha Hu Hq.
  destruct (prio_insert_spec (prio_of y) c (waiting y m)) as [Hperm Hsort]; [apply (l_sched _ Hok)|apply Hok|].
  assert (Hin : forall n x, x ∈ waiting y' n <-> x ∈ waiting y n \/ (x = c /\ n = m)).
  { intros n x. rewrite Hq. case_decide as Hn; [subst n; rewrite Hperm, elem_of_cons; naive_solver|naive_solver]. }
  assert (Hnc : forall n, c ∉ waiting y n) by (intros; by apply awake_not_waiting).
  assert (Hon : forall x t, waits_on y' x t <-> waits_on y x t \/ (x = c /\ t = t0)).
  { intros x t. unfold waits_on. rewrite Hl. setoid_rewrite Hin. split.
    - intros (n & Hn & [Hx|[-> ->]]); [by left; exists n|]. right. split; [done|]. apply (l_owner _ Hok) in Hn. congruence.
    - intros [(n & Hn & Hx)|[-> ->]]; [exists n; auto|]. exists m. split; [by apply (l_owner _ Hok)|auto]. }
  split; [split|split].
  - constructor; [done|rewrite Hr; apply Hok|intros; rewrite Ho, Hl; apply Hok|rewrite Hl; apply Hok|intros n t; rewrite Ho, Hc; apply Hok|..].
    + intros n t. rewrite Hin, (l_waits _ Hok). unfold waits_for. rewrite Ha, Hu. case_decide as Ht; [subst t|naive_solver].
      rewrite Hac. split; [intros [[? _]|[_ ->]]; [done|done]|]. intros [_ Hz]. right. split; [done|lia].
    + intros t. rewrite Ha. case_decide as Ht; [intros _; exists m; apply Hin; auto|]. intros Hw. destruct (l_some _ Hok t Hw) as [n Hn].
      exists n. apply Hin. auto.
    + intros n. rewrite Hq. case_decide; [|apply Hok]. rewrite Hperm. apply NoDup_cons. split; [done|apply Hok].
    + intros n. eapply (sorted_ext (prio_of y)); [intros; by rewrite Hp|]. rewrite Hq. case_decide; [done|apply Hok].
    + intros n. rewrite Ho, Hq. intros Hn. rewrite decide_False by congruence. by apply Hok.
  - intros t. constructor; rewrite ?Hr, !Hp.
    + apply Hreal.
    + intros x. rewrite Hon, Hp. intros [Hx|[-> ->]]; [by apply Hup|by rewrite Hpc].
    + setoid_rewrite Hon. setoid_rewrite Hp. destruct (Hat t) as [?|[(x & ? & ?)|[-> ?]]]; [by left|right; exists x; auto|].
      right. exists c. split; [auto|congruence].
  - intros x Hx. left. rewrite Hl, Ha, decide_False by done. split; [done|]. split; [done|]. intros n. rewrite Hin. naive_solver.
  - apply Hin. auto.
Qed.

Lemma inherits_walking y c t0 m :
  good y -> owner_of y m = Some t0 -> walking c t0 (prio_of y c) y t0.
Proof.
  intros [Hok Hin] Hm. constructor; [done|done|by exists m|apply Hin| |..].
  - intros t x Hx. left. by apply (in_upper _ _ (Hin t)).
  - intros t. left. destruct (in_attained _ _ (Hin t)); [by left|by right; left].
  - by left.
  - by left.
Qed.

Lemma running_awake y : locks_ok y -> asleep (os y) (current (os y)) = None.
Proof. intros Hok. apply current_awake, Hok. Qed.

(** The end of [chMtxLockS] when the mutex is taken. *)
Lemma sleep_on_mutex y c t0 p m :
  walked c t0 p y -> owner_of y m = Some t0 -> c = current (os y) -> c <> idle ->
  wp (modify (fun y => set_queue m (ch_sch_prio_insert (prios (os y)) c (queue (mutexes y m))) y) ;;;
      zoom os_lens (modify (set_u (Z.of_nat m) c)) ;;;
      zoom os_lens (chSchGoSleepS CH_STATE_WTMTX) ;;; ret false)
    (fun b y' => b = false /\ good y' /\ dispatched (os y') /\ handed c y y' /\ mtx_count y' = mtx_count y /\
       c ∈ waiting y' m /\ mtxlist y' = mtxlist y) y.
Proof.
  intros Hw Hm Hc Hi. pose proof (d_ok _ _ _ _ Hw) as Hok. pose proof (running_awake y Hok) as Haw. rewrite <- Hc in Haw.
  apply wp_bind. unfold wp at 1, modify at 1. apply wp_bind, wp_zoom. unfold wp at 1, modify at 1.
  set (y1 := over os_lens _ _). set (s1 := set_u (Z.of_nat m) c (os y)). change (os y1) with s1.
  destruct (set_u_view (Z.of_nat m) c (os y)) as (Hok1 & _ & Has1 & _ & Hp1). fold s1 in Hok1, Has1, Hp1.
  apply wp_bind, wp_zoom. change (view os_lens y1) with s1.
  eapply wp_conseq; [apply chSchGoSleepS_spec; [apply Hok1, Hok|change (current s1) with (current (os y)); by rewrite <- Hc|done]|].
  intros ? s' [[Hs [Hp Hu _] Ha _] Hd]. apply wp_ret. set (y' := over os_lens s' y1). split; [done|].
  assert (Hmx : forall n, mutexes y' n = if decide (n = m) then Mutex (owner_of y m) (ch_sch_prio_insert (prio_of y) c (waiting y m)) else mutexes y n).
  { intros n. unfold y', y1, set_queue, set_mutex; cbn. case_decide as Hn; [subst; by rewrite fn_lookup_insert|by rewrite fn_lookup_insert_ne]. }
  destruct (queued_ok c t0 p m y y') as (Hg & Hh & Hin); try done.
  - intros n. unfold owner_of. rewrite Hmx. case_decide; by subst.
  - intros x. change (prios s' x = prio_of y x). by rewrite Hp, Hp1.
  - intros x. change (asleep s' x = if decide (x = c) then Some CH_STATE_WTMTX else asleep (os y) x).
    rewrite Ha. unfold fell_asleep. change (current s1) with (current (os y)). rewrite <- Hc. case_decide; [done|apply Has1].
  - intros x. change (words s' x = if decide (x = c) then Z.of_nat m else words (os y) x). unfold words. rewrite Hu. apply u_set_u.
  - intros n. unfold waiting. rewrite Hmx. by case_decide.
Qed.

(** What a lock call has done when it returns or sleeps. *)
Definition lock_result (c m : nat) (y : ksys) (got : bool) (y' : ksys) : Prop :=
  if got then mtxlist y' c = m :: mtxlist y c /\ asleep (os y') c = None
  else c ∈ waiting y' m /\ mtxlist y' c = mtxlist y c.

Lemma chMtxLockS_spec y m :
  good y -> dispatched (os y) -> current (os y) <> idle -> (m < mtx_count y)%nat ->
  wp (chMtxLockS m) (fun got y' => good y' /\ dispatched (os y') /\ mtx_count y' = mtx_count y /\
    handed (current (os y)) y y' /\ lock_result (current (os y)) m y got y') y.
Proof.
  intros Hg Hd Hi Hm. pose proof Hg as [Hok _]. set (c := current (os y)). unfold chMtxLockS. apply wp_bind, wp_get. fold c.
  destruct (owner (mutexes y m)) as [t0|] eqn:Ho.
  - apply wp_bind. eapply wp_conseq; [apply (boost_spec c t0 (prio_of y c)); [by apply (inherits_walking y c t0 m)|]|].
    { pose proof (lows_bound (prio_of y c) y). lia. }
    intros ? y1 [Hs Hw]. eapply wp_conseq; [apply (sleep_on_mutex y1 c t0 (prio_of y c)); [done| | |done]|].
    + by rewrite (sl_owner _ _ Hs).
    + by rewrite (sl_current _ _ Hs).
    + intros b y' (-> & Hg' & Hd' & Hh & Hn & Hin & Hl). rewrite (sl_count _ _ Hs) in Hn. rewrite (sl_list _ _ Hs) in Hl.
      split_and!; [done|done|done| |split; [done|by rewrite Hl]]. eapply handed_trans; [exact (d_ok _ _ _ _ Hw)| |exact Hh].
      intros x _. left. rewrite (sl_list _ _ Hs). split; [done|]. split; [exact (sl_asleep _ _ Hs x)|]. intros n. exact (sl_queue _ _ Hs n x).
  - apply wp_bind. unfold wp at 1, modify. apply wp_ret. destruct (take_mutex_spec y m c Hg Ho Hm) as (Hg' & Hh & Hl).
    do 4 (split; [done|]). split; [done|]. by apply (running_awake y).
Qed.

Lemma chMtxTryLockS_spec y m :
  good y -> dispatched (os y) -> (m < mtx_count y)%nat ->
  wp (chMtxTryLockS m) (fun got y' => good y' /\ dispatched (os y') /\ mtx_count y' = mtx_count y /\
    handed (current (os y)) y y' /\
    if got then mtxlist y' (current (os y)) = m :: mtxlist y (current (os y)) /\ asleep (os y') (current (os y)) = None else y' = y) y.
Proof.
  intros Hg Hd Hm. unfold chMtxTryLockS. apply wp_bind, wp_get. set (c := current (os y)).
  destruct (owner (mutexes y m)) as [t0|] eqn:Ho.
  - apply wp_ret. split_and!; [done|done|done|apply handed_refl|done].
  - apply wp_bind. unfold wp at 1, modify. apply wp_ret. destruct (take_mutex_spec y m c Hg Ho Hm) as (Hg' & Hh & Hl).
    do 4 (split; [done|]). split; [done|]. exact (running_awake y (proj1 Hg)).
Qed.

(** *** Unlocking *)

(** [c] gives up [m], the first of its mutexes; the first thread that waits for
    it, if any, has it now.  The new priority of [c] is not said here. *)
Record released (c m : nat) (next : list nat) (y y' : ksys) : Prop := {
  rl_sched : sched_ok (os y');
  rl_real : realprio y' = realprio y;
  rl_count : mtx_count y' = mtx_count y;
  rl_current : current (os y') = current (os y);
  rl_prio : forall x, x <> c -> prio_of y' x = prio_of y x;
  rl_words : forall x, words (os y') x = words (os y) x;
  rl_rest : forall n, n <> m -> mutexes y' n = mutexes y n;
  rl_owner : owner_of y' m = head (waiting y m);
  rl_queue : waiting y' m = tail (waiting y m);
  rl_asleep : forall x, asleep (os y') x = if decide (head (waiting y m) = Some x) then None else asleep (os y) x;
  rl_list : forall x, mtxlist y' x = if decide (x = c) then next else
    if decide (head (waiting y m) = Some x) then m :: mtxlist y x else mtxlist y x
}.

Section release.
Context (c m : nat) (next : list nat) (y y' : ksys).
Hypothesis (Hok : locks_ok y) (Hc : asleep (os y) c = None) (Hm : mtxlist y c = m :: next) (Hr : released c m next y y').

Lemma first_waits h : head (waiting y m) = Some h -> h ∈ waiting y m.
Proof. destruct (waiting y m) as [|h' q]; [done|]. intros [= ->]. apply elem_of_cons. by left. Qed.

Lemma first_not_c : head (waiting y m) <> Some c.
Proof. intros H. apply first_waits in H. by apply (awake_not_waiting y c m) in H. Qed.

Lemma released_waiting n x : x ∈ waiting y' n <-> x ∈ waiting y n /\ head (waiting y m) <> Some x.
Proof.
  destruct (decide (n = m)) as [->|Hn].
  - rewrite (rl_queue _ _ _ _ _ Hr). pose proof (l_qnodup _ Hok m) as Hnd. destruct (waiting y m) as [|h q]; cbn [head tail].
    + split; [intros H; by apply not_elem_of_nil in H|tauto].
    + apply NoDup_cons in Hnd as [Hh _]. rewrite elem_of_cons. split; [intros Hx; split; [tauto|intros [= ->]; done]|].
      intros [[->|?] ?]; [done|done].
  - unfold waiting at 1. rewrite (rl_rest _ _ _ _ _ Hr) by done. fold (waiting y n). split; [|tauto]. intros Hx. split; [done|].
    intros Hh. apply Hn, (waits_for_one y x); [done|done|by apply first_waits].
Qed.

Lemma owner_c : owner_of y m = Some c.
Proof. apply (l_owner _ Hok). rewrite Hm. apply elem_of_cons. by left. Qed.

Lemma released_owner n t : owner_of y' n = Some t <-> n ∈ mtxlist y' t.
Proof.
  pose proof first_not_c as Hnc. pose proof (l_nodup _ Hok c) as Hnd. rewrite Hm in Hnd. apply NoDup_cons in Hnd as [Hnm Hnd].
  rewrite (rl_list _ _ _ _ _ Hr). destruct (decide (n = m)) as [->|Hn].
  - rewrite (rl_owner _ _ _ _ _ Hr). case_decide as Ht; [subst t; tauto|]. case_decide as Hh; [rewrite elem_of_cons; tauto|].
    split; [done|]. intros Hin. apply (l_owner _ Hok) in Hin. rewrite owner_c in Hin. congruence.
  - unfold owner_of. rewrite (rl_rest _ _ _ _ _ Hr) by done. fold (owner_of y n). rewrite (l_owner _ Hok).
    case_decide as Ht; [subst t; rewrite Hm, elem_of_cons; tauto|]. case_decide; [rewrite elem_of_cons; tauto|done].
Qed.

Lemma released_locks : locks_ok y'.
Proof.
  constructor.
  - apply Hr.
  - rewrite (rl_real _ _ _ _ _ Hr). apply Hok.
  - exact released_owner.
  - intros t. rewrite (rl_list _ _ _ _ _ Hr). pose proof (l_nodup _ Hok c) as Hnd. rewrite Hm in Hnd. apply NoDup_cons in Hnd as [_ Hnd].
    case_decide as Ht; [done|]. case_decide; [|apply Hok]. apply NoDup_cons. split; [|apply Hok].
    intros Hin. apply (l_owner _ Hok) in Hin. rewrite owner_c in Hin. congruence.
  - intros n t. rewrite (rl_count _ _ _ _ _ Hr). destruct (decide (n = m)) as [->|Hn].
    + intros _. apply (l_valid _ Hok m c), owner_c.
    + unfold owner_of. rewrite (rl_rest _ _ _ _ _ Hr) by done. apply Hok.
  - intros n t. rewrite released_waiting, (l_waits _ Hok). unfold waits_for. rewrite (rl_asleep _ _ _ _ _ Hr), (rl_words _ _ _ _ _ Hr).
    case_decide; naive_solver.
  - intros t. rewrite (rl_asleep _ _ _ _ _ Hr). case_decide; [done|]. intros Ht. destruct (l_some _ Hok t Ht) as [n Hn].
    exists n. by apply released_waiting.
  - intros n. destruct (decide (n = m)) as [->|Hn].
    + rewrite (rl_queue _ _ _ _ _ Hr). pose proof (l_qnodup _ Hok m) as Hnd. destruct (waiting y m); [done|]. by apply NoDup_cons in Hnd as [_ ?].
    + unfold waiting. rewrite (rl_rest _ _ _ _ _ Hr) by done. apply Hok.
  - intros n. apply (sorted_ext_in (prio_of y)).
    { intros x Hx. apply released_waiting in Hx as [Hx _]. symmetry. apply (rl_prio _ _ _ _ _ Hr). intros ->.
      by apply (awake_not_waiting y c n) in Hx. }
    destruct (decide (n = m)) as [->|Hn].
    + rewrite (rl_queue _ _ _ _ _ Hr). pose proof (l_sorted _ Hok m) as Hs. destruct (waiting y m); [done|]. by apply sorted_inv in Hs as [? _].
    + unfold waiting. rewrite (rl_rest _ _ _ _ _ Hr) by done. apply Hok.
  - intros n. destruct (decide (n = m)) as [->|Hn].
    + rewrite (rl_owner _ _ _ _ _ Hr), (rl_queue _ _ _ _ _ Hr). by destruct (waiting y m).
    + unfold owner_of, waiting. rewrite (rl_rest _ _ _ _ _ Hr) by done. apply Hok.
Qed.

Lemma released_handed : handed c y y'.
Proof.
  intros x Hx. rewrite (rl_list _ _ _ _ _ Hr), (rl_asleep _ _ _ _ _ Hr), decide_False by done. case_decide as Hh.
  - right. exists m. split; [by apply first_waits|done].
  - left. split; [done|]. split; [done|]. intros n. rewrite released_waiting. tauto.
Qed.

(** The waiting threads of another owner's mutexes. *)
Lemma released_waits_on x t : t <> c -> waits_on y' x t <-> waits_on y x t \/ (head (waiting y m) = Some t /\ x ∈ tail (waiting y m)).
Proof.
  intros Ht. unfold waits_on. rewrite (rl_list _ _ _ _ _ Hr), decide_False by done.
  assert (Hold : forall n, n ∈ mtxlist y t -> n <> m) by (intros n Hn ->; apply (l_owner _ Hok) in Hn; rewrite owner_c in Hn; congruence).
  assert (Hsame : forall n, n ∈ mtxlist y t -> x ∈ waiting y' n <-> x ∈ waiting y n).
  { intros n Hn. unfold waiting. by rewrite (rl_rest _ _ _ _ _ Hr) by (by apply Hold). }
  rewrite <- (rl_queue _ _ _ _ _ Hr). case_decide as Hh.
  - split.
    + intros (n & Hn & Hx). apply elem_of_cons in Hn as [->|Hn]; [by right|]. left. exists n. split; [done|]. by apply Hsame.
    + intros [(n & Hn & Hx)|[_ Hx]]; [exists n|exists m]; rewrite elem_of_cons; split; auto. by apply Hsame.
  - split; [|intros [(n & Hn & Hx)|[? _]]; [|done]].
    + intros (n & Hn & Hx). left. exists n. split; [done|]. by apply Hsame.
    + exists n. split; [done|]. by apply Hsame.
Qed.

Lemma released_inherits t : t <> c -> inherits y t -> inherits y' t.
Proof.
  intros Ht [H1 H2 H3].
  assert (Hp : forall x, waits_on y' x t -> prio_of y' x = prio_of y x).
  { intros x (n & _ & Hx). apply released_waiting in Hx as [Hx _]. apply (rl_prio _ _ _ _ _ Hr). intros ->.
    by apply (awake_not_waiting y c n) in Hx. }
  constructor; rewrite ?(rl_real _ _ _ _ _ Hr), ?(rl_prio _ _ _ _ _ Hr t Ht); [done| |].
  - intros x Hx. rewrite Hp by done. apply released_waits_on in Hx as [Hx|[Hh Hx]]; [by apply H2| |done].
    pose proof (l_sorted _ Hok m) as Hs. destruct (waiting y m) as [|h q]; [done|]. injection Hh as ->.
    apply sorted_inv in Hs as [_ Hs]. rewrite Forall_forall in Hs. by apply Hs.
  - destruct H3 as [?|(x & Hx & He)]; [by left|]. right. exists x. assert (Hx' : waits_on y' x t) by (apply released_waits_on; auto).
    split; [done|]. by rewrite Hp.
Qed.
End release.

(** [m] is off the list of [c] and not yet given to anybody else. *)
Record dropped (c : nat) (next : list nat) (y z : ksys) : Prop := {
  dr_sched : sched_ok (os z);
  dr_real : realprio z = realprio y;
  dr_count : mtx_count z = mtx_count y;
  dr_current : current (os z) = current (os y);
  dr_prio : forall x, x <> c -> prio_of z x = prio_of y x;
  dr_words : forall x, words (os z) x = words (os y) x;
  dr_mutexes : mutexes z = mutexes y;
  dr_asleep : forall x, asleep (os z) x = asleep (os y) x;
  dr_list : forall x, mtxlist z x = if decide (x = c) then next else mtxlist y x
}.

Lemma dropped_intro y c m next : locks_ok y -> mtxlist y c = m :: next -> dropped c next y (set_mtxlist c next y).
Proof.
  intros Hok Hm. constructor; try done; [apply Hok|]. intros x. unfold set_mtxlist; cbn.
  case_decide; [subst; by rewrite fn_lookup_insert|by rewrite fn_lookup_insert_ne].
Qed.

Lemma dropped_set_prio y z c next p :
  dropped c next y z -> 0 < p -> c = current (os z) -> dropped c next y (set_os (set_prio p c (os z)) z).
Proof.
  intros [H1 H2 H3 H4 H5 H6 H7 H8 H9] Hp Hc. destruct (set_prio_spec (os z) c p H1 Hp) as [Hs Ha Hpr Hu].
  { subst c. by apply current_not_ready. }
  constructor; try done.
  - intros x Hx. change (prios (set_prio p c (os z)) x = prio_of y x). rewrite Hpr, decide_False by done. by apply H5.
  - intros x. change (words (set_prio p c (os z)) x = words (os y) x). by rewrite Hu.
  - intros x. change (asleep (set_prio p c (os z)) x = asleep (os y) x). by rewrite Ha.
Qed.

Section give.
Context (c m : nat) (next : list nat) (y z : ksys).
Hypothesis (Hok : locks_ok y) (Hc : asleep (os y) c = None) (Hd : dropped c next y z).

Lemma give_nobody : waiting y m = [] -> released c m next y (set_owner m None z).
Proof.
  intros Hq. destruct Hd as [H1 H2 H3 H4 H5 H6 H7 H8 H9].
  assert (Hmx : forall n, mutexes (set_owner m None z) n = if decide (n = m) then Mutex None [] else mutexes y n).
  { intros n. unfold set_owner, set_mutex; cbn. rewrite H7. case_decide as Hn; [subst; rewrite fn_lookup_insert; by unfold waiting in Hq; rewrite Hq|by rewrite fn_lookup_insert_ne]. }
  constructor; try done.
  - intros n Hn. by rewrite Hmx, decide_False.
  - unfold owner_of. by rewrite Hmx, decide_True, Hq.
  - unfold waiting at 1. by rewrite Hmx, decide_True, Hq.
  - intros x. rewrite Hq. cbn [head]. rewrite decide_False by done. apply H8.
  - intros x. rewrite Hq. cbn [head]. rewrite (decide_False (P := None = Some x)) by done. apply H9.
Qed.

Lemma hand_over_spec :
  waiting y m <> [] -> wp (hand_over m) (fun _ y' => released c m next y y' /\ prio_of y' c = prio_of z c) z.
Proof.
  intros Hne. destruct Hd as [H1 H2 H3 H4 H5 H6 H7 H8 H9]. unfold hand_over. apply wp_bind, wp_get. rewrite H7.
  change (queue (mutexes y m)) with (waiting y m). destruct (waiting y m) as [|h q] eqn:Hq; [done|]. 
  assert (Hh : h ∈ waiting y m) by (rewrite Hq; apply elem_of_cons; by left).
  assert (Hhc : h <> c) by (intros ->; by apply (awake_not_waiting y c m) in Hh).
  apply wp_bind. unfold wp at 1, modify at 1. apply wp_bind. unfold wp at 1, modify at 1. set (y1 := take_mutex _ _ _).
  apply wp_zoom. change (view os_lens y1) with (os z).
  eapply wp_conseq; [apply (sch_ready_behind_spec (os z) h CH_STATE_WTMTX); [done| |done]|].
  { rewrite H8. by apply (l_waits _ Hok) in Hh as [? _]. }
  intros ? s' [[Hs [Hp Hu _] Ha _] Hcur]. set (y' := over os_lens s' y1). split; [|apply Hp].
  assert (Hmx : forall n, mutexes y' n = if decide (n = m) then Mutex (Some h) q else mutexes y n).
  { intros n. unfold y', y1, take_mutex, set_owner, set_queue, set_mtxlist, set_mutex; cbn. rewrite fn_lookup_insert; cbn.
    case_decide as Hn; [subst; by rewrite fn_lookup_insert|rewrite !fn_lookup_insert_ne by done; by rewrite H7]. }
  constructor; try done; rewrite ?Hq; cbn [head tail].
  - change (current s' = current (os y)). by rewrite Hcur.
  - intros x Hx. change (prios s' x = prio_of y x). rewrite Hp. by apply H5.
  - intros x. change (u (thd s' x) = words (os y) x). rewrite Hu. apply H6.
  - intros n Hn. by rewrite Hmx, decide_False.
  - unfold owner_of. by rewrite Hmx, decide_True.
  - unfold waiting. by rewrite Hmx, decide_True.
  - intros x. change (asleep s' x = if decide (Some h = Some x) then None else asleep (os y) x). rewrite Ha. unfold awoken. rewrite H8.
    repeat case_decide; congruence.
  - intros x. unfold y', y1, take_mutex, set_mtxlist; cbn. destruct (decide (x = h)) as [->|Hx].
    + rewrite fn_lookup_insert, H9. rewrite !(decide_False (P := h = c)) by done. by rewrite decide_True.
    + rewrite fn_lookup_insert_ne, H9 by done. case_decide; [done|]. by rewrite decide_False by congruence.
Qed.
End give.

(** The new priority is the highest of [p] and of those that wait. *)
Lemma newprio_spec y l : (forall m, sorted (prio_of y) (waiting y m)) -> forall p, let r := newprio y p l in
  p <= r /\ (forall m x, m ∈ l -> x ∈ waiting y m -> prio_of y x <= r) /\
  (r = p \/ exists m x, m ∈ l /\ x ∈ waiting y m /\ prio_of y x = r).
Proof.
  intros Hs. induction l as [|m l IH]; intros p; cbn [newprio].
  { split; [lia|]. split; [|by left]. intros m x Hm. by apply not_elem_of_nil in Hm. }
  set (p' := match queue (mutexes y m) with [] => p | x :: _ => _ end).
  assert (Hp' : p <= p' /\ (forall x, x ∈ waiting y m -> prio_of y x <= p') /\ (p' = p \/ exists x, x ∈ waiting y m /\ prio_of y x = p')).
  { unfold p'. specialize (Hs m). change (queue (mutexes y m)) with (waiting y m). destruct (waiting y m) as [|h q].
    { split; [lia|]. split; [|by left]. intros x Hx. by apply not_elem_of_nil in Hx. }
    apply sorted_inv in Hs as [_ Hs]. rewrite Forall_forall in Hs. fold (prio_of y h).
    assert (Hall : forall x, x ∈ h :: q -> prio_of y x <= prio_of y h) by (intros x [->|Hx]%elem_of_cons; [done|by apply Hs]).
    case_decide as Hd; unfold prio_of in *; split_and!; try lia; try (by left).
    - done.
    - right. exists h. split; [apply elem_of_cons; by left|done].
    - intros x Hx. specialize (Hall x Hx). lia. }
  destruct Hp' as (H1 & H2 & H3). destruct (IH p') as (H4 & H5 & H6). split; [lia|]. split.
  - intros n x [->|Hn]%elem_of_cons Hx; [specialize (H2 x Hx); lia|by apply (H5 n)].
  - destruct H6 as [H6|(n & x & Hn & Hx)]; [|right; exists n, x; split; [by apply elem_of_cons; right|done]]. rewrite H6.
    destruct H3 as [?|(x & Hx & He)]; [by left|]. right. exists m, x. split; [by apply elem_of_cons; left|done].
Qed.

(** What an unlock has done before the scheduler is called. *)
Definition gave_up (c : nat) (next : list nat) (y y' : ksys) : Prop :=
  good y' /\ mtx_count y' = mtx_count y /\ handed c y y' /\ mtxlist y' c = next /\ asleep (os y') c = None.

Lemma released_gave_up c m next y y' :
  good y -> asleep (os y) c = None -> mtxlist y c = m :: next -> released c m next y y' -> inherits y' c ->
  gave_up c next y y'.
Proof.
  intros [Hok Hin] Hc Hm Hr Hic. split; [split|].
  - by apply (released_locks c m next y).
  - intros t. destruct (decide (t = c)) as [->|Ht]; [done|]. by apply (released_inherits c m next y).
  - split; [apply Hr|]. split; [by apply (released_handed c m next)|]. rewrite (rl_list _ _ _ _ _ Hr), decide_True by done.
    split; [done|]. rewrite (rl_asleep _ _ _ _ _ Hr). by case_decide.
Qed.

Lemma released_waits_on_c c m next y y' x :
  locks_ok y -> mtxlist y c = m :: next -> released c m next y y' ->
  waits_on y' x c <-> exists n, n ∈ next /\ x ∈ waiting y n.
Proof.
  intros Hok Hm Hr. unfold waits_on. rewrite (rl_list _ _ _ _ _ Hr), decide_True by done.
  pose proof (l_nodup _ Hok c) as Hnd. rewrite Hm in Hnd. apply NoDup_cons in Hnd as [Hnm _].
  split; intros (n & Hn & Hx); exists n; (split; [done|]); unfold waiting in *; rewrite (rl_rest _ _ _ _ _ Hr) in *; try done; congruence.
Qed.

Lemma unlock_top_spec y m next :
  good y -> mtxlist y (current (os y)) = m :: next ->
  wp (unlock_top m) (fun woken y' => gave_up (current (os y)) next y y' /\ (woken = false -> os y' = os y)) y.
Proof.
  intros Hg Hm. pose proof Hg as [Hok Hin]. set (c := current (os y)) in *.
  pose proof (running_awake y Hok) as Hc. fold c in Hc. unfold unlock_top. apply wp_bind, wp_get. fold c. rewrite Hm.
  apply wp_bind. unfold wp at 1, assert at 1. rewrite bool_decide_true by (by apply (owner_c c m next y)). cbn [ret].
  apply wp_bind. unfold wp at 1, assert at 1. rewrite bool_decide_true by done. cbn [ret]. apply wp_bind. unfold wp at 1, modify at 1.
  set (y1 := set_mtxlist c next y). pose proof (dropped_intro y c m next Hok Hm) as Hd. fold y1 in Hd. apply wp_bind, wp_get.
  change (mutexes y1) with (mutexes y). change (queue (mutexes y m)) with (waiting y m). case_decide as Hq.
  - assert (Hl : mtxlist y1 c = next) by (rewrite (dr_list _ _ _ _ Hd); by rewrite decide_True). rewrite Hl.
    destruct (newprio_spec y1 next (l_sorted _ Hok) (realprio y1 c)) as (Hge & Hup & Hat). set (p := newprio y1 (realprio y1 c) next) in *.
    pose proof (l_real _ Hok c) as Hpos. change (realprio y c) with (realprio y1 c) in Hpos.
    pose proof (dropped_set_prio y y1 c next p Hd ltac:(lia) eq_refl) as Hd2. apply wp_bind. unfold wp at 1, modify.
    apply wp_bind. eapply wp_conseq; [by apply (hand_over_spec c m next y)|]. intros ? y' [Hr Hp]. apply wp_ret. split; [|done].
    assert (Hpc : prio_of y' c = p) by (rewrite Hp; destruct (fields_set_prio p c (os y) c) as (He & _); rewrite decide_True in He by done; exact He).
    assert (Hpx : forall n x, x ∈ waiting y n -> prio_of y' x = prio_of y x).
    { intros n x Hx. apply (rl_prio _ _ _ _ _ Hr). intros ->. by apply (awake_not_waiting y c n) in Hx. }
    apply (released_gave_up c m next y y' Hg Hc Hm Hr). constructor; rewrite ?Hpc, ?(rl_real _ _ _ _ _ Hr).
    + exact Hge.
    + intros x Hx. apply (released_waits_on_c c m next y y' x Hok Hm Hr) in Hx as (n & Hn & Hx). rewrite (Hpx n) by done. by apply (Hup n).
    + destruct Hat as [?|(n & x & Hn & Hx & He)]; [by left|]. right. exists x. rewrite (Hpx n) by done. split; [|exact He].
      apply (released_waits_on_c c m next y y' x Hok Hm Hr). eauto.
  - apply wp_bind. unfold wp at 1, modify. apply wp_ret. split; [|done].
    assert (Hq0 : waiting y m = []) by (destruct (waiting y m); [done|]; by destruct Hq).
    pose proof (give_nobody c m next y y1 Hd Hq0) as Hr. apply (released_gave_up c m next y _ Hg Hc Hm Hr).
    destruct (Hin c) as [H1 H2 H3]. assert (Hon : forall x, waits_on (set_owner m None y1) x c <-> waits_on y x c).
    { intros x. rewrite (released_waits_on_c c m next y _ x Hok Hm Hr). unfold waits_on. rewrite Hm. setoid_rewrite elem_of_cons.
      split; intros (n & Hn & Hx); exists n; [auto|]. destruct Hn as [->|?]; [rewrite Hq0 in Hx; by apply not_elem_of_nil in Hx|done]. }
    constructor; [done| |]; setoid_rewrite Hon; done.
Qed.

Lemma unlock_each_spec c l : forall y,
  locks_ok y -> (forall t, t <> c -> inherits y t) -> asleep (os y) c = None -> mtxlist y c = l ->
  wp (unlock_each c l) (fun _ y' => locks_ok y' /\ (forall t, t <> c -> inherits y' t) /\ asleep (os y') c = None /\
    mtxlist y' c = [] /\ handed c y y' /\ mtx_count y' = mtx_count y /\ current (os y') = current (os y)) y.
Proof.
  induction l as [|m next IH]; intros y Hok Hin Hc Hm; cbn [unlock_each].
  { apply wp_ret. split_and!; [done|done|done|done|apply handed_refl|done|done]. }
  apply wp_bind. unfold wp at 1, modify at 1. apply wp_bind, wp_get. set (y1 := set_mtxlist c next y).
  pose proof (dropped_intro y c m next Hok Hm) as Hd. fold y1 in Hd. apply wp_bind.
  eapply (wp_conseq _ (fun _ y2 => released c m next y y2)).
  - change (queue (mutexes y1 m)) with (waiting y m). case_decide as Hq.
    + eapply wp_conseq; [by apply (hand_over_spec c m next y)|]. by intros ? y2 [Hr _].
    + unfold wp, modify. apply (give_nobody c m next y y1 Hd). destruct (waiting y m); [done|]. by destruct Hq.
  - intros ? y2 Hr. pose proof (released_locks c m next y y2 Hok Hc Hm Hr) as Hok2.
    pose proof (released_handed c m next y y2 Hok Hr) as Hh. eapply wp_conseq; [apply IH|].
    + done.
    + intros t Ht. apply (released_inherits c m next y); auto.
    + rewrite (rl_asleep _ _ _ _ _ Hr). by case_decide.
    + by rewrite (rl_list _ _ _ _ _ Hr), decide_True.
    + intros ? y' (Hok' & Hin' & Hc' & Hl' & Hh' & Hn & Hcu). rewrite (rl_count _ _ _ _ _ Hr) in Hn. rewrite (rl_current _ _ _ _ _ Hr) in Hcu.
      split_and!; try done. by apply (handed_trans c y y2).
Qed.

(** What an unlock has done in all. *)
Definition unlocked (c : nat) (next : list nat) (y y' : ksys) : Prop := gave_up c next y y' /\ dispatched (os y').

Lemma then_reschedule_unlocked c next y y1 :
  gave_up c next y y1 -> wp (zoom os_lens chSchRescheduleS) (fun _ => unlocked c next y) y1.
Proof.
  intros (Hg & Hn & Hh & Hl & Hc). eapply wp_conseq; [by apply reschedule_spec|].
  intros ? y' (Hg' & Hd & Hl' & Hm' & Hn' & Ha'). split; [|done]. split_and!; [done|congruence| |by rewrite Hl'|by rewrite Ha'].
  apply (handed_trans c y y1); [apply Hg|done|]. intros x _. left. rewrite Hl', Ha'. unfold waiting. by rewrite Hm'.
Qed.

Lemma chMtxUnlock_spec y m next :
  good y -> dispatched (os y) -> mtxlist y (current (os y)) = m :: next ->
  wp (chMtxUnlock m) (fun _ => unlocked (current (os y)) next y) y.
Proof.
  intros Hg Hd Hm. unfold chMtxUnlock. apply wp_bind. eapply wp_conseq; [by apply unlock_top_spec|].
  intros [] y1 [H1 Hos]; [by apply then_reschedule_unlocked|]. apply wp_ret. split; [done|]. by rewrite Hos.
Qed.

Lemma chMtxUnlockS_spec y m next :
  good y -> mtxlist y (current (os y)) = m :: next ->
  wp (chMtxUnlockS m ;;; zoom os_lens chSchRescheduleS) (fun _ => unlocked (current (os y)) next y) y.
Proof.
  intros Hg Hm. apply wp_bind. unfold chMtxUnlockS. apply wp_bind. eapply wp_conseq; [by apply unlock_top_spec|].
  intros b y1 [H1 _]. apply wp_ret. by apply then_reschedule_unlocked.
Qed.

(** A thread that owns nothing gets its own priority back. *)
Lemma restore_prio y c :
  locks_ok y -> (forall t, t <> c -> inherits y t) -> mtxlist y c = [] -> c = current (os y) ->
  good (set_os (set_prio (realprio y c) c (os y)) y).
Proof.
  intros Hok Hin Hl Hc. set (y' := set_os _ y).
  destruct (set_prio_spec (os y) c (realprio y c)) as [Hs Ha Hp Hu]; [apply Hok|apply Hok|subst c; apply current_not_ready, Hok|].
  assert (Hnc : forall n, c ∉ waiting y n).
  { intros n. apply awake_not_waiting; [done|]. subst c. by apply running_awake. }
  assert (Hpx : forall x, x <> c -> prio_of y' x = prio_of y x) by (intros x Hx; unfold prio_of, y'; cbn; by rewrite Hp, decide_False).
  split.
  - constructor; try apply Hok; [done| | |].
    + intros m t. change (t ∈ waiting y m <-> asleep (os y') t = Some CH_STATE_WTMTX /\ words (os y') t = Z.of_nat m).
      change (os y') with (set_prio (realprio y c) c (os y)). rewrite Ha, Hu. apply Hok.
    + intros t. change (os y') with (set_prio (realprio y c) c (os y)). rewrite Ha. apply Hok.
    + intros m. eapply sorted_ext_in; [|apply Hok]. intros x Hx. symmetry. apply Hpx. intros ->. by apply (Hnc m).
  - intros t. destruct (decide (t = c)) as [->|Ht].
    + assert (Hpc : prio_of y' c = realprio y c) by (unfold prio_of, y'; cbn; by rewrite Hp, decide_True).
      constructor; [by rewrite Hpc| |by left]. intros x (n & Hn & _). change (mtxlist y' c) with (mtxlist y c) in Hn.
      rewrite Hl in Hn. by apply not_elem_of_nil in Hn.
    + destruct (Hin t Ht) as [H1 H2 H3]. assert (Hx : forall x, waits_on y' x t -> prio_of y' x = prio_of y x).
      { intros x (n & _ & Hx). apply Hpx. intros ->. by apply (Hnc n). }
      constructor; rewrite ?(Hpx t Ht); [done| |].
      * intros x Hw. rewrite Hx by done. by apply H2.
      * destruct H3 as [?|(x & Hw & He)]; [by left|]. right. exists x. split; [done|]. by rewrite Hx.
Qed.

Lemma chMtxUnlockAllS_spec y :
  good y -> dispatched (os y) -> wp chMtxUnlockAllS (fun _ => unlocked (current (os y)) [] y) y.
Proof.
  intros Hg Hd. pose proof Hg as [Hok Hin]. set (c := current (os y)). pose proof (running_awake y Hok) as Hc. fold c in Hc.
  unfold chMtxUnlockAllS. apply wp_bind, wp_get. fold c. case_decide as Hl.
  - apply wp_bind. eapply wp_conseq; [apply (unlock_each_spec c (mtxlist y c) y); auto|].
    intros ? y1 (Hok1 & Hin1 & Hc1 & Hl1 & Hh1 & Hn1 & Hcu1). apply wp_bind. unfold wp at 1, modify.
    assert (Hcur : c = current (os y1)) by by rewrite Hcu1.
    pose proof (restore_prio y1 c Hok1 Hin1 Hl1 Hcur) as Hg2. apply then_reschedule_unlocked. split_and!; try done.
    + apply (handed_trans c y y1); [done|done|]. intros x Hx. left. split; [done|]. split; [|done].
      apply (asleep_set_prio _ _ (os y1)).
    + etransitivity; [apply (asleep_set_prio _ _ (os y1))|exact Hc1].
  - apply wp_ret. split; [|done]. split; [done|]. split; [done|]. split; [apply handed_refl|]. split; [|done].
    destruct (mtxlist y c); [done|]. by destruct Hl.
Qed.

(** ** Runs *)

(** A thread in a lock call waits for the mutex, or has it as the first of its
    mutexes and is about to return. *)
Definition placed (x : xsys) (t : nat) : Prop :=
  let y := ks x in
  match at_ x t with
  | None => mtxlist y t = inside x t /\ asleep (os y) t <> Some CH_STATE_WTMTX
  | Some m => (t ∈ waiting y m /\ mtxlist y t = inside x t) \/ (asleep (os y) t = None /\ mtxlist y t = m :: inside x t)
  end.

Record xinv (x : xsys) : Prop := {
  x_good : good (ks x);
  x_dispatched : dispatched (os (ks x));
  x_placed : forall t, placed x t
}.

Lemma placed_others x x' c :
  xinv x -> handed c (ks x) (ks x') -> (forall t, t <> c -> at_ x' t = at_ x t /\ inside x' t = inside x t) ->
  placed x' c -> forall t, placed x' t.
Proof.
  intros [[Hok _] _ Hpl] Hh Hs Hc t. destruct (decide (t = c)) as [->|Ht]; [done|]. specialize (Hpl t). unfold placed in *.
  destruct (Hs t Ht) as [-> ->]. destruct (Hh t Ht) as [(Hl & Ha & Hq)|(m' & Hm' & Ha & Hl)]; rewrite Hl, Ha.
  - destruct (at_ x t); [by rewrite Hq|done].
  - pose proof Hm' as Hw. apply (l_waits _ Hok) in Hw as [Hw _]. destruct (at_ x t) as [m|]; [|by destruct Hpl].
    destruct Hpl as [[Hm Hi]|[? _]]; [|congruence]. right. split; [done|]. rewrite (waits_for_one (ks x) t m m') by done. by rewrite Hi.
Qed.

Lemma unlocked_xinv x y' next :
  xinv x -> at_ x (current (os (ks x))) = None -> unlocked (current (os (ks x))) next (ks x) y' ->
  xinv (Xsys y' (at_ x) (<[current (os (ks x)) := next]> (inside x))).
Proof.
  intros Hx Hat [(Hg & _ & Hh & Hl & Ha) Hd]. constructor; [done|done|].
  apply (placed_others x _ (current (os (ks x)))); [done|done| |].
  - intros t Ht. cbn. by rewrite fn_lookup_insert_ne.
  - unfold placed; cbn. rewrite Hat, Hl, Ha, fn_lookup_insert. done.
Qed.

Lemma inside_top x m next : xinv x -> at_ x (current (os (ks x))) = None -> inside x (current (os (ks x))) = m :: next ->
  mtxlist (ks x) (current (os (ks x))) = m :: next.
Proof. intros Hx Hat Hi. pose proof (x_placed _ Hx (current (os (ks x)))) as Hp. unfold placed in Hp. rewrite Hat in Hp. by rewrite <- Hi; destruct Hp. Qed.

Lemma kernel_xinv x e : xinv x -> kernel_possible x e -> wp (xstep (EKernel e)) (fun _ => xinv) x.
Proof.
  intros Hx [Hpos Hk]. pose proof Hx as [Hg Hd Hpl]. unfold xstep. apply wp_bind, wp_get, wp_zoom, wp_zoom.
  eapply wp_conseq; [apply kstep_woken; [apply Hg|exact Hd|exact Hpos]|]. intros ? s' [(Hs & Hp & Ha & Hu) Hd'].
  change (view os_lens (view ks_lens x)) with (os (ks x)) in *. set (s := os (ks x)) in *.
  assert (Hw : forall t, asleep s t = Some CH_STATE_WTMTX -> t ∉ woken e).
  { intros t Ht Hin. destruct e as [st| |t' msg|ts|ts|t']; cbn [woken] in Hin; try (by apply not_elem_of_nil in Hin).
    - apply list_elem_of_singleton in Hin as ->. by destruct Hk.
    - destruct Hk as [_ Hk]. rewrite Forall_forall in Hk. by apply (Hk t).
    - rewrite Forall_forall in Hk. by apply (Hk t).
    - by apply list_elem_of_singleton in Hin as ->. }
  assert (Hcur : asleep s (current s) = None) by apply (running_awake (ks x)), Hg.
  assert (Hmx : forall t, asleep s' t = Some CH_STATE_WTMTX <-> asleep s t = Some CH_STATE_WTMTX).
  { intros t. rewrite Ha. unfold asleep_after. case_decide as Hin.
    - split; [done|]. intros Ht. by apply Hw in Ht.
    - destruct e; try done. unfold fell_asleep. case_decide as Ht; [|done]. subst t. rewrite Hcur.
      destruct Hk as [_ Hk]. split; [intros [=]; done|done]. }
  constructor; [|done|].
  - apply other_step; [done|done|done|done|]. intros t Ht. apply Hu. by apply Hw.
  - intros t. specialize (Hpl t). unfold placed in *. cbn [ks at_ inside over ks_lens os_lens set_os os mtxlist].
    fold s in Hpl. destruct (at_ x t) as [m|] eqn:Hat; [|by rewrite Hmx].
    destruct Hpl as [?|[Han Hl]]; [by left|]. right. split; [|done]. rewrite Ha. unfold asleep_after. case_decide; [done|].
    destruct e as [st| | | | |]; try done. unfold fell_asleep. case_decide as Ht; [|done]. subst t. destruct Hk as [Hk _]. congruence.
Qed.

(** Every event that can happen completes, and keeps the invariant. *)
Lemma xstep_spec x e : xinv x -> xpossible x e -> wp (xstep e) (fun _ => xinv) x.
Proof.
  intros Hx Hpos. pose proof Hx as [Hg Hd Hpl]. destruct e as [m|m| |m|m| |e]; [..|by apply kernel_xinv]; unfold xstep; apply wp_bind, wp_get;
    cbn [xpossible] in Hpos; set (c := current (os (ks x))) in *; pose proof (Hpl c) as Hplc; unfold placed in Hplc.
  - destruct Hpos as (Hat & Hi & Hm). rewrite Hat in Hplc. apply wp_bind, wp_zoom. eapply wp_conseq; [by apply chMtxLockS_spec|].
    intros got y' (Hg' & Hd' & Hn & Hh & Hres). change (view ks_lens x) with (ks x) in *. fold c in Hh, Hres. unfold wp, modify.
    destruct got; destruct Hres as [H1 H2]; (constructor; [done|done|]; apply (placed_others x _ c); [done|done| |]);
      try (intros t Ht; cbn; by rewrite fn_lookup_insert_ne); unfold placed; cbn.
    + rewrite Hat, fn_lookup_insert, H1, H2. split; [|done]. by destruct Hplc as [-> _].
    + rewrite fn_lookup_insert. left. split; [done|]. rewrite H2. by destruct Hplc.
  - destruct Hpos as (Hat & Hm). rewrite Hat in Hplc. apply wp_bind, wp_zoom. eapply wp_conseq; [by apply chMtxTryLockS_spec|].
    intros got y' (Hg' & Hd' & Hn & Hh & Hres). change (view ks_lens x) with (ks x) in *. fold c in Hh, Hres.
    destruct got; [|subst y'; apply wp_ret; by destruct x]. unfold wp, modify. destruct Hres as [H1 H2].
    constructor; [done|done|]. apply (placed_others x _ c); [done|done| |].
    + intros t Ht. cbn. by rewrite fn_lookup_insert_ne.
    + unfold placed; cbn. rewrite Hat, fn_lookup_insert, H1, H2. split; [|done]. by destruct Hplc as [-> _].
  - destruct (at_ x c) as [m|] eqn:Hat; [|done]. destruct Hplc as [[Hin _]|[Ha Hl]].
    { pose proof (running_awake (ks x) (proj1 Hg)) as Hc. by apply (awake_not_waiting (ks x) c m (proj1 Hg)) in Hc. }
    assert (Ho : owner_of (ks x) m = Some c) by (apply (l_owner _ (proj1 Hg)); rewrite Hl; apply elem_of_cons; by left).
    apply wp_bind, wp_zoom. unfold chMtxLockS_resume. apply wp_bind, wp_get. change (view ks_lens x) with (ks x). fold c.
    unfold owner_of in Ho. rewrite Ho, Hl, !bool_decide_true by done. apply wp_bind, wp_ret, wp_ret.
    apply wp_bind. unfold wp at 1, modify. unfold wp. constructor; [done|done|]. apply (placed_others x _ c); [done|apply handed_refl| |].
    + intros t Ht. cbn. by rewrite !fn_lookup_insert_ne.
    + unfold placed; cbn. rewrite !fn_lookup_insert, Ha. done.
  - destruct Hpos as [Hat Hh]. destruct (inside x c) as [|m' next] eqn:Hi; [done|]. injection Hh as ->.
    pose proof (inside_top x m next Hx Hat Hi) as Hl. apply wp_bind. unfold wp at 1, modify. apply wp_zoom.
    eapply wp_conseq; [by apply chMtxUnlock_spec|]. intros ? y' Hu. exact (unlocked_xinv x y' next Hx Hat Hu).
  - destruct Hpos as [Hat Hh]. destruct (inside x c) as [|m' next] eqn:Hi; [done|]. injection Hh as ->.
    pose proof (inside_top x m next Hx Hat Hi) as Hl. apply wp_bind. unfold wp at 1, modify. apply wp_zoom.
    eapply wp_conseq; [by apply chMtxUnlockS_spec|]. intros ? y' Hu. exact (unlocked_xinv x y' next Hx Hat Hu).
  - apply wp_bind. unfold wp at 1, modify. apply wp_zoom.
    eapply wp_conseq; [by apply chMtxUnlockAllS_spec|]. intros ? y' Hu. exact (unlocked_xinv x y' [] Hx Hpos Hu).
Qed.

(** No mutex is taken and no thread waits for one. *)
Record started (x : xsys) : Prop := {
  st_sched : sched_ok (os (ks x));
  st_dispatched : dispatched (os (ks x));
  st_real : forall t, realprio (ks x) t = prio_of (ks x) t;
  st_list : forall t, mtxlist (ks x) t = [];
  st_mutexes : forall m, mutexes (ks x) m = Mutex None [];
  st_asleep : forall t, asleep (os (ks x)) t <> Some CH_STATE_WTMTX;
  st_at : forall t, at_ x t = None;
  st_inside : forall t, inside x t = []
}.

Lemma started_xinv x : started x -> xinv x.
Proof.
  intros [H1 H2 H3 H4 H5 H6 H7 H8].
  assert (Hq : forall m, waiting (ks x) m = []) by (intros; unfold waiting; by rewrite H5).
  assert (Ho : forall m, owner_of (ks x) m = None) by (intros; unfold owner_of; by rewrite H5).
  assert (Hn : forall x' t, ~ waits_on (ks x) x' t) by (intros x' t (m & _ & Hm); rewrite Hq in Hm; by apply not_elem_of_nil in Hm).
  constructor; [split|done|].
  - constructor; [done| | |intros t; rewrite H4; constructor|..].
    + intros t. rewrite H3. apply H1.
    + intros m t. rewrite Ho, H4. split; [done|]. intros Hm. by apply not_elem_of_nil in Hm.
    + intros m t. by rewrite Ho.
    + intros m t. rewrite Hq. split; [intros Hm; by apply not_elem_of_nil in Hm|]. intros [Hw _]. by destruct (H6 t).
    + intros t Ht. by destruct (H6 t).
    + intros m. rewrite Hq. constructor.
    + intros m. rewrite Hq. constructor.
    + intros m _. apply Hq.
  - intros t. constructor; [by rewrite H3| |left; by rewrite H3]. intros x' Hx. by destruct (Hn x' t).
  - intros t. unfold placed. rewrite H7, H4, H8. done.
Qed.

(** The states that runs of possible events lead to. *)
Inductive reach (x0 : xsys) : xsys -> Prop :=
  | reach_start : reach x0 x0
  | reach_step x e x' : reach x0 x -> xpossible x e -> xstep e x = Done (tt, x') -> reach x0 x'.

Lemma reach_xinv x0 x : started x0 -> reach x0 x -> xinv x.
Proof.
  intros H0 Hr. induction Hr as [|x e x' _ IH Hp He]; [by apply started_xinv|].
  pose proof (xstep_spec x e IH Hp) as Hw. unfold wp in Hw. by rewrite He in Hw.
Qed.

(** [t] waits, directly or through other waiting threads, for a mutex of [h]. *)
Inductive held_up (y : ksys) : nat -> nat -> Prop :=
  | held_by t h : waits_on y t h -> held_up y t h
  | held_through t t' h : waits_on y t t' -> held_up y t' h -> held_up y t h.

Lemma held_up_prio y t h : good y -> held_up y t h -> prio_of y t <= prio_of y h.
Proof.
  intros [_ Hin] Hh. induction Hh as [t h Hw|t t' h Hw _ IH]; pose proof (in_upper _ _ (Hin _) _ Hw); lia.
Qed.

Lemma awake_prio s h : sched_ok s -> dispatched s -> asleep s h = None -> prios s h <= prios s (current s).
Proof.
  intros Hok Hd Ha. apply (asleep_None s h Hok), elem_of_cons in Ha as [->|Ha]; [done|].
  pose proof (dispatched_sorted s Hok Hd) as Hall. rewrite Forall_forall in Hall. by apply Hall.
Qed.

(** C15: Two threads are never inside one mutex: in every run of lock, try-lock
    and unlock calls, other kernel calls, interrupts and time-outs, a mutex that
    a thread has locked and not yet begun to unlock has not been locked by
    another.  No assertion of [chmtx.c] or of the scheduler fails on the way, and
    the walk of a lock call along the owners of nested mutexes always ends, in a
    deadlock too. *)
Theorem mutexes_exclude (x0 x : xsys) :
  started x0 -> reach x0 x ->
  (forall t t' m, m ∈ inside x t -> m ∈ inside x t' -> t = t') /\
  (forall e, xpossible x e -> exists x', xstep e x = Done (tt, x')).
Proof.
  intros H0 Hr. pose proof (reach_xinv x0 x H0 Hr) as Hx. pose proof Hx as [[Hok _] _ Hpl]. split.
  - assert (Ho : forall t m, m ∈ inside x t -> owner_of (ks x) m = Some t).
    { intros t m Hm. apply (l_owner _ Hok). specialize (Hpl t). unfold placed in Hpl. destruct (at_ x t).
      - destruct Hpl as [[_ ->]|[_ ->]]; [done|]. by apply elem_of_cons; right.
      - by destruct Hpl as [-> _]. }
    intros t t' m Ht Ht'. apply Ho in Ht, Ht'. congruence.
  - intros e He. pose proof (xstep_spec x e Hx He) as Hw. unfold wp in Hw. destruct (xstep e x) as [[[] x']| |]; [eauto|done|done].
Qed.

(** C16: No priority inversion: in every run the priority of a thread is exactly
    the highest of its own and of those of the threads that wait for its
    mutexes.  So while a thread waits, also through a chain of owners that wait
    themselves, for one that is ready or runs, the running thread is not of lower
    priority than it. *)
Theorem no_priority_inversion (x0 x : xsys) :
  started x0 -> reach x0 x ->
  (forall t, inherits (ks x) t) /\
  (forall t h, held_up (ks x) t h -> asleep (os (ks x)) h = None ->
     realprio (ks x) t <= prio_of (ks x) (current (os (ks x)))).
Proof.
  intros H0 Hr. destruct (reach_xinv x0 x H0 Hr) as [Hg Hd _]. pose proof Hg as [Hok Hin]. split; [done|].
  intros t h Hh Ha. pose proof (in_real _ _ (Hin t)). pose proof (held_up_prio _ _ _ Hg Hh).
  pose proof (awake_prio _ _ (l_sched _ Hok) Hd Ha). unfold prio_of in *. lia.
Qed.

(** ** An example *)

(** A thread of low priority runs; one of middle priority and
    one of high priority sleep.  One mutex. *)
Definition three_threads : os_instance :=
  Os (fun t => match t with
      | 0%nat => Thread IDLEPRIO CH_STATE_READY 0 []
      | 1%nat => Thread 10 CH_STATE_CURRENT 0 []
      | 2%nat => Thread 20 CH_STATE_SLEEPING 0 []
      | 3%nat => Thread 30 CH_STATE_SLEEPING 0 []
      | _ => Thread 128 CH_STATE_WTSTART 0 []
      end) [0%nat] 1%nat.

Definition bus_free : xsys :=
  Xsys (Ksys three_threads (prios three_threads) (fun _ => []) (fun _ => Mutex None []) (fun _ => []) 1) (fun _ => None) (fun _ => []).

Lemma bus_free_started : started bus_free.
Proof.
  constructor; try done.
  - constructor.
    + intros [|[|[|[|t]]]]; unfold prios; cbn; unfold IDLEPRIO; lia.
    + intros [|[|[|[|t]]]]; cbn; split; try done; lia.
    + intros [|[|[|[|t]]]]; cbn; split; intros H; try done; try set_solver; apply list_elem_of_singleton in H; lia.
    + by repeat constructor; set_solver.
    + by repeat constructor.
    + set_solver.
  - intros [|[|[|[|t]]]]; done.
Qed.

Definition exec (e : xevent) (x : xsys) : xsys := match xstep e x with Done (_, x') => x' | _ => x end.

Lemma reach_exec x0 x e :
  reach x0 x -> xpossible x e -> (match xstep e x with Done _ => true | _ => false end) = true -> reach x0 (exec e x).
Proof.
  intros Hr Hp He. apply (reach_step x0 x e); [done|done|]. unfold exec. by destruct (xstep e x) as [[[] ?]| |].
Qed.

(** The low thread locks; the high one is woken and asks for the mutex; then the
    middle one is woken. *)
Definition inversion_1 : xsys := exec (ELock 0) bus_free.
Definition inversion_2 : xsys := exec (EKernel (KInterrupt [(3%nat, 0)])) inversion_1.
Definition inversion_3 : xsys := exec (ELock 0) inversion_2.
Definition inversion_4 : xsys := exec (EKernel (KInterrupt [(2%nat, 0)])) inversion_3.

Lemma inversion_reached : reach bus_free inversion_4.
Proof.
  assert (H1 : reach bus_free inversion_1).
  { apply reach_exec; [apply reach_start| |vm_compute; reflexivity]. split; [done|]. split; [done|cbn; lia]. }
  assert (H2 : reach bus_free inversion_2).
  { apply reach_exec; [exact H1| |vm_compute; reflexivity]. split.
    - split; [repeat constructor; set_solver|]. repeat constructor. exists CH_STATE_SLEEPING. split; [vm_compute; reflexivity|done].
    - constructor; [vm_compute; discriminate|constructor]. }
  assert (H3 : reach bus_free inversion_3).
  { apply reach_exec; [exact H2| |vm_compute; reflexivity]. split; [vm_compute; reflexivity|]. split; [vm_compute; discriminate|].
    vm_compute. lia. }
  apply reach_exec; [exact H3| |vm_compute; reflexivity]. split.
  - split; [repeat constructor; set_solver|]. repeat constructor. exists CH_STATE_SLEEPING. split; [vm_compute; reflexivity|done].
  - constructor; [vm_compute; discriminate|constructor].
Qed.

Lemma mutexes_exclude_witness :
  (forall t, 0%nat ∈ inside inversion_4 t -> t = 1%nat) /\ exists x', xstep (EUnlock 0) inversion_4 = Done (tt, x').
Proof.
  destruct (mutexes_exclude bus_free inversion_4 bus_free_started inversion_reached) as [H1 H2]. split.
  - intros t Ht. apply (H1 t 1%nat 0%nat Ht). vm_compute. constructor.
  - apply (H2 (EUnlock 0)). split; vm_compute; reflexivity.
Defined.

(** The low thread runs with the high one's priority, although the middle one is
    ready. *)
Lemma no_priority_inversion_witness :
  current (os (ks inversion_4)) = 1%nat /\ 30 <= prio_of (ks inversion_4) 1%nat /\ 2%nat ∈ pqueue (os (ks inversion_4)).
Proof.
  destruct (no_priority_inversion bus_free inversion_4 bus_free_started inversion_reached) as [_ H].
  split; [vm_compute; reflexivity|]. split; [|vm_compute; constructor]. apply (H 3%nat 1%nat).
  - apply held_by. exists 0%nat. split; vm_compute; constructor.
  - vm_compute. reflexivity.
Defined.

(** After the unlock the low thread has its own priority again and the high one
    runs, inside the mutex once its call returns. *)
Example inversion_resolved :
  let x := exec EReturn (exec (EUnlock 0) inversion_4) in
  prio_of (ks x) 1%nat = 10 /\ current (os (ks x)) = 3%nat /\ inside x 3%nat = [0%nat] /\ inside x 1%nat = [].
Proof. vm_compute. done. Qed.
End Mtx.
