(* ===== verification/Threads.v ===== *)
(** * Threads and their registry

    [src/ChibiOS/os/rt/src/chthreads.c] and [chregistry.c] on the scheduler of
    [Sched]: [main] creates the threads with [chThdCreateStatic] and waits for the
    shell's to end with [chThdWait]; the shell command [threads] walks along the
    registry, a doubly linked list of all threads, with [chRegFirstThread] and
    [chRegNextThread], and prints in between, so that threads may come and go
    while it does.  A reference counter in each thread keeps it in the list.

    The registry is modelled by its pointers; [None] is the list header [rlist].
    All threads are static and numbered by their working areas; an area without a
    thread is like one whose thread has ended and left the registry.  A function
    with several critical sections is one event per section.  [chSchObjectInit]
    makes [main] and the idle thread the first two.

    Proved, for any number of walks, waits, creations and ends of threads in any
    order, with fewer than 255 references to each thread: no assertion fails;
    the pointers are a list of exactly the threads that live or are referred to;
    a counter is the number of references; a walk is never at a thread that has
    left the list, and when it ends it has seen every thread of the list; a wait
    returns the exit code of its thread. *)

From stdpp Require Import functions.
From S2P Require Import Prelude Oslib Sched.
Import Sched.

Module Threads.

(** ** State *)

(** The scheduler and the fields of [thread_t] for mutexes, the registry, and
    [chThdWait]; [waiters] is the list [waiting]. *)
Record tsys := Tsys {
  os : os_instance;
  realprio : nat -> Z;
  mtxlist : nat -> list nat;
  newer : option nat -> option nat;
  older : option nat -> option nat;
  refs : nat -> Z;
  name : nat -> string;
  waiters : nat -> list nat
}.

Definition T := M tsys.

Definition set_os (s : os_instance) (y : tsys) : tsys :=
  Tsys s (realprio y) (mtxlist y) (newer y) (older y) (refs y) (name y) (waiters y).
Definition os_lens : lens tsys os_instance := Lens os set_os.
Definition set_mutex_fields (t : nat) (p : Z) (y : tsys) : tsys :=
  Tsys (os y) (<[t := p]> (realprio y)) (<[t := []]> (mtxlist y)) (newer y) (older y) (refs y) (name y) (waiters y).
Definition set_newer (a b : option nat) (y : tsys) : tsys :=
  Tsys (os y) (realprio y) (mtxlist y) (<[a := b]> (newer y)) (older y) (refs y) (name y) (waiters y).
Definition set_older (a b : option nat) (y : tsys) : tsys :=
  Tsys (os y) (realprio y) (mtxlist y) (newer y) (<[a := b]> (older y)) (refs y) (name y) (waiters y).
Definition set_refs (t : nat) (n : Z) (y : tsys) : tsys :=
  Tsys (os y) (realprio y) (mtxlist y) (newer y) (older y) (<[t := n]> (refs y)) (name y) (waiters y).
Definition set_name (t : nat) (s : string) (y : tsys) : tsys :=
  Tsys (os y) (realprio y) (mtxlist y) (newer y) (older y) (refs y) (<[t := s]> (name y)) (waiters y).
Definition set_waiters (t : nat) (l : list nat) (y : tsys) : tsys :=
  Tsys (os y) (realprio y) (mtxlist y) (newer y) (older y) (refs y) (name y) (<[t := l]> (waiters y)).

(** ** Operations *)

Definition REG_INSERT (t : nat) : T unit :=
  modify (set_newer (Some t) None) ;;;
  modify (fun y => set_older (Some t) (older y None) y) ;;;
  modify (fun y => set_newer (older y (Some t)) (Some t) y) ;;;
  modify (set_older None (Some t)).

Definition REG_REMOVE (t : nat) : T unit :=
  modify (fun y => set_newer (older y (Some t)) (newer y (Some t)) y) ;;;
  modify (fun y => set_older (newer y (Some t)) (older y (Some t)) y).

Definition thd_object_init (t : nat) (nm : string) (p : Z) : T unit :=
  modify (fun y => set_os (set_thread t (Thread p CH_STATE_WTSTART (u (thd (os y) t)) []) (os y)) y) ;;;
  modify (set_mutex_fields t p) ;;;
  modify (set_refs t 1) ;;;
  modify (set_name t nm) ;;;
  REG_INSERT t ;;;
  modify (set_waiters t []).

Definition chRegFirstThread : T nat :=
  let! y := get in
  match newer y None with
  | None => halt "empty registry"
  | Some tp => modify (set_refs tp (u8 (refs y tp + 1))) ;;; ret tp
  end.

Definition chThdAddRef (tp : nat) : T unit :=
  let! y := get in
  assert (refs y tp <? 255) "too many references" ;;;
  modify (set_refs tp (u8 (refs y tp + 1))).

(** Nothing is to be freed for a static thread. *)
Definition chThdRelease (tp : nat) : T unit :=
  let! y := get in
  assert (0 <? refs y tp) "not referenced" ;;;
  modify (set_refs tp (u8 (refs y tp - 1))) ;;;
  let! y := get in
  if decide (refs y tp = 0 /\ state (thd (os y) tp) = CH_STATE_FINAL) then REG_REMOVE tp else ret tt.

(** The first critical section of [chRegNextThread]. *)
Definition reg_take_next (tp : nat) : T (option nat) :=
  let! y := get in
  match newer y (Some tp) with
  | None => ret None
  | Some ntp =>
      assert (refs y ntp <? 255) "too many references" ;;;
      modify (set_refs ntp (u8 (refs y ntp + 1))) ;;;
      ret (Some ntp)
  end.

Definition chRegNextThread (tp : nat) : T (option nat) :=
  let! ntp := reg_take_next tp in
  chThdRelease tp ;;;
  ret ntp.

(** The scan for a working area; thread [t] is the one in area [t]. *)
Fixpoint reg_scan (fuel : nat) (wa ctp : nat) : T (option nat) :=
  match fuel with
  | O => hang
  | S fuel =>
      if decide (ctp = wa) then ret (Some ctp)
      else
        let! o := chRegNextThread ctp in
        match o with
        | None => ret None
        | Some ctp => reg_scan fuel wa ctp
        end
  end.

Definition chRegFindThreadByWorkingArea (fuel : nat) (wa : nat) : T (option nat) :=
  let! ctp := chRegFirstThread in
  reg_scan fuel wa ctp.

(** The critical section of [chThdCreateStatic]. *)
Definition thd_create (t : nat) (p : Z) : T unit :=
  thd_object_init t "noname" p ;;;
  zoom os_lens (chSchWakeupS t MSG_OK).

Definition HIGHPRIO : Z := 255.

Definition chThdCreateStatic (fuel : nat) (t : nat) (p : Z) : T unit :=
  assert (p <=? HIGHPRIO) "chThdCreateStatic" ;;;
  let! o := chRegFindThreadByWorkingArea fuel t in
  assert (bool_decide (o = None)) "working area in use" ;;;
  thd_create t p.

Definition chRegSetThreadName (nm : string) : T unit := modify (fun y => set_name (current (os y)) nm y).

(** Waking the threads that wait for the end of this one. *)
Fixpoint wake_waiters (l : list nat) : K unit :=
  match l with
  | [] => ret tt
  | w :: l => chSchReadyI w ;;; wake_waiters l
  end.

(** Up to the switch, after which the thread does not run again. *)
Definition chThdExitS (msg : Z) : T unit :=
  let! y := get in
  let currtp := current (os y) in
  zoom os_lens (modify (set_u msg currtp)) ;;;
  zoom os_lens (wake_waiters (waiters y currtp)) ;;;
  modify (set_waiters currtp []) ;;;
  (if decide (refs y currtp = 0) then REG_REMOVE currtp else ret tt) ;;;
  zoom os_lens (chSchGoSleepS CH_STATE_FINAL).

(** The first critical section of [chThdWait], up to the switch; the exit code
    at once when the thread has ended. *)
Definition chThdWait (tp : nat) : T (option Z) :=
  let! y := get in
  let currtp := current (os y) in
  assert (bool_decide (tp <> currtp)) "waiting self" ;;;
  assert (0 <? refs y tp) "no references" ;;;
  if decide (state (thd (os y) tp) <> CH_STATE_FINAL) then
    modify (set_waiters tp (currtp :: waiters y tp)) ;;;
    zoom os_lens (chSchGoSleepS CH_STATE_WTEXIT) ;;;
    ret None
  else ret (Some (u (thd (os y) tp))).

(** The rest of it, but for the final [chThdRelease]. *)
Definition chThdWait_resume (tp : nat) : T Z := gets (fun y => u (thd (os y) tp)).

(** ** The threads *)

(** Where a thread is: in none of these calls, at a thread in a walk, past the
    first section of [chRegNextThread] or [chThdWait] with a thread to release
    and the next one of the walk, or waiting for the end of a thread. *)
Inductive place :=
  | PFree
  | PWalk (tp : nat)
  | PStep (tp : nat) (ntp : option nat)
  | PWait (tp : nat).

(** [loose t] counts the references to [t] that are held outside these calls,
    [seen w] are the threads the walk of [w] has been at, [codes] the exit codes,
    [answers] what waits have returned, with the code they should have. *)
Record rsys := Rsys {
  ts : tsys;
  at_ : nat -> place;
  loose : nat -> nat;
  seen : nat -> list nat;
  codes : nat -> Z;
  answers : list (Z * Z);
  areas : nat
}.

Definition ts_lens : lens rsys tsys :=
  Lens ts (fun y r => Rsys y (at_ r) (loose r) (seen r) (codes r) (answers r) (areas r)).
Definition goto (w : nat) (p : place) (r : rsys) : rsys :=
  Rsys (ts r) (<[w := p]> (at_ r)) (loose r) (seen r) (codes r) (answers r) (areas r).
Definition set_loose (t : nat) (n : nat) (r : rsys) : rsys :=
  Rsys (ts r) (at_ r) (<[t := n]> (loose r)) (seen r) (codes r) (answers r) (areas r).
Definition set_seen (w : nat) (l : list nat) (r : rsys) : rsys :=
  Rsys (ts r) (at_ r) (loose r) (<[w := l]> (seen r)) (codes r) (answers r) (areas r).
Definition set_code (t : nat) (c : Z) (r : rsys) : rsys :=
  Rsys (ts r) (at_ r) (loose r) (seen r) (<[t := c]> (codes r)) (answers r) (areas r).
Definition log_answer (a : Z * Z) (r : rsys) : rsys :=
  Rsys (ts r) (at_ r) (loose r) (seen r) (codes r) (answers r ++ [a]) (areas r).

Inductive revent :=
  | ECreate (t : nat) (p : Z)  (* chThdCreateStatic, after its search *)
  | EAddRef (t : nat)          (* chThdAddRef *)
  | EDrop (t : nat)            (* chThdRelease *)
  | EFirst                     (* chRegFirstThread *)
  | ENext                      (* chRegNextThread up to chThdRelease *)
  | ERelease                   (* the chThdRelease of chRegNextThread or chThdWait *)
  | EWait (t : nat)            (* chThdWait up to its switch, or to chThdRelease *)
  | EReturn                    (* chThdWait from its switch to chThdRelease *)
  | EExit (msg : Z)            (* chThdExitS *)
  | EKernel (e : kevent).      (* anything else that sleeps, yields or wakes *)

Definition rstep (e : revent) : M rsys unit :=
  let! r := get in
  let w := current (os (ts r)) in
  match e with
  | ECreate t p => zoom ts_lens (thd_create t p) ;;; modify (set_loose t 1)
  | EAddRef t => zoom ts_lens (chThdAddRef t) ;;; modify (set_loose t (S (loose r t)))
  | EDrop t => zoom ts_lens (chThdRelease t) ;;; modify (set_loose t (pred (loose r t)))
  | EFirst =>
      let! tp := zoom ts_lens chRegFirstThread in
      modify (goto w (PWalk tp)) ;;; modify (set_seen w [tp])
  | ENext =>
      match at_ r w with
      | PWalk tp => let! o := zoom ts_lens (reg_take_next tp) in modify (goto w (PStep tp o))
      | _ => ret tt
      end
  | ERelease =>
      match at_ r w with
      | PStep tp o =>
          zoom ts_lens (chThdRelease tp) ;;;
          match o with
          | Some ntp => modify (goto w (PWalk ntp)) ;;; modify (set_seen w (ntp :: seen r w))
          | None => modify (goto w PFree)
          end
      | _ => ret tt
      end
  | EWait t =>
      let! o := zoom ts_lens (chThdWait t) in
      modify (set_loose t (pred (loose r t))) ;;;
      match o with
      | None => modify (goto w (PWait t))
      | Some msg => modify (goto w (PStep t None)) ;;; modify (log_answer (msg, codes r t))
      end
  | EReturn =>
      match at_ r w with
      | PWait t =>
          let! msg := zoom ts_lens (chThdWait_resume t) in
          modify (goto w (PStep t None)) ;;; modify (log_answer (msg, codes r t))
      | _ => ret tt
      end
  | EExit msg => modify (set_code w msg) ;;; zoom ts_lens (chThdExitS msg)
  | EKernel e => zoom ts_lens (zoom os_lens (kstep e))
  end.

(** A walk may sleep, for it prints; a thread that waits for another's end is
    woken by nobody else; a thread ends outside these calls. *)
Definition kernel_possible (r : rsys) (e : kevent) : Prop :=
  let s := os (ts r) in
  let calm := at_ r (current s) = PFree \/ exists tp, at_ r (current s) = PWalk tp in
  possible s e /\ Forall (fun t => asleep s t <> Some CH_STATE_WTEXIT) (woken e) /\
  match e with
  | KSleep st => calm /\ st <> CH_STATE_WTEXIT
  | KYield | KWakeup _ _ | KReady _ => calm
  | KInterrupt _ | KTimeout _ => True
  end.

Definition rpossible (r : rsys) (e : revent) : Prop :=
  let y := ts r in
  let w := current (os y) in
  match e with
  | ECreate t p => at_ r w = PFree /\ (t < areas r)%nat /\ 0 < p /\ state (thd (os y) t) = CH_STATE_FINAL /\ refs y t = 0
  | EAddRef t => at_ r w = PFree /\ (0 < loose r t)%nat /\ refs y t < 255
  | EDrop t => at_ r w = PFree /\ (0 < loose r t)%nat
  | EFirst => at_ r w = PFree /\ forall t, newer y None = Some t -> refs y t < 255
  | ENext => exists tp, at_ r w = PWalk tp /\ forall t, newer y (Some tp) = Some t -> refs y t < 255
  | ERelease => exists tp o, at_ r w = PStep tp o
  | EWait t => at_ r w = PFree /\ t <> w /\ (0 < loose r t)%nat /\ w <> idle
  | EReturn => exists t, at_ r w = PWait t
  | EExit _ => at_ r w = PFree /\ w <> idle
  | EKernel e => kernel_possible r e
  end.

(** ** The list *)

(** The pointers from node [a] on, and back, pass through [l] to the header. *)
Fixpoint seg (nw ol : option nat -> option nat) (a : option nat) (l : list nat) : Prop :=
  match l with
  | [] => nw a = None /\ ol None = a
  | x :: l => nw a = Some x /\ ol (Some x) = a /\ seg nw ol (Some x) l
  end.

Definition linked (y : tsys) (l : list nat) : Prop := seg (newer y) (older y) None l /\ NoDup l.

Lemma seg_ext nw ol nw' ol' a l :
  seg nw ol a l -> nw' a = nw a -> ol' None = ol None ->
  (forall x, x ∈ l -> nw' (Some x) = nw (Some x) /\ ol' (Some x) = ol (Some x)) -> seg nw' ol' a l.
Proof.
  revert a. induction l as [|x l IH]; intros a; cbn [seg].
  - intros [H1 H2] -> ->. done.
  - intros (H1 & H2 & H3) Ha Hn Hl. destruct (Hl x) as [Hx1 Hx2]; [apply elem_of_cons; by left|].
    rewrite Ha, Hx2. split; [done|]. split; [done|]. apply IH; [done|done|done|]. intros z Hz. apply Hl, elem_of_cons. by right.
Qed.

(** The node before the header. *)
Lemma seg_last nw ol a l : seg nw ol a l -> ol None = (match last l with Some x => Some x | None => a end) /\ nw (ol None) = None.
Proof.
  revert a. induction l as [|x l IH]; intros a; cbn [seg]; [intros [H1 H2]; by rewrite H2|].
  intros (_ & _ & H). destruct (IH _ H) as [H1 H2]. split; [|done]. rewrite H1, last_cons. by destruct (last l).
Qed.

Lemma seg_insert nw ol a l t :
  seg nw ol a l -> t ∉ l -> a <> Some t -> NoDup l -> (forall x, a = Some x -> x ∉ l) ->
  seg (<[ol None := Some t]> (<[Some t := None]> nw)) (<[None := Some t]> (<[Some t := ol None]> ol)) a (l ++ [t]).
Proof.
  intros Hs Ht Ha Hnd Hal. pose proof (seg_last _ _ _ _ Hs) as [Hlast _]. set (e := ol None) in *.
  revert a Hs Ha Hal Hlast. induction l as [|x l IH]; intros a Hs Ha Hal Hlast; cbn [seg app].
  - cbn in Hlast. rewrite Hlast. rewrite fn_lookup_insert. split; [done|].
    rewrite (fn_lookup_insert_ne _ None) by done. rewrite fn_lookup_insert. split; [done|].
    rewrite fn_lookup_insert, fn_lookup_insert_ne by done. by rewrite fn_lookup_insert.
  - destruct Hs as (H1 & H2 & H3). apply not_elem_of_cons in Ht as [Htx Htl]. apply NoDup_cons in Hnd as [Hxl Hnd].
    assert (Hel : e <> a).
    { intros He. pose proof (seg_last _ _ _ _ H3) as [Hl' _]. fold e in Hl'. destruct (last l) as [v|] eqn:Hv.
      - apply (Hal v); [congruence|]. apply elem_of_cons. right. by apply last_Some_elem_of.
      - apply (Hal x); [congruence|apply elem_of_cons; by left]. }
    rewrite fn_lookup_insert_ne, fn_lookup_insert_ne by congruence. split; [done|].
    rewrite fn_lookup_insert_ne, fn_lookup_insert_ne by congruence. split; [done|].
    apply IH; [done|done|done|congruence|intros z [= <-]; done|]. pose proof (seg_last _ _ _ _ H3) as [Hl' _]. exact Hl'.
Qed.

(** The neighbours of an element. *)
Lemma seg_around nw ol a l1 t l2 :
  seg nw ol a (l1 ++ t :: l2) ->
  nw (Some t) = head l2 /\ ol (Some t) = match last l1 with Some x => Some x | None => a end.
Proof.
  revert a. induction l1 as [|x l1 IH]; intros a; cbn [seg app].
  - intros (_ & H2 & H3). split; [|done]. destruct l2; cbn in H3; [by destruct H3|by destruct H3].
  - intros (_ & _ & H3). destruct (IH _ H3) as [H4 H5]. split; [done|]. rewrite H5, last_cons. by destruct (last l1).
Qed.

Lemma seg_remove nw ol a l1 t l2 :
  seg nw ol a (l1 ++ t :: l2) -> NoDup (l1 ++ t :: l2) -> (forall x, a = Some x -> x ∉ l1 ++ t :: l2) ->
  seg (<[ol (Some t) := nw (Some t)]> nw) (<[nw (Some t) := ol (Some t)]> ol) a (l1 ++ l2).
Proof.
  revert a. induction l1 as [|x l1 IH]; intros a Hs Hnd Ha; pose proof (seg_around _ _ _ _ _ _ Hs) as [Hn Hp]; cbn [app seg] in *.
  - destruct Hs as (H1 & H2 & H3). apply NoDup_cons in Hnd as [Htl Hnd]. rewrite H2, Hn. destruct l2 as [|z l2]; cbn [seg head] in *.
    + rewrite !fn_lookup_insert. done.
    + destruct H3 as (H4 & H5 & H6). apply NoDup_cons in Hnd as [Hzl Hnd]. rewrite !fn_lookup_insert. split; [done|]. split; [done|].
      eapply seg_ext; [exact H6| |by rewrite fn_lookup_insert_ne|].
      * rewrite fn_lookup_insert_ne; [done|]. intros ->. apply (Ha z); [done|set_solver].
      * intros v Hv. rewrite !fn_lookup_insert_ne; [done|congruence|]. intros ->. apply (Ha v); [done|set_solver].
  - destruct Hs as (H1 & H2 & H3). apply NoDup_cons in Hnd as [Hxl Hnd]. split; [|split].
    + rewrite fn_lookup_insert_ne; [done|]. rewrite Hp. intros He. destruct (last (x :: l1)) as [v|] eqn:Hv.
      * apply (Ha v); [congruence|]. apply last_Some_elem_of in Hv. set_solver.
      * by apply last_None in Hv.
    + rewrite fn_lookup_insert_ne; [done|]. rewrite Hn. intros He. destruct l2 as [|z l2]; [done|]. injection He as ->. set_solver.
    + apply IH; [done|done|]. intros z [= <-]. done.
Qed.

(** A list of pointers is one list. *)
Lemma seg_inj nw ol a l l' : seg nw ol a l -> seg nw ol a l' -> l = l'.
Proof.
  revert a l'. induction l as [|x l IH]; intros a [|z l']; cbn [seg]; intros H H'; [done|destruct H, H'; congruence..|].
  destruct H as (H1 & _ & H3), H' as (H4 & _ & H6). assert (x = z) by congruence. subst. f_equal. by eapply IH.
Qed.

Lemma linked_next y l1 t l2 : linked y (l1 ++ t :: l2) -> newer y (Some t) = head l2.
Proof. intros [H _]. by apply seg_around in H as [? _]. Qed.

Lemma linked_first y l : linked y l -> newer y None = head l.
Proof. intros [H _]. destruct l; cbn in H; by destruct H. Qed.

Lemma reg_insert_spec y l t :
  linked y l -> t ∉ l ->
  wp (REG_INSERT t) (fun _ y' => linked y' (l ++ [t]) /\ y' = Tsys (os y) (realprio y) (mtxlist y) (newer y') (older y') (refs y) (name y) (waiters y)) y.
Proof.
  intros [Hs Hnd] Ht. unfold REG_INSERT, wp, bind, modify. cbn. split; [|done]. split.
  - pose proof (seg_insert _ _ _ _ t Hs Ht ltac:(done) Hnd ltac:(done)) as Hs'. cbn. rewrite fn_lookup_insert. exact Hs'.
  - apply NoDup_app. split; [done|]. split; [|apply NoDup_singleton]. intros x Hx Hx'. apply list_elem_of_singleton in Hx' as ->. done.
Qed.

Lemma reg_remove_spec y l1 t l2 :
  linked y (l1 ++ t :: l2) ->
  wp (REG_REMOVE t) (fun _ y' => linked y' (l1 ++ l2) /\ y' = Tsys (os y) (realprio y) (mtxlist y) (newer y') (older y') (refs y) (name y) (waiters y)) y.
Proof.
  intros [Hs Hnd]. unfold REG_REMOVE, wp, bind, modify. cbn. split; [|done]. split.
  - pose proof (seg_remove _ _ _ _ _ _ Hs Hnd ltac:(done)) as Hs'. cbn. pose proof (seg_around _ _ _ _ _ _ Hs) as [_ Hp].
    rewrite (fn_lookup_insert_ne (newer y) (older y (Some t)) (Some t)); [exact Hs'|]. rewrite Hp.
    destruct (last l1) as [x|] eqn:Hx; [|done]. apply last_Some_elem_of in Hx. intros [= ->].
    apply NoDup_app in Hnd as (_ & Hd & _). apply (Hd t); [done|]. apply elem_of_cons. by left.
  - apply NoDup_app in Hnd as (H1 & H2 & H3). apply NoDup_cons in H3 as [_ H3]. apply NoDup_app. split; [done|]. split; [|done].
    intros x Hx Hx2. apply (H2 x); [done|]. apply elem_of_cons. by right.
Qed.

(** ** Walks and references *)

(** The elements before [n]. *)
Fixpoint before (n : nat) (l : list nat) : list nat :=
  match l with [] => [] | x :: l => if decide (x = n) then [] else x :: before n l end.

Definition without (t : nat) (l : list nat) : list nat := filter (fun x => x <> t) l.

Lemma before_split n l : n ∈ l -> exists l2, l = before n l ++ n :: l2.
Proof.
  induction l as [|x l IH]; intros Hn; [by apply not_elem_of_nil in Hn|]. cbn [before]. case_decide as Hx; [subst; by exists l|].
  apply elem_of_cons in Hn as [?|Hn]; [congruence|]. destruct (IH Hn) as [l2 Hl]. exists l2. cbn. by rewrite <- Hl.
Qed.

Lemma before_app n l1 l2 : n ∉ l1 -> before n (l1 ++ n :: l2) = l1.
Proof.
  induction l1 as [|x l1 IH]; intros Hn; cbn [before app]; [by rewrite decide_True|].
  apply not_elem_of_cons in Hn as [? Hn]. rewrite decide_False by congruence. by rewrite IH.
Qed.

Lemma before_snoc n l t : n ∈ l -> before n (l ++ [t]) = before n l.
Proof.
  induction l as [|x l IH]; intros Hn; [by apply not_elem_of_nil in Hn|]. cbn [before app]. case_decide; [done|].
  apply elem_of_cons in Hn as [?|Hn]; [congruence|]. by rewrite IH.
Qed.

Lemma before_without n t l x : n <> t -> x ∈ before n (without t l) -> x ∈ before n l.
Proof.
  intros Hn. unfold without. induction l as [|z l IH]; [done|]. rewrite filter_cons. case_decide as Hz.
  - cbn [before]. case_decide; [done|]. rewrite !elem_of_cons. tauto.
  - assert (z = t) by (destruct (decide (z = t)); tauto). subst z. intros Hx. cbn [before]. rewrite decide_False by congruence.
    apply elem_of_cons. right. by apply IH.
Qed.

Lemma without_none t l : t ∉ l -> without t l = l.
Proof.
  unfold without. induction l as [|x l IH]; intros Ht; [done|]. apply not_elem_of_cons in Ht as [? Ht].
  rewrite filter_cons, decide_True by congruence. by rewrite IH.
Qed.

Lemma without_split l1 t l2 : NoDup (l1 ++ t :: l2) -> without t (l1 ++ t :: l2) = l1 ++ l2.
Proof.
  intros Hnd. apply NoDup_app in Hnd as (_ & Hd & Hnd). apply NoDup_cons in Hnd as [Ht _]. unfold without.
  rewrite filter_app, filter_cons, decide_False by tauto. f_equal; apply without_none; [|done].
  intros Hx. apply (Hd t); [done|]. apply elem_of_cons. by left.
Qed.

(** What a walk at [n] owes: it has seen the threads before [n]. *)
Definition ahead (l : list nat) (sn : list nat) (p : place) : Prop :=
  match p with
  | PWalk n => n ∈ l /\ n ∈ sn /\ forall x, x ∈ before n l -> x ∈ sn
  | PStep _ (Some n) => n ∈ l /\ forall x, x ∈ before n l -> x ∈ sn
  | _ => True
  end.

Definition one (a t : nat) : nat := if decide (a = t) then 1 else 0.

(** The references to [t] that a thread at [p] holds. *)
Definition held (p : place) (t : nat) : nat :=
  match p with
  | PFree => 0
  | PWalk a | PWait a => one a t
  | PStep a o => one a t + match o with Some b => one b t | None => 0 end
  end.

Definition total (at' : nat -> place) (n t : nat) : nat := sum_list_with (fun w => held (at' w) t) (seq 0 n).

(** [f'] is [f] but for [p] at [w]. *)
Definition moved {A} (w : nat) (p : A) (f f' : nat -> A) : Prop := forall v, f' v = if decide (v = w) then p else f v.

Lemma moved_insert {A} w (p : A) f : moved w p f (<[w := p]> f).
Proof. intros v. case_decide; [subst; by rewrite fn_lookup_insert|by rewrite fn_lookup_insert_ne]. Qed.

Lemma moved_same {A} w (p : A) f : f w = p -> moved w p f f.
Proof. intros Hp v. by case_decide; subst. Qed.

Lemma sum_update f f' w p t l :
  moved w p f f' -> NoDup l ->
  (sum_list_with (fun v => held (f' v) t) l + (if decide (w ∈ l) then held (f w) t else 0) =
   sum_list_with (fun v => held (f v) t) l + (if decide (w ∈ l) then held p t else 0))%nat.
Proof.
  intros Hm. induction l as [|x l IH]; intros Hnd; [done|]. apply NoDup_cons in Hnd as [Hx Hnd]. specialize (IH Hnd). cbn [sum_list_with].
  rewrite Hm. destruct (decide (x = w)) as [->|Hne].
  - rewrite !(decide_True (P := w ∈ w :: l)) by (apply elem_of_cons; by left).
    rewrite !(decide_False (P := w ∈ l)) in IH by done. lia.
  - assert (Hd : forall a b : nat, (if decide (w ∈ x :: l) then a else b) = if decide (w ∈ l) then a else b).
    { intros a b. apply decide_ext. rewrite elem_of_cons. split; [intros [?|?]; [congruence|done]|auto]. }
    rewrite !Hd. lia.
Qed.

Lemma total_update f f' w p n t :
  moved w p f f' -> (w < n)%nat -> (total f' n t + held (f w) t = total f n t + held p t)%nat.
Proof.
  intros Hm Hw. pose proof (sum_update f f' w p t (seq 0 n) Hm (NoDup_seq 0 n)) as H. rewrite !decide_True in H by (apply elem_of_seq; lia). exact H.
Qed.

Lemma total_ge f w n t : (w < n)%nat -> (held (f w) t <= total f n t)%nat.
Proof. intros Hw. pose proof (total_update f _ w PFree n t (moved_insert w PFree f) Hw). cbn [held] in *. lia. Qed.

Lemma ahead_without l t sn p : held p t = 0%nat -> ahead l sn p -> ahead (without t l) sn p.
Proof.
  assert (Hone : forall a, one a t = 0%nat -> a <> t) by (unfold one; intros a; by case_decide).
  unfold ahead, without. destruct p as [|n|a [n|]|]; cbn [held]; try done; intros Hh.
  - intros (H1 & H2 & H3). apply Hone in Hh. split; [by apply list_elem_of_filter|]. split; [done|].
    intros x Hx. apply H3. by eapply before_without.
  - intros (H1 & H3). assert (Hn : n <> t) by (apply Hone; lia). split; [by apply list_elem_of_filter|].
    intros x Hx. apply H3. by eapply before_without.
Qed.

Lemma ahead_snoc l t sn p : ahead l sn p -> ahead (l ++ [t]) sn p.
Proof.
  unfold ahead. destruct p as [|n|a [n|]|]; try done.
  - intros (H1 & H2 & H3). rewrite before_snoc by done. split; [apply elem_of_app; by left|done].
  - intros (H1 & H3). rewrite before_snoc by done. split; [apply elem_of_app; by left|done].
Qed.

(** ** The invariant *)

Definition ended (y : tsys) (t : nat) : Prop := asleep (os y) t = Some CH_STATE_FINAL.
#[global] Instance ended_dec y t : Decision (ended y t).
Proof. unfold ended. apply _. Defined.

Lemma ended_state y t : state (thd (os y) t) = CH_STATE_FINAL <-> ended y t.
Proof. unfold ended, asleep. destruct (state (thd (os y) t)); split; congruence. Qed.

(** The list holds the threads that live or are referred to. *)
Definition lists (y : tsys) (l : list nat) : Prop := linked y l /\ forall t, t ∈ l <-> ~ ended y t \/ 0 < refs y t.

Record rinv (l : list nat) (r : rsys) : Prop := {
  v_sched : sched_ok (os (ts r));
  v_dispatched : dispatched (os (ts r));
  v_lists : lists (ts r) l;
  v_areas : Forall (fun t => (t < areas r)%nat) l;
  v_ahead : forall w, ahead l (seen r w) (at_ r w);
  v_refs : forall t, refs (ts r) t = Z.of_nat (loose r t + total (at_ r) (areas r) t);
  v_bound : forall t, refs (ts r) t <= 255;
  v_waiters : forall t w, w ∈ waiters (ts r) t <-> at_ r w = PWait t /\ asleep (os (ts r)) w = Some CH_STATE_WTEXIT;
  v_wnodup : forall t, NoDup (waiters (ts r) t);
  v_wfinal : forall t, ended (ts r) t -> waiters (ts r) t = [];
  v_wait : forall w t, at_ r w = PWait t -> asleep (os (ts r)) w = Some CH_STATE_WTEXIT \/ (asleep (os (ts r)) w = None /\ ended (ts r) t);
  v_exit : forall w, asleep (os (ts r)) w = Some CH_STATE_WTEXIT -> exists t, at_ r w = PWait t;
  v_ended : forall w, ended (ts r) w -> at_ r w = PFree;
  v_codes : forall t, ended (ts r) t -> 0 < refs (ts r) t -> words (os (ts r)) t = codes r t;
  v_answers : Forall (fun a => fst a = snd a) (answers r)
}.

Lemma current_listed l r : rinv l r -> current (os (ts r)) ∈ l /\ (current (os (ts r)) < areas r)%nat.
Proof.
  intros H. assert (Hin : current (os (ts r)) ∈ l).
  { apply (proj2 (v_lists _ _ H)). left. unfold ended. rewrite current_awake; [done|apply H]. }
  split; [done|]. pose proof (v_areas _ _ H) as Ha. rewrite Forall_forall in Ha. by apply Ha.
Qed.

(** A thread referred to from a place is in the list. *)
Lemma held_listed l r w t : rinv l r -> (w < areas r)%nat -> (0 < held (at_ r w) t)%nat -> 0 < refs (ts r) t /\ t ∈ l.
Proof.
  intros H Hw Hh. assert (Hr : 0 < refs (ts r) t) by (rewrite (v_refs _ _ H); pose proof (total_ge (at_ r) w (areas r) t Hw); lia).
  split; [done|]. apply (proj2 (v_lists _ _ H)). by right.
Qed.

(** The running thread [w] goes from one place to another and references change;
    nothing else does. *)
Lemma rinv_move l l' r r' p :
  let w := current (os (ts r)) in
  rinv l r -> os (ts r') = os (ts r) -> waiters (ts r') = waiters (ts r) -> codes r' = codes r -> areas r' = areas r ->
  moved w p (at_ r) (at_ r') -> (forall t, p <> PWait t) ->
  lists (ts r') l' -> (forall t, t ∈ l' -> t ∈ l) ->
  (forall v, v <> w -> seen r' v = seen r v /\ ahead l' (seen r v) (at_ r v)) -> ahead l' (seen r' w) p ->
  (forall t, Z.of_nat (loose r t + held (at_ r w) t) + refs (ts r') t = Z.of_nat (loose r' t + held p t) + refs (ts r) t) ->
  (forall t, refs (ts r') t <= 255) -> Forall (fun a => fst a = snd a) (answers r') -> rinv l' r'.
Proof.
  intros w H Ho Hw Hc Ha Hat Hp Hl Hsub Hah Hahw Hr Hb Hans. pose proof (v_sched _ _ H) as Hs.
  pose proof (current_awake _ Hs) as Haw. fold w in Haw. destruct (current_listed l r H) as [_ Hwa]. fold w in Hwa.
  assert (Hother : forall v t, at_ r' v = PWait t <-> v <> w /\ at_ r v = PWait t).
  { intros v t. rewrite Hat. case_decide; [|tauto]. subst v. split; [intros ->; by destruct (Hp t)|intros [? _]; done]. }
  constructor; unfold ended in *; rewrite ?Ho, ?Hw, ?Hc, ?Ha; try apply H; try done.
  - apply Forall_forall. intros t Ht. pose proof (v_areas _ _ H) as Har. rewrite Forall_forall in Har. by apply Har, Hsub.
  - intros v. rewrite Hat. case_decide as Hv; [by subst v|]. by destruct (Hah v Hv) as [-> ?].
  - intros t. specialize (Hr t). pose proof (v_refs _ _ H t). pose proof (total_update _ _ _ _ (areas r) t Hat Hwa). lia.
  - intros t v. rewrite (v_waiters _ _ H), Hother. split; [|tauto]. intros [Hv Hv']. split; [|done]. split; [|done].
    intros ->. congruence.
  - intros v t Hv. apply Hother in Hv as [_ Hv]. destruct (v_wait _ _ H v t Hv) as [?|[? ?]]; auto.
  - intros v Hv. destruct (v_exit _ _ H v Hv) as [t Ht]. exists t. apply Hother. split; [|done]. intros ->. congruence.
  - intros v Hv. rewrite Hat. case_decide as Hvw; [subst v; unfold ended in Hv; congruence|]. by apply (v_ended _ _ H).
  - intros t Ht Hpos. apply (v_codes _ _ H); [done|]. assert (Hin : t ∈ l) by (apply Hsub, (proj2 Hl); by right).
    apply (proj2 (v_lists _ _ H)) in Hin as [?|?]; done.
Qed.

(** ** What the operations do *)

(** Only references, and perhaps the list, change. *)
Record recounted (y : tsys) (R : nat -> Z) (l' : list nat) (y' : tsys) : Prop := {
  c_os : os y' = os y;
  c_waiters : waiters y' = waiters y;
  c_refs : forall t, refs y' t = R t;
  c_lists : lists y' l'
}.

Lemma set_refs_spec y l t n :
  lists y l -> t ∈ l -> 0 < n <= 255 ->
  recounted y (fun x => if decide (x = t) then n else refs y x) l (set_refs t (u8 n) y).
Proof.
  intros [Hl Hin] Ht Hn. assert (Hr : forall x, refs (set_refs t (u8 n) y) x = if decide (x = t) then n else refs y x).
  { intros x. cbn. case_decide as Hx; [subst; rewrite fn_lookup_insert; unfold u8; apply Z.mod_small; lia|by rewrite fn_lookup_insert_ne]. }
  constructor; [done|done|done|]. split; [done|]. intros x. rewrite Hr. change (ended (set_refs t (u8 n) y) x) with (ended y x).
  case_decide as Hx; [subst; naive_solver lia|apply Hin].
Qed.

Lemma chThdAddRef_spec y l t :
  lists y l -> t ∈ l -> 0 <= refs y t < 255 ->
  wp (chThdAddRef t) (fun _ => recounted y (fun x => if decide (x = t) then refs y t + 1 else refs y x) l) y.
Proof.
  intros Hl Ht Hr. unfold chThdAddRef. apply wp_bind, wp_get, wp_bind. unfold wp at 1, assert. rewrite (proj2 (Z.ltb_lt _ _)) by lia.
  cbn [ret]. unfold wp, modify. apply set_refs_spec; [done|done|lia].
Qed.

Lemma chThdRelease_spec y l t :
  lists y l -> 0 < refs y t <= 255 ->
  wp (chThdRelease t) (fun _ y' => recounted y (fun x => if decide (x = t) then refs y t - 1 else refs y x)
    (if decide (refs y t = 1 /\ ended y t) then without t l else l) y') y.
Proof.
  intros [Hl Hin] Hr. unfold chThdRelease. apply wp_bind, wp_get, wp_bind. unfold wp at 1, assert. rewrite (proj2 (Z.ltb_lt _ _)) by lia.
  cbn [ret]. apply wp_bind. unfold wp at 1, modify. apply wp_bind, wp_get. set (y1 := set_refs _ _ y).
  assert (Hr1 : forall x, refs y1 x = if decide (x = t) then refs y t - 1 else refs y x).
  { intros x. unfold y1; cbn. case_decide as Hx; [subst; rewrite fn_lookup_insert; unfold u8; apply Z.mod_small; lia|by rewrite fn_lookup_insert_ne]. }
  assert (Hiff : (refs y1 t = 0 /\ state (thd (os y1) t) = CH_STATE_FINAL) <-> (refs y t = 1 /\ ended y t)).
  { rewrite ended_state, Hr1, decide_True by done. change (ended y1 t) with (ended y t). split; intros [? ?]; split; [lia|done|lia|done]. }
  destruct (decide (refs y t = 1 /\ ended y t)) as [Hd|Hd].
  - rewrite (decide_True (P := refs y1 t = 0 /\ _)) by (by apply Hiff).
    assert (Ht : t ∈ l) by (apply Hin; right; lia). apply list_elem_of_split in Ht as (l1 & l2 & ->).
    eapply wp_conseq; [by apply (reg_remove_spec y1 l1 t l2)|]. intros ? y' [Hl' Hy']. rewrite without_split by apply Hl.
    rewrite Hy'. constructor; [done|done|done|]. split; [by rewrite <- Hy'|]. intros x.
    change (x ∈ l1 ++ l2 <-> ~ ended y x \/ 0 < refs y1 x). rewrite Hr1, <- (without_split l1 t l2) by apply Hl.
    unfold without. rewrite list_elem_of_filter, Hin. case_decide as Hx; [subst; destruct Hd; split; [intros [? _]; done|intros [?|?]; [done|lia]]|tauto].
  - rewrite decide_False by (by rewrite Hiff). apply wp_ret. constructor; [done|done|done|]. split; [done|].
    intros x. change (x ∈ l <-> ~ ended y x \/ 0 < refs y1 x). rewrite Hin, Hr1. case_decide as Hx; [subst|done].
    destruct (decide (ended y t)); [|tauto]. assert (refs y t <> 1) by tauto. split; intros [?|?]; try done; right; lia.
Qed.

(** ** The events *)

(** What an event leaves as it was. *)
Ltac unmoved H :=
  try done; try apply moved_insert; try exact (v_lists _ _ H); try exact (v_bound _ _ H); try exact (v_answers _ _ H);
  try (intros; split; [done|apply H]).

Section events.
Context (l : list nat) (r : rsys).
Hypothesis (H : rinv l r).
Notation w := (current (os (ts r))).

Lemma w_area : (w < areas r)%nat.
Proof. by apply current_listed in H as [_ ?]. Qed.

(** A reference of [w] that is the only one is nobody else's. *)
Lemma only_holder t : refs (ts r) t = 1 -> (0 < loose r t + held (at_ r w) t)%nat -> forall x, x <> w -> held (at_ r x) t = 0%nat.
Proof.
  intros Hr Hn x Hx. rewrite (v_refs _ _ H) in Hr. destruct (decide (x < areas r)%nat) as [Ha|Ha].
  - pose proof (total_update (at_ r) _ w PFree (areas r) t (moved_insert w PFree (at_ r)) w_area) as H1.
    pose proof (total_ge (<[w := PFree]> (at_ r)) x (areas r) t Ha) as H2.
    rewrite fn_lookup_insert_ne in H2 by done. cbn [held] in H1. lia.
  - assert (He : ended (ts r) x).
    { destruct (decide (ended (ts r) x)) as [|Hne]; [done|]. assert (Hin : x ∈ l) by (apply (proj2 (v_lists _ _ H)); by left).
      pose proof (v_areas _ _ H) as Har. rewrite Forall_forall in Har. by apply Har in Hin. }
    by rewrite (v_ended _ _ H x He).
Qed.

(** The list when [w] gives up a reference to [t]. *)
Definition after_release (t : nat) : list nat := if decide (refs (ts r) t = 1 /\ ended (ts r) t) then without t l else l.

Lemma after_release_spec t :
  (0 < loose r t + held (at_ r w) t)%nat ->
  (forall x, x ∈ after_release t -> x ∈ l) /\
  (forall v, v <> w -> ahead (after_release t) (seen r v) (at_ r v)) /\
  (forall sn p, ahead l sn p -> (forall x, (0 < held p x)%nat -> x = t -> 1 < refs (ts r) t) -> ahead (after_release t) sn p).
Proof.
  intros Hn. unfold after_release. case_decide as Hd; [|split; [done|]; split; [intros; apply H|done]]. destruct Hd as [Hr _].
  split; [intros x Hx; by apply list_elem_of_filter in Hx as [_ ?]|]. split.
  - intros v Hv. apply ahead_without; [by apply only_holder|apply H].
  - intros sn p Ha Hp. apply ahead_without; [|done]. destruct (held p t) eqn:He; [done|]. specialize (Hp t ltac:(lia) eq_refl). lia.
Qed.

Lemma free_refs t : (0 < loose r t)%nat -> 0 < refs (ts r) t /\ t ∈ l.
Proof.
  intros Hl. assert (Hr : 0 < refs (ts r) t) by (rewrite (v_refs _ _ H); lia). split; [done|]. apply (proj2 (v_lists _ _ H)). by right.
Qed.

Lemma step_addref t : rpossible r (EAddRef t) -> wp (rstep (EAddRef t)) (fun _ => rinv l) r.
Proof.
  intros (Hat & Hl & Hb). destruct (free_refs t Hl) as [Hr Ht]. unfold rstep. apply wp_bind, wp_get, wp_bind, wp_zoom.
  eapply wp_conseq; [apply (chThdAddRef_spec (ts r) l); [apply H|done|lia]|]. intros ? y' [Ho Hw Hr' Hl']. unfold wp, modify.
  apply (rinv_move l l r _ PFree); try done; [by apply moved_same|intros; split; [done|apply H]| |cbn; intros x; rewrite Hr'|apply H].
  - intros x. cbn [ts over ts_lens set_loose loose at_]. rewrite Hr', Hat.
    destruct (decide (x = t)) as [->|]; [rewrite fn_lookup_insert; lia|rewrite fn_lookup_insert_ne by done; lia].
  - case_decide; [lia|apply H].
Qed.

Lemma step_drop t : rpossible r (EDrop t) -> wp (rstep (EDrop t)) (fun _ => rinv (after_release t)) r.
Proof.
  intros (Hat & Hl). destruct (free_refs t Hl) as [Hr Ht]. pose proof (v_bound _ _ H t) as Hb. unfold rstep. apply wp_bind, wp_get, wp_bind, wp_zoom.
  eapply wp_conseq; [apply (chThdRelease_spec (ts r) l); [apply H|lia]|]. intros ? y' [Ho Hw Hr' Hl']. fold (after_release t) in Hl'.
  unfold wp, modify. destruct (after_release_spec t ltac:(lia)) as (Hsub & Hah & _).
  apply (rinv_move l _ r _ PFree); try done; [by apply moved_same|intros; split; [done|by apply Hah]| |cbn; intros x; rewrite Hr'|apply H].
  - intros x. cbn [ts over ts_lens set_loose loose at_]. rewrite Hr', Hat.
    destruct (decide (x = t)) as [->|]; [rewrite fn_lookup_insert; lia|rewrite fn_lookup_insert_ne by done; lia].
  - pose proof (v_bound _ _ H x). case_decide; [lia|done].
Qed.

Lemma step_first : rpossible r EFirst -> wp (rstep EFirst) (fun _ => rinv l) r.
Proof.
  intros (Hat & Hb). destruct (current_listed l r H) as [Hin Ha]. pose proof (v_lists _ _ H) as [Hlk Hmem].
  pose proof (linked_first _ _ Hlk) as Hf. destruct l as [|x l2] eqn:El; [by apply not_elem_of_nil in Hin|]. cbn [head] in Hf.
  specialize (Hb x Hf). unfold rstep. apply wp_bind, wp_get, wp_bind, wp_zoom. change (view ts_lens r) with (ts r).
  unfold chRegFirstThread. apply wp_bind, wp_get. rewrite Hf. apply wp_bind. unfold wp at 1, modify at 1. apply wp_ret.
  pose proof (v_refs _ _ H x) as Hrx.
  assert (Hx : x ∈ x :: l2) by (apply elem_of_cons; by left).
  destruct (set_refs_spec (ts r) (x :: l2) x (refs (ts r) x + 1)) as [Ho Hw Hr' Hl']; [apply H|done|lia|].
  apply wp_bind. unfold wp at 1, modify at 1. unfold wp, modify.
  apply (rinv_move (x :: l2) (x :: l2) r _ (PWalk x)); try done.
  - apply moved_insert.
  - intros v Hv. cbn. rewrite fn_lookup_insert_ne by done. split; [done|apply H].
  - cbn. rewrite fn_lookup_insert, decide_True by done. split; [done|]. split; [by apply list_elem_of_singleton|].
    intros z Hz. by apply not_elem_of_nil in Hz.
  - intros z. cbn [ts over ts_lens set_seen goto loose at_]. rewrite Hr', Hat. cbn [held]. unfold one.
    destruct (decide (z = x)) as [->|]; [rewrite decide_True by done; lia|rewrite decide_False by congruence; lia].
  - intros z. cbn [ts over ts_lens set_seen goto]. rewrite Hr'. case_decide; [lia|apply H].
  - apply H.
Qed.

Lemma step_next : rpossible r ENext -> wp (rstep ENext) (fun _ => rinv l) r.
Proof.
  intros (tp & Hat & Hb). pose proof (v_ahead _ _ H w) as Haw. rewrite Hat in Haw. destruct Haw as (Htp & Hseen & Hbef).
  pose proof (v_lists _ _ H) as [Hlk Hmem]. destruct (before_split tp l Htp) as [l2 Hl]. unfold rstep. apply wp_bind, wp_get. rewrite Hat.
  apply wp_bind, wp_zoom. change (view ts_lens r) with (ts r). unfold reg_take_next. apply wp_bind, wp_get.
  pose proof Hlk as Hlk'. rewrite Hl in Hlk'. pose proof (linked_next _ _ _ _ Hlk') as Hnx. rewrite Hnx in *.
  destruct l2 as [|n l3]; cbn [head] in *.
  - apply wp_ret. unfold wp, modify. apply (rinv_move l l r _ (PStep tp None)); unmoved H.
    intros z. cbn [ts over ts_lens goto loose at_]. rewrite Hat. cbn [held]. lia.
  - specialize (Hb n eq_refl). pose proof (v_refs _ _ H n) as Hrn.
    assert (Hn : n ∈ l) by (rewrite Hl; apply elem_of_app; right; rewrite !elem_of_cons; auto).
    apply wp_bind. unfold wp at 1, assert. rewrite (proj2 (Z.ltb_lt _ _)) by lia. cbn [ret].
    apply wp_bind. unfold wp at 1, modify at 1. apply wp_ret.
    destruct (set_refs_spec (ts r) l n (refs (ts r) n + 1)) as [Ho Hw Hr' Hl']; [apply H|done|lia|]. unfold wp, modify.
    assert (Hbn : before n l = before tp l ++ [tp]).
    { rewrite Hl at 1. change (before tp l ++ tp :: n :: l3) with (before tp l ++ [tp] ++ n :: l3). rewrite app_assoc. apply before_app.
      destruct Hlk' as [_ Hnd]. apply NoDup_app in Hnd as (_ & Hd & Hnd). apply NoDup_cons in Hnd as [Hnt _]. intros Hin.
      apply elem_of_app in Hin as [Hin|Hin%list_elem_of_singleton]; [|set_solver]. apply (Hd n Hin). set_solver. }
    apply (rinv_move l l r _ (PStep tp (Some n))); try done; [apply moved_insert|intros; split; [done|apply H]| | |cbn [ts over ts_lens goto]; intros z; rewrite Hr'|apply H].
    + split; [done|]. intros x. rewrite Hbn, elem_of_app, list_elem_of_singleton. intros [?| ->]; [by apply Hbef|done].
    + intros z. cbn [ts over ts_lens goto loose at_]. rewrite Hr', Hat. cbn [held]. unfold one at 3.
      destruct (decide (z = n)) as [->|]; [rewrite decide_True by done; lia|rewrite decide_False by congruence; lia].
    + case_decide; [lia|apply H].
Qed.

Lemma step_release tp o : at_ r w = PStep tp o -> wp (rstep ERelease) (fun _ => rinv (after_release tp)) r.
Proof.
  intros Hat. assert (Hone : one tp tp = 1%nat) by (unfold one; by rewrite decide_True).
  assert (Hpos : (1 <= held (at_ r w) tp)%nat) by (rewrite Hat; cbn [held]; lia).
  destruct (held_listed l r w tp H w_area Hpos) as [Hr Ht]. pose proof (v_bound _ _ H tp) as Hb.
  destruct (after_release_spec tp ltac:(lia)) as (Hsub & Hah & Hkeep). pose proof (v_ahead _ _ H w) as Haw. rewrite Hat in Haw.
  unfold rstep. apply wp_bind, wp_get. rewrite Hat. apply wp_bind, wp_zoom.
  eapply wp_conseq; [apply (chThdRelease_spec (ts r) l); [apply H|lia]|]. intros ? y' [Ho Hw Hr' Hl']. fold (after_release tp) in Hl'.
  assert (Hb' : forall z, (if decide (z = tp) then refs (ts r) tp - 1 else refs (ts r) z) <= 255).
  { intros z. pose proof (v_bound _ _ H z). case_decide; [lia|done]. }
  destruct o as [n|].
  - apply wp_bind. unfold wp at 1, modify at 1. unfold wp, modify. destruct Haw as [Hn Hbef].
    apply (rinv_move l _ r _ (PWalk n)); try done; [apply moved_insert| | | |cbn [ts over ts_lens goto set_seen]; intros z; rewrite Hr'; apply Hb'|apply H].
    + intros v Hv. cbn. rewrite fn_lookup_insert_ne by done. split; [done|by apply Hah].
    + cbn [seen set_seen goto over ts_lens]. rewrite fn_lookup_insert. apply Hkeep.
      * split; [done|]. split; [apply elem_of_cons; by left|]. intros x Hx. apply elem_of_cons. right. by apply Hbef.
      * intros x Hx ->. rewrite (v_refs _ _ H). pose proof (total_ge (at_ r) w (areas r) tp w_area) as Hge. rewrite Hat in Hge. cbn [held] in *.
        lia.
    + intros z. cbn [ts over ts_lens goto set_seen loose at_]. rewrite Hr', Hat. cbn [held]. unfold one at 1.
      destruct (decide (z = tp)) as [->|]; [rewrite decide_True by done; lia|rewrite decide_False by congruence; lia].
  - unfold wp, modify.
    apply (rinv_move l _ r _ PFree); try done; [apply moved_insert| | |cbn [ts over ts_lens goto]; intros z; rewrite Hr'; apply Hb'|apply H].
    + intros v Hv. split; [done|by apply Hah].
    + intros z. cbn [ts over ts_lens goto loose at_]. rewrite Hr', Hat. cbn [held]. unfold one.
      destruct (decide (z = tp)) as [->|]; [rewrite decide_True by done; lia|rewrite decide_False by congruence; lia].
Qed.

(** A thread whose wait is over: the answer is the exit code. *)
Lemma answer_ok t : ended (ts r) t -> 0 < refs (ts r) t ->
  Forall (fun a => fst a = snd a) (answers r ++ [(u (thd (os (ts r)) t), codes r t)]).
Proof. intros He Hr. apply Forall_app. split; [apply H|]. repeat constructor. by apply (v_codes _ _ H). Qed.

Lemma step_return t : at_ r w = PWait t -> wp (rstep EReturn) (fun _ => rinv l) r.
Proof.
  intros Hat. assert (Hone : one t t = 1%nat) by (unfold one; by rewrite decide_True).
  destruct (held_listed l r w t H w_area) as [Hr Ht]; [rewrite Hat; cbn; lia|].
  assert (He : ended (ts r) t).
  { pose proof (current_awake _ (v_sched _ _ H)) as Haw. destruct (v_wait _ _ H w t Hat) as [?|[_ ?]]; [congruence|done]. }
  unfold rstep. apply wp_bind, wp_get. rewrite Hat. apply wp_bind, wp_zoom. unfold wp at 1, chThdWait_resume, gets.
  apply wp_bind. unfold wp at 1, modify at 1. unfold wp, modify.
  apply (rinv_move l l r _ (PStep t None)); unmoved H; [|by apply answer_ok].
  intros z. cbn [ts over view ts_lens goto log_answer loose at_]. rewrite Hat. cbn [held]. lia.
Qed.

Lemma step_wait_ended t : rpossible r (EWait t) -> ended (ts r) t -> wp (rstep (EWait t)) (fun _ => rinv l) r.
Proof.
  intros (Hat & Hne & Hl & Hi) He. destruct (free_refs t Hl) as [Hr Ht]. unfold rstep. apply wp_bind, wp_get, wp_bind, wp_zoom.
  change (view ts_lens r) with (ts r). unfold chThdWait. apply wp_bind, wp_get, wp_bind. unfold wp at 1, assert. rewrite bool_decide_true by done.
  cbn [ret]. apply wp_bind. unfold wp at 1, assert. rewrite (proj2 (Z.ltb_lt _ _)) by lia. cbn [ret].
  rewrite decide_False by (rewrite ended_state; tauto). apply wp_ret, wp_bind. unfold wp at 1, modify at 1.
  apply wp_bind. unfold wp at 1, modify at 1. unfold wp, modify.
  apply (rinv_move l l r _ (PStep t None)); unmoved H; [|by apply answer_ok].
  intros z. cbn [ts over ts_lens goto log_answer set_loose loose at_]. rewrite Hat. cbn [held]. unfold one.
  destruct (decide (z = t)) as [->|]; [rewrite fn_lookup_insert, decide_True by done; lia|rewrite fn_lookup_insert_ne, decide_False by congruence; lia].
Qed.
End events.

(** ** Events that change the scheduler *)

(** A thread object that was not in use is made anew. *)
Lemma new_thread_spec s t p :
  sched_ok s -> dispatched s -> asleep s t = Some CH_STATE_FINAL -> 0 < p ->
  let s1 := set_thread t (Thread p CH_STATE_WTSTART (u (thd s t)) []) s in
  sched_ok s1 /\ dispatched s1 /\ (forall x, asleep s1 x = if decide (x = t) then Some CH_STATE_WTSTART else asleep s x) /\
  (forall x, words s1 x = words s x).
Proof.
  intros Hok Hd Ht Hp s1. destruct (asleep_not_awake _ _ _ Ht) as (Hst & _ & _).
  assert (Hf : forall x, thd s1 x = if decide (x = t) then Thread p CH_STATE_WTSTART (u (thd s t)) [] else thd s x).
  { intros x. unfold s1, thd, set_thread; cbn. case_decide as Hx; [subst; by rewrite fn_lookup_insert|by rewrite fn_lookup_insert_ne]. }
  assert (Hnr : forall x, x ∈ run_list s -> x <> t) by (intros x Hx ->; apply (asleep_None s t Hok) in Hx; congruence).
  assert (Hst1 : forall x st, st <> CH_STATE_WTSTART -> st <> CH_STATE_FINAL -> state (thd s1 x) = st <-> state (thd s x) = st).
  { intros x st H1 H2. rewrite Hf. case_decide as Hx; [subst x; rewrite Hst; cbn; split; congruence|done]. }
  assert (Hpx : forall x, x ∈ run_list s -> prios s1 x = prios s x) by (intros x Hx; unfold prios; by rewrite Hf, decide_False by (by apply Hnr)).
  assert (Hq : forall x, x ∈ pqueue s -> x ∈ run_list s) by (intros; apply elem_of_cons; by right).
  destruct Hok as [H1 H2 H3 H4 H5 H6]. split_and!.
  - constructor; [| | |done| |done].
    + intros x. unfold prios. rewrite Hf. case_decide; [done|apply H1].
    + intros x. rewrite Hst1 by done. apply H2.
    + intros x. rewrite Hst1 by done. apply H3.
    + clear -H5 Hpx Hq. change (pqueue s1) with (pqueue s). induction H5 as [|x q Hs IH Hx]; [constructor|].
      assert (Hin : forall z, z ∈ x :: q -> prios s1 z = prios s z) by (intros z Hz; by apply Hpx, Hq). constructor.
      * apply IH. intros z Hz. apply Hq, elem_of_cons. by right.
      * rewrite Forall_forall in *. intros z Hz. specialize (Hx z Hz). unfold above in *. rewrite !Hin by (rewrite elem_of_cons; auto). done.
  - unfold dispatched, firstprio in *. change (pqueue s1) with (pqueue s). change (current s1) with (current s).
    rewrite (Hpx (current s)) by (apply elem_of_cons; by left). destruct (pqueue s) as [|h q]; [done|].
    pose proof (Hpx h ltac:(apply Hq, elem_of_cons; by left)) as He. unfold prios in *. by rewrite He.
  - intros x. unfold asleep. rewrite Hf. by case_decide.
  - intros x. unfold words. rewrite Hf. case_decide; [by subst|done].
Qed.

Lemma thd_object_init_spec y l t p :
  lists y l -> sched_ok (os y) -> dispatched (os y) -> ended y t -> refs y t = 0 -> 0 < p ->
  wp (thd_object_init t "noname" p) (fun _ y' => linked y' (l ++ [t]) /\ sched_ok (os y') /\ dispatched (os y') /\
    (forall x, asleep (os y') x = if decide (x = t) then Some CH_STATE_WTSTART else asleep (os y) x) /\
    (forall x, words (os y') x = words (os y) x) /\
    (forall x, refs y' x = if decide (x = t) then 1 else refs y x) /\
    (forall x, waiters y' x = if decide (x = t) then [] else waiters y x) /\
    (forall x, prios (os y') x = if decide (x = t) then p else prios (os y) x)) y.
Proof.
  intros [Hl Hm] Hok Hd He Hr Hp. unfold thd_object_init. apply wp_bind. unfold wp at 1, modify at 1.
  apply wp_bind. unfold wp at 1, modify at 1. apply wp_bind. unfold wp at 1, modify at 1. apply wp_bind. unfold wp at 1, modify at 1.
  set (y1 := set_name _ _ _). apply wp_bind. eapply wp_conseq; [apply (reg_insert_spec y1 l t); [exact Hl|]|].
  { intros Hin. apply Hm in Hin as [?|?]; [done|lia]. }
  intros ? y2 [Hl2 Hy2]. unfold wp, modify. destruct (new_thread_spec (os y) t p Hok Hd He Hp) as (H1 & H2 & H3 & H4).
  rewrite Hy2. split; [rewrite Hy2 in Hl2; exact Hl2|]. split; [exact H1|]. split; [exact H2|]. split; [exact H3|]. split; [exact H4|].
  split; [|split]; intros x; unfold prios; cbn; (case_decide; [subst; by rewrite fn_lookup_insert|by rewrite fn_lookup_insert_ne]).
Qed.

Lemma thd_create_spec y l t p :
  lists y l -> sched_ok (os y) -> dispatched (os y) -> ended y t -> refs y t = 0 -> 0 < p ->
  wp (thd_create t p) (fun _ y' => linked y' (l ++ [t]) /\ sched_ok (os y') /\ dispatched (os y') /\
    (forall x, asleep (os y') x = if decide (x = t) then None else asleep (os y) x) /\
    (forall x, x <> t -> words (os y') x = words (os y) x) /\
    (forall x, refs y' x = if decide (x = t) then 1 else refs y x) /\
    (forall x, waiters y' x = if decide (x = t) then [] else waiters y x) /\
    (forall x, prios (os y') x = if decide (x = t) then p else prios (os y) x)) y.
Proof.
  intros Hl Hok Hd He Hr Hp. unfold thd_create. apply wp_bind. eapply wp_conseq; [by apply (thd_object_init_spec y l)|].
  intros ? y1 (H1 & H2 & H3 & H4 & H5 & H6 & H7 & H8). apply wp_zoom.
  eapply wp_conseq; [apply (chSchWakeupS_spec (os y1) t CH_STATE_WTSTART); [done|done|by rewrite H4, decide_True|done]|].
  intros ? s' [[Hs [Hpr Hu _] Ha _] Hd']. split; [exact H1|]. split; [exact Hs|]. split; [exact Hd'|]. split.
  - intros x. cbn. rewrite Ha. unfold awoken. rewrite H4. by case_decide.
  - split; [|split; [done|split; [done|]]].
    + intros x Hx. cbn. rewrite <- H5. unfold words. rewrite Hu, u_set_u. by rewrite decide_False.
    + intros x. cbn. rewrite Hpr, <- H8. by apply set_u_view.
Qed.

Section scheduling.
Context (l : list nat) (r : rsys).
Hypothesis (H : rinv l r).
Notation w := (current (os (ts r))).

Lemma step_create t p : rpossible r (ECreate t p) -> wp (rstep (ECreate t p)) (fun _ => rinv (l ++ [t])) r.
Proof.
  intros (Hat & Ha & Hp & Hst & Hr). apply ended_state in Hst. unfold rstep. apply wp_bind, wp_get, wp_bind, wp_zoom.
  eapply wp_conseq; [by apply (thd_create_spec (ts r) l); try apply H|].
  intros ? y' (H1 & H2 & H3 & H4 & H5 & H6 & H7 & _). unfold wp, modify. set (r' := set_loose _ _ _).
  pose proof (v_refs _ _ H t) as Hrt. rewrite Hr in Hrt. pose proof (v_ended _ _ H t Hst) as Hft.
  assert (Hend : forall x, ended y' x <-> ended (ts r) x /\ x <> t).
  { intros x. unfold ended. rewrite H4. case_decide; [subst; naive_solver|tauto]. }
  pose proof (v_lists _ _ H) as [_ Hm].
  constructor; change (ts r') with y'; change (at_ r') with (at_ r); change (seen r') with (seen r); change (codes r') with (codes r);
    change (answers r') with (answers r); change (areas r') with (areas r); try apply H; try done.
  - split; [done|]. intros x. rewrite elem_of_app, list_elem_of_singleton, Hm, Hend, H6. case_decide as Hx; [subst; naive_solver lia|].
    destruct (decide (ended (ts r) x)); tauto.
  - apply Forall_app. split; [apply H|]. by repeat constructor.
  - intros v. apply ahead_snoc, H.
  - intros x. rewrite H6. unfold r', set_loose; cbn [loose over ts_lens]. case_decide as Hx; [subst; rewrite fn_lookup_insert; lia|].
    rewrite fn_lookup_insert_ne by done. apply H.
  - intros x. rewrite H6. case_decide; [lia|apply H].
  - intros x v. rewrite H7, H4. destruct (decide (v = t)) as [->|Hv].
    + split; [|naive_solver]. case_decide as Hx; [intros Hin; by apply not_elem_of_nil in Hin|]. intros Hin.
      apply (v_waiters _ _ H) in Hin as [_ Hin]. unfold ended in Hst. congruence.
    + rewrite <- (v_waiters _ _ H). case_decide as Hx; [subst; by rewrite (v_wfinal _ _ H t Hst)|done].
  - intros x. rewrite H7. case_decide; [constructor|apply H].
  - intros x Hx. rewrite H7. case_decide; [done|]. apply Hend in Hx as [Hx _]. by apply (v_wfinal _ _ H).
  - intros v x Hv. rewrite H4. destruct (decide (v = t)) as [->|Hvt]; [congruence|].
    destruct (v_wait _ _ H v x Hv) as [?|[? Hx]]; [by left|]. right. split; [done|]. apply Hend. split; [done|]. intros ->.
    (* [t] is not waited for: it has no references *)
    assert (Hva : v ∈ l) by (apply Hm; left; unfold ended; congruence). pose proof (v_areas _ _ H) as Har. rewrite Forall_forall in Har.
    pose proof (total_ge (at_ r) v (areas r) t (Har v Hva)) as Hge. rewrite Hv in Hge. cbn [held] in Hge. unfold one in Hge.
    rewrite decide_True in Hge by done. lia.
  - intros v. rewrite H4. case_decide; [done|apply H].
  - intros v Hv. apply Hend in Hv as [Hv _]. by apply (v_ended _ _ H).
  - intros x Hx Hpos. apply Hend in Hx as [Hx Hne]. rewrite H5 by done. apply (v_codes _ _ H); [done|]. rewrite H6, decide_False in Hpos by done. done.
Qed.

Lemma step_wait t : rpossible r (EWait t) -> ~ ended (ts r) t -> wp (rstep (EWait t)) (fun _ => rinv l) r.
Proof.
  intros (Hat & Hne & Hl & Hi) He. destruct (free_refs l r H t Hl) as [Hr Ht]. pose proof (w_area l r H) as Hwa.
  unfold rstep. apply wp_bind, wp_get, wp_bind, wp_zoom.
  change (view ts_lens r) with (ts r). unfold chThdWait. apply wp_bind, wp_get, wp_bind. unfold wp at 1, assert. rewrite bool_decide_true by done.
  cbn [ret]. apply wp_bind. unfold wp at 1, assert. rewrite (proj2 (Z.ltb_lt _ _)) by lia. cbn [ret].
  rewrite decide_True by (rewrite ended_state; tauto). apply wp_bind. unfold wp at 1, modify at 1. apply wp_bind, wp_zoom.
  change (view os_lens (set_waiters t (w :: waiters (ts r) t) (ts r))) with (os (ts r)).
  eapply wp_conseq; [apply chSchGoSleepS_spec; [apply H|done|done]|]. intros ? s' [[Hs [_ Hu _] Ha _] Hd]. apply wp_ret.
  apply wp_bind. unfold wp at 1, modify at 1. unfold wp, modify. set (r' := goto _ _ _).
  pose proof (current_awake _ (v_sched _ _ H)) as Haw.
  assert (Ha' : forall x, asleep (os (ts r')) x = if decide (x = w) then Some CH_STATE_WTEXIT else asleep (os (ts r)) x) by exact Ha.
  assert (Hend : forall x, ended (ts r') x <-> ended (ts r) x).
  { intros x. unfold ended. rewrite Ha'. case_decide; [subst; rewrite Haw; split; congruence|done]. }
  assert (Hatt : moved w (PWait t) (at_ r) (at_ r')) by apply moved_insert.
  assert (Hww : forall x, waiters (ts r') x = if decide (x = t) then w :: waiters (ts r) t else waiters (ts r) x).
  { intros x. unfold r'; cbn. case_decide; [subst; by rewrite fn_lookup_insert|by rewrite fn_lookup_insert_ne]. }
  assert (Hnw : forall x, w ∉ waiters (ts r) x) by (intros x Hin; apply (v_waiters _ _ H) in Hin as [? _]; congruence).
  constructor; try done.
  - split; [apply H|]. intros x. rewrite Hend. apply (proj2 (v_lists _ _ H)).
  - apply H.
  - intros v. rewrite Hatt. case_decide; [done|apply H].
  - intros x. pose proof (v_refs _ _ H x) as Hx. change (refs (ts r') x) with (refs (ts r) x). change (areas r') with (areas r).
    pose proof (total_update _ _ _ _ (areas r) x Hatt Hwa) as Htot. rewrite Hat in Htot. cbn [held] in Htot. unfold one in Htot.
    unfold r'; cbn [loose set_loose goto over ts_lens at_]. change (total (<[w := PWait t]> (at_ r))) with (total (at_ r')).
    destruct (decide (x = t)) as [->|]; [rewrite fn_lookup_insert; rewrite decide_True in Htot by done; lia|].
    rewrite fn_lookup_insert_ne by done. rewrite decide_False in Htot by congruence. lia.
  - apply H.
  - intros x v. rewrite Hww, Hatt, Ha'. destruct (decide (v = w)) as [->|Hv].
    + case_decide as Hx; [subst; rewrite elem_of_cons; naive_solver|]. split; [intros Hin; by apply Hnw in Hin|naive_solver].
    + rewrite <- (v_waiters _ _ H). case_decide; [subst; rewrite elem_of_cons; tauto|done].
  - intros x. rewrite Hww. case_decide; [|apply H]. apply NoDup_cons. split; [apply Hnw|apply H].
  - intros x Hx. rewrite Hend in Hx. rewrite Hww, decide_False by congruence. by apply (v_wfinal _ _ H).
  - intros v x Hv. rewrite Hatt in Hv. rewrite Ha', Hend. case_decide; [by left|]. by apply (v_wait _ _ H).
  - intros v Hv. rewrite Ha' in Hv. rewrite Hatt. case_decide; [eauto|by apply (v_exit _ _ H)].
  - intros v Hv. rewrite Hend in Hv. rewrite Hatt. case_decide; [subst; unfold ended in Hv; congruence|by apply (v_ended _ _ H)].
  - intros x Hx Hpos. rewrite Hend in Hx. unfold words. change (os (ts r')) with s'. rewrite Hu. by apply (v_codes _ _ H).
  - apply H.
Qed.

(** The threads that wait for the end of a thread are made ready. *)
Lemma wake_waiters_spec ws : forall s,
  sched_ok s -> NoDup ws -> Forall (fun v => asleep s v = Some CH_STATE_WTEXIT) ws ->
  wp (wake_waiters ws) (fun _ s' => sched_ok s' /\ current s' = current s /\
    (forall x, asleep s' x = if decide (x ∈ ws) then None else asleep s x) /\ (forall x, words s' x = words s x)) s.
Proof.
  induction ws as [|v ws IH]; intros s Hok Hnd Hws; cbn [wake_waiters]; [by apply wp_ret|].
  apply NoDup_cons in Hnd as [Hv Hnd]. apply Forall_cons in Hws as [Hvs Hws]. apply wp_bind.
  eapply wp_conseq; [by apply (sch_ready_behind_spec s v CH_STATE_WTEXIT)|]. intros ? s1 [[Hok1 [_ Hu1 _] Ha1 _] Hc1].
  eapply wp_conseq; [apply IH; [done|done|]|].
  - rewrite Forall_forall in *. intros x Hx. rewrite Ha1. unfold awoken. rewrite decide_False by (intros ->; done). by apply Hws.
  - intros ? s2 (Hok2 & Hc2 & Ha2 & Hu2). split; [done|]. split; [congruence|]. split.
    + intros x. rewrite Ha2, Ha1. unfold awoken. destruct (decide (x = v)) as [->|Hx].
      * rewrite (decide_True (P := v ∈ v :: _)) by (apply elem_of_cons; by left). by case_decide.
      * apply decide_ext. rewrite elem_of_cons. tauto.
    + intros x. rewrite Hu2. apply Hu1.
Qed.

Lemma step_exit msg :
  rpossible r (EExit msg) ->
  wp (rstep (EExit msg)) (fun _ => rinv (if decide (refs (ts r) w = 0) then without w l else l)) r.
Proof.
  intros (Hat & Hi). pose proof (v_sched _ _ H) as Hok. pose proof (current_awake _ Hok) as Haw. set (c := w) in *.
  unfold rstep. apply wp_bind, wp_get. fold c. apply wp_bind. unfold wp at 1, modify at 1. apply wp_zoom.
  change (view ts_lens (set_code c msg r)) with (ts r). unfold chThdExitS. apply wp_bind, wp_get. fold c. apply wp_bind, wp_zoom.
  unfold wp at 1, modify at 1. set (y1 := over os_lens _ (ts r)). apply wp_bind, wp_zoom. change (view os_lens y1) with (set_u msg c (os (ts r))).
  destruct (set_u_view msg c (os (ts r))) as (Hok1 & _ & Has1 & _ & _). specialize (Hok1 Hok).
  eapply wp_conseq; [apply wake_waiters_spec; [done|apply H|]|].
  { apply Forall_forall. intros v Hv. rewrite Has1. by apply (v_waiters _ _ H) in Hv as [_ ?]. }
  intros ? s2 (Hok2 & Hc2 & Ha2 & Hu2). change (current (set_u msg c (os (ts r)))) with c in Hc2.
  apply wp_bind. unfold wp at 1, modify at 1. set (y3 := set_waiters c [] _). set (l' := if decide (refs (ts r) c = 0) then without c l else l).
  pose proof (v_lists _ _ H) as [Hlk Hm]. assert (Hcl : c ∈ l) by (apply (current_listed l r H)).
  apply wp_bind. eapply (wp_conseq _ (fun _ y4 => linked y4 l' /\ os y4 = s2 /\ refs y4 = refs (ts r) /\ waiters y4 = waiters y3)).
  { unfold l'. case_decide as Hr0.
    - apply list_elem_of_split in Hcl as (l1 & l2 & El). assert (Hlk3 : linked y3 (l1 ++ c :: l2)) by (rewrite <- El; exact Hlk).
      eapply wp_conseq; [by apply (reg_remove_spec y3 l1 c l2)|]. intros ? y4 [Hl4 Hy4]. rewrite El, without_split by apply Hlk3.
      rewrite Hy4. split; [rewrite Hy4 in Hl4; exact Hl4|done].
    - apply wp_ret. done. }
  intros ? y4 (Hl4 & Ho4 & Hr4 & Hw4). apply wp_zoom. change (view os_lens y4) with (os y4). rewrite Ho4.
  eapply wp_conseq; [apply gosleep_spec; [done|by rewrite Hc2|done|done]|]. intros ? s' [[Hs [_ Hu _] Ha _] Hd].
  set (r' := over ts_lens (over os_lens s' y4) (set_code c msg r)).
  assert (Ha' : forall x, asleep s' x = if decide (x = c) then Some CH_STATE_FINAL else if decide (x ∈ waiters (ts r) c) then None else asleep (os (ts r)) x).
  { intros x. rewrite Ha. unfold fell_asleep. rewrite Hc2. case_decide; [done|]. rewrite Ha2. case_decide; [done|apply Has1]. }
  assert (Hu' : forall x, words s' x = if decide (x = c) then msg else words (os (ts r)) x).
  { intros x. unfold words. rewrite Hu. change (u (thd s2 x)) with (words s2 x). rewrite Hu2. unfold words. apply u_set_u. }
  assert (Hend : forall x, ended (ts r') x <-> x = c \/ ended (ts r) x).
  { intros x. unfold ended. change (os (ts r')) with s'. rewrite Ha'. case_decide; [naive_solver|]. case_decide as Hx; [|naive_solver].
    apply (v_waiters _ _ H) in Hx as [_ Hx]. rewrite Hx. naive_solver. }
  assert (Hww : forall x, waiters (ts r') x = if decide (x = c) then [] else waiters (ts r) x).
  { intros x. change (waiters (ts r') x) with (waiters y4 x). rewrite Hw4. unfold y3; cbn. case_decide; [subst; by rewrite fn_lookup_insert|by rewrite fn_lookup_insert_ne]. }
  assert (Hcode : forall x, codes r' x = if decide (x = c) then msg else codes r x).
  { intros x. unfold r'; cbn. case_decide; [subst; by rewrite fn_lookup_insert|by rewrite fn_lookup_insert_ne]. }
  assert (Hnc : forall x, c ∉ waiters (ts r) x) by (intros x Hin; apply (v_waiters _ _ H) in Hin as [? _]; congruence).
  assert (Hrefs : forall x, refs (ts r') x = refs (ts r) x) by (intros x; change (refs (ts r') x) with (refs y4 x); by rewrite Hr4).
  constructor; try done; change (at_ r') with (at_ r); change (areas r') with (areas r); change (os (ts r')) with s'.
  - split; [exact Hl4|]. intros x. rewrite Hend, Hrefs. unfold l', without. case_decide as Hr0.
    + rewrite list_elem_of_filter, Hm. destruct (decide (x = c)) as [->|]; [|tauto]. split; [tauto|]. intros [?|?]; [tauto|lia].
    + rewrite Hm. destruct (decide (x = c)) as [->|]; [|tauto]. split; [intros _|intros _; left; unfold ended; congruence].
      right. rewrite (v_refs _ _ H) in Hr0 |- *. lia.
  - apply Forall_forall. intros x Hx. pose proof (v_areas _ _ H) as Har. rewrite Forall_forall in Har. apply Har.
    unfold l', without in Hx. case_decide; [by apply list_elem_of_filter in Hx as [_ ?]|done].
  - intros v. change (seen r') with (seen r). unfold l'. case_decide as Hr0; [|apply H]. apply ahead_without; [|apply H].
    rewrite (v_refs _ _ H) in Hr0. destruct (decide (v < areas r)%nat) as [Hv|Hv]; [pose proof (total_ge (at_ r) v (areas r) c Hv); lia|].
    destruct (decide (ended (ts r) v)) as [He|He]; [by rewrite (v_ended _ _ H v He)|].
    assert (Hin : v ∈ l) by (apply Hm; by left). pose proof (v_areas _ _ H) as Har. rewrite Forall_forall in Har. by apply Har in Hin.
  - intros x. rewrite Hrefs. apply H.
  - intros x. rewrite Hrefs. apply H.
  - intros x v. rewrite Hww, Ha'. destruct (decide (v = c)) as [->|Hv].
    + split; [|naive_solver]. case_decide; [intros Hin; by apply not_elem_of_nil in Hin|intros Hin; by apply Hnc in Hin].
    + destruct (decide (v ∈ waiters (ts r) c)) as [Hin|Hin].
      * split; [|naive_solver]. case_decide as Hx; [intros Hin'; by apply not_elem_of_nil in Hin'|]. intros Hin'.
        apply (v_waiters _ _ H) in Hin as [? _], Hin' as [? _]. congruence.
      * rewrite <- (v_waiters _ _ H). case_decide; [subst; split; [intros Hi'; by apply not_elem_of_nil in Hi'|done]|done].
  - intros x. rewrite Hww. case_decide; [constructor|apply H].
  - intros x Hx. rewrite Hww. case_decide; [done|]. apply Hend in Hx as [?|Hx]; [done|]. by apply (v_wfinal _ _ H).
  - intros v x Hv. rewrite Ha', Hend. rewrite decide_False by congruence. case_decide as Hin.
    + right. split; [done|]. apply (v_waiters _ _ H) in Hin as [Hin _]. left. congruence.
    + destruct (v_wait _ _ H v x Hv) as [?|[? ?]]; auto.
  - intros v Hv. rewrite Ha' in Hv. case_decide; [done|]. case_decide; [done|]. by apply (v_exit _ _ H).
  - intros v Hv. apply Hend in Hv as [->|Hv]; [done|]. by apply (v_ended _ _ H).
  - intros x Hx Hpos. rewrite Hrefs in Hpos. rewrite Hu', Hcode. case_decide; [done|]. apply Hend in Hx as [?|Hx]; [done|].
    by apply (v_codes _ _ H).
  - apply H.
Qed.

Lemma step_kernel e : kernel_possible r e -> wp (rstep (EKernel e)) (fun _ => rinv l) r.
Proof.
  intros (Hpos & Hwk & Hk). pose proof (v_sched _ _ H) as Hok. pose proof (current_awake _ Hok) as Haw.
  unfold rstep. apply wp_bind, wp_get, wp_zoom, wp_zoom.
  eapply wp_conseq; [apply kstep_woken; [exact Hok|apply H|exact Hpos]|]. intros ? s' [(Hs & _ & Ha & Hu) Hd].
  change (view os_lens (view ts_lens r)) with (os (ts r)) in *. set (s := os (ts r)) in *.
  set (r' := over ts_lens (over os_lens s' (view ts_lens r)) r).
  assert (Hne : forall x, ended (ts r) x -> x ∉ woken e).
  { intros x Hx Hin. assert (Hwa : wakeable s x \/ asleep s x = None).
    { destruct e as [st| |t msg|ts0|ts0|t]; cbn [woken possible] in *; try (by apply not_elem_of_nil in Hin).
      - apply list_elem_of_singleton in Hin as ->. by left.
      - destruct Hpos as [_ Hf]. rewrite Forall_forall in Hf. left. by apply Hf.
      - destruct Hpos as [_ Hf]. rewrite Forall_forall in Hf. left. by apply Hf.
      - apply list_elem_of_singleton in Hin as ->. destruct Hpos as [_ [?|?]]; auto. }
    unfold ended in Hx. fold s in Hx. destruct Hwa as [(st & ? & ?)|?]; congruence. }
  assert (Hnx : forall x, asleep s x = Some CH_STATE_WTEXIT -> x ∉ woken e).
  { intros x Hx Hin. rewrite Forall_forall in Hwk. by apply (Hwk x). }
  assert (Hkeep : forall x st, (forall z, asleep s z = Some st -> z ∉ woken e) -> (forall st', e = KSleep st' -> st' <> st) ->
    asleep s' x = Some st <-> asleep s x = Some st).
  { intros x st Hw Hsl. rewrite Ha. unfold asleep_after. case_decide as Hin; [split; [done|]; intros Hx; by apply Hw in Hx|].
    destruct e; try done. unfold fell_asleep. case_decide as Hx; [|done]. subst x. fold s in Haw. rewrite Haw.
    split; [intros [= ->]; by destruct (Hsl st)|done]. }
  assert (Hend : forall x, ended (ts r') x <-> ended (ts r) x).
  { intros x. apply Hkeep; [exact Hne|]. intros st' ->. destruct Hpos as [_ (_ & _ & ?)]. done. }
  assert (Hext : forall x, asleep s' x = Some CH_STATE_WTEXIT <-> asleep s x = Some CH_STATE_WTEXIT).
  { intros x. apply Hkeep; [exact Hnx|]. intros st' ->. by destruct Hk. }
  constructor; try done; change (at_ r') with (at_ r); change (areas r') with (areas r); change (os (ts r')) with s';
    change (waiters (ts r')) with (waiters (ts r)); change (codes r') with (codes r); change (seen r') with (seen r);
    change (refs (ts r')) with (refs (ts r)); try apply H.
  - split; [apply H|]. intros x. rewrite Hend. apply (proj2 (v_lists _ _ H)).
  - intros x v. rewrite Hext. apply H.
  - intros x Hx. rewrite Hend in Hx. by apply (v_wfinal _ _ H).
  - intros v x Hv. rewrite Hext, Hend. destruct (v_wait _ _ H v x Hv) as [?|[Hn He]]; [by left|]. right. split; [|done].
    rewrite Ha. unfold asleep_after. case_decide; [done|]. destruct e as [st| | | | |]; try done. unfold fell_asleep. case_decide as Hvw; [|done].
    subst v. destruct Hk as [[Hf|(tp & Hf)] _]; fold s in Hf; congruence.
  - intros v. rewrite Hext. apply H.
  - intros v Hv. rewrite Hend in Hv. by apply (v_ended _ _ H).
  - intros x Hx Hp. rewrite Hend in Hx. rewrite Hu by (by apply Hne). by apply (v_codes _ _ H).
Qed.
End scheduling.

(** Every event that can happen completes, and keeps the invariant. *)
Lemma rstep_spec l r e : rinv l r -> rpossible r e -> wp (rstep e) (fun _ r' => exists l', rinv l' r') r.
Proof.
  intros H Hp. assert (Hex : forall l' (m : M rsys unit), wp m (fun _ => rinv l') r -> wp m (fun _ r' => exists l', rinv l' r') r).
  { intros l' m Hm. eapply wp_conseq; [exact Hm|]. intros ? r' Hr. by exists l'. }
  destruct e as [t p|t|t| | | |t| |msg|e].
  - by eapply Hex, step_create.
  - by eapply Hex, step_addref.
  - by eapply Hex, step_drop.
  - by eapply Hex, step_first.
  - by eapply Hex, step_next.
  - destruct Hp as (tp & o & Hat). by eapply Hex, (step_release l r H tp o).
  - destruct (decide (ended (ts r) t)); [by eapply Hex, step_wait_ended|by eapply Hex, step_wait].
  - destruct Hp as (t & Hat). by eapply Hex, (step_return l r H t).
  - by eapply Hex, step_exit.
  - by eapply Hex, step_kernel.
Qed.

(** ** Runs *)

(** No thread is in any of the calls. *)
Record started (l : list nat) (r : rsys) : Prop := {
  st_sched : sched_ok (os (ts r));
  st_dispatched : dispatched (os (ts r));
  st_lists : linked (ts r) l;
  st_members : forall t, t ∈ l <-> ~ ended (ts r) t;
  st_areas : Forall (fun t => (t < areas r)%nat) l;
  st_refs : forall t, refs (ts r) t = Z.of_nat (loose r t) /\ refs (ts r) t <= 255;
  st_ended : forall t, ended (ts r) t -> refs (ts r) t = 0;
  st_at : forall w, at_ r w = PFree;
  st_waiters : forall t, waiters (ts r) t = [];
  st_asleep : forall t, asleep (os (ts r)) t <> Some CH_STATE_WTEXIT;
  st_answers : answers r = []
}.

Lemma total_free f n t : (forall w, f w = PFree) -> total f n t = 0%nat.
Proof. intros Hf. unfold total. induction (seq 0 n) as [|w s IH]; [done|]. cbn. by rewrite Hf, IH. Qed.

Lemma started_rinv l r : started l r -> rinv l r.
Proof.
  intros [H1 H2 H3 H4 H5 H6 H7 H8 H9 H10 H11]. constructor; try done.
  - split; [done|]. intros t. rewrite H4. destruct (decide (ended (ts r) t)) as [He|]; [rewrite (H7 t He); split; [tauto|intros [?|?]; [done|lia]]|tauto].
  - intros w. by rewrite H8.
  - intros t. rewrite total_free by done. rewrite Nat.add_0_r. apply H6.
  - intros t. apply H6.
  - intros t w. rewrite H9, H8. split; [intros Hin; by apply not_elem_of_nil in Hin|by intros [? _]].
  - intros t. rewrite H9. constructor.
  - intros w t. by rewrite H8.
  - intros w Hw. by apply H10 in Hw.
  - intros t He Hp. rewrite (H7 t He) in Hp. lia.
  - by rewrite H11.
Qed.

Inductive reach (r0 : rsys) : rsys -> Prop :=
  | reach_start : reach r0 r0
  | reach_step r e r' : reach r0 r -> rpossible r e -> rstep e r = Done (tt, r') -> reach r0 r'.

Lemma reach_rinv l0 r0 r : started l0 r0 -> reach r0 r -> exists l, rinv l r.
Proof.
  intros H0 Hr. induction Hr as [|r e r' _ [l IH] Hp He]; [exists l0; by apply started_rinv|].
  pose proof (rstep_spec l r e IH Hp) as Hw. unfold wp in Hw. by rewrite He in Hw.
Qed.

(** C17: The thread registry is safe under any interleaving of creations and ends
    of threads, walks along it, waits and releases, with fewer than 255
    references to a thread: every step completes without an assertion failing;
    the linked list holds exactly the threads that have not ended or are still
    referred to; every counter is the number of references there are; a walk
    stands at a thread of the list, never at one that has been removed; and
    every wait for a thread's end returned its exit code. *)
Theorem thread_registry_safe (l0 : list nat) (r0 r : rsys) :
  started l0 r0 -> reach r0 r ->
  (exists l, linked (ts r) l /\ (forall t, t ∈ l <-> ~ ended (ts r) t \/ 0 < refs (ts r) t) /\
    (forall w tp, at_ r w = PWalk tp -> tp ∈ l)) /\
  (forall t, refs (ts r) t = Z.of_nat (loose r t + total (at_ r) (areas r) t)) /\
  Forall (fun a => fst a = snd a) (answers r) /\
  (forall e, rpossible r e -> exists r', rstep e r = Done (tt, r')).
Proof.
  intros H0 Hr. destruct (reach_rinv l0 r0 r H0 Hr) as [l H]. destruct (v_lists _ _ H) as [Hl Hm]. split; [exists l; split; [done|split; [done|]]|].
  - intros w tp Hat. pose proof (v_ahead _ _ H w) as Ha. rewrite Hat in Ha. by destruct Ha.
  - split; [apply H|]. split; [apply H|]. intros e He. pose proof (rstep_spec l r e H He) as Hw. unfold wp in Hw.
    destruct (rstep e r) as [[[] r']| |]; [eauto|done|done].
Qed.

(** C18: A walk along the registry, as the command [threads] does it, misses no
    thread: whatever threads are created or end while it prints, when it reaches
    the end of the list it has been at every thread that is in it. *)
Theorem walk_misses_no_thread (l0 : list nat) (r0 r : rsys) (w tp : nat) (l : list nat) :
  started l0 r0 -> reach r0 r -> at_ r w = PWalk tp -> newer (ts r) (Some tp) = None -> linked (ts r) l ->
  forall t, t ∈ l -> t ∈ seen r w.
Proof.
  intros H0 Hr Hat Hend Hl. destruct (reach_rinv l0 r0 r H0 Hr) as [l' H]. destruct (v_lists _ _ H) as [Hl' _].
  assert (l = l') as -> by (eapply seg_inj; [apply Hl|apply Hl']). pose proof (v_ahead _ _ H w) as Ha. rewrite Hat in Ha.
  destruct Ha as (Htp & Hs & Hb). destruct (before_split tp l' Htp) as [l2 Hl2]. rewrite Hl2 in Hl'.
  rewrite (linked_next _ _ _ _ Hl') in Hend. destruct l2; [|done]. intros t Ht. rewrite Hl2 in Ht.
  apply elem_of_app in Ht as [Ht|Ht%list_elem_of_singleton]; [by apply Hb|by subst].
Qed.

(** ** Uninterrupted walks *)

(** A walk that began at [y0] is at [o]. *)
Record visiting (y0 : tsys) (l : list nat) (o : option nat) (y : tsys) : Prop := {
  vi_os : os y = os y0;
  vi_prio : realprio y = realprio y0;
  vi_name : name y = name y0;
  vi_waiters : waiters y = waiters y0;
  vi_linked : linked y l;
  vi_refs : forall x, refs y x = refs y0 x + if decide (o = Some x) then 1 else 0
}.

Definition countable (y : tsys) : Prop := forall t, 0 <= refs y t < 255.

Lemma chRegFirstThread_spec y l t l2 :
  lists y l -> countable y -> l = t :: l2 -> wp chRegFirstThread (fun tp y' => tp = t /\ visiting y l (Some t) y') y.
Proof.
  intros [Hl Hm] Hc ->. unfold chRegFirstThread. apply wp_bind, wp_get. rewrite (linked_first _ _ Hl). cbn [head].
  apply wp_bind. unfold wp at 1, modify. apply wp_ret. split; [done|]. constructor; try done. intros x. specialize (Hc t). cbn.
  destruct (decide (x = t)) as [->|]; [rewrite fn_lookup_insert, decide_True by done; unfold u8; apply Z.mod_small; lia|].
  rewrite fn_lookup_insert_ne, decide_False by congruence. lia.
Qed.

Lemma chRegNextThread_spec y0 l1 tp l2 y :
  lists y0 (l1 ++ tp :: l2) -> countable y0 -> visiting y0 (l1 ++ tp :: l2) (Some tp) y ->
  wp (chRegNextThread tp) (fun o y' => o = head l2 /\ visiting y0 (l1 ++ tp :: l2) o y') y.
Proof.
  set (l := l1 ++ tp :: l2). intros [Hl0 Hm0] Hc [Ho Hp Hn Hw Hl Hr]. unfold chRegNextThread. apply wp_bind. unfold reg_take_next. apply wp_bind, wp_get.
  rewrite (linked_next _ _ _ _ Hl). assert (Hnd := proj2 Hl0).
  assert (Hfin : forall y1, visiting y0 l (Some tp) y \/ True -> os y1 = os y0 -> realprio y1 = realprio y0 -> name y1 = name y0 -> waiters y1 = waiters y0 ->
    linked y1 l -> (forall x, refs y1 x = refs y0 x + (if decide (tp = x) then 1 else 0) + (if decide (head l2 = Some x) then 1 else 0)) ->
    head l2 <> Some tp ->
    wp (chThdRelease tp ;;; ret (head l2)) (fun o y' => o = head l2 /\ visiting y0 l o y') y1).
  { intros y1 _ Ho1 Hp1 Hn1 Hw1 Hl1 Hr1 Hne. unfold chThdRelease. pose proof (Hc tp) as Hct. pose proof (Hr1 tp) as Hrt.
    rewrite decide_True, decide_False in Hrt by done. apply wp_bind, wp_bind, wp_get, wp_bind. unfold wp at 1, assert.
    rewrite (proj2 (Z.ltb_lt _ _)) by lia. cbn [ret]. apply wp_bind. unfold wp at 1, modify. apply wp_bind, wp_get.
    set (y2 := set_refs _ _ y1). assert (Hr2 : refs y2 tp = refs y0 tp).
    { unfold y2; cbn. rewrite fn_lookup_insert. unfold u8. rewrite Z.mod_small; lia. }
    rewrite decide_False.
    - apply wp_ret, wp_ret. split; [done|]. constructor; try done. intros x. destruct (decide (x = tp)) as [->|Hx]; [rewrite Hr2, decide_False by done; lia|].
      unfold y2; cbn. rewrite fn_lookup_insert_ne by done. rewrite Hr1, decide_False by congruence. lia.
    - intros [H0 Hst]. rewrite Hr2 in H0. assert (Hin : tp ∈ l) by (apply elem_of_app; right; apply elem_of_cons; by left).
      apply Hm0 in Hin as [Hin|?]; [|lia]. apply Hin, ended_state. rewrite <- Ho1. exact Hst. }
  destruct l2 as [|n l3]; cbn [head] in *.
  - apply wp_ret. apply Hfin; try done; [by right|]. intros x. rewrite Hr. rewrite (decide_ext (Some tp = Some x) (tp = x)) by naive_solver.
    rewrite (decide_False (P := None = Some x)) by done. lia.
  - assert (Hntp : n <> tp).
    { intros ->. unfold l in Hnd. apply NoDup_app in Hnd as (_ & _ & Hnd). apply NoDup_cons in Hnd as [Hnd _]. apply Hnd, elem_of_cons. by left. }
    pose proof (Hr n) as Hrn. rewrite decide_False in Hrn by congruence. pose proof (Hc n) as Hcn.
    apply wp_bind. unfold wp at 1, assert. rewrite (proj2 (Z.ltb_lt _ _)) by lia. cbn [ret]. apply wp_bind. unfold wp at 1, modify. apply wp_ret.
    apply Hfin; try done; [by right| |congruence]. intros x. cbn. destruct (decide (x = n)) as [->|Hx].
    + rewrite fn_lookup_insert, decide_False, decide_True by done. unfold u8. rewrite Z.mod_small; lia.
    + rewrite fn_lookup_insert_ne by done. rewrite Hr, (decide_ext (Some tp = Some x) (tp = x)) by naive_solver.
      rewrite (decide_False (P := Some n = Some x)) by congruence. lia.
Qed.

Lemma reg_scan_spec y0 wa l2 : forall fuel l1 tp y,
  lists y0 (l1 ++ tp :: l2) -> countable y0 -> visiting y0 (l1 ++ tp :: l2) (Some tp) y -> (length l2 < fuel)%nat ->
  wp (reg_scan fuel wa tp) (fun o y' => o = (if decide (wa ∈ tp :: l2) then Some wa else None) /\ visiting y0 (l1 ++ tp :: l2) o y') y.
Proof.
  induction l2 as [|n l3 IH]; intros [|fuel] l1 tp y Hl Hc Hv Hf; cbn [length] in Hf; try lia; cbn [reg_scan].
  - case_decide as Hw; [apply wp_ret; subst; rewrite decide_True by (apply elem_of_cons; by left); done|].
    apply wp_bind. eapply wp_conseq; [by apply chRegNextThread_spec|]. intros o y' [-> Hv']. cbn [head] in *. apply wp_ret.
    rewrite decide_False by (rewrite list_elem_of_singleton; congruence). done.
  - case_decide as Hw; [apply wp_ret; subst; rewrite decide_True by (apply elem_of_cons; by left); done|].
    apply wp_bind. eapply wp_conseq; [by apply chRegNextThread_spec|]. intros o y' [-> Hv']. cbn [head] in *.
    assert (El : l1 ++ tp :: n :: l3 = (l1 ++ [tp]) ++ n :: l3) by by rewrite <- app_assoc. rewrite El in *.
    eapply wp_conseq; [apply IH; [done|done|done|lia]|]. intros o y2 [-> Hv2].
    rewrite (decide_ext (wa ∈ tp :: n :: l3) (wa ∈ n :: l3)); [done|]. rewrite (elem_of_cons (n :: l3)). split; [intros [?|?]; [congruence|done]|auto].
Qed.

(** The check of [chThdCreateStatic] and the creation, uninterrupted: the area of
    a thread that has left the registry can be used. *)
Lemma chThdCreateStatic_spec y l fuel t p :
  lists y l -> countable y -> l <> [] -> sched_ok (os y) -> dispatched (os y) -> ended y t -> refs y t = 0 -> 0 < p <= HIGHPRIO ->
  (length l <= fuel)%nat ->
  wp (chThdCreateStatic fuel t p) (fun _ y' => lists y' (l ++ [t]) /\ sched_ok (os y') /\ dispatched (os y') /\
    (forall x, asleep (os y') x = if decide (x = t) then None else asleep (os y) x) /\
    (forall x, refs y' x = if decide (x = t) then 1 else refs y x) /\
    (forall x, prios (os y') x = if decide (x = t) then p else prios (os y) x)) y.
Proof.
  intros Hl Hc Hne Hok Hd He Hr Hp Hf. destruct l as [|a l2]; [done|]. cbn [length] in Hf. unfold chThdCreateStatic. apply wp_bind.
  unfold wp at 1, assert at 1. rewrite (proj2 (Z.leb_le _ _)) by lia. cbn [ret]. apply wp_bind. unfold chRegFindThreadByWorkingArea.
  apply wp_bind. eapply wp_conseq; [by apply (chRegFirstThread_spec y (a :: l2) a l2)|]. intros tp y1 [-> Hv].
  eapply wp_conseq; [apply (reg_scan_spec y t l2 fuel [] a y1 Hl Hc Hv); lia|]. intros o y2 [-> Hv2].
  assert (Ht : t ∉ a :: l2) by (intros Hin; apply (proj2 Hl) in Hin as [?|?]; [done|lia]).
  rewrite decide_False in * by done. cbn [app] in Hv2. destruct Hv2 as [Ho Hrp Hn Hw Hlk Hrf].
  assert (Hl2 : lists y2 (a :: l2)).
  { split; [done|]. intros x. unfold ended. rewrite Ho, Hrf, decide_False, Z.add_0_r by done. apply (proj2 Hl). }
  apply wp_bind. unfold wp at 1, assert. rewrite bool_decide_true by done. cbn [ret].
  eapply wp_conseq; [apply (thd_create_spec y2 (a :: l2)); [done|by rewrite Ho|by rewrite Ho|unfold ended; by rewrite Ho| |lia]|].
  { rewrite Hrf, decide_False by done. lia. }
  intros ? y' (H1 & H2 & H3 & H4 & _ & H6 & _ & H8). assert (Hr6 : forall x, refs y' x = if decide (x = t) then 1 else refs y x).
  { intros x. rewrite H6, Hrf, (decide_False (P := None = Some x)), Z.add_0_r by done. done. }
  rewrite Ho in H4, H8. split_and!; try done. split; [done|]. intros x. rewrite elem_of_app, list_elem_of_singleton, (proj2 Hl), Hr6. unfold ended. rewrite H4.
  case_decide as Hx; [|tauto]. subst x. split; [intros _; right; lia|intros _; by right].
Qed.

(** ** System start *)

Definition NORMALPRIO : Z := 128.
Definition mainthread : nat := 1%nat.

Definition chThdCreateI (t : nat) (nm : string) (p : Z) : T unit :=
  assert (p <=? HIGHPRIO) "chThdCreateSuspendedI" ;;;
  thd_object_init t nm p ;;;
  zoom os_lens (chSchReadyI t).

(** Without the timers ([Vt]) and the port. *)
Definition chSchObjectInit : T unit :=
  zoom os_lens (modify (set_pqueue [])) ;;;
  modify (set_newer None None) ;;;
  modify (set_older None None) ;;;
  thd_object_init mainthread "main" NORMALPRIO ;;;
  zoom os_lens (modify (set_current mainthread)) ;;;
  zoom os_lens (modify (set_state CH_STATE_CURRENT mainthread)) ;;;
  chThdCreateI idle "idle" IDLEPRIO.

(** Memory with no threads in it: an area without a thread is like one whose
    thread has ended. *)
Definition no_threads : tsys :=
  Tsys (Os (fun _ => Thread IDLEPRIO CH_STATE_FINAL 0 []) [] idle) (fun _ => 0) (fun _ => []) (fun _ => None) (fun _ => None)
    (fun _ => 0) (fun _ => EmptyString) (fun _ => []).

Definition system : tsys := match chSchObjectInit no_threads with Done (_, y) => y | _ => no_threads end.

(** [main] runs, with the references of its creation and of the idle thread's. *)
Definition boot (n : nat) : rsys :=
  Rsys system (fun _ => PFree) (fun t => if decide (t < 2)%nat then 1%nat else 0%nat) (fun _ => []) (fun _ => 0) [] n.

Lemma chSchObjectInit_runs : chSchObjectInit no_threads = Done (tt, system).
Proof.
  unfold system. assert (H : (match chSchObjectInit no_threads with Done _ => true | _ => false end) = true) by (vm_compute; reflexivity).
  by destruct (chSchObjectInit no_threads) as [[[] y]| |].
Qed.

Lemma system_thread t :
  thd (os system) t = match t with
                      | 0%nat => Thread IDLEPRIO CH_STATE_READY 0 []
                      | 1%nat => Thread NORMALPRIO CH_STATE_CURRENT 0 []
                      | _ => Thread IDLEPRIO CH_STATE_FINAL 0 []
                      end.
Proof. destruct t as [|[|t]]; vm_compute; reflexivity. Qed.

(** The system starts with two threads in the registry. *)
Lemma boot_started n : (2 <= n)%nat -> started [mainthread; idle] (boot n).
Proof.
  intros Hn. assert (Hend : forall t, ended system t <-> (2 <= t)%nat).
  { intros t. rewrite <- ended_state, system_thread. destruct t as [|[|t]]; cbn; (split; [try done; lia|try lia; done]). }
  constructor; cbn [boot ts at_ loose seen codes answers areas].
  - constructor.
    + intros t. unfold prios. rewrite system_thread. by destruct t as [|[|t]].
    + intros t. rewrite system_thread. destruct t as [|[|t]]; cbn; split; try done; lia.
    + intros t. rewrite system_thread. destruct t as [|[|t]]; cbn; split; intros H; try done; try set_solver; apply list_elem_of_singleton in H; lia.
    + apply NoDup_singleton.
    + by repeat constructor.
    + cbn. set_solver.
  - by vm_compute.
  - split; [by cbn|]. repeat constructor; set_solver.
  - intros t. rewrite Hend. unfold mainthread, idle. rewrite elem_of_cons, list_elem_of_singleton. lia.
  - repeat constructor; unfold mainthread, idle; lia.
  - intros t. by destruct t as [|[|t]].
  - intros t Ht. apply Hend in Ht. destruct t as [|[|t]]; [lia|lia|done].
  - done.
  - intros t. by destruct t as [|[|t]].
  - intros t. unfold asleep. rewrite system_thread. by destruct t as [|[|t]].
  - done.
Qed.

#[global] Opaque system.

Definition event (e : revent) (r : rsys) : rsys := match rstep e r with Done (_, r') => r' | _ => r end.

Lemma reach_event r0 r e :
  reach r0 r -> rpossible r e -> (match rstep e r with Done _ => true | _ => false end) = true -> reach r0 (event e r).
Proof.
  intros Hr Hp He. apply (reach_step r0 r e); [done|done|]. unfold event. by destruct (rstep e r) as [[[] ?]| |].
Qed.

(** The shell, thread 2, begins a walk and sleeps while it prints; [main] creates
    thread 3, which is at its end when the walk comes to it. *)
Definition walk_1 : rsys := event (ECreate 2 138) (boot 8).
Definition walk_2 : rsys := event EFirst walk_1.
Definition walk_3 : rsys := event (EKernel (KSleep CH_STATE_SLEEPING)) walk_2.
Definition walk_4 : rsys := event (ECreate 3 128) walk_3.
Definition walk_5 : rsys := event (EKernel (KInterrupt [(2%nat, 0)])) walk_4.
Definition walk_6 : rsys := event ERelease (event ENext walk_5).
Definition walk_7 : rsys := event ERelease (event ENext walk_6).
Definition walk_8 : rsys := event ERelease (event ENext walk_7).

(** One more event of a concrete run, with what makes it possible computed. *)
Ltac run_event H :=
  apply reach_event; [exact H| |vm_compute; reflexivity];
  lazymatch goal with
  | |- rpossible _ ENext => eexists; split; [vm_compute; reflexivity|intros t; vm_compute; intros [= <-]; reflexivity]
  | |- rpossible _ EFirst => split; [vm_compute; reflexivity|intros t; vm_compute; intros [= <-]; reflexivity]
  | |- rpossible _ ERelease => eexists _, _; vm_compute; reflexivity
  | |- rpossible _ EReturn => eexists; vm_compute; reflexivity
  | |- rpossible _ (ECreate _ _) => split_and!; vm_compute; try reflexivity; lia
  | |- rpossible _ (EExit _) => split; [vm_compute; reflexivity|vm_compute; discriminate]
  | |- rpossible _ (EWait _) => split_and!; [vm_compute; reflexivity|vm_compute; discriminate|vm_compute; lia|vm_compute; discriminate]
  | |- _ => idtac
  end.

Lemma walk_5_reached : reach (boot 8) walk_5.
Proof.
  assert (H1 : reach (boot 8) walk_1) by run_event (reach_start (boot 8)).
  assert (H2 : reach (boot 8) walk_2) by run_event H1.
  assert (H3 : reach (boot 8) walk_3).
  { run_event H2. split; [split; [vm_compute; discriminate|repeat split; discriminate]|]. split; [constructor|]. split; [|discriminate].
    right. exists 1%nat. vm_compute. reflexivity. }
  assert (H4 : reach (boot 8) walk_4) by run_event H3.
  run_event H4. split; [split|split; [|done]].
  - repeat constructor; set_solver.
  - repeat constructor. exists CH_STATE_SLEEPING. split; [vm_compute; reflexivity|done].
  - constructor; [vm_compute; discriminate|constructor].
Qed.

Lemma walk_8_reached : reach (boot 8) walk_8.
Proof.
  assert (H5 := walk_5_reached).
  assert (H6 : reach (boot 8) (event ENext walk_5)) by run_event H5.
  assert (H7 : reach (boot 8) walk_6) by run_event H6.
  assert (H8 : reach (boot 8) (event ENext walk_6)) by run_event H7.
  assert (H9 : reach (boot 8) walk_7) by run_event H8.
  assert (H10 : reach (boot 8) (event ENext walk_7)) by run_event H9.
  run_event H10.
Qed.

(** The walk has seen the thread that was created while it slept. *)
Lemma walk_misses_no_thread_witness : 3%nat ∈ seen walk_8 2%nat.
Proof.
  apply (walk_misses_no_thread [mainthread; idle] (boot 8) walk_8 2%nat 3%nat [1%nat; 0%nat; 2%nat; 3%nat]).
  - apply boot_started. lia.
  - exact walk_8_reached.
  - vm_compute. reflexivity.
  - vm_compute. reflexivity.
  - split; [vm_compute; repeat split|]. repeat constructor; set_solver.
  - set_solver.
Defined.

(** [main] waits for thread 2, which ends with code 7. *)
Definition wait_1 : rsys := event (EKernel (KSleep CH_STATE_SLEEPING)) walk_1.
Definition wait_2 : rsys := event (EWait 2) wait_1.
Definition wait_3 : rsys := event (EKernel (KInterrupt [(2%nat, 0)])) wait_2.
Definition wait_4 : rsys := event (EExit 7) wait_3.
Definition wait_5 : rsys := event EReturn wait_4.

Lemma wait_5_reached : reach (boot 8) wait_5.
Proof.
  assert (H1 : reach (boot 8) walk_1) by run_event (reach_start (boot 8)).
  assert (H2 : reach (boot 8) wait_1).
  { run_event H1. split; [split; [vm_compute; discriminate|repeat split; discriminate]|]. split; [constructor|]. split; [|discriminate].
    left. vm_compute. reflexivity. }
  assert (H3 : reach (boot 8) wait_2) by run_event H2.
  assert (H4 : reach (boot 8) wait_3).
  { run_event H3. split; [split|split; [|done]].
    - repeat constructor; set_solver.
    - repeat constructor. exists CH_STATE_SLEEPING. split; [vm_compute; reflexivity|done].
    - constructor; [vm_compute; discriminate|constructor]. }
  assert (H5 : reach (boot 8) wait_4) by run_event H4.
  run_event H5.
Qed.

(** The thread that has ended is in the list until [main] releases it, and the
    release completes. *)
Lemma thread_registry_safe_witness :
  answers wait_5 = [(7, 7)] /\ refs (ts wait_5) 2%nat = 1 /\ exists r', rstep ERelease wait_5 = Done (tt, r').
Proof.
  destruct (thread_registry_safe [mainthread; idle] (boot 8) wait_5) as (_ & Hr & _ & Hs); [apply boot_started; lia|exact wait_5_reached|].
  split; [vm_compute; reflexivity|]. split; [rewrite Hr; vm_compute; reflexivity|].
  apply Hs. eexists _, _. vm_compute. reflexivity.
Defined.

(** After it the area is free again. *)
Example wait_over :
  let r := event ERelease wait_5 in newer (ts r) (Some 0%nat) = None /\ refs (ts r) 2%nat = 0 /\ at_ r 1%nat = PFree.
Proof. vm_compute. done. Qed.
End Threads.
