(* ===== verification/Timeouts.v ===== *)
(** * Sleeps and time-outs

    [chSchGoSleepTimeoutS] of [src/ChibiOS/os/rt/src/chschd.c], behind every sleep
    and every wait with a time-out of the firmware, over the scheduler of [Sched]
    and the timers of [Vt]: the thread arms a timer, which is a local variable of
    the call, and goes to sleep; the timer's interrupt calls [__sch_wakeup], or
    another thread wakes it first; when it runs again it disarms its timer.

    A call is two events, up to the switch and from it; between being chosen by
    the scheduler and the second one the kernel is locked.  A thread has at most
    one timer, which has its number.

    Proved, for any threads that sleep, wake each other and are interrupted: no
    assertion of the scheduler fails, and of the timers only the one that
    [Vt.too_late] describes; no thread is asleep more than
    one tick after its time; one that its timer woke was not woken early and gets
    [MSG_TIMEOUT]; and no timer stays armed when its call has returned, which
    would be a timer in a dead stack frame. *)

From stdpp Require Import functions.
From S2P Require Import Prelude Oslib Vt Sched.
Import Sched.

Module Timeouts.

(** A call that returned: when its time was, when the thread was made ready,
    whether its timer did that, and the message. *)
Record answer := Answer { due : Z; ready_at : Z; by_timer : bool; message : Z }.

(** [call t] is when the time of [t]'s call is; [woke t] when [t] was made ready
    last, and whether by its timer. *)
Record zsys := Zsys {
  zos : os_instance;
  tm : timed;
  call : nat -> option Z;
  woke : nat -> Z * bool;
  returned : list answer
}.

Definition os_lens : lens zsys os_instance := Lens zos (fun s z => Zsys s (tm z) (call z) (woke z) (returned z)).
Definition set_tm (m : timed) (z : zsys) : zsys := Zsys (zos z) m (call z) (woke z) (returned z).
Definition set_call (t : nat) (d : option Z) (z : zsys) : zsys := Zsys (zos z) (tm z) (<[t := d]> (call z)) (woke z) (returned z).
Definition log_return (a : answer) (z : zsys) : zsys := Zsys (zos z) (tm z) (call z) (woke z) (returned z ++ [a]).
Definition note_woke (ts : list nat) (b : bool) (z : zsys) : zsys :=
  Zsys (zos z) (tm z) (call z) (fun t => if decide (t ∈ ts /\ asleep (zos z) t <> None) then (time (tm z), b) else woke z t) (returned z).

(** An operation of the timers. *)
Definition timer (ev : Vt.event) : M zsys unit := fun z =>
  match happen ev (tm z) with
  | Done m => Done (tt, set_tm m z)
  | Halt why => Halt why
  | Hang => Hang
  end.

(** ** The code *)

(** [chSchGoSleepTimeoutS] up to the switch. *)
Definition chSchGoSleepTimeoutS (newstate : tstate_t) (timeout : Z) : M zsys unit :=
  let! z := get in
  let tp := current (zos z) in
  (if decide (timeout <> TIME_INFINITE) then timer (Arm tp timeout) else ret tt) ;;;
  zoom os_lens (chSchGoSleepS newstate).

(** From the switch on. *)
Definition chSchGoSleepTimeoutS_resume : M zsys Z :=
  let! z := get in
  let tp := current (zos z) in
  (if armed tp (vt (tm z)) then timer (Disarm tp) else ret tt) ;;;
  gets (fun z => u (thd (zos z) tp)).

Definition chThdSleep (time : Z) : M zsys unit :=
  assert (bool_decide (time <> TIME_IMMEDIATE)) "chThdSleepS" ;;;
  chSchGoSleepTimeoutS CH_STATE_SLEEPING time.

(** The callbacks of the timers that fire. *)
Fixpoint wake_all (ts : list nat) : K unit :=
  match ts with
  | [] => ret tt
  | t :: ts => sch_wakeup t ;;; wake_all ts
  end.

(** The interrupt of the system timer. *)
Definition st_interrupt : M zsys unit :=
  let! z := get in
  timer Interrupt ;;;
  let! z' := get in
  let ts := newly_fired (tm z) (tm z') in
  modify (note_woke ts true) ;;;
  zoom os_lens (wake_all ts ;;; irq_epilogue).

(** ** Runs *)

Inductive zevent :=
  | ZSleep (st : tstate_t) (timeout : Z)  (* chSchGoSleepTimeoutS *)
  | ZNap (timeout : Z)                    (* chThdSleep *)
  | ZResume                               (* the second part of either *)
  | ZTick                                 (* the timer's interrupt *)
  | ZPass (n : Z)                         (* time passes *)
  | ZKernel (e : kevent).                 (* everything else *)

Definition zstep (e : zevent) : M zsys unit :=
  let! z := get in
  let w := current (zos z) in
  match e with
  | ZSleep st timeout =>
      modify (set_call w (Some (time (tm z) + Z.max timeout 2))) ;;; chSchGoSleepTimeoutS st timeout
  | ZNap timeout =>
      modify (set_call w (Some (time (tm z) + Z.max timeout 2))) ;;; chThdSleep timeout
  | ZResume =>
      let! msg := chSchGoSleepTimeoutS_resume in
      modify (set_call w None) ;;;
      match call z w with
      | Some d => modify (log_return (Answer d (fst (woke z w)) (snd (woke z w)) msg))
      | None => ret tt
      end
  | ZTick => st_interrupt
  | ZPass n => timer (Pass n)
  | ZKernel e => modify (note_woke (woken e) false) ;;; zoom os_lens (kstep e)
  end.

(** While the running thread is inside a call the kernel is locked.  The clock
    does not pass an alarm without its interrupt ([Vt.possible]). *)
Definition zpossible (z : zsys) (e : zevent) : Prop :=
  let w := current (zos z) in
  match e with
  | ZSleep st timeout => call z w = None /\ w <> idle /\ put_to_sleep st /\ 0 < timeout < 2 ^ 31
  | ZNap timeout => call z w = None /\ w <> idle /\ 0 < timeout < 2 ^ 31
  | ZResume => is_Some (call z w)
  | ZTick => call z w = None
  | ZPass n => Vt.possible (Pass n) (tm z)
  | ZKernel e => call z w = None /\ possible (zos z) e /\ (forall t, e <> KTimeout t)
  end.

(** The step that fails: a call that was ended before its time disarms its timer
    when [Vt.too_late] says that this halts. *)
Definition zlate (z : zsys) (e : zevent) : Prop :=
  match e with
  | ZResume => too_late (current (zos z)) (u16 (time (tm z))) (vt (tm z))
  | _ => False
  end.

#[global] Instance zlate_dec z e : Decision (zlate z e).
Proof. destruct e; apply _. Defined.

(** No thread is in a call, no timer armed. *)
Record quiet (z : zsys) : Prop := {
  q_ok : sched_ok (zos z);
  q_dispatched : dispatched (zos z);
  q_time : exists T, 0 <= T /\ tm z = Timed vt_object_init T ∅ [];
  q_call : forall t, call z t = None;
  q_returned : returned z = []
}.

Inductive zreach (z0 : zsys) : zsys -> Prop :=
  | zreach_start : zreach z0 z0
  | zreach_step z e z' : zreach z0 z -> zpossible z e -> zstep e z = Done (tt, z') -> zreach z0 z'.

(** ** The invariant *)

Definition in_time (a : answer) : Prop :=
  ready_at a <= due a + 1 /\ (by_timer a = true -> due a <= ready_at a /\ message a = MSG_TIMEOUT).

Record zinv (z : zsys) : Prop := {
  z_ok : sched_ok (zos z);
  z_dispatched : dispatched (zos z);
  z_timely : exists L, timely (tm z) L;
  z_armed : forall t D, want (tm z) !! t = Some D -> call z t = Some D;
  z_asleep : forall t D, call z t = Some D -> asleep (zos z) t <> None -> want (tm z) !! t = Some D /\ wakeable (zos z) t;
  z_awake : forall t D, call z t = Some D -> asleep (zos z) t = None ->
    in_time (Answer D (fst (woke z t)) (snd (woke z t)) (words (zos z) t));
  z_returned : Forall in_time (returned z)
}.

Lemma quiet_zinv z : quiet z -> zinv z.
Proof.
  intros [H1 H2 (T & HT & Htm) H4 H5]. assert (Hp : passing (tm z)) by (rewrite Htm; by constructor).
  constructor; try done.
  - by apply passing_timely.
  - rewrite Htm. cbn. intros t D. by rewrite lookup_empty.
  - intros t D. by rewrite H4.
  - intros t D. by rewrite H4.
  - rewrite H5. constructor.
Qed.

(** A timer's callback. *)
Lemma sch_wakeup_words s t :
  sched_ok s -> t <> current s -> (asleep s t = None \/ wakeable s t) ->
  wp (sch_wakeup t) (fun _ s' => sched_ok s' /\ (forall x, prios s' x = prios s x) /\ current s' = current s /\
    (forall x, asleep s' x = if decide (x = t) then None else asleep s x) /\
    (forall x, words s' x = if decide (x = t /\ asleep s t <> None) then MSG_TIMEOUT else words s x)) s.
Proof.
  intros Hok Hnc Hw. unfold sch_wakeup. apply wp_bind, wp_get. case_decide as Hr.
  - assert (Hn : asleep s t = None) by (unfold asleep; by rewrite Hr). apply wp_ret. split_and!; try done.
    + intros x. case_decide; by subst.
    + intros x. rewrite decide_False; [done|]. by intros [-> ?].
  - destruct Hw as [Hn|(st & Hst & Hfin)].
    { apply (asleep_None s t Hok), elem_of_cons in Hn as [?|Hn]; [done|]. by apply (ok_ready _ Hok) in Hn. }
    destruct (set_u_view MSG_TIMEOUT t s) as (Hok1 & _ & Has1 & _ & Hp1). apply wp_bind. unfold wp at 1, modify.
    eapply wp_conseq; [apply (sch_ready_behind_spec _ t st); [by apply Hok1|by rewrite Has1|done]|].
    intros ? s1 [[Hok2 [Hp Hu _] Ha _] Hc]. split; [done|]. split; [intros x; by rewrite Hp|]. split; [by rewrite Hc|]. split.
    + intros x. rewrite Ha. unfold awoken. by rewrite Has1.
    + intros x. unfold words. rewrite Hu, u_set_u. rewrite Hst. apply decide_ext. split; [by intros ->|by intros [? _]].
Qed.

Lemma wake_all_spec ts : forall s,
  sched_ok s -> NoDup ts -> current s ∉ ts -> Forall (fun t => asleep s t = None \/ wakeable s t) ts ->
  wp (wake_all ts) (fun _ s' => sched_ok s' /\ (forall x, prios s' x = prios s x) /\
    (forall x, asleep s' x = if decide (x ∈ ts) then None else asleep s x) /\
    (forall x, words s' x = if decide (x ∈ ts /\ asleep s x <> None) then MSG_TIMEOUT else words s x)) s.
Proof.
  induction ts as [|t ts IH]; intros s Hok Hnd Hc Hw; cbn [wake_all].
  { by apply wp_ret. }
  apply NoDup_cons in Hnd as [Hnt Hnd]. apply not_elem_of_cons in Hc as [Hct Hc]. apply Forall_cons in Hw as [Ht Hw].
  apply wp_bind. eapply wp_conseq; [apply sch_wakeup_words; [done|congruence|done]|]. intros ? s1 (H1 & H2 & H3 & H4 & H5).
  eapply wp_conseq; [apply IH; [done|done|by rewrite H3|]|].
  - apply Forall_forall. intros x Hx. rewrite Forall_forall in Hw. unfold wakeable. rewrite H4, decide_False by (intros ->; done). exact (Hw x Hx).
  - intros ? s2 (G1 & G2 & G3 & G4). split; [done|]. split; [intros x; by rewrite G2, H2|]. split.
    + intros x. rewrite G3, H4. destruct (decide (x = t)) as [->|Hx].
      * rewrite (decide_True (P := t ∈ t :: ts)) by (apply elem_of_cons; by left). by case_decide.
      * apply decide_ext. rewrite elem_of_cons. tauto.
    + intros x. rewrite G4, H4, H5. destruct (decide (x = t)) as [->|Hx].
      * rewrite (decide_False (P := t ∈ ts /\ _)) by (intros [? _]; done). apply decide_ext. rewrite elem_of_cons. tauto.
      * rewrite (decide_False (P := x = t /\ _)) by (intros [? _]; done). apply decide_ext. rewrite elem_of_cons. tauto.
Qed.

Section steps.
Context (z : zsys) (H : zinv z).
Notation w := (current (zos z)).

(** Running a timer's operation. *)
Lemma timer_spec ev (Q : zsys -> Prop) :
  Vt.possible ev (tm z) -> ~ late ev (tm z) -> (forall m L, happen ev (tm z) = Done m -> timely m L -> Q (set_tm m z)) -> wp (timer ev) (fun _ => Q) z.
Proof.
  intros Hp Hnl HQ. destruct (z_timely _ H) as [L HL]. destruct (happen_timely ev _ L HL Hp Hnl) as (m & L' & He & HL').
  unfold wp, timer. rewrite He. by eapply HQ.
Qed.

Lemma armed_want : armed w (vt (tm z)) = bool_decide (is_Some (want (tm z) !! w)).
Proof. destruct (z_timely _ H) as [L HL]. unfold armed. apply bool_decide_ext. by eapply timely_armed. Qed.

Lemma happen_arm t d m : happen (Arm t d) (tm z) = Done m -> time m = time (tm z) /\ want m = <[t := time (tm z) + Z.max d 2]> (want (tm z)).
Proof. cbn [happen]. destruct (chVTDoSetI t d (u16 (time (tm z))) (vt (tm z))) as [[[] v]| |]; [|done|done]. by intros [= <-]. Qed.

Lemma happen_disarm t m : happen (Disarm t) (tm z) = Done m -> time m = time (tm z) /\ want m = delete t (want (tm z)).
Proof. cbn [happen]. destruct (chVTDoResetI t (u16 (time (tm z))) (vt (tm z))) as [[[] v]| |]; [|done|done]. by intros [= <-]. Qed.

Lemma step_sleep st timeout : zpossible z (ZSleep st timeout) -> wp (zstep (ZSleep st timeout)) (fun _ => zinv) z.
Proof.
  intros (Hc & Hi & Hst & Ht). pose proof (current_awake _ (z_ok _ H)) as Haw.
  assert (Hnone : want (tm z) !! w = None).
  { destruct (want (tm z) !! w) as [D|] eqn:HD; [|done]. apply (z_armed _ H) in HD. congruence. }
  cbn [zstep]. apply wp_bind, wp_get, wp_bind. unfold wp at 1, modify. unfold chSchGoSleepTimeoutS. apply wp_bind, wp_get, wp_bind.
  rewrite decide_True by (unfold TIME_INFINITE; lia).
  destruct (z_timely _ H) as [L HL]. destruct (happen_timely (Arm w timeout) _ L HL) as (m & L' & He & HL'); [done|by intros []|].
  destruct (happen_arm _ _ _ He) as [Htime Hwant]. unfold wp at 1, timer. cbn [tm set_call zos]. rewrite He.
  apply wp_zoom. cbn [view os_lens zos set_tm set_call]. eapply wp_conseq; [apply chSchGoSleepS_spec; [apply H|done|done]|].
  intros ? s' [[Hok' [Hp' Hu' _] Ha' _] Hd']. constructor; cbn [zos tm call woke returned over os_lens set_tm set_call]; try done.
  - by exists L'.
  - intros t D. rewrite Hwant. destruct (decide (t = w)) as [->|Hne].
    + by rewrite lookup_insert_eq, fn_lookup_insert.
    + rewrite lookup_insert_ne, fn_lookup_insert_ne by done. apply (z_armed _ H).
  - intros t D. unfold wakeable. rewrite Hwant, Ha'. unfold fell_asleep. destruct (decide (t = w)) as [->|Hne].
    + rewrite fn_lookup_insert, lookup_insert_eq. intros [= <-] _. split; [done|]. exists st. split; [done|]. apply Hst.
    + rewrite lookup_insert_ne, fn_lookup_insert_ne by done. apply (z_asleep _ H).
  - intros t D. rewrite Ha'. unfold fell_asleep. destruct (decide (t = w)) as [->|Hne]; [done|]. rewrite fn_lookup_insert_ne by done.
    intros Hct Hn. unfold words. rewrite Hu'. by apply (z_awake _ H).
  - apply H.
Qed.

Lemma step_nap timeout : zpossible z (ZNap timeout) -> wp (zstep (ZNap timeout)) (fun _ => zinv) z.
Proof.
  intros (Hc & Hi & Ht). eapply (wp_eq _ (zstep (ZSleep CH_STATE_SLEEPING timeout))); [|by apply step_sleep].
  assert (He : chThdSleep timeout = (ret tt ;;; chSchGoSleepTimeoutS CH_STATE_SLEEPING timeout)).
  { unfold chThdSleep, assert. rewrite bool_decide_true; [done|]. unfold TIME_IMMEDIATE. lia. }
  unfold zstep, bind, get, modify. rewrite He. done.
Qed.

Lemma step_resume : zpossible z ZResume -> ~ zlate z ZResume -> wp (zstep ZResume) (fun _ => zinv) z.
Proof.
  intros [D Hcall] Hlate. pose proof (current_awake _ (z_ok _ H)) as Haw. pose proof (z_awake _ H w D Hcall Haw) as Hin.
  cbn [zstep]. apply wp_bind, wp_get, wp_bind. unfold chSchGoSleepTimeoutS_resume. apply wp_bind, wp_get, wp_bind.
  assert (Hfin : forall m L, timely m L -> time m = time (tm z) -> want m = delete w (want (tm z)) ->
    wp (gets (fun z => u (thd (zos z) w))) (fun msg z' => wp (modify (set_call w None) ;;;
      match call z w with
      | Some d => modify (log_return (Answer d (fst (woke z w)) (snd (woke z w)) msg))
      | None => ret tt
      end) (fun _ => zinv) z') (set_tm m z)).
  { intros m L HL Htime Hwant. unfold wp at 1, gets. apply wp_bind. unfold wp at 1, modify at 1. rewrite Hcall. unfold wp, modify.
    constructor; cbn [zos tm call woke returned set_tm set_call log_return]; try apply H.
    - by exists L.
    - intros t E. rewrite Hwant. destruct (decide (t = w)) as [->|Hne]; [by rewrite lookup_delete_eq|].
      rewrite lookup_delete_ne, fn_lookup_insert_ne by done. apply (z_armed _ H).
    - intros t E. rewrite Hwant. destruct (decide (t = w)) as [->|Hne]; [by rewrite fn_lookup_insert|].
      rewrite lookup_delete_ne, fn_lookup_insert_ne by done. apply (z_asleep _ H).
    - intros t E. destruct (decide (t = w)) as [->|Hne]; [by rewrite fn_lookup_insert|]. rewrite fn_lookup_insert_ne by done. apply (z_awake _ H).
    - apply Forall_app. split; [apply H|]. constructor; [exact Hin|constructor]. }
  rewrite armed_want. case_bool_decide as Hw.
  - apply timer_spec; [done|done|]. intros m L He HL. destruct (happen_disarm _ _ He). by eapply Hfin.
  - apply wp_ret. destruct (z_timely _ H) as [L HL]. replace z with (set_tm (tm z) z) at 2 by by destruct z.
    apply (Hfin (tm z) L); [done|done|]. symmetry. apply delete_id. by apply eq_None_not_Some.
Qed.

Lemma resume_late : zpossible z ZResume -> zlate z ZResume -> zstep ZResume z = Halt "chTimeAddX".
Proof.
  intros _ Hlate. destruct (z_timely _ H) as [L HL]. pose proof (happen_late (Disarm w) _ L HL Hlate) as Hh.
  unfold zstep, chSchGoSleepTimeoutS_resume, bind, get. replace (armed w (vt (tm z))) with true; [unfold timer; by rewrite Hh|].
  symmetry. apply bool_decide_eq_true. cbn [zlate] in Hlate. unfold too_late in Hlate.
  destruct (dlist (vt (tm z))) as [|[t1 d1] [|[t2 d2] l]]; try done. destruct Hlate as [<- _]. by left.
Qed.

Lemma step_pass n : zpossible z (ZPass n) -> wp (zstep (ZPass n)) (fun _ => zinv) z.
Proof.
  intros Hp. cbn [zstep]. apply wp_bind, wp_get. apply (timer_spec (Pass n) zinv); [exact Hp|by intros []|]. intros m L [= <-] HL.
  destruct H. constructor; cbn [zos tm call woke returned set_tm want]; try done. by exists L.
Qed.

Lemma call_in_time t D : want (tm z) !! t = Some D -> time (tm z) <= D + 1.
Proof. destruct (z_timely _ H) as [L HL]. intros Ht. by apply (timely_due _ L t D HL). Qed.

Lemma step_tick : zpossible z ZTick -> wp (zstep ZTick) (fun _ => zinv) z.
Proof.
  cbn [zpossible]. intros Hc. destruct (z_timely _ H) as [L HL]. destruct (timers_interrupt _ L HL) as (m & He & Hnd & Hts & Hw & _).
  destruct (happen_timely Interrupt _ L HL) as (m' & L' & He' & HL'); [done|by intros []|]. rewrite He in He'. injection He' as <-.
  assert (Htime : time m = time (tm z)).
  { clear -He. cbn [happen] in He. destruct (chVTDoTickI _ (vt (tm z))) as [[[] v]| |]; [|done|done]. by injection He as <-. }
  cbn [zstep]. apply wp_bind, wp_get. unfold st_interrupt. apply wp_bind, wp_get, wp_bind. unfold wp at 1, timer. rewrite He.
  apply wp_bind, wp_get. cbn [tm set_tm]. set (ts := newly_fired (tm z) m) in *. apply wp_bind. unfold wp at 1, modify.
  apply wp_zoom. cbn [view os_lens zos note_woke set_tm tm call woke returned]. apply wp_bind.
  assert (Hcall : forall t, t ∈ ts -> exists D, want (tm z) !! t = Some D /\ call z t = Some D /\ D <= time (tm z)).
  { intros t (D & Ht & Hle)%Hts. exists D. split; [done|]. split; [by apply (z_armed _ H)|done]. }
  eapply wp_conseq; [apply (wake_all_spec ts (zos z)); [apply H|done| |]|].
  - intros (D & _ & Hx & _)%Hcall. congruence.
  - apply Forall_forall. intros t (D & _ & Hx & _)%Hcall. destruct (asleep (zos z) t) eqn:Ha; [|by left]. right. apply (z_asleep _ H t D Hx). by rewrite Ha.
  - intros ? s1 (Hok1 & Hp1 & Ha1 & Hu1). eapply wp_eq; [apply irq_epilogue_reschedules|].
    eapply wp_conseq; [by apply chSchRescheduleS_spec|]. intros ? s2 [[Hok2 [Hp2 Hu2 _] Ha2 _] Hd2].
    assert (Has : forall x, asleep s2 x = if decide (x ∈ ts) then None else asleep (zos z) x) by (intros x; by rewrite Ha2, Ha1).
    assert (Hwd : forall x, words s2 x = if decide (x ∈ ts /\ asleep (zos z) x <> None) then MSG_TIMEOUT else words (zos z) x) by (intros x; unfold words; rewrite Hu2; apply Hu1).
    constructor; cbn [over os_lens zos tm call woke returned]; try done; [by exists L'| | | |apply H].
    + intros t D Ht. apply Hw in Ht as [Ht _]. by apply (z_armed _ H).
    + intros t D Ht. unfold wakeable. rewrite Has. case_decide as Hin; [done|]. intros Hn. destruct (z_asleep _ H t D Ht Hn) as [HD Hwk]. split; [|done].
      apply Hw. split; [done|]. destruct (decide (D <= time (tm z))); [|lia]. exfalso. apply Hin, Hts. eauto.
    + intros t D Ht. cbn [set_tm zos tm note_woke woke] in *. rewrite Has, Hwd, Htime. intros Hn. destruct (decide (t ∈ ts /\ asleep (zos z) t <> None)) as [[Hin Hna]|Hno].
      * destruct (z_asleep _ H t D Ht Hna) as [HD _]. pose proof (call_in_time t D HD). destruct (Hcall t Hin) as (D' & HD' & _ & Hle).
        split; cbn; [lia|]. intros _. split; [|done]. assert (D = D') by congruence. lia.
      * case_decide as Hin.
        -- destruct (asleep (zos z) t) eqn:Ha; [exfalso; apply Hno; split; [done|congruence]|]. by apply (z_awake _ H).
        -- by apply (z_awake _ H).
Qed.

Lemma woken_asleep e t : possible (zos z) e -> (forall t, e <> KTimeout t) -> t ∈ woken e -> asleep (zos z) t <> None.
Proof.
  intros Hp Hne Hin. assert (Hf : forall ts, Forall (wakeable (zos z)) ts -> t ∈ ts -> asleep (zos z) t <> None).
  { intros ts Hts Hx. rewrite Forall_forall in Hts. destruct (Hts t Hx) as (st & -> & _). done. }
  destruct e as [st| |x msg|ts|ts|x]; cbn in *; [by apply elem_of_nil in Hin|by apply elem_of_nil in Hin| | | |by destruct (Hne x)].
  - apply list_elem_of_singleton in Hin as ->. destruct Hp as (st & -> & _). done.
  - by apply (Hf (map fst ts)); [apply Hp|].
  - by apply (Hf (map fst ts)); [apply Hp|].
Qed.

Lemma step_other e : zpossible z (ZKernel e) -> wp (zstep (ZKernel e)) (fun _ => zinv) z.
Proof.
  intros (Hc & Hp & Hne). cbn [zstep]. apply wp_bind, wp_get, wp_bind. unfold wp at 1, modify. apply wp_zoom. cbn [view os_lens zos note_woke].
  eapply wp_conseq; [apply kstep_woken; [apply H|apply H|done]|]. intros ? s' [(Hok & Hpr & Ha & Hu) Hd].
  assert (Hkeep : forall t D, call z t = Some D -> t ∉ woken e -> asleep s' t = asleep (zos z) t).
  { intros t D Ht Hin. rewrite Ha. unfold asleep_after. rewrite decide_False by done. destruct e; try done.
    unfold fell_asleep. rewrite decide_False; [done|]. intros ->. congruence. }
  assert (Hwk : forall t, t ∈ woken e -> asleep s' t = None) by (intros t Hin; rewrite Ha; unfold asleep_after; by rewrite decide_True).
  constructor; cbn [over os_lens zos tm call woke returned note_woke]; try done; try apply H.
  - intros t D Ht. unfold wakeable. destruct (decide (t ∈ woken e)) as [Hin|Hin]; [by rewrite Hwk|]. rewrite (Hkeep t D Ht Hin). by apply (z_asleep _ H).
  - intros t D Ht Hn. destruct (decide (t ∈ woken e)) as [Hin|Hin].
    + pose proof (woken_asleep e t Hp Hne Hin) as Hna. rewrite decide_True by done. destruct (z_asleep _ H t D Ht Hna) as [HD _].
      split; cbn; [by apply (call_in_time t)|done].
    + rewrite decide_False by tauto. rewrite Hu by done. apply (z_awake _ H); [done|]. by rewrite <- (Hkeep t D Ht Hin).
Qed.
End steps.

Lemma zstep_spec z e : zinv z -> zpossible z e -> ~ zlate z e -> wp (zstep e) (fun _ => zinv) z.
Proof.
  intros H ? Hl. destruct e as [st timeout|timeout| | |n|e].
  - by apply step_sleep.
  - by apply step_nap.
  - by apply step_resume.
  - by apply step_tick.
  - by apply step_pass.
  - by apply step_other.
Qed.

Lemma zstep_late z e : zinv z -> zpossible z e -> zlate z e -> zstep e z = Halt "chTimeAddX".
Proof. intros H Hp Hl. destruct e; try done. by apply resume_late. Qed.

Lemma zreach_zinv z0 z : quiet z0 -> zreach z0 z -> zinv z.
Proof.
  intros H0 Hr. induction Hr as [|z e z' _ IH Hp He]; [by apply quiet_zinv|].
  destruct (decide (zlate z e)) as [Hl|Hl]; [by rewrite (zstep_late z e IH Hp Hl) in He|].
  pose proof (zstep_spec z e IH Hp Hl) as Hw. unfold wp in Hw. by rewrite He in Hw.
Qed.

(** C20: Sleeps and time-outs (of less than 2^31 ticks) end on time, whatever
    threads sleep, wake each other and are interrupted.  No thread is still
    asleep more than one tick after the time of its call; a call that returned
    had been made ready by then, and one that its timer ended not before its time
    and with [MSG_TIMEOUT]; and a timer is armed only while its thread is inside
    the call whose stack frame holds it.  Every next step completes, with one
    exception, which is exact: a call that was ended before its time in the last
    two ticks of the clock's range since [lasttime], and disarms the first timer
    while the next is due in one tick, halts in the check of [chTimeAddX]. *)
Theorem sleeps_end_on_time (z0 z : zsys) :
  quiet z0 -> zreach z0 z ->
  (forall e, zpossible z e ->
     if decide (zlate z e) then zstep e z = Halt "chTimeAddX" else exists z', zstep e z = Done (tt, z')) /\
  (forall t D, call z t = Some D -> asleep (zos z) t <> None -> time (tm z) <= D + 1) /\
  Forall (fun a => ready_at a <= due a + 1 /\ (by_timer a = true -> due a <= ready_at a /\ message a = MSG_TIMEOUT)) (returned z) /\
  (forall t, armed t (vt (tm z)) = true -> call z t <> None).
Proof.
  intros H0 Hr. pose proof (zreach_zinv z0 z H0 Hr) as H. split_and!.
  - intros e He. case_decide as Hl; [by apply zstep_late|].
    pose proof (zstep_spec z e H He Hl) as Hw. unfold wp in Hw. destruct (zstep e z) as [[[] z']| |]; [eauto|done|done].
  - intros t D Ht Hn. destruct (z_asleep _ H t D Ht Hn) as [HD _]. by apply (call_in_time z H t).
  - apply H.
  - intros t Ht. destruct (z_timely _ H) as [L HL]. unfold armed in Ht. apply bool_decide_eq_true, (timely_armed _ L t HL) in Ht as [D HD].
    apply (z_armed _ H) in HD. congruence.
Qed.

(** ** A sleep across the end of the clock *)

Definition awake : zsys := Zsys four_threads (Timed vt_object_init 65000 ∅ []) (fun _ => None) (fun _ => (0, false)) [].

Lemma awake_quiet : quiet awake.
Proof. destruct four_threads_ok. constructor; try done. by exists 65000. Qed.

Definition zrun (e : zevent) (z : zsys) : zsys := match zstep e z with Done (_, z') => z' | _ => z end.

Lemma zreach_run z0 z e :
  zreach z0 z -> zpossible z e -> (match zstep e z with Done _ => true | _ => false end) = true -> zreach z0 (zrun e z).
Proof. intros Hr Hp He. apply (zreach_step z0 z e); [done|done|]. unfold zrun. by destruct (zstep e z) as [[[] ?]| |]. Qed.

(** Thread 1 sleeps for a second, the idle thread runs, the clock wraps, and the
    interrupt wakes thread 1, which runs at once. *)
Definition nap_1 : zsys := zrun (ZNap 1000) awake.
Definition nap_2 : zsys := zrun (ZPass 1000) nap_1.
Definition nap_3 : zsys := zrun ZTick nap_2.
Definition nap_4 : zsys := zrun ZResume nap_3.

Lemma nap_reached : zreach awake nap_4.
Proof.
  assert (H1 : zreach awake nap_1).
  { apply zreach_run; [apply zreach_start| |vm_compute; reflexivity]. split; [done|]. split; [done|lia]. }
  assert (H2 : zreach awake nap_2).
  { apply zreach_run; [exact H1| |vm_compute; reflexivity]. assert (Ha : alarm (vt (tm nap_1)) = Some 464) by (vm_compute; reflexivity).
    assert (Ht : time (tm nap_1) = 65000) by (vm_compute; reflexivity). split; [lia|]. rewrite Ha, Ht. intros x Hx [= Heq]. revert Heq. unfold u16. zdiv. }
  assert (H3 : zreach awake nap_3).
  { apply zreach_run; [exact H2|vm_compute; reflexivity|vm_compute; reflexivity]. }
  apply zreach_run; [exact H3| |vm_compute; reflexivity]. eexists; vm_compute; reflexivity.
Qed.

Lemma sleeps_end_on_time_witness :
  returned nap_4 = [Answer 66000 66000 true MSG_TIMEOUT] /\ (forall t, armed t (vt (tm nap_4)) = true -> call nap_4 t <> None) /\
  exists z', zstep (ZSleep CH_STATE_SLEEPING 5) nap_4 = Done (tt, z').
Proof.
  destruct (sleeps_end_on_time awake nap_4 awake_quiet nap_reached) as (H1 & _ & _ & H4).
  split; [vm_compute; reflexivity|]. split; [exact H4|].
  apply (H1 (ZSleep CH_STATE_SLEEPING 5)). split; [vm_compute; reflexivity|]. split; [vm_compute; discriminate|].
  split; [by repeat split|lia].
Defined.
End Timeouts.
