(* ===== verification/IoQueue.v ===== *)
(** * The serial driver's queues

    [src/ChibiOS/os/hal/src/hal_queues.c] and the parts of [hal_serial.c] that
    use it: the circular byte buffers between the threads and the UART
    interrupts.  The radio thread and the shell write to an output queue of 16
    bytes that the transmit interrupt empties ([sd_lld_serve_interrupt]); the receive
    interrupt fills an input queue ([sdIncomingDataI]) that the shell and the
    radio commands read.

    Pointers are offsets into the buffer, the counter is an unsigned 32-bit
    number: the bytes in an input queue, the free places in an output queue.
    Proved: both are first-in-first-out buffers; the bulk transfers, which copy
    in one or two pieces, are the byte-wise ones repeated; a write puts a prefix
    of its data on the line, in order, and returns its length. *)

From S2P Require Import Prelude Oslib.
Import Mbox.

(** [io_queue_t]; [woken] are the threads made ready, with their messages. *)
Record io_queue_t := IoQueue {
  q_waiting : list nat;
  q_counter : Z;
  q_buffer : list Z;
  q_wrptr : Z;
  q_rdptr : Z;
  woken : list (nat * Z)
}.

Definition Q := M io_queue_t.

Definition qSizeX (q : io_queue_t) : Z := Z.of_nat (length (q_buffer q)).

Definition set_counter n q := IoQueue (q_waiting q) n (q_buffer q) (q_wrptr q) (q_rdptr q) (woken q).
Definition set_buffer b q := IoQueue (q_waiting q) (q_counter q) b (q_wrptr q) (q_rdptr q) (woken q).
Definition set_wrptr p q := IoQueue (q_waiting q) (q_counter q) (q_buffer q) p (q_rdptr q) (woken q).
Definition set_rdptr p q := IoQueue (q_waiting q) (q_counter q) (q_buffer q) (q_wrptr q) p (woken q).

(** [osalThreadDequeueNextI] and [osalThreadDequeueAllI]. *)
Definition dequeue_next (msg : Z) (q : io_queue_t) : io_queue_t :=
  match q_waiting q with
  | [] => q
  | t :: ts => IoQueue ts (q_counter q) (q_buffer q) (q_wrptr q) (q_rdptr q) (woken q ++ [(t, msg)])
  end.
Definition dequeue_all (msg : Z) (q : io_queue_t) : io_queue_t :=
  IoQueue [] (q_counter q) (q_buffer q) (q_wrptr q) (q_rdptr q) (woken q ++ map (fun t => (t, msg)) (q_waiting q)).

(** [p++; if (p >= q_top) p = q_buffer;] *)
Definition advance (p : Z) (q : io_queue_t) : Z := if decide (qSizeX q <= p + 1) then 0 else p + 1.

(** [memcpy] from and to the buffer. *)
Definition copy_out (buf : list Z) (p n : Z) : option (list Z) :=
  if decide (0 <= p /\ 0 <= n /\ p + n <= Z.of_nat (length buf))
  then Some (take (Z.to_nat n) (drop (Z.to_nat p) buf)) else None.
Definition copy_in (buf : list Z) (p : Z) (bs : list Z) : option (list Z) :=
  if decide (0 <= p /\ p + Z.of_nat (length bs) <= Z.of_nat (length buf))
  then Some (take (Z.to_nat p) buf ++ bs ++ drop (Z.to_nat p + length bs) buf) else None.

(** ** Input queues *)

Definition iqObjectInit (buf : list Z) : io_queue_t := IoQueue [] 0 buf 0 0 [].
Definition iqIsEmptyI (q : io_queue_t) : bool := q_counter q =? 0.
Definition iqIsFullI (q : io_queue_t) : bool := (q_wrptr q =? q_rdptr q) && negb (q_counter q =? 0).
Definition iqGetFullI (q : io_queue_t) : Z := q_counter q.

Definition iqResetI : Q unit :=
  modify (fun q => dequeue_all MSG_RESET (set_counter 0 (set_wrptr 0 (set_rdptr 0 q)))).

Definition iqPutI (b : Z) : Q Z :=
  let! q := get in
  if negb (iqIsFullI q) then
    let! buf := lift_opt (store (q_buffer q) (q_wrptr q) b) "q_wrptr" in
    put (dequeue_next MSG_OK (set_counter (u32 (q_counter q + 1)) (set_wrptr (advance (q_wrptr q) q) (set_buffer buf q)))) ;;;
    ret MSG_OK
  else ret MSG_TIMEOUT.

(** The code that takes a character, in [iqGetI] and [iqGetTimeout]. *)
Definition iq_take : Q Z :=
  let! q := get in
  let! b := lift_opt (load (q_buffer q) (q_rdptr q)) "q_rdptr" in
  put (set_counter (u32 (q_counter q - 1)) (set_rdptr (advance (q_rdptr q) q) q)) ;;;
  ret b.

Definition iqGetI : Q Z :=
  let! q := get in
  if negb (iqIsEmptyI q) then iq_take else ret MSG_TIMEOUT.

Definition iq_read (n : Z) : Q (list Z) :=
  assert (0 <? n) "iq_read" ;;;
  let! q := get in
  let n := if decide (n > iqGetFullI q) then iqGetFullI q else n in
  let s1 := qSizeX q - q_rdptr q in
  let! r :=
    (if decide (n < s1) then
       let! bs := lift_opt (copy_out (q_buffer q) (q_rdptr q) n) "memcpy" in ret (bs, q_rdptr q + n)
     else if decide (n > s1) then
       let! bs1 := lift_opt (copy_out (q_buffer q) (q_rdptr q) s1) "memcpy" in
       let! bs2 := lift_opt (copy_out (q_buffer q) 0 (n - s1)) "memcpy" in
       ret (bs1 ++ bs2, n - s1)
     else
       let! bs := lift_opt (copy_out (q_buffer q) (q_rdptr q) n) "memcpy" in ret (bs, 0)) in
  put (set_counter (u32 (q_counter q - n)) (set_rdptr (snd r) q)) ;;;
  ret (fst r).

(** ** Output queues *)

Definition oqObjectInit (buf : list Z) : io_queue_t := IoQueue [] (Z.of_nat (length buf)) buf 0 0 [].
Definition oqIsFullI (q : io_queue_t) : bool := q_counter q =? 0.
Definition oqIsEmptyI (q : io_queue_t) : bool := (q_wrptr q =? q_rdptr q) && negb (q_counter q =? 0).
Definition oqGetEmptyI (q : io_queue_t) : Z := q_counter q.

Definition oqResetI : Q unit :=
  modify (fun q => dequeue_all MSG_RESET (set_counter (qSizeX q) (set_wrptr 0 (set_rdptr 0 q)))).

(** The code that stores a character, in [oqPutI] and [oqPutTimeout]. *)
Definition oq_store (b : Z) : Q unit :=
  let! q := get in
  let! buf := lift_opt (store (q_buffer q) (q_wrptr q) b) "q_wrptr" in
  put (set_counter (u32 (q_counter q - 1)) (set_wrptr (advance (q_wrptr q) q) (set_buffer buf q))).

Definition oqPutI (b : Z) : Q Z :=
  let! q := get in
  if negb (oqIsFullI q) then oq_store b ;;; ret MSG_OK else ret MSG_TIMEOUT.

Definition oqGetI : Q Z :=
  let! q := get in
  if negb (oqIsEmptyI q) then
    let! b := lift_opt (load (q_buffer q) (q_rdptr q)) "q_rdptr" in
    put (dequeue_next MSG_OK (set_counter (u32 (q_counter q + 1)) (set_rdptr (advance (q_rdptr q) q) q))) ;;;
    ret b
  else ret MSG_TIMEOUT.

Definition oq_write (bs : list Z) : Q Z :=
  assert (0 <? Z.of_nat (length bs)) "oq_write" ;;;
  let! q := get in
  let n := if decide (Z.of_nat (length bs) > oqGetEmptyI q) then oqGetEmptyI q else Z.of_nat (length bs) in
  let s1 := qSizeX q - q_wrptr q in
  let bs := take (Z.to_nat n) bs in
  let! r :=
    (if decide (n < s1) then
       let! buf := lift_opt (copy_in (q_buffer q) (q_wrptr q) bs) "memcpy" in ret (buf, q_wrptr q + n)
     else if decide (n > s1) then
       let! buf := lift_opt (copy_in (q_buffer q) (q_wrptr q) (take (Z.to_nat s1) bs)) "memcpy" in
       let! buf := lift_opt (copy_in buf 0 (drop (Z.to_nat s1) bs)) "memcpy" in
       ret (buf, n - s1)
     else
       let! buf := lift_opt (copy_in (q_buffer q) (q_wrptr q) bs) "memcpy" in ret (buf, 0)) in
  put (set_counter (u32 (q_counter q - n)) (set_wrptr (snd r) (set_buffer (fst r) q))) ;;;
  ret n.

(** ** The serial driver *)

(** [SerialDriver]: its queues, what the transmitter has sent, and the event
    flags. *)
Inductive flag := CHN_INPUT_AVAILABLE | SD_QUEUE_FULL_ERROR | CHN_OUTPUT_EMPTY.
#[global] Instance flag_eq_dec : EqDecision flag.
Proof. solve_decision. Defined.

Record SerialDriver := Serial {
  iqueue : io_queue_t;
  oqueue : io_queue_t;
  sent : list Z;
  flags : list flag
}.

Definition in_lens : lens SerialDriver io_queue_t := Lens iqueue (fun q d => Serial q (oqueue d) (sent d) (flags d)).
Definition out_lens : lens SerialDriver io_queue_t := Lens oqueue (fun q d => Serial (iqueue d) q (sent d) (flags d)).
Definition chnAddFlagsI (f : flag) : M SerialDriver unit :=
  modify (fun d => Serial (iqueue d) (oqueue d) (sent d) (flags d ++ [f])).

Definition sdIncomingDataI (b : Z) : M SerialDriver unit :=
  let! d := get in
  (if iqIsEmptyI (iqueue d) then chnAddFlagsI CHN_INPUT_AVAILABLE else ret tt) ;;;
  let! r := zoom in_lens (iqPutI b) in
  if decide (r < MSG_OK) then chnAddFlagsI SD_QUEUE_FULL_ERROR else ret tt.

(** The transmit part of [sd_lld_serve_interrupt], one turn of its loop: a byte of
    the output queue goes to the data register, and so on the line; with the queue
    empty the channel is told and the interrupt source is switched off. *)
Definition tx_interrupt : M SerialDriver unit :=
  let! b := zoom out_lens oqGetI in
  if decide (b < MSG_OK) then chnAddFlagsI CHN_OUTPUT_EMPTY
  else modify (fun d => Serial (iqueue d) (oqueue d) (sent d ++ [b]) (flags d)).

Fixpoint tx_interrupts (k : nat) : M SerialDriver unit :=
  match k with O => ret tt | S k => tx_interrupt ;;; tx_interrupts k end.

Fixpoint rx_interrupts (bs : list Z) : M SerialDriver unit :=
  match bs with [] => ret tt | b :: bs => sdIncomingDataI b ;;; rx_interrupts bs end.

(** A copy of what fits, and the [k] transmit interrupts that come before the
    thread has the kernel lock again. *)
Definition oq_pass (k : nat) (bs : list Z) : M SerialDriver Z :=
  let! n := zoom out_lens (oq_write bs) in
  tx_interrupts k ;;;
  ret n.

(** [oqWriteTimeout]: one pass of the loop per element of [env], which says how
    many transmit interrupts come while the thread waits or has unlocked the
    kernel, and how a wait ends.  With [env] used up the thread still waits. *)
Fixpoint oqWriteTimeout_loop (env : list (nat * Z)) (bs : list Z) (done : Z) : M SerialDriver Z :=
  match bs with
  | [] => ret done
  | _ =>
      match env with
      | [] => hang
      | (k, msg) :: env =>
          let! n := oq_pass k bs in
          if decide (n = 0) then
            if decide (msg <> MSG_OK) then ret done else oqWriteTimeout_loop env bs done
          else oqWriteTimeout_loop env (drop (Z.to_nat n) bs) (done + n)
      end
  end.

Definition oqWriteTimeout (env : list (nat * Z)) (bs : list Z) : M SerialDriver Z :=
  assert (0 <? Z.of_nat (length bs)) "oqWriteTimeout" ;;;
  oqWriteTimeout_loop env bs 0.

(** [iqReadTimeout] of [n] bytes, with the bytes that arrive in each pass. *)
Fixpoint iqReadTimeout_loop (env : list (list Z * Z)) (n : Z) (got : list Z) : M SerialDriver (list Z) :=
  if decide (n <= 0) then ret got
  else
    match env with
    | [] => hang
    | (arrive, msg) :: env =>
        let! bs := zoom in_lens (iq_read n) in
        rx_interrupts arrive ;;;
        if decide (bs = []) then
          if decide (msg <> MSG_OK) then ret got else iqReadTimeout_loop env n got
        else iqReadTimeout_loop env (n - Z.of_nat (length bs)) (got ++ bs)
    end.

Definition iqReadTimeout (env : list (list Z * Z)) (n : Z) : M SerialDriver (list Z) :=
  assert (0 <? n) "iqReadTimeout" ;;;
  iqReadTimeout_loop env n [].

(** [iqGetTimeout] and [oqPutTimeout] wait while there is nothing to take, or no
    place. *)
Fixpoint iqGetTimeout (env : list (list Z * Z)) : M SerialDriver Z :=
  let! d := get in
  if iqIsEmptyI (iqueue d) then
    match env with
    | [] => hang
    | (arrive, msg) :: env =>
        rx_interrupts arrive ;;;
        if decide (msg < MSG_OK) then ret msg else iqGetTimeout env
    end
  else zoom in_lens iq_take.

Fixpoint oqPutTimeout (env : list (nat * Z)) (b : Z) : M SerialDriver Z :=
  let! d := get in
  if oqIsFullI (oqueue d) then
    match env with
    | [] => hang
    | (k, msg) :: env =>
        tx_interrupts k ;;;
        if decide (msg < MSG_OK) then ret msg else oqPutTimeout env b
    end
  else zoom out_lens (oq_store b) ;;; ret MSG_OK.

(** ** The buffer as a ring *)

(** The buffer read from position [p] on, around its end. *)
Definition rot {A} (p : nat) (l : list A) : list A := drop p l ++ take p l.

Lemma rot_length {A} p (l : list A) : length (rot p l) = length l.
Proof. unfold rot. rewrite length_app, length_drop, length_take. lia. Qed.

Lemma rot_rot {A} p n (l : list A) :
  (p < length l)%nat -> (n <= length l)%nat ->
  rot ((p + n) mod length l) l = drop n (rot p l) ++ take n (rot p l).
Proof.
  intros Hp Hn. unfold rot. destruct (decide (p + n < length l)%nat) as [Hlt|Hge].
  - rewrite Nat.mod_small by done. rewrite drop_app_le, take_app_le by (rewrite length_drop; lia).
    rewrite drop_drop, <- app_assoc. f_equal. symmetry. apply take_take_drop.
  - replace ((p + n) mod length l)%nat with (p + n - length l)%nat.
    2:{ apply (Nat.mod_unique _ _ 1); lia. }
    rewrite drop_app_ge, take_app_ge by (rewrite length_drop; lia). rewrite !length_drop.
    replace (n - (length l - p))%nat with (p + n - length l)%nat by lia.
    rewrite app_assoc. f_equal.
    + set (x := (p + n - length l)%nat). transitivity (drop x (take p l ++ drop p l)); [by rewrite take_drop|].
      rewrite drop_app_le by (rewrite length_take; lia). done.
    + rewrite take_take. f_equal. lia.
Qed.

(** The ring [buf] holds [q] from the read position [r] to the write position
    [w]. *)
Record holds (buf : list Z) (r w : Z) (q : list Z) : Prop := {
  h_size : 0 < Z.of_nat (length buf) < 2 ^ 31;
  h_rd : 0 <= r < Z.of_nat (length buf);
  h_room : (length q <= length buf)%nat;
  h_wr : w = ring (Z.of_nat (length buf)) r (Z.of_nat (length q));
  h_data : take (length q) (rot (Z.to_nat r) buf) = q
}.

Lemma ring_nat n p i : 0 <= p -> 0 < n -> Z.to_nat (ring n p (Z.of_nat i)) = ((Z.to_nat p + i) mod Z.to_nat n)%nat.
Proof. intros. unfold ring. rewrite Z2Nat.inj_mod, Z2Nat.inj_add by lia. by rewrite Nat2Z.id. Qed.

(** Taking [n] bytes from a ring, and what is left. *)
Lemma holds_take buf r w q n :
  holds buf r w q -> (n <= length q)%nat ->
  take n (rot (Z.to_nat r) buf) = take n q /\
  holds buf (ring (Z.of_nat (length buf)) r (Z.of_nat n)) w (drop n q).
Proof.
  intros [Hs Hr Hq Hw Hd] Hn. split.
  - rewrite <- Hd at 1. rewrite take_take. f_equal. lia.
  - constructor; [done|apply ring_range; lia|rewrite length_drop; lia| |].
    + rewrite Hw, ring_ring, length_drop by lia. f_equal. lia.
    + rewrite ring_nat, Nat2Z.id, rot_rot by lia. rewrite take_app_le by (rewrite !length_drop, rot_length; lia).
      rewrite length_drop. rewrite <- Hd at 2. by rewrite skipn_firstn_comm.
Qed.

(** Writing [bs] at the write position of a ring: [buf'] is [buf] with the
    places from there on replaced. *)
Lemma holds_put buf buf' r w q bs :
  holds buf r w q -> (length q + length bs <= length buf)%nat -> length buf' = length buf ->
  rot (Z.to_nat w) buf' = bs ++ drop (length bs) (rot (Z.to_nat w) buf) ->
  holds buf' r (ring (Z.of_nat (length buf)) w (Z.of_nat (length bs))) (q ++ bs).
Proof.
  intros [Hs Hr Hq Hw Hd] Hroom Hlen Hrot. subst w. set (N := length buf) in *.
  constructor; rewrite ?Hlen; [done|done|rewrite length_app; lia| |].
  - rewrite ring_ring, length_app by lia. f_equal. lia.
  - pose proof (rot_rot (Z.to_nat r) (length q) buf ltac:(fold N; lia) ltac:(fold N; lia)) as H1. fold N in H1.
    pose proof (rot_rot (Z.to_nat r) (length q) buf' ltac:(lia) ltac:(lia)) as H2. rewrite Hlen in H2.
    rewrite ring_nat, Nat2Z.id in Hrot by lia. rewrite H1, H2, Hd in Hrot. clear H1 H2.
    assert (Hx : length (rot (Z.to_nat r) buf') = N) by (by rewrite rot_length).
    set (X := rot (Z.to_nat r) buf) in *. assert (HX : length X = N) by apply rot_length.
    rewrite <- (take_drop (length q) (rot (Z.to_nat r) buf')).
    rewrite drop_app_le, app_assoc in Hrot by (rewrite length_drop; lia).
    apply app_inj_2 in Hrot as [Ha ->]; [|rewrite length_take, Hx; lia].
    rewrite Ha, length_app, app_assoc. by rewrite take_app_length' by (by rewrite length_app).
Qed.

(** ** Queues as lists *)

Definition iq_ok (q : io_queue_t) (xs : list Z) : Prop :=
  holds (q_buffer q) (q_rdptr q) (q_wrptr q) xs /\ q_counter q = Z.of_nat (length xs).
Definition oq_ok (q : io_queue_t) (xs : list Z) : Prop :=
  holds (q_buffer q) (q_rdptr q) (q_wrptr q) xs /\ q_counter q = qSizeX q - Z.of_nat (length xs).

Lemma ring_meets n r i : 0 <= r < n -> 0 <= i <= n -> ring n r i = r <-> i = 0 \/ i = n.
Proof.
  intros Hr Hi. split.
  - intros Heq. destruct (decide (i = n)) as [|Hne]; [by right|]. left.
    rewrite <- (ring_0 n r) in Heq at 2 by done. apply ring_inj in Heq; lia.
  - intros [-> | ->]; [by apply ring_0|]. replace n with (0 + n) at 2 by lia. rewrite ring_full by lia. by apply ring_0.
Qed.

(** The read and write positions meet in an empty and in a full ring. *)
Lemma holds_meet buf r w xs :
  holds buf r w xs -> (w =? r) = bool_decide (length xs = 0%nat \/ length xs = length buf).
Proof.
  intros [Hs Hr Hq -> _]. apply eq_bool_prop_intro. rewrite !Is_true_true, bool_decide_eq_true, Z.eqb_eq.
  rewrite ring_meets by lia. lia.
Qed.

Lemma iq_full q xs : iq_ok q xs -> iqIsFullI q = bool_decide (length xs = length (q_buffer q)).
Proof.
  intros [Hh Hc]. unfold iqIsFullI. rewrite (holds_meet _ _ _ _ Hh), Hc. destruct Hh as [Hs _ Hq _ _].
  destruct (Z.eqb_spec (Z.of_nat (length xs)) 0); cbn; repeat case_bool_decide; (done || lia).
Qed.

Lemma oq_empty q xs : oq_ok q xs -> oqIsEmptyI q = bool_decide (xs = []).
Proof.
  intros [Hh Hc]. unfold oqIsEmptyI, qSizeX in *. rewrite (holds_meet _ _ _ _ Hh), Hc. destruct Hh as [Hs _ Hq _ _].
  destruct xs as [|x xs]; cbn [length] in *.
  - rewrite bool_decide_true by auto. cbn. destruct (Z.eqb_spec (Z.of_nat (length (q_buffer q)) - Z.of_nat 0) 0); [lia|done].
  - destruct (Z.eqb_spec (Z.of_nat (length (q_buffer q)) - Z.of_nat (S (length xs))) 0); cbn;
      repeat case_bool_decide; (done || lia).
Qed.

Lemma rot_store p (buf : list Z) b :
  (p < length buf)%nat -> rot p (<[p := b]> buf) = b :: drop 1 (rot p buf).
Proof.
  intros Hp. unfold rot. rewrite take_insert_ge by lia. destruct (lookup_lt_is_Some_2 buf p Hp) as [x Hx].
  rewrite (drop_S buf x p) by done. rewrite (drop_S (<[p := b]> buf) b p) by (by apply list_lookup_insert_eq).
  by rewrite drop_insert_lt by lia.
Qed.

(** One byte in, one byte out. *)
Lemma holds_store buf r w xs b :
  holds buf r w xs -> (length xs < length buf)%nat ->
  exists buf', store buf w b = Some buf' /\ length buf' = length buf /\
    holds buf' r (if decide (Z.of_nat (length buf) <= w + 1) then 0 else w + 1) (xs ++ [b]).
Proof.
  intros Hh Hroom. pose proof Hh as [Hs Hr Hq Hw _].
  pose proof (ring_range (Z.of_nat (length buf)) r (Z.of_nat (length xs)) ltac:(lia)) as Hwr. rewrite <- Hw in Hwr.
  rewrite store_in by lia. eexists. split; [done|]. rewrite length_insert. split; [done|].
  rewrite ring_succ by lia. apply (holds_put buf _ r w xs [b] Hh); [cbn; lia|by rewrite length_insert|].
  rewrite rot_store by lia. done.
Qed.

Lemma holds_load buf r w x xs :
  holds buf r w (x :: xs) ->
  load buf r = Some x /\ holds buf (if decide (Z.of_nat (length buf) <= r + 1) then 0 else r + 1) w xs.
Proof.
  intros Hh. pose proof Hh as [Hs Hr Hq _ Hd]. destruct (holds_take buf r w (x :: xs) 1 Hh) as [Ht Hh']; [cbn; lia|].
  rewrite ring_succ by lia. split; [|done]. rewrite load_lookup by lia.
  destruct (lookup_lt_is_Some_2 buf (Z.to_nat r)) as [y Hy]; [lia|]. rewrite Hy. f_equal.
  unfold rot in Ht. rewrite (drop_S _ _ _ Hy) in Ht. by injection Ht.
Qed.

Lemma iq_ok_wake msg q xs : iq_ok q xs -> iq_ok (dequeue_next msg q) xs.
Proof. unfold dequeue_next. by destruct (q_waiting q). Qed.
Lemma oq_ok_wake msg q xs : oq_ok q xs -> oq_ok (dequeue_next msg q) xs.
Proof. unfold dequeue_next. by destruct (q_waiting q). Qed.

Lemma iqPutI_spec q xs b :
  iq_ok q xs ->
  wp (iqPutI b) (fun r q' => qSizeX q' = qSizeX q /\
     if decide (Z.of_nat (length xs) < qSizeX q) then r = MSG_OK /\ iq_ok q' (xs ++ [b])
     else r = MSG_TIMEOUT /\ q' = q) q.
Proof.
  intros Hq. unfold iqPutI. apply wp_bind, wp_get. rewrite (iq_full q xs Hq). destruct Hq as [Hh Hc].
  pose proof Hh as [Hs _ Hr _ _]. unfold qSizeX in *. case_bool_decide as Hfull; cbn [negb].
  { apply wp_ret. split; [done|]. rewrite decide_False by lia. done. }
  destruct (holds_store _ _ _ _ b Hh) as (buf & Hst & Hl & Hh'); [lia|].
  apply wp_bind. eapply wp_opt; [exact Hst|]. apply wp_bind. unfold wp at 1, put. apply wp_ret.
  split; [by unfold dequeue_next; cbn; destruct (q_waiting q); cbn; rewrite Hl|].
  rewrite decide_True by lia. split; [done|]. apply iq_ok_wake.
  split; [exact Hh'|]. cbn. rewrite Hc, u32_small, length_app by lia. cbn. lia.
Qed.

Lemma iq_take_spec q x xs : iq_ok q (x :: xs) -> wp iq_take (fun b q' => b = x /\ iq_ok q' xs /\ qSizeX q' = qSizeX q) q.
Proof.
  intros [Hh Hc]. unfold iq_take. apply wp_bind, wp_get. destruct (holds_load _ _ _ _ _ Hh) as [Hl Hh'].
  pose proof (h_room _ _ _ _ Hh). pose proof (h_size _ _ _ _ Hh).
  apply wp_bind. eapply wp_opt; [exact Hl|]. apply wp_bind. unfold wp at 1, put. apply wp_ret. split; [done|].
  split; [|done]. split; [exact Hh'|]. cbn in *. rewrite Hc, u32_small by lia. lia.
Qed.

Lemma iqGetI_spec q xs :
  iq_ok q xs ->
  wp iqGetI (fun b q' => match xs with
     | x :: xs' => b = x /\ iq_ok q' xs' /\ qSizeX q' = qSizeX q
     | [] => b = MSG_TIMEOUT /\ q' = q end) q.
Proof.
  intros Hq. unfold iqGetI, iqIsEmptyI. apply wp_bind, wp_get. pose proof Hq as [_ Hc]. rewrite Hc.
  destruct xs as [|x xs]; cbn [length]; [by apply wp_ret|].
  rewrite (proj2 (Z.eqb_neq _ _)) by lia. cbn [negb]. by apply iq_take_spec.
Qed.

(** ** Bulk transfers *)

Lemma copy_out_ok buf p n :
  0 <= p -> 0 <= n -> p + n <= Z.of_nat (length buf) ->
  copy_out buf p n = Some (take (Z.to_nat n) (drop (Z.to_nat p) buf)).
Proof. intros. unfold copy_out. by rewrite decide_True. Qed.

Lemma copy_in_ok buf p bs :
  0 <= p -> p + Z.of_nat (length bs) <= Z.of_nat (length buf) ->
  copy_in buf p bs = Some (take (Z.to_nat p) buf ++ bs ++ drop (Z.to_nat p + length bs) buf).
Proof. intros. unfold copy_in. by rewrite decide_True. Qed.

Lemma ring_below n p i : 0 <= p -> 0 <= i -> p + i < n -> ring n p i = p + i.
Proof. intros. unfold ring. apply Z.mod_small. lia. Qed.
Lemma ring_above n p i : p < n -> i <= n -> n <= p + i -> ring n p i = p + i - n.
Proof.
  intros. unfold ring. replace (p + i) with (p + i - n + 1 * n) by lia. rewrite Z.mod_add by lia.
  rewrite Z.mod_small by lia. lia.
Qed.

(** An input queue from which [m] bytes are gone. *)
Definition taken (m : Z) (q : io_queue_t) : io_queue_t :=
  set_counter (q_counter q - m) (set_rdptr (ring (qSizeX q) (q_rdptr q) m) q).

Lemma iq_read_spec q xs n :
  iq_ok q xs -> 0 < n ->
  wp (iq_read n) (fun bs q' => bs = take (Z.to_nat n) xs /\ iq_ok q' (drop (Z.to_nat n) xs) /\ qSizeX q' = qSizeX q /\
     q' = taken (Z.min n (Z.of_nat (length xs))) q) q.
Proof.
  intros [Hh Hc] Hn. unfold iq_read. apply wp_bind. unfold wp at 1, assert. rewrite (proj2 (Z.ltb_lt 0 n)) by done.
  cbn [ret]. apply wp_bind, wp_get. unfold iqGetFullI, qSizeX. rewrite Hc. pose proof Hh as [Hs Hr Hq _ _].
  set (m := if decide (n > Z.of_nat (length xs)) then _ else _). assert (Hm : m = Z.min n (Z.of_nat (length xs))) by (subst m; case_decide; lia).
  clearbody m. assert (Hnm : take (Z.to_nat n) xs = take (Z.to_nat m) xs /\ drop (Z.to_nat n) xs = drop (Z.to_nat m) xs).
  { destruct (decide (n <= Z.of_nat (length xs))); [by replace m with n by lia|].
    by rewrite !take_ge, !drop_ge by lia. }
  destruct Hnm as [-> ->]. destruct (holds_take _ _ _ _ (Z.to_nat m) Hh) as [Ht Hh']; [lia|].
  rewrite Z2Nat.id in Hh' by lia. rewrite <- Ht. unfold rot in *. set (buf := q_buffer q) in *. set (r := q_rdptr q) in *.
  apply wp_bind. apply (wp_conseq _ (fun x q1 => q1 = q /\
    x = (take (Z.to_nat m) (drop (Z.to_nat r) buf ++ take (Z.to_nat r) buf), ring (Z.of_nat (length buf)) r m))).
  { repeat case_decide.
    - apply wp_bind. eapply wp_opt; [apply copy_out_ok; lia|]. apply wp_ret. split; [done|].
      rewrite take_app_le by (rewrite length_drop; lia). by rewrite ring_below by lia.
    - apply wp_bind. eapply wp_opt; [apply copy_out_ok; lia|]. apply wp_bind. eapply wp_opt; [apply copy_out_ok; lia|].
      apply wp_ret. split; [done|]. rewrite take_app_ge, length_drop, take_take by (rewrite length_drop; lia).
      rewrite (take_ge (drop _ _)) by (rewrite length_drop; lia). cbn [Z.to_nat]. rewrite drop_0, ring_above by lia.
      f_equal; [|lia]. f_equal. f_equal. lia.
    - apply wp_bind. eapply wp_opt; [apply copy_out_ok; lia|]. apply wp_ret. split; [done|].
      rewrite take_app_le by (rewrite length_drop; lia). rewrite ring_above by lia. f_equal. lia. }
  intros ? q1 [-> ->]. apply wp_bind. unfold wp at 1, put. apply wp_ret. rewrite u32_small by lia.
  split; [done|]. split; [|split; [done|]].
  - split; [exact Hh'|]. cbn. rewrite length_drop. lia.
  - unfold taken. by rewrite Hc, <- Hm.
Qed.

(** The write, in one piece or around the end of the buffer. *)
Lemma rot_write w (buf bs : list Z) :
  (w + length bs <= length buf)%nat ->
  rot w (take w buf ++ bs ++ drop (w + length bs) buf) = bs ++ drop (length bs) (rot w buf).
Proof.
  intros Hl. unfold rot. rewrite drop_app_length', take_app_length' by (rewrite length_take; lia).
  rewrite drop_app_le by (rewrite length_drop; lia). by rewrite drop_drop, <- !app_assoc.
Qed.

Lemma rot_write_wrap w (buf b1 b2 : list Z) :
  (w + length b1 = length buf)%nat -> (length b2 <= w)%nat ->
  rot w (b2 ++ drop (length b2) (take w buf ++ b1)) = b1 ++ b2 ++ drop (length b1 + length b2) (rot w buf).
Proof.
  intros H1 H2. unfold rot. rewrite drop_app_ge, drop_drop, take_app_ge by lia.
  replace (length b2 + (w - length b2))%nat with w by lia.
  rewrite drop_app_length' by (rewrite length_take; lia). f_equal. f_equal.
  rewrite firstn_skipn_comm. replace (length b2 + (w - length b2))%nat with w by lia.
  rewrite take_app_length' by (rewrite length_take; lia).
  rewrite drop_app_ge, length_drop by (rewrite length_drop; lia). f_equal. lia.
Qed.

Lemma oq_write_spec q xs bs :
  oq_ok q xs -> bs <> [] ->
  wp (oq_write bs) (fun n q' => n = Z.min (Z.of_nat (length bs)) (qSizeX q - Z.of_nat (length xs)) /\
     oq_ok q' (xs ++ take (Z.to_nat n) bs) /\ qSizeX q' = qSizeX q) q.
Proof.
  intros [Hh Hc] Hne. assert (Hpos : 0 < Z.of_nat (length bs)) by (destruct bs; [done|cbn; lia]).
  unfold oq_write. apply wp_bind. unfold wp at 1, assert. rewrite (proj2 (Z.ltb_lt 0 _)) by done.
  cbn [ret]. apply wp_bind, wp_get. unfold oqGetEmptyI. rewrite Hc. pose proof Hh as [Hs Hr Hq Hw _]. unfold qSizeX in *.
  set (m := if decide (Z.of_nat (length bs) > _) then _ else _).
  assert (Hm : m = Z.min (Z.of_nat (length bs)) (Z.of_nat (length (q_buffer q)) - Z.of_nat (length xs)))
    by (subst m; case_decide; lia).
  clearbody m. pose proof (ring_range (Z.of_nat (length (q_buffer q))) (q_rdptr q) (Z.of_nat (length xs)) ltac:(lia)) as Hwr.
  rewrite <- Hw in Hwr. set (buf := q_buffer q) in *. set (w := q_wrptr q) in *. set (out := take (Z.to_nat m) bs).
  assert (Hout : Z.of_nat (length out) = m) by (subst out; rewrite length_take; lia). apply wp_bind.
  apply (wp_conseq _ (fun x q1 => q1 = q /\ length (fst x) = length buf /\
    rot (Z.to_nat w) (fst x) = out ++ drop (length out) (rot (Z.to_nat w) buf) /\ snd x = ring (Z.of_nat (length buf)) w m)).
  { repeat case_decide.
    - apply wp_bind. eapply wp_opt; [apply copy_in_ok; lia|]. apply wp_ret. cbn [fst snd]. split_and!; [done| | |].
      + rewrite !length_app, length_take, length_drop. lia.
      + apply rot_write. lia.
      + by rewrite ring_below by lia.
    - set (s1 := Z.of_nat (length buf) - w) in *.
      assert (H1 : length (take (Z.to_nat s1) out) = Z.to_nat s1) by (rewrite length_take; lia).
      assert (H2 : length (drop (Z.to_nat s1) out) = Z.to_nat (m - s1)) by (rewrite length_drop; lia).
      apply wp_bind. eapply wp_opt; [apply copy_in_ok; lia|]. rewrite (drop_ge buf) by lia. rewrite app_nil_r.
      apply wp_bind. eapply wp_opt; [apply copy_in_ok; rewrite ?length_app, ?length_take; lia|].
      apply wp_ret. cbn [fst snd]. change (Z.to_nat 0) with 0%nat. rewrite take_0. cbn [Nat.add app]. split_and!; [done| | |].
      + repeat rewrite ?length_app, ?length_drop, ?length_take. lia.
      + rewrite rot_write_wrap by lia. rewrite app_assoc, take_drop. f_equal. f_equal. lia.
      + rewrite ring_above by lia. lia.
    - apply wp_bind. eapply wp_opt; [apply copy_in_ok; lia|]. apply wp_ret. cbn [fst snd]. split_and!; [done| | |].
      + rewrite !length_app, length_take, length_drop. lia.
      + apply rot_write. lia.
      + rewrite ring_above by lia. lia. }
  intros [buf' w'] q1 (-> & Hl & Hrot & ->). cbn [fst snd] in *. apply wp_bind. unfold wp at 1, put. apply wp_ret.
  split; [done|]. split; [|cbn [q_buffer set_counter set_wrptr set_buffer]; lia]. split.
  - cbn [q_buffer q_rdptr q_wrptr set_counter set_wrptr set_buffer]. fold out. replace m with (Z.of_nat (length out)) by lia.
    apply (holds_put buf buf' (q_rdptr q) w xs out Hh); [lia|done|done].
  - cbn [q_buffer q_counter set_counter set_wrptr set_buffer qSizeX]. fold out.
    rewrite u32_small, length_app by lia. unfold qSizeX. cbn [q_buffer set_counter set_wrptr set_buffer]. lia.
Qed.

(** [n] times [iqGetI]. *)
Fixpoint gets (n : nat) : Q (list Z) :=
  match n with O => ret [] | S n => let! b := iqGetI in let! bs := gets n in ret (b :: bs) end.

Lemma gets_spec n q xs :
  iq_ok q xs -> (n <= length xs)%nat ->
  wp (gets n) (fun bs q' => bs = take n xs /\ q' = taken (Z.of_nat n) q) q.
Proof.
  revert q xs. induction n as [|n IH]; intros q xs Hq Hn.
  - apply wp_ret. split; [done|]. destruct Hq as [Hh Hc]. unfold taken. change (Z.of_nat 0) with 0.
    rewrite ring_0, Z.sub_0_r by apply Hh. by destruct q.
  - destruct xs as [|x xs]; cbn [length] in Hn; [lia|]. cbn [gets]. apply wp_bind.
    pose proof Hq as [Hh Hc]. pose proof Hh as [Hs Hr Hrm _ _]. cbn [length] in *.
    unfold iqGetI, iqIsEmptyI. apply wp_bind, wp_get. rewrite Hc, (proj2 (Z.eqb_neq _ _)) by lia. cbn [negb].
    destruct (holds_load _ _ _ _ _ Hh) as [Hl Hh'].
    unfold iq_take. apply wp_bind, wp_get, wp_bind. eapply wp_opt; [exact Hl|]. apply wp_bind. unfold wp at 1, put. apply wp_ret.
    rewrite Hc, u32_small by lia. unfold advance, qSizeX. apply wp_bind.
    eapply wp_conseq; [apply (IH _ xs); [|lia]|].
    { split; [exact Hh'|]. cbn [q_counter set_counter]. lia. }
    intros bs q' [-> ->]. apply wp_ret. split; [done|]. unfold taken, qSizeX.
    cbn [q_buffer q_rdptr q_counter set_counter set_rdptr]. rewrite ring_succ, ring_ring by lia.
    unfold set_counter, set_rdptr. cbn. f_equal; [lia|]. f_equal. lia.
Qed.

(** The bulk read of the input queue, which copies in one or two pieces
    around the end of the buffer, is the byte-wise read repeated: for every
    state of a queue and every length it returns the same bytes and leaves the
    same queue. *)
Theorem iq_read_is_repeated_get (q : io_queue_t) (xs : list Z) (n : Z) :
  iq_ok q xs -> 0 < n -> iq_read n q = gets (Z.to_nat (Z.min n (Z.of_nat (length xs)))) q.
Proof.
  intros Hq Hn. destruct (wp_run _ _ _ (iq_read_spec q xs n Hq Hn)) as (bs & q1 & -> & -> & _ & _ & ->).
  destruct (wp_run _ _ _ (gets_spec (Z.to_nat (Z.min n (Z.of_nat (length xs)))) q xs Hq ltac:(lia))) as (bs & q2 & -> & -> & ->).
  rewrite Z2Nat.id by lia. do 2 f_equal. destruct (decide (n <= Z.of_nat (length xs))).
  - by rewrite Z.min_l by done.
  - by rewrite !take_ge by lia.
Qed.

(** A queue of 8 bytes that wraps around. *)
Definition wrapped_queue : io_queue_t := IoQueue [] 5 [66; 67; 0; 0; 0; 68; 69; 65] 2 5 [].

Lemma iq_read_is_repeated_get_witness :
  iq_ok wrapped_queue [68; 69; 65; 66; 67] /\ iq_read 4 wrapped_queue = gets 4 wrapped_queue.
Proof.
  assert (H : iq_ok wrapped_queue [68; 69; 65; 66; 67]).
  { split; [|done]. constructor; cbn; try lia; reflexivity. }
  split; [exact H|]. apply (iq_read_is_repeated_get wrapped_queue [68; 69; 65; 66; 67] 4 H). lia.
Defined.

(** ** Transmission *)

Lemma oqGetI_spec q xs :
  oq_ok q xs ->
  wp oqGetI (fun b q' => qSizeX q' = qSizeX q /\ match xs with
     | x :: xs' => b = x /\ oq_ok q' xs'
     | [] => b = MSG_TIMEOUT /\ q' = q end) q.
Proof.
  intros Hq. unfold oqGetI. apply wp_bind, wp_get. rewrite (oq_empty q xs Hq). destruct Hq as [Hh Hc].
  destruct xs as [|x xs]; cbn [negb bool_decide]; [by apply wp_ret|]. rewrite bool_decide_false by done. cbn [negb].
  destruct (holds_load _ _ _ _ _ Hh) as [Hl Hh']. pose proof Hh as [Hs _ Hr _ _]. cbn [length] in *.
  apply wp_bind. eapply wp_opt; [exact Hl|]. apply wp_bind. unfold wp at 1, put. apply wp_ret. unfold qSizeX in *.
  split; [by unfold dequeue_next; cbn; destruct (q_waiting q)|]. split; [done|]. apply oq_ok_wake.
  split; [exact Hh'|]. unfold qSizeX. cbn [q_counter q_buffer set_counter set_rdptr]. rewrite Hc, u32_small by lia. lia.
Qed.

(** The line so far and the queue: [xs] waits behind what was sent. *)
Definition queued (d : SerialDriver) (xs : list Z) : Prop :=
  oq_ok (oqueue d) xs /\ Forall (fun b => 0 <= b) xs.

Lemma tx_interrupt_spec d xs :
  queued d xs ->
  wp tx_interrupt (fun _ d' => queued d' (drop 1 xs) /\ sent d' = sent d ++ take 1 xs /\
    qSizeX (oqueue d') = qSizeX (oqueue d)) d.
Proof.
  intros [Hq Hb]. unfold tx_interrupt. apply wp_bind, wp_zoom.
  eapply wp_conseq; [by apply oqGetI_spec|]. intros b q [Hsz H]. destruct xs as [|x xs]; destruct H as [-> H].
  - rewrite decide_True by done. unfold wp, chnAddFlagsI, modify. subst q. cbn. rewrite app_nil_r. by destruct d.
  - apply Forall_cons in Hb as [Hx Hb]. rewrite decide_False by (unfold MSG_OK; lia). unfold wp, modify. cbn. done.
Qed.

Lemma tx_interrupts_spec k d xs :
  queued d xs ->
  wp (tx_interrupts k) (fun _ d' => queued d' (drop k xs) /\ sent d' = sent d ++ take k xs /\
    qSizeX (oqueue d') = qSizeX (oqueue d)) d.
Proof.
  revert d xs. induction k as [|k IH]; intros d xs Hq; [cbn; by rewrite app_nil_r|].
  cbn [tx_interrupts]. apply wp_bind. eapply wp_conseq; [by apply tx_interrupt_spec|]. intros ? d1 (Hq1 & Hs1 & Hz1).
  eapply wp_conseq; [by apply IH|]. intros ? d2 (Hq2 & Hs2 & Hz2). rewrite drop_drop in Hq2.
  split; [done|]. split; [|by rewrite Hz2]. rewrite Hs2, Hs1, <- app_assoc. f_equal.
  change (S k) with (1 + k)%nat. apply take_take_drop.
Qed.

(** One pass of the write loop. *)
Lemma write_pass k d xs bs :
  queued d xs -> bs <> [] -> Forall (fun b => 0 <= b) bs ->
  wp (oq_pass k bs)
     (fun n d' => n = Z.min (Z.of_nat (length bs)) (qSizeX (oqueue d) - Z.of_nat (length xs)) /\ 0 <= n /\
        qSizeX (oqueue d') = qSizeX (oqueue d) /\
        queued d' (drop k (xs ++ take (Z.to_nat n) bs)) /\ sent d' = sent d ++ take k (xs ++ take (Z.to_nat n) bs)) d.
Proof.
  intros [Hq Hx] Hne Hb. apply wp_bind, wp_zoom. pose proof (h_room _ _ _ _ (proj1 Hq)) as Hroom.
  eapply wp_conseq; [by apply oq_write_spec|]. intros n q (Hn & Hq' & Hsz).
  apply wp_bind. eapply wp_conseq; [apply (tx_interrupts_spec k _ (xs ++ take (Z.to_nat n) bs))|].
  { split; [done|]. apply Forall_app. split; [done|]. by apply Forall_take. }
  intros ? d' (Hq2 & Hs2 & Hz2). apply wp_ret. cbn [view over out_lens oqueue sent] in *. unfold qSizeX in *.
  split; [done|]. split; [lia|]. split; [by rewrite Hz2|done].
Qed.

(** What a write reports: [n] of the bytes were accepted, the line and the queue
    have them behind what was there, and fewer than all of them only if a wait
    ended with an error. *)
Definition accepted (env : list (nat * Z)) (d : SerialDriver) (xs bs : list Z) (n : Z) (d' : SerialDriver) : Prop :=
  0 <= n <= Z.of_nat (length bs) /\
  (exists xs', queued d' xs' /\ sent d' ++ xs' = sent d ++ xs ++ take (Z.to_nat n) bs) /\
  (n < Z.of_nat (length bs) -> Exists (fun e => snd e <> MSG_OK) env).

Lemma accepted_none env d xs bs d' xs' :
  queued d' xs' -> sent d' ++ xs' = sent d ++ xs -> (bs <> [] -> Exists (fun e => snd e <> MSG_OK) env) ->
  accepted env d xs bs 0 d'.
Proof.
  intros Hq Hs He. split; [lia|]. split; [|destruct bs; cbn; [lia|intros; by apply He]].
  exists xs'. cbn. by rewrite app_nil_r.
Qed.

Lemma write_loop_accounts env : forall d xs bs done,
  queued d xs -> Forall (fun b => 0 <= b) bs ->
  safe (oqWriteTimeout_loop env bs done) (fun r d' => accepted env d xs bs (r - done) d') d.
Proof.
  induction env as [|[k msg] env IH]; intros d xs bs done Hq Hb; (destruct bs as [|b bs']; [|try exact I]).
  1,2: apply safe_ret; cbv beta; rewrite Z.sub_diag; by apply (accepted_none _ _ _ _ _ xs).
  cbn [oqWriteTimeout_loop]. set (bs := b :: bs') in *. apply safe_bind.
  eapply safe_conseq; [apply wp_safe, write_pass; [exact Hq|done|done]|].
  intros n d1 (Hn & Hn0 & _ & Hq1 & Hs1).
  assert (Hall : sent d1 ++ drop k (xs ++ take (Z.to_nat n) bs) = sent d ++ xs ++ take (Z.to_nat n) bs).
  { by rewrite Hs1, <- app_assoc, take_drop. }
  case_decide as Hz; [case_decide as Hm|].
  - apply safe_ret. cbv beta. rewrite Z.sub_diag. rewrite Hz in Hall, Hq1. cbn [Z.to_nat] in Hall, Hq1.
    rewrite take_0, app_nil_r in Hall, Hq1. eapply accepted_none; [exact Hq1|exact Hall|]. intros _. by apply Exists_cons_hd.
  - eapply safe_conseq; [by apply (IH d1 _ bs done Hq1)|]. intros r d2 (Hr & (xs2 & Hq2 & Hs2) & He).
    split; [done|]. split; [|intros; by apply Exists_cons_tl, He]. exists xs2. split; [done|].
    rewrite Hs2, app_assoc, Hall, Hz. cbn [Z.to_nat]. by rewrite take_0, app_nil_r, app_assoc.
  - eapply safe_conseq; [apply (IH d1 _ _ _ Hq1); by apply Forall_drop|].
    intros r d2 (Hr & (xs2 & Hq2 & Hs2) & He). rewrite length_drop in *. split; [lia|].
    split; [|intros; apply Exists_cons_tl, He; lia]. exists xs2. split; [done|].
    rewrite Hs2, app_assoc, Hall, <- !app_assoc. do 2 f_equal. rewrite take_take_drop. f_equal. lia.
Qed.

(** Interrupts that come in every pass keep the write going: after the first
    pass the queue is never full. *)
Lemma write_loop_returns env : forall d xs bs done,
  queued d xs -> Forall (fun b => 0 <= b) bs -> Forall (fun e : nat * Z => (0 < fst e)%nat /\ snd e = MSG_OK) env ->
  (length bs + (if decide (Z.of_nat (length xs) < qSizeX (oqueue d))%Z then 0 else 1) <= length env)%nat ->
  wp (oqWriteTimeout_loop env bs done) (fun _ _ => True) d.
Proof.
  induction env as [|[k msg] env IH]; intros d xs bs done Hq Hb He Hlen; (destruct bs as [|b bs']; [by apply wp_ret|]).
  { cbn [length] in Hlen. lia. }
  apply Forall_cons in He as [[Hk Hmsg] He]. cbn [fst snd] in *. subst msg.
  cbn [oqWriteTimeout_loop]. set (bs := b :: bs') in *. apply wp_bind.
  eapply wp_conseq; [apply write_pass; [exact Hq|done|done]|]. intros n d1 (Hn & Hn0 & Hz1 & Hq1 & _).
  pose proof (h_room _ _ _ _ (proj1 (proj1 Hq))) as Hroom. pose proof (h_size _ _ _ _ (proj1 (proj1 Hq))) as Hsize.
  assert (Hfree : Z.of_nat (length (drop k (xs ++ take (Z.to_nat n) bs))) < qSizeX (oqueue d1)).
  { rewrite length_drop, length_app, length_take, Hz1. unfold qSizeX in *. lia. }
  destruct (decide (n = 0)) as [Hz|Hz]; [rewrite decide_False by (intros Hx; by apply Hx)|].
  - eapply wp_conseq; [apply (IH d1 _ bs done Hq1 Hb He)|done]. rewrite decide_True by done.
    destruct (decide (Z.of_nat (length xs) < qSizeX (oqueue d))); [|cbn [length] in Hlen; lia].
    subst bs. cbn [length] in Hn. lia.
  - eapply wp_conseq; [apply (IH d1 _ _ _ Hq1); [by apply Forall_drop|done|]|done]. rewrite decide_True by done.
    rewrite length_drop. cbn [length] in Hlen. lia.
Qed.

Lemma safe_wp {S A} (m : M S A) (Q : A -> S -> Prop) s : safe m Q s -> wp m (fun _ _ => True) s -> wp m Q s.
Proof. unfold safe, wp. by destruct (m s) as [[]| |]. Qed.

Lemma write_accounts env d xs bs :
  queued d xs -> bs <> [] -> Forall (fun b => 0 <= b) bs ->
  safe (oqWriteTimeout env bs) (accepted env d xs bs) d.
Proof.
  intros Hq Hne Hb. unfold oqWriteTimeout. apply safe_bind, safe_assert.
  - apply Z.ltb_lt. destruct bs; [done|cbn [length]; lia].
  - eapply safe_conseq; [by apply write_loop_accounts|]. intros r d'. cbv beta. by rewrite Z.sub_0_r.
Qed.

(** C23: A write to a serial port puts its data on the line in order: whatever
    the transmit interrupts do, the bytes sent and still queued afterwards are
    those before, followed by the first [n] bytes written, where [n] is the
    number returned; less than everything is accepted only when a wait ended
    with a time-out or reset.  The write returns as soon as one transmit
    interrupt comes in each of [length bs + 1] passes. *)
Theorem serial_write_delivers (env : list (nat * Z)) (d : SerialDriver) (xs bs : list Z) :
  queued d xs -> bs <> [] -> Forall (fun b => 0 <= b) bs ->
  safe (oqWriteTimeout env bs) (accepted env d xs bs) d /\
  (Forall (fun e => (0 < fst e)%nat /\ snd e = MSG_OK) env -> (length bs < length env)%nat ->
   wp (oqWriteTimeout env bs) (fun n d' => n = Z.of_nat (length bs) /\
     exists xs', queued d' xs' /\ sent d' ++ xs' = sent d ++ xs ++ bs) d).
Proof.
  intros Hq Hne Hb. pose proof (write_accounts env d xs bs Hq Hne Hb) as Hacc.
  split; [done|]. intros He Hlen. apply (wp_conseq _ (accepted env d xs bs)).
  - apply safe_wp; [done|]. unfold oqWriteTimeout. apply wp_bind. unfold wp at 1, assert.
    rewrite (proj2 (Z.ltb_lt 0 _)) by (destruct bs; [done|cbn [length]; lia]). cbn [ret].
    eapply write_loop_returns; [done|done|done|]. case_decide; lia.
  - intros n d' (Hn & (xs' & Hq' & Hs) & Hless). assert (Hall : n = Z.of_nat (length bs)).
    { destruct (decide (n < Z.of_nat (length bs))) as [Hlt|]; [|lia]. apply Hless, Exists_exists in Hlt as (e & He1 & He2).
      rewrite Forall_forall in He. by destruct (He e He1). }
    split; [done|]. exists xs'. split; [done|]. by rewrite Hs, Hall, Nat2Z.id, take_ge by lia.
Qed.

(** A port with an output queue of 4 bytes, and seven bytes written to it while
    one byte leaves in each pass. *)
Definition small_port : SerialDriver := Serial (iqObjectInit (replicate 4 0)) (oqObjectInit (replicate 4 0)) [] [].

Lemma serial_write_delivers_witness :
  queued small_port [] /\
  wp (oqWriteTimeout (replicate 8 (1%nat, MSG_OK)) [1; 2; 3; 4; 5; 6; 7]) (fun n d' => n = 7 /\
     exists xs', queued d' xs' /\ sent d' ++ xs' = [1; 2; 3; 4; 5; 6; 7]) small_port.
Proof.
  assert (H : queued small_port []).
  { split; [|done]. split; [|done]. constructor; cbn; try lia; reflexivity. }
  split; [exact H|].
  refine (proj2 (serial_write_delivers (replicate 8 (1%nat, MSG_OK)) small_port [] [1; 2; 3; 4; 5; 6; 7] H _ _) _ _).
  - discriminate.
  - repeat constructor; lia.
  - repeat constructor; cbn; lia.
  - cbn; lia.
Defined.

(** ** Reception *)

(** Bytes lost because the input queue was full, as the event flags tell. *)
Definition overruns (d : SerialDriver) : nat := length (filter (fun f => f = SD_QUEUE_FULL_ERROR) (flags d)).

(** From [d], with [xs] in the input queue, to [d'] with [xs'], the bytes
    [arrived] came in: those kept stand behind [xs], in order, and every other
    one raised the flag. *)
Definition received (d : SerialDriver) (xs arrived : list Z) (d' : SerialDriver) (xs' : list Z) : Prop :=
  iq_ok (iqueue d') xs' /\
  exists kept, kept `sublist_of` arrived /\ xs' = xs ++ kept /\
    (overruns d + length arrived = overruns d' + length kept)%nat.

Lemma sdIncomingDataI_spec d xs b :
  iq_ok (iqueue d) xs ->
  wp (sdIncomingDataI b) (fun _ d' => exists xs', received d xs [b] d' xs') d.
Proof.
  intros Hq. unfold sdIncomingDataI. apply wp_bind, wp_get, wp_bind.
  apply (wp_conseq _ (fun _ d1 => iqueue d1 = iqueue d /\ overruns d1 = overruns d)).
  { destruct (iqIsEmptyI (iqueue d)); [|by apply wp_ret]. unfold wp, chnAddFlagsI, modify. split; [done|].
    unfold overruns. cbn [flags]. by rewrite filter_app, length_app, Nat.add_0_r. }
  intros ? d1 [Hq1 Ho1]. apply wp_bind, wp_zoom. cbn [view in_lens]. rewrite Hq1.
  eapply wp_conseq; [by apply iqPutI_spec|]. intros r q [_ H]. case_decide as Hroom; destruct H as [-> H].
  - rewrite decide_False by done. apply wp_ret. eexists. split; [exact H|]. exists [b].
    split; [done|]. split; [done|]. cbn. unfold overruns in *. cbn. lia.
  - rewrite decide_True by done. subst q. unfold wp, chnAddFlagsI, modify. exists xs. split; [done|]. exists [].
    split; [by repeat constructor|]. split; [by rewrite app_nil_r|].
    rewrite <- Ho1. unfold overruns. cbn [flags over in_lens length]. rewrite filter_app, length_app.
    change (length (filter _ [SD_QUEUE_FULL_ERROR])) with 1%nat. lia.
Qed.

Lemma received_trans d xs a1 d1 xs1 a2 d2 xs2 :
  received d xs a1 d1 xs1 -> received d1 xs1 a2 d2 xs2 -> received d xs (a1 ++ a2) d2 xs2.
Proof.
  intros (_ & k1 & Hs1 & -> & Ho1) (Hq & k2 & Hs2 & -> & Ho2). split; [done|]. exists (k1 ++ k2).
  split; [by apply sublist_app|]. split; [by rewrite app_assoc|]. rewrite !length_app. lia.
Qed.

Lemma received_nil d xs : iq_ok (iqueue d) xs -> received d xs [] d xs.
Proof. intros Hq. split; [done|]. exists []. by rewrite app_nil_r. Qed.

Lemma rx_interrupts_spec bs : forall d xs,
  iq_ok (iqueue d) xs -> wp (rx_interrupts bs) (fun _ d' => exists xs', received d xs bs d' xs') d.
Proof.
  induction bs as [|b bs IH]; intros d xs Hq; [apply wp_ret; exists xs; by apply received_nil|].
  cbn [rx_interrupts]. apply wp_bind. eapply wp_conseq; [by apply sdIncomingDataI_spec|]. intros ? d1 (xs1 & H1).
  eapply wp_conseq; [apply (IH d1 xs1), H1|]. intros ? d2 (xs2 & H2). exists xs2. by apply (received_trans _ _ [b] _ _ bs _ _ H1).
Qed.

(** Reading takes from the front: what was read before stands in front of the
    queue. *)
Definition read_so_far (env : list (list Z * Z)) (d : SerialDriver) (xs : list Z) (n : Z) (got : list Z) (d' : SerialDriver) : Prop :=
  Z.of_nat (length got) <= n /\
  (exists passes kept xs', iq_ok (iqueue d') xs' /\ got ++ xs' = xs ++ kept /\
     kept `sublist_of` concat (map fst (take passes env)) /\
     (overruns d + length (concat (map fst (take passes env))) = overruns d' + length kept)%nat).

Lemma read_nothing env d xs n : iq_ok (iqueue d) xs -> 0 <= n -> read_so_far env d xs n [] d.
Proof. intros Hq Hn. split; [done|]. exists 0%nat, [], xs. split; [done|]. cbn. by rewrite app_nil_r. Qed.

(** One more pass in front. *)
Lemma read_more a msg env d xs n bs d1 xs1 got d' :
  received d (drop (length bs) xs) a d1 xs1 -> bs = take (length bs) xs ->
  Z.of_nat (length bs) <= n ->
  read_so_far env d1 xs1 (n - Z.of_nat (length bs)) got d' ->
  read_so_far ((a, msg) :: env) d xs n (bs ++ got) d'.
Proof.
  intros (_ & k1 & Hs1 & -> & Ho1) Hbs Hn (Hg & m & k2 & xs2 & Hq2 & He2 & Hs2 & Ho2).
  unfold read_so_far. rewrite length_app. split; [lia|].
  exists (S m), (k1 ++ k2), xs2. split; [done|]. cbn [take map concat fst]. split; [|split].
  - rewrite <- app_assoc, He2, !app_assoc. do 2 f_equal. rewrite Hbs at 1. apply take_drop.
  - by apply sublist_app.
  - rewrite !length_app. lia.
Qed.

Lemma read_loop_accounts env : forall d xs n got,
  iq_ok (iqueue d) xs -> 0 <= n ->
  safe (iqReadTimeout_loop env n got) (fun r d' => exists bs, r = got ++ bs /\ read_so_far env d xs n bs d' /\
    (Z.of_nat (length bs) < n -> Exists (fun e => snd e <> MSG_OK) env)) d.
Proof.
  induction env as [|[a msg] env IH]; intros d xs n got Hq Hn; cbn [iqReadTimeout_loop]; (case_decide; [|try exact I]).
  1,2: apply safe_ret; exists []; rewrite app_nil_r; split; [done|]; split; [by apply read_nothing|cbn [length]; lia].
  apply safe_bind, safe_zoom. eapply safe_conseq; [apply wp_safe, (iq_read_spec _ xs); [done|lia]|].
  intros bs q (Hbs & Hq1 & _ & _). apply safe_bind.
  eapply safe_conseq; [apply wp_safe, (rx_interrupts_spec a _ (drop (Z.to_nat n) xs)), Hq1|]. intros ? d1 (xs1 & Hr).
  assert (Hlen : Z.of_nat (length bs) <= n) by (rewrite Hbs, length_take; lia).
  assert (Hpre : bs = take (length bs) xs) by (rewrite Hbs at 1; rewrite Hbs, length_take; by rewrite <- take_take, firstn_all).
  assert (Hr' : received d (drop (length bs) xs) a d1 xs1).
  { replace (drop (length bs) xs) with (drop (Z.to_nat n) xs); [exact Hr|]. rewrite Hbs, length_take.
    destruct (decide (Z.to_nat n <= length xs)%nat); [by rewrite Nat.min_l by done|]. by rewrite !drop_ge by lia. }
  assert (Hgo : forall got' d', read_so_far env d1 xs1 (n - Z.of_nat (length bs)) got' d' -> read_so_far ((a, msg) :: env) d xs n (bs ++ got') d').
  { intros got' d'. by apply (read_more a msg env d xs n bs d1 xs1). }
  assert (Hq2 : iq_ok (iqueue d1) xs1) by apply Hr'.
  case_decide as Hz; [subst bs; rewrite Hz in Hgo; cbn [length] in Hgo; rewrite Z.sub_0_r in Hgo; case_decide as Hm|].
  - apply safe_ret. exists []. rewrite app_nil_r. split; [done|]. split; [by apply (Hgo []), read_nothing|].
    intros _. by apply Exists_cons_hd.
  - eapply safe_conseq; [by apply (IH d1 xs1 n got)|]. intros r d' (bs & -> & Hs & He). exists bs. split; [done|].
    split; [by apply (Hgo bs)|]. intros. by apply Exists_cons_tl, He.
  - eapply safe_conseq; [apply (IH d1 xs1); [done|lia]|]. intros r d' (bs2 & -> & Hs & He). exists (bs ++ bs2).
    split; [by rewrite app_assoc|]. split; [by apply Hgo|]. rewrite length_app. intros. apply Exists_cons_tl, He. lia.
Qed.


