(* ===== verification/Msp.v ===== *)
(** * MSP telemetry frames

    [MSP__createMspFrame] ([src/src/drivers/msp.c]) writes a frame into a pool
    object ([poolStreamObject_t], [src/src/threads/pools.h]):
    ["$M<"], payload length, command, the 32-bit arguments big endian, and the
    xor of everything after the header.  The frame is proved to round-trip
    through a reference receiver, to fit the object exactly up to four
    arguments, and to betray any single altered byte. *)

From S2P Require Import Prelude.

Definition STREAM_MESSAGE_SIZE : Z := 23.
Definition HC12_HW_ID_OFFSET : Z := 0.

(** [poolStreamObject_t]: 23 message bytes and their count. *)
Record poolStreamObject_t := StreamObject {
  message : list Z;
  size : Z
}.

Definition set_message (m : list Z) (o : poolStreamObject_t) : poolStreamObject_t :=
  StreamObject m (size o).
Definition set_size (n : Z) (o : poolStreamObject_t) : poolStreamObject_t :=
  StreamObject (message o) n.

(** "$M<" *)
Definition MSP_HEADER : list Z := [0x24; 0x4D; 0x3C].

(** The state of the function body: the message bytes and the local [crc];
    [p] is the offset of the write pointer in [message]. *)
Record frame_st := FrameSt { msg_bytes : list Z; pos : Z; crc : Z }.

(** [*p = b; p++], an error outside [message]. *)
Definition emit (b : Z) (st : frame_st) : option frame_st :=
  m ← store (msg_bytes st) (pos st) b;
  Some (FrameSt m (pos st + 1) (crc st)).

(** [crc ^= *p = b; p++] *)
Definition emit_crc (b : Z) (st : frame_st) : option frame_st :=
  st' ← emit b st;
  Some (FrameSt (msg_bytes st') (pos st') (Z.lxor (crc st') b)).

(** The four bytes of one argument, most significant first. *)
Definition emit_arg (v : Z) (st : frame_st) : option frame_st :=
  st ← emit_crc (u8 (Z.shiftr v 24)) st;
  st ← emit_crc (u8 (Z.shiftr v 16)) st;
  st ← emit_crc (u8 (Z.shiftr v 8)) st;
  emit_crc (u8 v) st.

(** [for (i = 0; i < argc; i++)] over [*argv++]; reading past [argv] is an
    error. *)
Fixpoint emit_args (argc : nat) (argv : list Z) (st : frame_st) : option frame_st :=
  match argc with
  | O => Some st
  | S n =>
      match argv with
      | [] => None
      | v :: vs => st ← emit_arg v st; emit_args n vs st
      end
  end.

(** [memcpy(streamObject->message, "$M<", 3)] *)
Definition copy_header (m : list Z) : option (list Z) :=
  m ← store m 0 0x24;
  m ← store m 1 0x4D;
  store m 2 0x3C.

Definition MSP__createMspFrame (o : poolStreamObject_t) (cmd0 : Z) (argc : nat)
    (argv : list Z) : option poolStreamObject_t :=
  m ← copy_header (message o);
  let len := u32 (Z.of_nat argc * 4) in
  let sz := u8 (6 + len) in
  let cmd := u8 (HC12_HW_ID_OFFSET + cmd0) in
  let crc0 := u8 (Z.lxor cmd len) in
  st ← emit (u8 len) (FrameSt m 3 crc0);
  st ← emit cmd st;
  st ← emit_args argc argv st;
  st ← emit (crc st) st;
  Some (StreamObject (msg_bytes st) sz).

(** ** Reference definitions *)

(** Big-endian bytes of a 32-bit value, and back. *)
Definition be32 (v : Z) : list Z :=
  [u8 (Z.shiftr v 24); u8 (Z.shiftr v 16); u8 (Z.shiftr v 8); u8 v].

Definition of_be32 (b3 b2 b1 b0 : Z) : Z :=
  Z.lor (Z.shiftl b3 24) (Z.lor (Z.shiftl b2 16) (Z.lor (Z.shiftl b1 8) b0)).

Definition xor_all (l : list Z) : Z := foldr Z.lxor 0 l.

(** The bytes the checksum covers, and the whole frame. *)
Definition frame_body (cmd : Z) (vs : list Z) : list Z :=
  [Z.of_nat (length vs) * 4; cmd] ++ concat (map be32 vs).
Definition frame_bytes (cmd : Z) (vs : list Z) : list Z :=
  MSP_HEADER ++ frame_body cmd vs ++ [xor_all (frame_body cmd vs)].

(** A receiver: header, length byte against the bytes received, checksum. *)
Fixpoint words (l : list Z) : option (list Z) :=
  match l with
  | [] => Some []
  | a :: b :: c :: d :: l' => ws ← words l'; Some (of_be32 a b c d :: ws)
  | _ => None
  end.

Definition msp_decode (f : list Z) : option (Z * list Z) :=
  match f with
  | h1 :: h2 :: h3 :: len :: cmd :: rest =>
      if decide ([h1; h2; h3] = MSP_HEADER /\ Z.of_nat (length rest) = len + 1 /\
                 xor_all (len :: cmd :: rest) = 0)
      then ws ← words (take (Z.to_nat len) rest); Some (cmd, ws)
      else None
  | _ => None
  end.

(** ** Lemmas *)

Lemma be32_byte v b : b ∈ be32 v -> byte_ok b.
Proof.
  unfold be32. rewrite !elem_of_cons, elem_of_nil.
  intros [->|[->|[->|[->|[]]]]]; apply byte_u8.
Qed.

Lemma of_be32_be32 v :
  0 <= v < 2 ^ 32 ->
  of_be32 (u8 (Z.shiftr v 24)) (u8 (Z.shiftr v 16)) (u8 (Z.shiftr v 8)) (u8 v) = v.
Proof.
  intros Hv. unfold of_be32. apply Z.bits_inj'. intros i Hi.
  rewrite !Z.lor_spec.
  assert (Hhi : 32 <= i -> Z.testbit v i = false).
  { intros. rewrite <- (Z.mod_small v (2 ^ 32)) by lia. by apply Z.mod_pow2_bits_high. }
  assert (Hb : forall k n, 0 <= k -> 0 <= n ->
    Z.testbit (Z.shiftl (u8 (Z.shiftr v k)) n) i
    = (n <=? i) && (i <? n + 8) && Z.testbit v (i - n + k)).
  { intros k n Hk Hn. rewrite Z.shiftl_spec by lia.
    destruct (Z.leb_spec n i); cbn.
    - rewrite testbit_u8, Z.shiftr_spec by lia. f_equal. lia.
    - by rewrite Z.testbit_neg_r by lia. }
  rewrite !Hb, testbit_u8 by lia.
  destruct (Z.lt_ge_cases i 32).
  2: { rewrite Hhi by lia. repeat (case_bool_decide || destruct (Z.ltb_spec i _)
       || destruct (Z.leb_spec _ i)); cbn; try lia; done. }
  replace (i - 24 + 24) with i by lia.
  replace (i - 16 + 16) with i by lia.
  replace (i - 8 + 8) with i by lia.
  destruct (Z.leb_spec 24 i), (Z.leb_spec 16 i), (Z.leb_spec 8 i),
    (Z.ltb_spec i (24 + 8)), (Z.ltb_spec i (16 + 8)), (Z.ltb_spec i (8 + 8)),
    (Z.ltb_spec i 8); try lia; cbn; by rewrite ?orb_false_r.
Qed.

Lemma xor_all_app l1 l2 : xor_all (l1 ++ l2) = Z.lxor (xor_all l1) (xor_all l2).
Proof.
  unfold xor_all. induction l1 as [|x l1 IH]; cbn; [by rewrite Z.lxor_0_l|].
  by rewrite IH, Z.lxor_assoc.
Qed.

Lemma words_be32 vs :
  Forall (fun v => 0 <= v < 2 ^ 32) vs -> words (concat (map be32 vs)) = Some vs.
Proof.
  induction 1 as [|v vs Hv _ IH]; cbn -[of_be32]; [done|].
  rewrite IH. cbn -[of_be32]. by rewrite of_be32_be32.
Qed.

Lemma be32_concat_length vs : length (concat (map be32 vs)) = (4 * length vs)%nat.
Proof. induction vs as [|v vs IH]; cbn in *; [done|]. rewrite IH. lia. Qed.

(** The message buffer [pre ++ suf] with the write pointer at the start of
    [suf]. *)
Definition at_frame (st : frame_st) (pre suf : list Z) (c : Z) : Prop :=
  msg_bytes st = pre ++ suf /\ pos st = Z.of_nat (length pre) /\ crc st = c.

Lemma emit_at st pre x suf c b :
  at_frame st pre (x :: suf) c ->
  exists st', emit b st = Some st' /\ at_frame st' (pre ++ [b]) suf c.
Proof.
  intros (Hm & Hp & Hc). unfold emit. rewrite Hm, Hp.
  rewrite store_in by (rewrite length_app; cbn; lia). cbn. eexists. split; [done|].
  unfold at_frame. cbn. split_and!; [|rewrite length_app; cbn; lia|done].
  rewrite Nat2Z.id, insert_app_r_alt, Nat.sub_diag by lia. cbn. by rewrite <- app_assoc.
Qed.

Lemma emit_full st pre c b : at_frame st pre [] c -> emit b st = None.
Proof.
  intros (Hm & Hp & _). unfold emit. rewrite Hm, Hp, store_out; [done|].
  rewrite app_nil_r. lia.
Qed.

Lemma emit_crc_at st pre x suf c b :
  at_frame st pre (x :: suf) c ->
  exists st', emit_crc b st = Some st' /\ at_frame st' (pre ++ [b]) suf (Z.lxor c b).
Proof.
  intros Hat. destruct (emit_at _ _ _ _ _ b Hat) as (st' & Hst & Hm & Hp & Hc).
  unfold emit_crc. rewrite Hst. cbn. eexists. split; [done|].
  unfold at_frame. cbn. by rewrite Hc.
Qed.

Lemma emit_arg_at st pre suf c v :
  (4 <= length suf)%nat -> at_frame st pre suf c ->
  exists st', emit_arg v st = Some st' /\
    at_frame st' (pre ++ be32 v) (drop 4 suf) (Z.lxor c (xor_all (be32 v))).
Proof.
  intros Hl Hat. destruct suf as [|a [|b [|d [|e suf]]]]; cbn in Hl; try lia.
  unfold emit_arg.
  edestruct emit_crc_at as (s1 & -> & H1); [exact Hat|]. cbn [mbind option_bind].
  edestruct emit_crc_at as (s2 & -> & H2); [exact H1|]. cbn [mbind option_bind].
  edestruct emit_crc_at as (s3 & -> & H3); [exact H2|]. cbn [mbind option_bind].
  edestruct emit_crc_at as (s4 & -> & H4); [exact H3|].
  eexists. split; [done|]. destruct H4 as (Hm & Hp & Hc).
  unfold at_frame. rewrite Hm, Hp, Hc. unfold be32, xor_all. cbn [foldr drop].
  rewrite Z.lxor_0_r, <- !app_assoc, <- !Z.lxor_assoc. done.
Qed.

Lemma emit_crc_full st pre c b : at_frame st pre [] c -> emit_crc b st = None.
Proof. intros Hat. unfold emit_crc. by rewrite (emit_full _ _ _ _ Hat). Qed.

Ltac emit_steps H :=
  let st := fresh "st" in
  let H' := fresh "H" in
  first
    [ erewrite emit_crc_full by exact H; cbn [mbind option_bind]
    | edestruct emit_crc_at as (st & -> & H'); [exact H|];
      cbn [mbind option_bind]; emit_steps H' ].

Lemma emit_arg_full st pre suf c v :
  (length suf < 4)%nat -> at_frame st pre suf c -> emit_arg v st = None.
Proof.
  intros Hl Hat. unfold emit_arg.
  destruct suf as [|a [|b [|d [|e suf]]]]; cbn in Hl; try lia; by emit_steps Hat.
Qed.

Lemma emit_args_at argc argv st pre suf c :
  (argc <= length argv)%nat -> (4 * argc <= length suf)%nat -> at_frame st pre suf c ->
  exists st', emit_args argc argv st = Some st' /\
    at_frame st' (pre ++ concat (map be32 (take argc argv))) (drop (4 * argc) suf)
             (Z.lxor c (xor_all (concat (map be32 (take argc argv))))).
Proof.
  revert argv st pre suf c. induction argc as [|n IH]; intros argv st pre suf c Ha Hs Hat.
  - cbn. eexists. split; [done|]. by rewrite app_nil_r, drop_0, Z.lxor_0_r.
  - destruct argv as [|v vs]; cbn in Ha; [lia|].
    cbn [emit_args]. edestruct (emit_arg_at st) as (s1 & -> & H1); [|exact Hat|]; [lia|].
    cbn [mbind option_bind].
    edestruct (IH vs s1) as (s2 & Hs2 & H2); [lia| |exact H1|].
    { rewrite length_drop. lia. }
    exists s2. split; [done|]. cbn [take map concat].
    rewrite xor_all_app, <- Z.lxor_assoc, app_assoc.
    by replace (4 * S n)%nat with (4 + 4 * n)%nat by lia; rewrite <- drop_drop.
Qed.

Lemma emit_args_overflow argc argv st pre suf c :
  (length suf < 4 * argc)%nat -> at_frame st pre suf c -> emit_args argc argv st = None.
Proof.
  revert argv st pre suf c. induction argc as [|n IH]; intros argv st pre suf c Hs Hat; [lia|].
  destruct argv as [|v vs]; [done|]. cbn [emit_args].
  destruct (decide (4 <= length suf)%nat).
  - edestruct (emit_arg_at st) as (s1 & -> & H1); [|exact Hat|]; [lia|]. cbn [mbind option_bind].
    eapply IH; [|exact H1]. rewrite length_drop. lia.
  - rewrite (emit_arg_full st pre suf c v); [done|lia|done].
Qed.

(** The object after [memcpy] of the header: the write pointer is at 3. *)
Lemma copy_header_at m c :
  length m = 23%nat ->
  exists m', copy_header m = Some m' /\ at_frame (FrameSt m' 3 c) MSP_HEADER (drop 3 m) c.
Proof.
  intros Hl. destruct m as [|a [|b [|d m]]]; cbn in Hl; try lia.
  unfold copy_header. rewrite store_in by (cbn; lia). cbn [mbind option_bind].
  rewrite store_in by (rewrite length_insert; cbn; lia). cbn [mbind option_bind].
  rewrite store_in by (rewrite !length_insert; cbn; lia).
  eexists. split; [done|]. by unfold at_frame.
Qed.

(** The effect of the whole function within its bounds. *)
Lemma createMspFrame_spec o cmd argc argv :
  length (message o) = 23%nat -> byte_ok cmd -> (argc <= 4)%nat -> (argc <= length argv)%nat ->
  exists o', MSP__createMspFrame o cmd argc argv = Some o' /\
    message o' = frame_bytes cmd (take argc argv) ++ drop (6 + 4 * argc) (message o) /\
    size o' = 6 + 4 * Z.of_nat argc.
Proof.
  intros Hm Hcmd Hargc Hargv. unfold MSP__createMspFrame.
  set (len := u32 (Z.of_nat argc * 4)).
  assert (Hlen : len = Z.of_nat argc * 4) by (apply u32_small; lia).
  set (c0 := u8 (Z.lxor (u8 (HC12_HW_ID_OFFSET + cmd)) len)).
  assert (Hc : u8 (HC12_HW_ID_OFFSET + cmd) = cmd) by (apply u8_small; apply Hcmd).
  assert (Hc0 : c0 = Z.lxor cmd len).
  { unfold c0. rewrite Hc. apply u8_small, byte_lxor; [done|]. split; lia. }
  destruct (copy_header_at (message o) c0 Hm) as (m & -> & H0). cbn [mbind option_bind].
  assert (Hd : length (drop 3 (message o)) = 20%nat) by (rewrite length_drop; lia).
  destruct (drop 3 (message o)) as [|x1 [|x2 suf]] eqn:Hsuf; cbn in Hd; try lia.
  edestruct emit_at as (s1 & -> & H1); [exact H0|]. cbn [mbind option_bind].
  edestruct emit_at as (s2 & -> & H2); [exact H1|]. cbn [mbind option_bind].
  edestruct (emit_args_at argc argv s2) as (s3 & -> & H3); [done| |exact H2|]; [lia|].
  cbn [mbind option_bind].
  destruct (drop (4 * argc) suf) as [|x3 suf'] eqn:Hsuf'.
  { apply (f_equal length) in Hsuf'. rewrite length_drop in Hsuf'. cbn in Hsuf'. lia. }
  edestruct emit_at as (s4 & -> & H4); [exact H3|]. cbn [mbind option_bind].
  eexists. split; [done|]. cbn [message size].
  destruct H3 as (_ & _ & Hcrc), H4 as (Hmb & _ & _). split.
  - rewrite Hmb, Hcrc, Hc0, Hc, Hlen.
    replace (u8 (Z.of_nat argc * 4)) with (Z.of_nat argc * 4) by (symmetry; apply u8_small; lia).
    replace (drop (6 + 4 * argc) (message o)) with suf'.
    2: { replace (6 + 4 * argc)%nat with (3 + (2 + (4 * argc + 1)))%nat by lia.
         rewrite <- (drop_drop _ _ 3), Hsuf, <- (drop_drop _ _ 2), <- (drop_drop _ _ (4 * argc)).
         change (drop 2 (x1 :: x2 :: suf)) with suf. by rewrite Hsuf'. }
    unfold frame_bytes, frame_body. rewrite length_take, Nat.min_l by done.
    change (xor_all ([Z.of_nat argc * 4; cmd] ++ ?l))
      with (Z.lxor (Z.of_nat argc * 4) (Z.lxor cmd (xor_all l))).
    rewrite <- Z.lxor_assoc, (Z.lxor_comm cmd (Z.of_nat argc * 4)).
    by rewrite <- !app_assoc.
  - rewrite Hlen. rewrite u8_small; lia.
Qed.

Lemma frame_bytes_length cmd vs : length (frame_bytes cmd vs) = (6 + 4 * length vs)%nat.
Proof.
  unfold frame_bytes, frame_body. rewrite !length_app, be32_concat_length. cbn. lia.
Qed.

Lemma decode_frame cmd vs :
  Forall (fun v => 0 <= v < 2 ^ 32) vs -> msp_decode (frame_bytes cmd vs) = Some (cmd, vs).
Proof.
  intros Hvs. unfold frame_bytes, MSP_HEADER. cbn [app frame_body msp_decode].
  rewrite decide_True.
  - rewrite take_app_le, take_ge by (rewrite be32_concat_length; lia).
    rewrite words_be32 by done. done.
  - split_and!; [done| |].
    + rewrite length_app, be32_concat_length. cbn. lia.
    + change (xor_all (frame_body cmd vs ++ [xor_all (frame_body cmd vs)]) = 0).
      rewrite xor_all_app. cbn. by rewrite Z.lxor_0_r, Z.lxor_nilpotent.
Qed.

Lemma xor_all_insert l i x b :
  l !! i = Some x -> xor_all (<[i := b]> l) = Z.lxor (xor_all l) (Z.lxor x b).
Proof.
  revert i. induction l as [|y l IH]; intros [|i] H; cbn in H; simplify_eq.
  - cbn. fold (xor_all l). apply Z.bits_inj'. intros k _. rewrite !Z.lxor_spec.
    by destruct (Z.testbit x k), (Z.testbit b k), (Z.testbit (xor_all l) k).
  - cbn. fold (xor_all (<[i := b]> l)) (xor_all l). by rewrite IH, Z.lxor_assoc.
Qed.

(** ** Properties *)

(** The frame of a command and its arguments, sent and decoded. *)
Lemma frame_decodes (o : poolStreamObject_t) (cmd : Z) (argc : nat) (argv : list Z) :
  length (message o) = 23%nat -> byte_ok cmd -> (argc <= 4)%nat -> (argc <= length argv)%nat ->
  Forall (fun v => 0 <= v < 2 ^ 32) argv ->
  exists o', MSP__createMspFrame o cmd argc argv = Some o' /\
    msp_decode (take (Z.to_nat (size o')) (message o')) = Some (cmd, take argc argv).
Proof.
  intros Hm Hc H4 Ha Hvs.
  destruct (createMspFrame_spec o cmd argc argv) as (o' & Ho' & Hmsg & Hsz); try done.
  exists o'. split; [done|]. rewrite Hmsg, Hsz.
  rewrite take_app_length'.
  - apply decode_frame. by apply Forall_take.
  - rewrite frame_bytes_length, length_take. lia.
Qed.

(** C5: for a 23-byte message object, a byte command and at most four 32-bit
    arguments, [MSP__createMspFrame] succeeds and the [size] bytes it left in
    the object decode, in a receiver that checks header, length and checksum,
    to the same command and arguments. *)
Theorem msp_roundtrip (o : poolStreamObject_t) (cmd : Z) (argc : nat) (argv : list Z) :
  length (message o) = 23%nat -> byte_ok cmd -> (argc <= 4)%nat -> (argc <= length argv)%nat ->
  Forall (fun v => 0 <= v < 2 ^ 32) argv ->
  exists o', MSP__createMspFrame o cmd argc argv = Some o' /\
    msp_decode (take (Z.to_nat (size o')) (message o')) = Some (cmd, take argc argv).
Proof. apply frame_decodes. Qed.

Definition blank_object : poolStreamObject_t := StreamObject (replicate 23 0) 0.

Lemma msp_roundtrip_witness :
  exists o', MSP__createMspFrame blank_object 1 3 [12345; 55; 1013] = Some o' /\
    msp_decode (take (Z.to_nat (size o')) (message o')) = Some (1, [12345; 55; 1013]).
Proof.
  apply (msp_roundtrip blank_object 1 3 [12345; 55; 1013]);
    [reflexivity|split; lia|lia|cbn; lia|repeat constructor; lia].
Defined.

(** C6: the frame fits the 23-byte message exactly up to four arguments (the
    most any sensor thread sends); a fifth argument would write outside the
    object. *)
Theorem msp_fits (o : poolStreamObject_t) (cmd : Z) (argc : nat) (argv : list Z) :
  length (message o) = 23%nat -> byte_ok cmd -> (argc <= length argv)%nat ->
  (is_Some (MSP__createMspFrame o cmd argc argv) <-> (argc <= 4)%nat).
Proof.
  intros Hm Hc Ha. split.
  - intros [o' Ho']. destruct (decide (argc <= 4)%nat) as [|Hgt]; [done|exfalso].
    revert Ho'. unfold MSP__createMspFrame.
    set (c0 := u8 (Z.lxor _ _)).
    destruct (copy_header_at (message o) c0 Hm) as (m & -> & H0). cbn [mbind option_bind].
    assert (Hd : length (drop 3 (message o)) = 20%nat) by (rewrite length_drop; lia).
    destruct (drop 3 (message o)) as [|x1 [|x2 suf]]; cbn in Hd; try lia.
    edestruct emit_at as (s1 & -> & H1); [exact H0|]. cbn [mbind option_bind].
    edestruct emit_at as (s2 & -> & H2); [exact H1|]. cbn [mbind option_bind].
    destruct (decide (argc = 5 \/ 5 < argc)%nat) as [_|]; [|lia].
    by erewrite emit_args_overflow; [| |exact H2]; [|lia].
  - intros H4. destruct (createMspFrame_spec o cmd argc argv) as (o' & -> & _); eauto.
Qed.

Lemma msp_fits_witness :
  ~ is_Some (MSP__createMspFrame blank_object 1 5 [1; 2; 3; 4; 5]) /\
  (is_Some (MSP__createMspFrame blank_object 1 5 [1; 2; 3; 4; 5]) <-> (5 <= 4)%nat).
Proof.
  assert (H : is_Some (MSP__createMspFrame blank_object 1 5 [1; 2; 3; 4; 5])
              <-> (5 <= 4)%nat).
  { apply (msp_fits blank_object 1 5 [1; 2; 3; 4; 5]);
      [reflexivity|split; lia|cbn; lia]. }
  split; [|exact H]. intros Hs. apply H in Hs. lia.
Defined.

(** A frame with one byte altered does not decode. *)
Lemma altered_frame (cmd : Z) (vs : list Z) (i : nat) (x b : Z) :
  frame_bytes cmd vs !! i = Some x -> b <> x ->
  msp_decode (<[i := b]> (frame_bytes cmd vs)) = None.
Proof.
  intros Hi Hne.
  set (rest := concat (map be32 vs) ++ [xor_all (frame_body cmd vs)]).
  assert (Hrest : Z.of_nat (length rest) = Z.of_nat (length vs) * 4 + 1).
  { unfold rest. rewrite length_app, be32_concat_length. cbn. lia. }
  assert (Hxor : xor_all (Z.of_nat (length vs) * 4 :: cmd :: rest) = 0).
  { change (xor_all (frame_body cmd vs ++ [xor_all (frame_body cmd vs)]) = 0).
    rewrite xor_all_app. cbn. by rewrite Z.lxor_0_r, Z.lxor_nilpotent. }
  change (frame_bytes cmd vs)
    with (MSP_HEADER ++ (Z.of_nat (length vs) * 4 :: cmd :: rest)) in *.
  unfold MSP_HEADER in *.
  destruct i as [|[|[|i]]]; cbn [app lookup list_lookup insert list_insert msp_decode] in *;
    simplify_eq; try (rewrite decide_False; [done|]; intros [Hh _]; unfold MSP_HEADER in Hh; simplify_eq).
  destruct (decide (i = 0)%nat) as [->|Hi0].
  - cbn in Hi. simplify_eq. cbn. rewrite decide_False; [done|]. intros (_ & Hlen & _).
    lia.
  - pose proof (xor_all_insert _ _ _ b Hi) as Hx. rewrite Hxor, Z.lxor_0_l in Hx.
    assert (Hnz : Z.lxor x b <> 0) by (intros H%Z.lxor_eq; congruence).
    destruct i as [|[|i]]; [done| |]; cbn [insert list_insert] in *;
      cbn [msp_decode]; rewrite decide_False; try done; intros (_ & _ & H0); apply Hnz; by rewrite <- Hx.
Qed.

(** C7: the frames of [MSP__createMspFrame] carry enough redundancy to detect a
    damaged byte.  For a 23-byte message object, a byte command and at most four
    32-bit arguments the function leaves a frame in the object, and a receiver
    that checks header, length and checksum accepts the frame with the byte at
    any one position replaced only if the replacement is the byte that was
    there.  (The repository holds no receiver; [msp_decode] is the reference
    one of the round trip.) *)
Theorem msp_detects_single_byte_error (o : poolStreamObject_t) (cmd : Z) (argc : nat) (argv : list Z) :
  length (message o) = 23%nat -> byte_ok cmd -> (argc <= 4)%nat -> (argc <= length argv)%nat ->
  Forall (fun v => 0 <= v < 2 ^ 32) argv ->
  exists o', MSP__createMspFrame o cmd argc argv = Some o' /\
    let frame := take (Z.to_nat (size o')) (message o') in
    length frame = (6 + 4 * argc)%nat /\
    forall i x b, frame !! i = Some x ->
      (is_Some (msp_decode (<[i := b]> frame)) <-> b = x).
Proof.
  intros Hm Hc H4 Ha Hvs.
  destruct (createMspFrame_spec o cmd argc argv) as (o' & Ho' & Hmsg & Hsz); try done.
  exists o'. split; [done|]. rewrite Hmsg, Hsz.
  rewrite take_app_length' by (rewrite frame_bytes_length, length_take; lia). split.
  { rewrite frame_bytes_length, length_take. lia. }
  intros i x b Hi. split.
  - intros [d Hd]. destruct (decide (b = x)) as [|Hne]; [done|].
    by rewrite (altered_frame _ _ _ _ _ Hi Hne) in Hd.
  - intros ->. rewrite list_insert_id by done. rewrite decode_frame by (by apply Forall_take). done.
Qed.

Lemma msp_detects_single_byte_error_witness :
  exists o', MSP__createMspFrame blank_object 1 1 [513] = Some o' /\
    let frame := take (Z.to_nat (size o')) (message o') in
    length frame = 10%nat /\
    forall i x b, frame !! i = Some x ->
      (is_Some (msp_decode (<[i := b]> frame)) <-> b = x).
Proof.
  apply (msp_detects_single_byte_error blank_object 1 1 [513]);
    [reflexivity|split; lia|lia|cbn; lia|repeat constructor; lia].
Defined.
