(* ===== verification/Stream.v ===== *)
(** * The telemetry pipeline: pool, sensor threads, mailbox, radio thread

    [src/src/threads/pools.c] declares a pool of five message objects and a
    mailbox of five slots.  Each sensor thread allocates an object, writes an
    MSP frame into it and posts its address; the HC-12 thread
    ([hc12StreamThread]) fetches addresses, writes the frame and an end of
    line to the radio UART and frees the object.  Every kernel call and every
    access to an object is one step of a transition system in which any number
    of producer threads interleave with the consumer.

    The shell command [send] ([src/src/shell/shellCmd.c]) is one more producer:
    it copies its argument into an object and posts it.

    Proved by rule induction over reachable states: no step ever touches
    memory wrongly, an allocated frame is never dropped (a post cannot fail,
    because slots and objects are equally many), no object is lost or freed
    twice, and what the producers asked for reaches the UART intact, once, and
    in posting order. *)

From S2P Require Import Prelude Oslib Msp.
Import Pool Mbox.

Definition STREAM_TX_POOL_SIZE : nat := 5.

(** [sizeof(poolStreamObject_t)]: 23 message bytes and a count byte. *)
Definition sizeof_poolStreamObject : Z := 24.

(** End of line: [0x0a], [0x0d]. *)
Definition EOL : list Z := [0x0a; 0x0d].

(** Where the HC-12 thread is in its loop body.  [f] is the frame it fetched
    and [n1], [n2] the bytes the UART accepted of the frame and of the end of
    line. *)
Inductive cphase :=
  | CIdle
  | CFetched (p : Z)
  | CSent (p : Z) (f : list Z) (n1 : nat)
  | CEol (p : Z) (f : list Z) (n1 n2 : nat).

(** What a producer wants sent: a telemetry frame or the text of [send], and
    the bytes that stand for it. *)
Inductive content :=
  | Frame (cmd : Z) (vs : list Z)
  | Text (s : list Z).

Definition content_bytes (c : content) : list Z :=
  match c with Frame cmd vs => frame_bytes cmd vs | Text s => s end.

(** [held]: the [messagePoolObject] of a producer between allocation and post,
    and what is written into it already.  [asked], [posted] and [delivered]
    are the history of what the producers wanted sent, of the messages posted
    and of the messages finished. *)
Record sys := Sys {
  pool : pool_state;
  objs : gmap Z poolStreamObject_t;
  mail : mailbox_t;
  held : gmap nat (Z * option content);
  cons_pc : cphase;
  uart : list Z;
  asked : list content;
  posted : list (list Z);
  delivered : list (list Z * nat * nat)
}.

(** The bytes [chnWriteTimeout(channel, pbuf->message, pbuf->size, ..)] sends. *)
Definition frame_of (o : poolStreamObject_t) : list Z := take (Z.to_nat (size o)) (message o).

Definition pool_lens : lens sys pool_state :=
  Lens pool (fun p s => Sys p (objs s) (mail s) (held s) (cons_pc s) (uart s)
                            (asked s) (posted s) (delivered s)).
Definition mail_lens : lens sys mailbox_t :=
  Lens mail (fun m s => Sys (pool s) (objs s) m (held s) (cons_pc s) (uart s)
                            (asked s) (posted s) (delivered s)).

Definition set_objs x s :=
  Sys (pool s) x (mail s) (held s) (cons_pc s) (uart s) (asked s) (posted s) (delivered s).
Definition set_held x s :=
  Sys (pool s) (objs s) (mail s) x (cons_pc s) (uart s) (asked s) (posted s) (delivered s).
Definition set_cons x s :=
  Sys (pool s) (objs s) (mail s) (held s) x (uart s) (asked s) (posted s) (delivered s).
Definition add_uart x s :=
  Sys (pool s) (objs s) (mail s) (held s) (cons_pc s) (uart s ++ x) (asked s) (posted s) (delivered s).
Definition add_posted c x s :=
  Sys (pool s) (objs s) (mail s) (held s) (cons_pc s) (uart s) (asked s ++ [c]) (posted s ++ [x]) (delivered s).
Definition add_delivered x s :=
  Sys (pool s) (objs s) (mail s) (held s) (cons_pc s) (uart s) (asked s) (posted s) (delivered s ++ [x]).

(** ** Initialisation *)

(** [shared_pools_init]: the five objects start at [base]. *)
Definition shared_pools_init (base : Z) : M pool_state unit :=
  chPoolObjectInit sizeof_poolStreamObject None ;;;
  chPoolLoadArray base STREAM_TX_POOL_SIZE.

Definition streamPoolObject (base : Z) : list Z :=
  map (fun i => base + Z.of_nat i * sizeof_poolStreamObject) (seq 0 STREAM_TX_POOL_SIZE).

(** [MAILBOX_DECL(streamMail, &streamDataLetter, STREAM_TX_POOL_SIZE)] *)
Definition streamMail : mailbox_t :=
  Mailbox (replicate STREAM_TX_POOL_SIZE 0) 0 0 0 false [] [] [].

Definition initial (base : Z) (s : sys) : Prop :=
  exists p0 ps, shared_pools_init base p0 = Done (tt, ps) /\
  s = Sys ps (list_to_map (map (fun a => (a, blank_object)) (streamPoolObject base)))
          streamMail ∅ CIdle [] [] [] [].

(** ** Steps of a producer thread *)

(** [messagePoolObject = chPoolAlloc(&streamMemPool); if (messagePoolObject)] *)
Definition producer_alloc (t : nat) : M sys unit :=
  let! p := zoom pool_lens chPoolAlloc in
  if decide (p = NULL) then ret tt
  else modify (fun s => set_held (<[t := (p, None)]> (held s)) s).

(** [MSP__createMspFrame(messagePoolObject, id, argc, &streamBuff)] *)
Definition producer_fill (t : nat) (cmd : Z) (argc : nat) (argv : list Z) : M sys unit :=
  let! s := get in
  let! ph := lift_opt (held s !! t) "producer" in
  let! o := lift_opt (objs s !! fst ph) "object" in
  let! o' := lift_opt (MSP__createMspFrame o cmd argc argv) "frame" in
  put (set_objs (<[fst ph := o']> (objs s))
        (set_held (<[t := (fst ph, Some (Frame cmd (take argc argv)))]> (held s)) s)).

(** [strcpy] writes the characters and the zero, [strlen] reads up to it; both
    fail outside the array. *)
Fixpoint strcpy (dst src : list Z) : option (list Z) :=
  match dst, src with
  | [], _ => None
  | _ :: d, [] => Some (0 :: d)
  | _ :: d, c :: src => (fun m => c :: m) <$> strcpy d src
  end.

Fixpoint strlen (l : list Z) : option Z :=
  match l with
  | [] => None
  | c :: l => if decide (c = 0) then Some 0 else Z.succ <$> strlen l
  end.

(** [strcpy(messagePoolObject->message, argv[0]); size = strlen(message);] *)
Definition producer_text (t : nat) (arg : list Z) : M sys unit :=
  let! s := get in
  let! ph := lift_opt (held s !! t) "producer" in
  let! o := lift_opt (objs s !! fst ph) "object" in
  let! m := lift_opt (strcpy (message o) arg) "strcpy" in
  let! n := lift_opt (strlen m) "strlen" in
  put (set_objs (<[fst ph := StreamObject m (u8 n)]> (objs s))
        (set_held (<[t := (fst ph, Some (Text arg))]> (held s)) s)).

(** [chMBPostTimeout(&streamMail, messagePoolObject, TIME_IMMEDIATE)]; the
    status is not looked at. *)
Definition producer_post (t : nat) : M sys unit :=
  let! s := get in
  let! ph := lift_opt (held s !! t) "producer" in
  let! o := lift_opt (objs s !! fst ph) "object" in
  let! c := lift_opt (snd ph) "content" in
  let! r := zoom mail_lens (chMBPostTimeout (fun _ => hang) 1 (fst ph) TIME_IMMEDIATE) in
  modify (fun s => set_held (delete t (held s)) s) ;;;
  if decide (r = MSG_OK) then modify (add_posted c (frame_of o)) else ret tt.

(** ** Steps of the HC-12 thread *)

(** [chMBFetchTimeout(&streamMail, &pbuf, ..)]: on an empty mailbox the wait
    runs out ([MSG_TIMEOUT]) and the loop starts again; a message that arrives
    during the wait is a fetch in a later step. *)
Definition consumer_fetch : M sys unit :=
  let! r := zoom mail_lens (chMBFetchTimeout (fun _ => ret MSG_TIMEOUT) 1 300) in
  if decide (fst r = MSG_OK) then modify (set_cons (CFetched (snd r))) else ret tt.

(** [chnWriteTimeout(.., pbuf->message, pbuf->size, ..)], of which the UART
    accepts [n1] bytes. *)
Definition consumer_send (n1 : nat) : M sys unit :=
  let! s := get in
  match cons_pc s with
  | CFetched p =>
      let! o := lift_opt (objs s !! p) "object" in
      put (set_cons (CSent p (frame_of o) n1) (add_uart (take n1 (frame_of o)) s))
  | _ => halt "consumer"
  end.

(** [pbuf->message[0] = 0x0a; pbuf->message[1] = 0x0d;] and the second write. *)
Definition consumer_eol (n2 : nat) : M sys unit :=
  let! s := get in
  match cons_pc s with
  | CSent p f n1 =>
      let! o := lift_opt (objs s !! p) "object" in
      let! m := lift_opt (store (message o) 0 0x0a) "message" in
      let! m := lift_opt (store m 1 0x0d) "message" in
      put (set_cons (CEol p f n1 n2) (add_uart (take n2 (take 2 m))
             (set_objs (<[p := set_message m o]> (objs s)) s)))
  | _ => halt "consumer"
  end.

(** [chPoolFree(&streamMemPool, pbuf)] *)
Definition consumer_free : M sys unit :=
  let! s := get in
  match cons_pc s with
  | CEol p f n1 n2 =>
      zoom pool_lens (chPoolFree p) ;;;
      modify (fun s => set_cons CIdle (add_delivered (f, n1, n2) s))
  | _ => halt "consumer"
  end.

(** ** The transition system *)

Inductive label :=
  | LAlloc (t : nat)
  | LFill (t : nat) (cmd : Z) (argc : nat) (argv : list Z)
  | LText (t : nat) (arg : list Z)
  | LPost (t : nat)
  | LFetch
  | LSend (n1 : nat)
  | LEol (n2 : nat)
  | LFree.

Definition exec (l : label) : M sys unit :=
  match l with
  | LAlloc t => producer_alloc t
  | LFill t cmd argc argv => producer_fill t cmd argc argv
  | LText t arg => producer_text t arg
  | LPost t => producer_post t
  | LFetch => consumer_fetch
  | LSend n1 => consumer_send n1
  | LEol n2 => consumer_eol n2
  | LFree => consumer_free
  end.

(** Program order: which step each thread may take next.  The frames the
    sensor threads write have a byte command and at most four 32-bit arguments;
    the argument of [send] is a word of at most 22 characters (the longer ones
    are the subject of [send_overruns]). *)
Definition text_ok (arg : list Z) : Prop :=
  (0 < length arg <= 22)%nat /\ Forall (fun c => 0 < c < 256) arg.

Definition enabled (l : label) (s : sys) : Prop :=
  match l with
  | LAlloc t => held s !! t = None
  | LFill t cmd argc argv =>
      (exists p, held s !! t = Some (p, None)) /\
      byte_ok cmd /\ (argc <= 4)%nat /\ (argc <= length argv)%nat /\
      Forall (fun v => 0 <= v < 2 ^ 32) argv
  | LText t arg => (exists p, held s !! t = Some (p, None)) /\ text_ok arg
  | LPost t => exists p c, held s !! t = Some (p, Some c)
  | LFetch => cons_pc s = CIdle
  | LSend _ => exists p, cons_pc s = CFetched p
  | LEol _ => exists p f n1, cons_pc s = CSent p f n1
  | LFree => exists p f n1 n2, cons_pc s = CEol p f n1 n2
  end.

Inductive reachable (base : Z) : sys -> Prop :=
  | reach_init s : initial base s -> reachable base s
  | reach_step s l s' :
      reachable base s -> enabled l s -> exec l s = Done (tt, s') -> reachable base s'.

(** ** Invariant *)

Definition addrs (h : gmap nat (Z * option content)) : list Z :=
  (fun x => fst (snd x)) <$> map_to_list h.

Definition cons_addr (c : cphase) : list Z :=
  match c with CIdle => [] | CFetched p | CSent p _ _ | CEol p _ _ _ => [p] end.

(** What the consumer's frame contributes to the history and to the UART. *)
Definition in_flight (s : sys) : list (list Z) :=
  match cons_pc s with
  | CIdle => []
  | CFetched p => match objs s !! p with Some o => [frame_of o] | None => [] end
  | CSent _ f _ | CEol _ f _ _ => [f]
  end.

Definition wire (d : list (list Z * nat * nat)) : list Z :=
  concat (map (fun x => take (snd (fst x)) (fst (fst x)) ++ take (snd x) EOL) d).

Definition wire_now (c : cphase) : list Z :=
  match c with
  | CIdle | CFetched _ => []
  | CSent _ f n1 => take n1 f
  | CEol _ f n1 n2 => take n1 f ++ take n2 EOL
  end.

Definition queued (s : sys) (q : list Z) : list (option (list Z)) :=
  map (fun p => frame_of <$> objs s !! p) q.

(** The receiver reads back from a frame what was asked for. *)
Definition content_ok (c : content) : Prop :=
  match c with
  | Frame cmd vs => msp_decode (content_bytes c) = Some (cmd, vs) /\ byte_ok cmd
  | Text s => text_ok s
  end.

Record inv (base : Z) (s : sys) (free q : list Z) : Prop := {
  inv_pool : pool_rep (pool s) free;
  inv_align : align (mp (pool s)) = 4;
  inv_mail : mb_rep 5 (mail s) q;
  inv_reset : reset (mail s) = false;
  inv_perm : free ++ addrs (held s) ++ q ++ cons_addr (cons_pc s) ≡ₚ streamPoolObject base;
  inv_objs : forall p, p ∈ streamPoolObject base ->
    exists o, objs s !! p = Some o /\ length (message o) = 23%nat;
  inv_held : forall t p c, held s !! t = Some (p, Some c) ->
    content_ok c /\ (frame_of <$> objs s !! p) = Some (content_bytes c);
  inv_asked : posted s = map content_bytes (asked s);
  inv_sound : Forall content_ok (asked s);
  inv_hist : map Some (posted s)
    = map Some (map (fun x => fst (fst x)) (delivered s)) ++ map Some (in_flight s) ++ queued s q;
  inv_uart : uart s = wire (delivered s) ++ wire_now (cons_pc s)
}.

Lemma addrs_insert h t p b : h !! t = None -> addrs (<[t := (p, b)]> h) ≡ₚ p :: addrs h.
Proof. intros H. unfold addrs. by rewrite map_to_list_insert. Qed.

Lemma addrs_delete h t p b : h !! t = Some (p, b) -> addrs h ≡ₚ p :: addrs (delete t h).
Proof. intros H. unfold addrs. by rewrite <- (map_to_list_delete h t (p, b)). Qed.

Lemma addrs_update h t p b b' :
  h !! t = Some (p, b) -> addrs (<[t := (p, b')]> h) ≡ₚ addrs h.
Proof.
  intros H. rewrite (addrs_delete h t p b) by done.
  rewrite <- insert_delete_eq. by rewrite addrs_insert by apply lookup_delete_eq.
Qed.

Lemma addrs_in h t p b : h !! t = Some (p, b) -> p ∈ addrs h.
Proof. intros H. rewrite (addrs_delete _ _ _ _ H). left. Qed.

Lemma addrs_inj h t1 t2 p b1 b2 :
  NoDup (addrs h) -> h !! t1 = Some (p, b1) -> h !! t2 = Some (p, b2) -> t1 = t2.
Proof.
  intros Hnd H1 H2. destruct (decide (t1 = t2)) as [|Hne]; [done|].
  rewrite (addrs_delete _ _ _ _ H1), NoDup_cons in Hnd. destruct Hnd as [Hin _]. destruct Hin.
  apply (addrs_in _ t2 p b2). by rewrite lookup_delete_ne.
Qed.

Lemma stream_objects_nodup base : NoDup (streamPoolObject base).
Proof.
  unfold streamPoolObject. apply NoDup_fmap_2; [|apply NoDup_seq].
  intros i j. unfold sizeof_poolStreamObject. lia.
Qed.

Lemma stream_objects_length base : length (streamPoolObject base) = 5%nat.
Proof. done. Qed.

Section pipeline.
Context (base : Z) (Hbase : 0 < base) (Halign : base `mod` 4 = 0).
Implicit Types (s : sys) (p : Z) (q free : list Z).

Lemma stream_object_ok p :
  p ∈ streamPoolObject base -> p <> NULL /\ is_aligned p 4 = true.
Proof.
  unfold streamPoolObject. rewrite list_elem_of_fmap. intros (i & -> & _).
  unfold NULL, sizeof_poolStreamObject. split; [lia|].
  unfold is_aligned. change (4 - 1) with (Z.ones 2). rewrite Z.land_ones by lia.
  apply Z.eqb_eq. change (2 ^ 2) with 4.
  replace (base + Z.of_nat i * 24) with (base + (Z.of_nat i * 6) * 4) by lia.
  by rewrite Z.mod_add by lia.
Qed.

Lemma inv_nodup s free q :
  inv base s free q -> NoDup (free ++ addrs (held s) ++ q ++ cons_addr (cons_pc s)).
Proof. intros []. rewrite inv_perm0. apply stream_objects_nodup. Qed.

Lemma inv_mem s free q p :
  inv base s free q ->
  p ∈ free ++ addrs (held s) ++ q ++ cons_addr (cons_pc s) -> p ∈ streamPoolObject base.
Proof. intros []. by rewrite inv_perm0. Qed.

Lemma inv_count s free q :
  inv base s free q ->
  (length free + length (addrs (held s)) + length q + length (cons_addr (cons_pc s)) = 5)%nat.
Proof.
  intros [? ? ? ? Hp ? ? ? ? ? ?]. apply Permutation_length in Hp.
  rewrite !length_app, stream_objects_length in Hp. lia.
Qed.

(** The object of an allocated address. *)
Lemma inv_object s free q p :
  inv base s free q ->
  p ∈ free ++ addrs (held s) ++ q ++ cons_addr (cons_pc s) ->
  exists o, objs s !! p = Some o /\ length (message o) = 23%nat.
Proof. intros Hinv Hp. eapply inv_objs; [exact Hinv|]. by eapply inv_mem. Qed.

(** Writing an object that is neither queued nor fetched changes no frame on
    its way. *)
Lemma queued_frame s q p o : p ∉ q -> queued (set_objs (<[p := o]> (objs s)) s) q = queued s q.
Proof.
  intros Hp. unfold queued. apply map_ext_in. intros x Hx%list_elem_of_In. cbn.
  rewrite lookup_insert_ne; [done|]. by intros ->.
Qed.

Lemma blank_objects_lookup p :
  p ∈ streamPoolObject base ->
  (list_to_map (map (fun a => (a, blank_object)) (streamPoolObject base))
    : gmap Z poolStreamObject_t) !! p = Some blank_object.
Proof.
  intros Hp. apply elem_of_list_to_map_1.
  - rewrite <- list_fmap_compose. change (fst ∘ _) with (@id Z).
    rewrite list_fmap_id. apply stream_objects_nodup.
  - apply list_elem_of_fmap. eauto.
Qed.

Lemma initial_inv s : initial base s -> exists free, inv base s free [].
Proof.
  intros (p0 & ps & Hinit & ->).
  assert (H : wp (shared_pools_init base)
    (fun _ ps' => pool_rep ps' (array_rev 5 base 24 []) /\ align (mp ps') = 4) p0).
  { unfold shared_pools_init. apply wp_bind.
    eapply wp_conseq; [apply init_spec; unfold sizeof_poolStreamObject; lia|].
    intros _ ps1 [_ Hmp]. unfold chPoolLoadArray. apply wp_bind.
    rewrite bool_decide_true by done. apply wp_ret.
    eapply wp_conseq; [apply (load_spec 5 base 24 ps1 []); rewrite ?Hmp; cbn; try done|].
    - repeat split; rewrite ?Hmp; cbn; [done|constructor|done].
    - intros i Hi. apply stream_object_ok. unfold streamPoolObject, sizeof_poolStreamObject.
      rewrite list_elem_of_fmap. exists (Z.to_nat i). split; [cbn; lia|].
      apply elem_of_seq. unfold STREAM_TX_POOL_SIZE. lia.
    - by intros x ?%elem_of_nil.
    - cbn. intros _ ps2 [? ->]. by rewrite Hmp. }
  unfold wp in H. rewrite Hinit in H. destruct H as [Hrep Hal].
  exists (array_rev 5 base 24 []). constructor; cbn; try done.
  - unfold streamPoolObject, sizeof_poolStreamObject. cbn [array_rev seq map].
    change (addrs ∅ ++ []) with (@nil Z).
    replace (base + 24 + 24 + 24 + 24) with (base + Z.of_nat 4 * 24) by lia.
    replace (base + 24 + 24 + 24) with (base + Z.of_nat 3 * 24) by lia.
    replace (base + 24 + 24) with (base + Z.of_nat 2 * 24) by lia.
    replace base with (base + Z.of_nat 0 * 24) at 5 by lia.
    symmetry. apply (Permutation_rev (map (fun i => base + Z.of_nat i * 24) (seq 0 5))).
  - intros p Hp. exists blank_object. split; [|done].
    exact (blank_objects_lookup p Hp).
Qed.

(** One lemma per step: from the invariant the step neither halts nor hangs,
    and the invariant holds again. *)
Definition preserves (m : M sys unit) (s : sys) : Prop :=
  wp m (fun _ s' => exists free q, inv base s' free q) s.

Lemma alloc_step s free q t :
  inv base s free q -> held s !! t = None ->
  wp (producer_alloc t) (fun _ s' => asked s' = asked s /\
    match free with
    | [] => held s' = held s /\ inv base s' [] q
    | p :: free' => held s' = <[t := (p, None)]> (held s) /\ inv base s' free' q
    end) s.
Proof.
  intros Hinv Ht. unfold producer_alloc. apply wp_bind, wp_zoom.
  eapply wp_conseq; [exact (alloc_spec _ _ (inv_pool _ _ _ _ Hinv))|].
  intros p ps (Hmp & Hheap & H). cbn.
  assert (Hal : align (mp ps) = 4).
  { rewrite Hmp. destruct free; cbn; apply (inv_align _ _ _ _ Hinv). }
  destruct Hinv as [Hpool Hal0 Hmail Hres Hperm Hobj Hheld Hask Hsnd Hhist Huart].
  destruct free as [|x free]; destruct H as [-> Hrep].
  - rewrite decide_True by done. apply wp_ret. split; [done|]. split; [done|]. by constructor.
  - assert (x <> NULL).
    { apply stream_object_ok. rewrite <- Hperm. left. }
    rewrite decide_False by done. unfold wp, modify. split; [done|]. split; [done|].
    constructor; cbn; try done.
    + rewrite addrs_insert by done. rewrite <- Hperm. solve_Permutation.
    + intros t' p' c [[_ [=]]|[_ Ht']]%lookup_insert_Some. by eapply Hheld.
Qed.

Lemma alloc_inv s free q t :
  inv base s free q -> held s !! t = None -> preserves (producer_alloc t) s.
Proof.
  intros Hinv Ht. eapply wp_conseq; [by apply (alloc_step s free q)|].
  intros _ s' [_ H]. destruct free; destruct H; eauto.
Qed.

(** Writing into the object a producer holds changes no frame on its way and
    no other producer's object. *)
Lemma write_inv s free q t p o c :
  inv base s free q -> held s !! t = Some (p, None) ->
  length (message o) = 23%nat -> content_ok c -> frame_of o = content_bytes c ->
  inv base (set_objs (<[p := o]> (objs s)) (set_held (<[t := (p, Some c)]> (held s)) s)) free q.
Proof.
  intros Hinv Ht Hlen Hok Hf.
  pose proof (inv_nodup _ _ _ Hinv) as Hnd. pose proof (addrs_in _ _ _ _ Ht) as Hin.
  rewrite !NoDup_app in Hnd.
  assert (Hpq : p ∉ q) by set_solver. assert (Hpc : p ∉ cons_addr (cons_pc s)) by set_solver.
  destruct Hnd as (_ & _ & Hnd & _).
  destruct Hinv as [Hpool Hal0 Hmail Hres Hperm Hobj Hheld Hask Hsnd Hhist Huart].
  constructor; cbn; try done.
  - by rewrite (addrs_update _ _ _ None).
  - intros x Hx. destruct (decide (x = p)) as [->|]; [exists o; by rewrite lookup_insert_eq|].
    rewrite lookup_insert_ne by done. by apply Hobj.
  - intros t' p' c' [[<- [= <- <-]]|[Hne Ht']]%lookup_insert_Some.
    + by rewrite lookup_insert_eq, <- Hf.
    + rewrite lookup_insert_ne; [by eapply Hheld|]. intros ->. by apply Hne, (addrs_inj (held s) _ _ p' None (Some c')).
  - rewrite Hhist. f_equal. f_equal.
    + unfold in_flight. cbn. destruct (cons_pc s); cbn in *; try done.
      rewrite lookup_insert_ne; set_solver.
    + symmetry. exact (queued_frame s q p o Hpq).
Qed.

Lemma held_object s free q t p b :
  inv base s free q -> held s !! t = Some (p, b) ->
  exists o, objs s !! p = Some o /\ length (message o) = 23%nat.
Proof.
  intros Hinv Ht. apply (inv_object _ _ _ p Hinv). pose proof (addrs_in _ _ _ _ Ht). set_solver.
Qed.

Lemma fill_inv s free q t cmd argc argv :
  inv base s free q -> enabled (LFill t cmd argc argv) s ->
  preserves (producer_fill t cmd argc argv) s.
Proof.
  intros Hinv ((p & Ht) & Hcmd & Hargc & Hargv & Hvs).
  destruct (held_object _ _ _ _ _ _ Hinv Ht) as (o & Ho & Hlen).
  destruct (createMspFrame_spec o cmd argc argv) as (o' & Ho' & Hmsg & Hsz); try done.
  unfold preserves, producer_fill. apply wp_bind, wp_get, wp_bind, (wp_opt _ (p, None)); [done|].
  apply wp_bind, (wp_opt _ o); [done|]. apply wp_bind, (wp_opt _ o'); [done|].
  exists free, q. apply write_inv; try done.
  - rewrite Hmsg, length_app, frame_bytes_length, length_drop, length_take. lia.
  - split; [|done]. apply decode_frame. by apply Forall_take.
  - unfold frame_of. rewrite Hmsg, Hsz, take_app_length'; [done|].
    rewrite frame_bytes_length, length_take. lia.
Qed.

Lemma strcpy_spec dst src :
  (length src < length dst)%nat -> strcpy dst src = Some (src ++ 0 :: drop (S (length src)) dst).
Proof.
  revert dst. induction src as [|c src IH]; intros [|x dst] Hl; cbn in *; try (done || lia).
  by rewrite IH by lia.
Qed.

Lemma strcpy_overruns dst src : (length dst <= length src)%nat -> strcpy dst src = None.
Proof.
  revert src. induction dst as [|x dst IH]; intros [|c src] Hl; cbn in *; try (done || lia).
  by rewrite IH by lia.
Qed.

Lemma strlen_spec l r :
  Forall (fun c => 0 < c < 256) l -> strlen (l ++ 0 :: r) = Some (Z.of_nat (length l)).
Proof.
  induction 1 as [|c l Hc _ IH]; [done|]. cbn [app strlen]. rewrite decide_False by lia.
  rewrite IH. cbn. f_equal. lia.
Qed.

Lemma text_step s free q t p arg :
  inv base s free q -> held s !! t = Some (p, None) -> text_ok arg ->
  wp (producer_text t arg) (fun _ s' => asked s' = asked s /\
    held s' = <[t := (p, Some (Text arg))]> (held s) /\ inv base s' free q) s.
Proof.
  intros Hinv Ht [Hlen Hch].
  destruct (held_object _ _ _ _ _ _ Hinv Ht) as (o & Ho & Hm).
  unfold producer_text. apply wp_bind, wp_get, wp_bind, (wp_opt _ (p, None)); [done|].
  apply wp_bind, (wp_opt _ o); [done|].
  apply wp_bind. eapply wp_opt; [apply strcpy_spec; lia|].
  apply wp_bind. eapply wp_opt; [by apply strlen_spec|].
  split; [done|]. split; [done|]. rewrite u8_small by lia. apply write_inv; try done.
  - cbn. rewrite length_app. cbn. rewrite length_drop. lia.
  - unfold frame_of. cbn. by rewrite Nat2Z.id, take_app_length.
Qed.

Lemma text_inv s free q t arg :
  inv base s free q -> enabled (LText t arg) s -> preserves (producer_text t arg) s.
Proof.
  intros Hinv [[p Ht] Harg]. eapply wp_conseq; [by apply (text_step s free q t p)|].
  intros _ s' (_ & _ & ?). eauto.
Qed.

(** The post finds a free slot: five objects, one of them in this thread's
    hands, so at most four are queued. *)
Lemma post_inv s free q t p c :
  inv base s free q -> held s !! t = Some (p, Some c) ->
  wp (producer_post t) (fun _ s' =>
    asked s' = asked s ++ [c] /\ held s' = delete t (held s) /\ exists free q, inv base s' free q) s.
Proof.
  intros Hinv Ht. pose proof (inv_count _ _ _ Hinv) as Hcount.
  rewrite (Permutation_length (addrs_delete _ _ _ _ Ht)) in Hcount. cbn in Hcount.
  destruct (held_object _ _ _ _ _ _ Hinv Ht) as (o & Ho & _).
  destruct Hinv as [Hpool Hal0 Hmail Hres Hperm Hobj Hheld Hask Hsnd Hhist Huart].
  destruct (Hheld _ _ _ Ht) as [Hok Hf]. rewrite Ho in Hf. injection Hf as Hf.
  unfold producer_post. apply wp_bind, wp_get, wp_bind, (wp_opt _ (p, Some c)); [done|].
  apply wp_bind, (wp_opt _ o); [done|]. apply wp_bind, (wp_opt _ c); [done|]. apply wp_bind, wp_zoom.
  eapply wp_eq; [apply post_immediate|].
  eapply wp_conseq; [exact (post_spec 5 (mail s) q p Hmail Hres)|].
  intros r mb. rewrite (proj2 (Z.ltb_lt (Z.of_nat (length q)) 5)) by lia.
  intros (Hres' & -> & Hmail'). unfold wp, bind, modify. cbn.
  split; [done|]. split; [done|]. exists free, (q ++ [p]). constructor; cbn; try done.
  - rewrite <- Hperm, (addrs_delete _ _ _ _ Ht). solve_Permutation.
  - intros t' p' c' [_ Ht']%lookup_delete_Some. by eapply Hheld.
  - by rewrite map_app, Hask, Hf.
  - apply Forall_app. by split; [|constructor].
  - rewrite map_app, Hhist, <- !app_assoc. f_equal.
    unfold queued, in_flight. cbn. rewrite map_app. cbn. by rewrite Ho.
Qed.

Lemma fetch_inv s free q :
  inv base s free q -> cons_pc s = CIdle -> preserves consumer_fetch s.
Proof.
  intros [Hpool Hal0 Hmail Hres Hperm Hobj Hheld Hask Hsnd Hhist Huart] Hc.
  unfold preserves, consumer_fetch. apply wp_bind, wp_zoom.
  eapply wp_eq; [apply fetch_timed_out|].
  eapply wp_conseq; [exact (fetch_spec 5 (mail s) q Hmail Hres)|].
  intros r mb [Hres' H]. destruct q as [|p q]; destruct H as [-> H]; cbn [fst snd].
  - rewrite decide_False by done. apply wp_ret. subst. exists free, [].
    by constructor.
  - rewrite decide_True by done. unfold wp, modify. exists free, q.
    rewrite Hc in *. unfold in_flight in Hhist. rewrite Hc in Hhist.
    destruct (Hobj p) as (o & Ho & _); [rewrite <- Hperm; set_solver|].
    constructor; cbn; try done.
    + rewrite <- Hperm. cbn. solve_Permutation.
    + rewrite Hhist. cbn. unfold in_flight. cbn. by rewrite Ho.
Qed.

Lemma send_inv s free q n1 :
  inv base s free q -> enabled (LSend n1) s -> preserves (consumer_send n1) s.
Proof.
  intros Hinv [p Hc].
  destruct (inv_object _ _ _ p Hinv) as (o & Ho & Hlen); [rewrite Hc; set_solver|].
  destruct Hinv as [Hpool Hal0 Hmail Hres Hperm Hobj Hheld Hask Hsnd Hhist Huart].
  unfold preserves, consumer_send. apply wp_bind, wp_get. rewrite Hc.
  apply wp_bind, (wp_opt _ o); [done|]. exists free, q.
  rewrite Hc in *. unfold in_flight in Hhist. rewrite Hc, Ho in Hhist.
  constructor; cbn; try done. by rewrite Huart, app_nil_r.
Qed.

Lemma eol_inv s free q n2 :
  inv base s free q -> enabled (LEol n2) s -> preserves (consumer_eol n2) s.
Proof.
  intros Hinv (p & f & n1 & Hc). pose proof (inv_nodup _ _ _ Hinv) as Hnd.
  destruct (inv_object _ _ _ p Hinv) as (o & Ho & Hlen); [rewrite Hc; set_solver|].
  destruct Hinv as [Hpool Hal0 Hmail Hres Hperm Hobj Hheld Hask Hsnd Hhist Huart].
  rewrite Hc in *. unfold in_flight in Hhist. rewrite Hc in Hhist.
  assert (Hpq : p ∉ q) by (cbn in Hnd; rewrite !NoDup_app in Hnd; set_solver).
  assert (Hpa : p ∉ addrs (held s)) by (cbn in Hnd; rewrite !NoDup_app in Hnd; set_solver).
  unfold preserves, consumer_eol. apply wp_bind, wp_get. rewrite Hc.
  apply wp_bind, (wp_opt _ o); [done|].
  apply wp_bind. eapply wp_opt; [apply store_in; lia|].
  apply wp_bind. eapply wp_opt; [apply store_in; rewrite length_insert; lia|].
  exists free, q. constructor; cbn; try done.
  - intros x Hx. destruct (decide (x = p)) as [->|].
    + eexists. rewrite lookup_insert_eq. split; [done|]. cbn. by rewrite !length_insert.
    + rewrite lookup_insert_ne by done. by apply Hobj.
  - intros t p' c Ht. rewrite lookup_insert_ne; [by eapply Hheld|].
    intros ->. by apply Hpa, (addrs_in _ _ _ _ Ht).
  - rewrite Hhist. f_equal. f_equal. symmetry. by apply (queued_frame s).
  - rewrite Huart, <- app_assoc. do 3 f_equal.
    destruct (message o) as [|? [|]]; cbn in Hlen; try lia. done.
Qed.

Lemma free_inv s free q :
  inv base s free q -> enabled LFree s -> preserves consumer_free s.
Proof.
  intros Hinv (p & f & n1 & n2 & Hc). pose proof (inv_nodup _ _ _ Hinv) as Hnd.
  destruct (stream_object_ok p) as [Hnz Hal].
  { eapply inv_mem; [exact Hinv|]. rewrite Hc. set_solver. }
  destruct Hinv as [Hpool Hal0 Hmail Hres Hperm Hobj Hheld Hask Hsnd Hhist Huart].
  rewrite Hc in *. unfold in_flight in Hhist. rewrite Hc in Hhist.
  assert (Hpf : p ∉ free) by (cbn in Hnd; rewrite !NoDup_app in Hnd; set_solver).
  unfold preserves, consumer_free. apply wp_bind, wp_get. rewrite Hc.
  apply wp_bind, wp_zoom. eapply wp_conseq.
  { apply (free_spec (pool s) free p); [done..|by rewrite Hal0]. }
  intros _ ps (Hrep & Hal' & _). unfold wp, modify. exists (p :: free), q.
  constructor; cbn; try done.
  - congruence.
  - rewrite <- Hperm. cbn. solve_Permutation.
  - rewrite Hhist, !map_app. cbn. by rewrite <- app_assoc.
  - rewrite Huart. unfold wire. rewrite map_app, concat_app. cbn.
    by rewrite !app_nil_r.
Qed.

Lemma exec_inv s free q l :
  inv base s free q -> enabled l s -> preserves (exec l) s.
Proof.
  intros Hinv. destruct l; cbn [exec].
  - by apply (alloc_inv _ free q).
  - by apply (fill_inv _ free q).
  - by apply (text_inv _ free q).
  - intros (p & c & Ht). eapply wp_conseq; [by apply (post_inv s free q t p c)|]. by intros _ s' (_ & _ & ?).
  - by apply (fetch_inv _ free q).
  - by apply (send_inv _ free q).
  - by apply (eol_inv _ free q).
  - by apply (free_inv _ free q).
Qed.

Lemma reachable_inv s : reachable base s -> exists free q, inv base s free q.
Proof.
  induction 1 as [s Hi|s l s' _ (free & q & Hinv) Hen Hex].
  - destruct (initial_inv s Hi). eauto.
  - pose proof (exec_inv s free q l Hinv Hen) as H. unfold preserves, wp in H.
    by rewrite Hex in H.
Qed.

End pipeline.

(** ** Properties *)

(** A boot state and a run of steps, to evaluate the model. *)
Definition boot_pool : pool_state :=
  match shared_pools_init 0x20000100 empty_pool with Done (_, ps) => ps | _ => empty_pool end.
Definition boot : sys :=
  Sys boot_pool (list_to_map (map (fun a => (a, blank_object)) (streamPoolObject 0x20000100)))
      streamMail ∅ CIdle [] [] [] [].

Fixpoint run (ls : list label) (s : sys) : sys :=
  match ls with
  | [] => s
  | l :: ls' => match exec l s with Done (_, s') => run ls' s' | _ => s end
  end.

Lemma boot_reachable : reachable 0x20000100 boot.
Proof. apply reach_init. exists empty_pool, boot_pool. by split. Qed.

Lemma reachable_exec base s l s' :
  reachable base s -> enabled l s -> exec l s = Done (tt, s') -> reachable base s'.
Proof. apply reach_step. Qed.

(** Thread 0 has a frame ready and thread 1 an empty object. *)
Definition two_producers : list label :=
  [LAlloc 0; LAlloc 1; LFill 0 1 3 [12345; 55; 1013]].

Lemma two_producers_reachable : reachable 0x20000100 (run two_producers boot).
Proof.
  apply (reachable_exec _ (run [LAlloc 0; LAlloc 1] boot) (LFill 0 1 3 [12345; 55; 1013])).
  - apply (reachable_exec _ (run [LAlloc 0] boot) (LAlloc 1)).
    + apply (reachable_exec _ boot (LAlloc 0)); [apply boot_reachable|done|by vm_compute].
    + by vm_compute.
    + by vm_compute.
  - split; [eexists; by vm_compute|]. split_and!; [split; lia|lia|cbn; lia|repeat constructor; lia].
  - by vm_compute.
Qed.

(** C1: in every reachable state of the pipeline, for any interleaving of any
    number of sensor threads with the radio thread, the next step of every
    thread completes: no access outside an object, no failed assertion of the
    kernel (the free of a null or misaligned address), no wait without end. *)
Theorem stream_steps_never_fail (base : Z) (s : sys) (l : label) :
  0 < base -> base `mod` 4 = 0 -> reachable base s -> enabled l s ->
  exists s', exec l s = Done (tt, s') /\ reachable base s'.
Proof.
  intros Hb Ha Hr Hen. destruct (reachable_inv base Hb Ha s Hr) as (free & q & Hinv).
  destruct (wp_run _ _ _ (exec_inv base Hb Ha s free q l Hinv Hen)) as ([] & s' & Hex & _).
  exists s'. split; [done|]. by eapply reach_step.
Qed.

Lemma stream_steps_never_fail_witness :
  exists s', exec (LPost 0) (run two_producers boot) = Done (tt, s')
             /\ reachable 0x20000100 s'.
Proof.
  apply (stream_steps_never_fail 0x20000100 (run two_producers boot) (LPost 0));
    [lia|reflexivity|apply two_producers_reachable|].
  do 2 eexists. by vm_compute.
Defined.

(** Posting cannot fail.  The status of [chMBPostTimeout] that every
    producer ignores is always [MSG_OK], so a message once written is never
    dropped and its object never leaks. *)
Theorem stream_post_never_drops (base : Z) (s : sys) (t : nat) (p : Z) (c : content) :
  0 < base -> base `mod` 4 = 0 -> reachable base s -> held s !! t = Some (p, Some c) ->
  exists s', exec (LPost t) s = Done (tt, s') /\
    asked s' = asked s ++ [c] /\ held s' = delete t (held s).
Proof.
  intros Hb Ha Hr Ht. destruct (reachable_inv base Hb Ha s Hr) as (free & q & Hinv).
  destruct (wp_run _ _ _ (post_inv base Hb Ha s free q t p c Hinv Ht)) as ([] & s' & Hex & Hp & Hh & _). eauto.
Qed.

Lemma stream_post_never_drops_witness :
  exists s', exec (LPost 0) (run two_producers boot) = Done (tt, s') /\
    asked s' = asked (run two_producers boot) ++ [Frame 1 [12345; 55; 1013]] /\
    held s' = delete 0%nat (held (run two_producers boot)).
Proof.
  apply (stream_post_never_drops 0x20000100 (run two_producers boot) 0 (0x20000100 + 96));
    [lia|reflexivity|apply two_producers_reachable|by vm_compute].
Defined.

(** End to end, the radio UART carries exactly what the producers asked
    for, in posting order, each message once and followed by LF CR (up to what
    a write time-out cut off): the finished messages are a prefix of the posted
    ones, at most one more is being written, and the remaining ones are still
    queued; a posted message is the text given to [send], or a frame that the
    receiver decodes to the command and the arguments its thread gave. *)
Theorem stream_delivers_in_order (base : Z) (s : sys) :
  0 < base -> base `mod` 4 = 0 -> reachable base s ->
  exists waiting,
    map content_bytes (asked s) = map (fun x => fst (fst x)) (delivered s) ++ in_flight s ++ waiting /\
    (length waiting <= 5)%nat /\
    uart s = wire (delivered s) ++ wire_now (cons_pc s) /\
    (forall cmd vs, Frame cmd vs ∈ asked s -> msp_decode (content_bytes (Frame cmd vs)) = Some (cmd, vs)).
Proof.
  intros Hb Ha Hr. destruct (reachable_inv base Hb Ha s Hr) as (free & q & Hinv).
  pose proof (inv_count base s free q Hinv) as Hcount.
  pose proof (inv_hist _ _ _ _ Hinv) as Hh. rewrite (inv_asked _ _ _ _ Hinv) in Hh.
  destruct (map_all_Some (fun p => frame_of <$> objs s !! p) q) as [waiting Hw].
  { intros p Hp. destruct (inv_object base s free q p Hinv) as (o & -> & _); [set_solver|].
    by eexists. }
  exists waiting. unfold queued in Hh. rewrite Hw, <- !map_app in Hh. split_and!.
  - by apply map_Some_inj in Hh.
  - apply (f_equal length) in Hw. rewrite !length_map in Hw. lia.
  - apply (inv_uart _ _ _ _ Hinv).
  - intros cmd vs Hin. by apply (proj1 (Forall_forall _ _) (inv_sound _ _ _ _ Hinv) (Frame cmd vs) Hin).
Qed.

Definition delivered_one : list label :=
  two_producers ++ [LPost 0; LFetch; LSend 18; LEol 2; LFree].

Lemma delivered_one_reachable : reachable 0x20000100 (run delivered_one boot).
Proof.
  change delivered_one with (two_producers ++ [LPost 0; LFetch; LSend 18; LEol 2; LFree]).
  apply (reachable_exec _ (run (two_producers ++ [LPost 0; LFetch; LSend 18; LEol 2]) boot) LFree);
    [|do 4 eexists; by vm_compute|by vm_compute].
  apply (reachable_exec _ (run (two_producers ++ [LPost 0; LFetch; LSend 18]) boot) (LEol 2));
    [|do 3 eexists; by vm_compute|by vm_compute].
  apply (reachable_exec _ (run (two_producers ++ [LPost 0; LFetch]) boot) (LSend 18));
    [|eexists; by vm_compute|by vm_compute].
  apply (reachable_exec _ (run (two_producers ++ [LPost 0]) boot) LFetch);
    [|by vm_compute|by vm_compute].
  apply (reachable_exec _ (run two_producers boot) (LPost 0));
    [apply two_producers_reachable|do 2 eexists; by vm_compute|by vm_compute].
Qed.

Lemma stream_delivers_in_order_witness :
  uart (run delivered_one boot) = frame_bytes 1 [12345; 55; 1013] ++ EOL /\
  exists waiting,
    map content_bytes (asked (run delivered_one boot))
      = map (fun x => fst (fst x)) (delivered (run delivered_one boot))
        ++ in_flight (run delivered_one boot) ++ waiting /\
    (length waiting <= 5)%nat /\
    uart (run delivered_one boot)
      = wire (delivered (run delivered_one boot)) ++ wire_now (cons_pc (run delivered_one boot)) /\
    (forall cmd vs, Frame cmd vs ∈ asked (run delivered_one boot) ->
       msp_decode (content_bytes (Frame cmd vs)) = Some (cmd, vs)).
Proof.
  split; [by vm_compute|].
  apply (stream_delivers_in_order 0x20000100 (run delivered_one boot));
    [lia|reflexivity|apply delivered_one_reachable].
Defined.

(** C4: objects are conserved: at every point the five objects of the pool
    are exactly the free ones, those in producers' hands, the queued ones and
    the one in the radio thread's hands, so once the pipeline is idle all five
    can be allocated again. *)
Theorem stream_no_leak (base : Z) (s : sys) :
  0 < base -> base `mod` 4 = 0 -> reachable base s ->
  exists free q,
    pool_rep (pool s) free /\ mb_rep 5 (mail s) q /\
    free ++ addrs (held s) ++ q ++ cons_addr (cons_pc s) ≡ₚ streamPoolObject base /\
    (held s = ∅ -> cnt (mail s) = 0 -> cons_pc s = CIdle -> length free = 5%nat).
Proof.
  intros Hb Ha Hr. destruct (reachable_inv base Hb Ha s Hr) as (free & q & Hinv).
  pose proof (inv_count base s free q Hinv) as Hcount.
  destruct Hinv as [Hpool _ Hmail _ Hperm _ _ _ _ _ _].
  exists free, q. split_and!; try done. intros Hh Hcnt Hc.
  rewrite (rep_cnt _ _ _ Hmail) in Hcnt. rewrite Hh, Hc in Hcount.
  change (addrs ∅) with (@nil Z) in Hcount. cbn in Hcount. lia.
Qed.

Lemma stream_no_leak_witness :
  exists free q,
    pool_rep (pool (run delivered_one boot)) free /\ mb_rep 5 (mail (run delivered_one boot)) q /\
    free ++ addrs (held (run delivered_one boot)) ++ q ++ cons_addr (cons_pc (run delivered_one boot))
      ≡ₚ streamPoolObject 0x20000100 /\
    (held (run delivered_one boot) = ∅ -> cnt (mail (run delivered_one boot)) = 0 ->
     cons_pc (run delivered_one boot) = CIdle -> length free = 5%nat).
Proof.
  apply (stream_no_leak 0x20000100 (run delivered_one boot));
    [lia|reflexivity|apply delivered_one_reachable].
Defined.

(** ** The shell command [send] *)

(** [chprintf(chp, "OK")], the line end, and [shellUsage(chp, "param missing")]. *)
Definition OK_text : list Z := [79; 75].
Definition crlf : list Z := [13; 10].
Definition usage_text : list Z :=
  [85; 115; 97; 103; 101; 58; 32; 112; 97; 114; 97; 109; 32; 109; 105; 115; 115; 105; 110; 103].

(** [cmd_send] in the shell thread [t] with the arguments [argv]; the result is
    what it prints. *)
Definition cmd_send (t : nat) (argv : list (list Z)) : M sys (list Z) :=
  match argv with
  | [arg] =>
      producer_alloc t ;;;
      let! s := get in
      match held s !! t with
      | Some _ =>
          producer_text t arg ;;;
          producer_post t ;;;
          ret (OK_text ++ crlf)
      | None => ret crlf
      end
  | _ => ret (usage_text ++ crlf)
  end.

(** All objects are with producers, queued or with the radio thread. *)
Definition busy_objects (s : sys) : Z :=
  Z.of_nat (base.size (held s)) + cnt (mail s) + Z.of_nat (length (cons_addr (cons_pc s))).

Lemma addrs_size h : length (addrs h) = base.size h.
Proof. unfold addrs. by rewrite length_fmap, length_map_to_list. Qed.

Lemma free_objects_count base s free q :
  inv base s free q -> Z.of_nat (length free) = 5 - busy_objects s.
Proof.
  intros Hinv. pose proof (inv_count base s free q Hinv) as Hc. rewrite addrs_size in Hc.
  unfold busy_objects. rewrite (rep_cnt _ _ _ (inv_mail _ _ _ _ Hinv)). lia.
Qed.

(** A step that the invariant lets through leads to a reachable state. *)
Lemma wp_reach base s l Q :
  reachable base s -> enabled l s -> wp (exec l) Q s -> wp (exec l) (fun a s' => Q a s' /\ reachable base s') s.
Proof.
  intros Hr Hen H. destruct (wp_run _ _ _ H) as ([] & s' & Hex & HQ). unfold wp. rewrite Hex.
  split; [done|]. by eapply reach_step.
Qed.

(** The command [send] with a string of at most 22 characters always
    completes: when an object is free it posts exactly that string and prints
    OK, otherwise it posts nothing and prints an empty line; it keeps no
    object, and the pipeline is in a reachable state again. *)
Theorem send_posts_text (base : Z) (s : sys) (t : nat) (arg : list Z) :
  0 < base -> base `mod` 4 = 0 -> reachable base s -> held s !! t = None -> text_ok arg ->
  exists s', reachable base s' /\ held s' = held s /\
    if decide (busy_objects s < 5)
    then cmd_send t [arg] s = Done (OK_text ++ crlf, s') /\ asked s' = asked s ++ [Text arg]
    else cmd_send t [arg] s = Done (crlf, s') /\ asked s' = asked s.
Proof.
  intros Hb Ha Hr Ht Harg. destruct (reachable_inv base Hb Ha s Hr) as (free & q & Hinv).
  pose proof (free_objects_count _ _ _ _ Hinv) as Hfree.
  enough (H : wp (cmd_send t [arg]) (fun out s' => reachable base s' /\ held s' = held s /\
    if decide (busy_objects s < 5) then out = OK_text ++ crlf /\ asked s' = asked s ++ [Text arg]
    else out = crlf /\ asked s' = asked s) s).
  { destruct (wp_run _ _ _ H) as (out & s' & Hex & Hr' & Hh & Hout). exists s'. rewrite Hex.
    case_decide; destruct Hout as [-> ?]; done. }
  cbn [cmd_send]. apply wp_bind.
  eapply wp_conseq; [apply (wp_reach base s (LAlloc t)); [done|done|by apply (alloc_step base Hb Ha s free q)]|].
  intros _ s1 [[Has1 H1] Hr1]. apply wp_bind, wp_get. destruct free as [|p free]; destruct H1 as [Hh1 Hinv1].
  { rewrite Hh1, Ht. apply wp_ret. split; [done|]. split; [done|].
    rewrite decide_False by (cbn in Hfree; lia). done. }
  rewrite Hh1, lookup_insert_eq.
  assert (Ht1 : held s1 !! t = Some (p, None)) by (by rewrite Hh1, lookup_insert_eq).
  apply wp_bind. eapply wp_conseq.
  { apply (wp_reach base s1 (LText t arg)); [done|by split; [exists p|]|].
    by apply (text_step base Hb Ha s1 free q t p arg). }
  intros _ s2 [(Has2 & Hh2 & Hinv2) Hr2]. apply wp_bind.
  assert (Ht2 : held s2 !! t = Some (p, Some (Text arg))) by (by rewrite Hh2, lookup_insert_eq).
  eapply wp_conseq; [apply (wp_reach base s2 (LPost t)); [done|by do 2 eexists|by apply (post_inv base Hb Ha s2 free q t p)]|].
  intros _ s3 [(Has3 & Hh3 & _) Hr3]. apply wp_ret. split; [done|].
  rewrite decide_True by (cbn in Hfree; lia). split; [|by rewrite Has3, Has2, Has1].
  by rewrite Hh3, Hh2, Hh1, insert_insert_eq, delete_insert_id.
Qed.

(** The copy of [send] is not bounded: while an object is free, an argument
    of 23 characters or more, which the shell's 64-character line allows, is
    copied past the end of the message, over the memory behind it. *)
Theorem send_overruns (base : Z) (s : sys) (t : nat) (arg : list Z) :
  0 < base -> base `mod` 4 = 0 -> reachable base s -> held s !! t = None ->
  busy_objects s < 5 -> (23 <= length arg)%nat -> cmd_send t [arg] s = Halt "strcpy".
Proof.
  intros Hb Ha Hr Ht Hbusy Hlen. destruct (reachable_inv base Hb Ha s Hr) as (free & q & Hinv).
  pose proof (free_objects_count _ _ _ _ Hinv) as Hfree.
  destruct (wp_run _ _ _ (alloc_step base Hb Ha s free q t Hinv Ht)) as ([] & s1 & Hex & _ & H1).
  destruct free as [|p free]; [cbn in Hfree; lia|]. destruct H1 as [Hh1 Hinv1].
  assert (Ht1 : held s1 !! t = Some (p, None)) by (by rewrite Hh1, lookup_insert_eq).
  destruct (held_object base Hb Ha _ _ _ _ _ _ Hinv1 Ht1) as (o & Ho & Hm).
  unfold cmd_send, bind at 1. rewrite Hex. unfold bind, get. rewrite Ht1. unfold producer_text, bind, get.
  rewrite Ht1. cbn [lift_opt ret fst]. rewrite Ho. cbn [lift_opt ret].
  by rewrite strcpy_overruns by lia.
Qed.

Definition ping : list Z := [112; 105; 110; 103].

Lemma send_posts_text_witness :
  let s := run two_producers boot in
  exists s', reachable 0x20000100 s' /\ held s' = held s /\
    if decide (busy_objects s < 5)
    then cmd_send 2 [ping] s = Done (OK_text ++ crlf, s') /\ asked s' = asked s ++ [Text ping]
    else cmd_send 2 [ping] s = Done (crlf, s') /\ asked s' = asked s.
Proof.
  apply (send_posts_text 0x20000100 (run two_producers boot) 2 ping);
    [lia|reflexivity|apply two_producers_reachable|by vm_compute|].
  split; [cbn; lia|repeat constructor; lia].
Defined.

Lemma send_overruns_witness :
  cmd_send 2 [replicate 23 65] (run two_producers boot) = Halt "strcpy".
Proof.
  apply (send_overruns 0x20000100 (run two_producers boot) 2 (replicate 23 65));
    [lia|reflexivity|apply two_producers_reachable|by vm_compute|by vm_compute|cbn; lia].
Defined.
