(* ===== verification/Downlink.v ===== *)
(** * The radio link, end to end

    The pipeline of [Stream] takes the number of bytes a UART write accepts as an
    input; [IoQueue] has the serial driver that accepts them.  Here the two run
    together: the radio thread writes each message and its end of line with
    [chnWriteTimeout], that is [oqWriteTimeout] on the driver's output queue,
    while transmit interrupts empty the queue and the producers go on.

    Proved: the driver refines the UART of [Stream]; so the bytes on the line,
    followed by those still queued, are the messages posted, in order. *)

From S2P Require Import Prelude Oslib Msp Stream IoQueue.

Record link := Link {
  pipe : sys;
  port : SerialDriver
}.

Definition pipe_lens : lens link sys := Lens pipe (fun s y => Link s (port y)).
Definition port_lens : lens link SerialDriver := Lens port (fun d y => Link (pipe y) d).

(** The two writes of [hc12StreamThread]; [env] is what happens to the port
    during the write. *)
Definition radio_send (env : list (nat * Z)) : M link unit :=
  let! y := get in
  match cons_pc (pipe y) with
  | CFetched p =>
      let! o := lift_opt (objs (pipe y) !! p) "object" in
      let! n := zoom port_lens (oqWriteTimeout env (frame_of o)) in
      zoom pipe_lens (consumer_send (Z.to_nat n))
  | _ => halt "consumer"
  end.

Definition radio_eol (env : list (nat * Z)) : M link unit :=
  let! y := get in
  match cons_pc (pipe y) with
  | CSent p f n1 =>
      let! n := zoom port_lens (oqWriteTimeout env EOL) in
      zoom pipe_lens (consumer_eol (Z.to_nat n))
  | _ => halt "consumer"
  end.

(** A step of a producer or of the radio thread, a write, or transmit interrupts
    between writes. *)
Inductive lstep :=
  | SPipe (l : label)
  | SSend (env : list (nat * Z))
  | SEol (env : list (nat * Z))
  | SLine (k : nat).

Definition link_exec (a : lstep) : M link unit :=
  match a with
  | SPipe l => zoom pipe_lens (exec l)
  | SSend env => radio_send env
  | SEol env => radio_eol env
  | SLine k => zoom port_lens (tx_interrupts k)
  end.

Definition link_enabled (a : lstep) (y : link) : Prop :=
  match a with
  | SPipe (LSend _) | SPipe (LEol _) => False
  | SPipe l => enabled l (pipe y)
  | SSend _ => exists p, cons_pc (pipe y) = CFetched p
  | SEol _ => exists p f n1, cons_pc (pipe y) = CSent p f n1
  | SLine _ => True
  end.

Inductive link_reachable (base : Z) : link -> Prop :=
  | link_init s d : initial base s -> IoQueue.queued d [] -> sent d = [] -> link_reachable base (Link s d)
  | link_step y a y' :
      link_reachable base y -> link_enabled a y -> link_exec a y = Done (tt, y') -> link_reachable base y'.

(** The UART of the pipeline is the line and the queue of the driver. *)
Definition carries (base : Z) (y : link) : Prop :=
  reachable base (pipe y) /\ exists xs, IoQueue.queued (port y) xs /\ sent (port y) ++ xs = uart (pipe y).

(** ** Messages are bytes *)

Lemma xor_all_nonneg l : Forall (fun b => 0 <= b) l -> 0 <= xor_all l.
Proof. induction 1 as [|x l Hx _ IH]; [done|]. cbn. apply Z.lxor_nonneg. split; by intros. Qed.

Lemma frame_nonneg cmd vs : byte_ok cmd -> Forall (fun b => 0 <= b) (frame_bytes cmd vs).
Proof.
  intros [Hc _]. assert (Hb : Forall (fun b => 0 <= b) (frame_body cmd vs)).
  { unfold frame_body. repeat constructor; [lia|done|]. induction vs as [|v vs IH]; [done|]. cbn [map concat].
    apply Forall_app. split; [|done]. unfold be32. repeat constructor; apply u8_range. }
  unfold frame_bytes. apply Forall_app. split; [repeat constructor; lia|]. apply Forall_app. split; [done|].
  repeat constructor. by apply xor_all_nonneg.
Qed.

Lemma content_nonneg c : content_ok c -> content_bytes c <> [] /\ Forall (fun b => 0 <= b) (content_bytes c).
Proof.
  destruct c as [cmd vs|s]; cbn [content_ok content_bytes].
  - intros [_ Hc]. split; [|by apply frame_nonneg]. unfold frame_bytes. done.
  - intros [Hl Hf]. split; [by destruct s; [cbn in Hl; lia|]|]. eapply Forall_impl; [exact Hf|]. intros; cbn in *; lia.
Qed.

(** ** Only the two writes add to the UART *)

Definition keeps {A} (us : list Z) (m : M sys A) : Prop :=
  forall s a s', uart s = us -> m s = Done (a, s') -> uart s' = us.

Lemma keeps_bind {A B} us (m : M sys A) (f : A -> M sys B) : keeps us m -> (forall a, keeps us (f a)) -> keeps us (bind m f).
Proof.
  intros Hm Hf s b s' Hs. unfold bind. destruct (m s) as [[a s1]| |] eqn:He; [|done|done]. intros Hx.
  eapply Hf; [|exact Hx]. by eapply Hm.
Qed.
Lemma keeps_get {B} us (f : sys -> M sys B) : (forall s, uart s = us -> keeps us (f s)) -> keeps us (bind get f).
Proof. intros Hf s b s' Hs Hx. by eapply (Hf s). Qed.
Lemma keeps_put us s : uart s = us -> keeps us (put s).
Proof. by intros Hs s0 a s' _ [= _ <-]. Qed.
Lemma keeps_ret {A} us (a : A) : keeps us (ret a).
Proof. by intros s b s' Hs [= _ <-]. Qed.
Lemma keeps_modify us f : (forall s, uart (f s) = uart s) -> keeps us (modify f).
Proof. intros Hf s a s' Hs [= _ <-]. by rewrite Hf. Qed.
Lemma keeps_opt {A} us (o : option A) why : keeps us (lift_opt o why).
Proof. intros s a s' Hs. destruct o; [|done]. by intros [= _ <-]. Qed.
Lemma keeps_halt {A} us why : keeps us (halt why : M sys A).
Proof. by intros s a s' _. Qed.
Lemma keeps_zoom {T A} us (l : lens sys T) (m : M T A) : (forall t s, uart (over l t s) = uart s) -> keeps us (zoom l m).
Proof. intros Hl s a s' Hs. unfold zoom. destruct (m (view l s)) as [[b t]| |]; [|done|done]. intros [= _ <-]. by rewrite Hl. Qed.

Ltac keeps_step :=
  match goal with
  | |- keeps _ (bind get _) => apply keeps_get; intros ? ?
  | |- keeps _ (bind _ _) => apply keeps_bind; [|intros ?]
  | |- keeps _ (put _) => by apply keeps_put
  | |- keeps _ (ret _) => apply keeps_ret
  | |- keeps _ (modify _) => by apply keeps_modify
  | |- keeps _ (lift_opt _ _) => apply keeps_opt
  | |- keeps _ (halt _) => apply keeps_halt
  | |- keeps _ (zoom _ _) => by apply keeps_zoom
  | |- keeps _ (match ?x with _ => _ end) => destruct x
  end.

Lemma other_steps_keep_uart l us :
  (forall n, l <> LSend n) -> (forall n, l <> LEol n) -> keeps us (exec l).
Proof.
  intros Hs He. destruct l as [t|t cmd argc argv|t arg|t| |n1|n2|]; [| | | | |by destruct (Hs n1)|by destruct (He n2)|];
    cbn [exec]; unfold producer_alloc, producer_fill, producer_text, producer_post, consumer_fetch, consumer_free; repeat keeps_step.
Qed.

Section link.
Context (base : Z) (Hbase : 0 < base) (Halign : base `mod` 4 = 0).

Lemma fetched_bytes s p :
  reachable base s -> cons_pc s = CFetched p ->
  exists o, objs s !! p = Some o /\ frame_of o <> [] /\ Forall (fun b => 0 <= b) (frame_of o).
Proof.
  intros Hr Hc. destruct (reachable_inv base Hbase Halign s Hr) as (free & q & Hinv).
  destruct (inv_object base s free q p Hinv) as (o & Ho & _); [rewrite Hc; set_solver|].
  exists o. split; [done|]. pose proof (inv_hist _ _ _ _ Hinv) as Hh. rewrite (inv_asked _ _ _ _ Hinv) in Hh.
  unfold in_flight in Hh. rewrite Hc, Ho in Hh.
  assert (Hin : Some (frame_of o) ∈ map Some (map content_bytes (asked s))).
  { rewrite Hh. apply elem_of_app. right. apply elem_of_app. left. by apply list_elem_of_singleton. }
  apply list_elem_of_fmap in Hin as (f & [= <-] & Hin). apply list_elem_of_fmap in Hin as (c & -> & Hin).
  pose proof (inv_sound _ _ _ _ Hinv) as Hs. rewrite Forall_forall in Hs. by apply content_nonneg, Hs.
Qed.

Lemma exec_total s l : reachable base s -> enabled l s -> exists s', exec l s = Done (tt, s') /\ reachable base s'.
Proof.
  intros Hr He. destruct (reachable_inv base Hbase Halign s Hr) as (free & q & Hinv).
  destruct (wp_run _ _ _ (exec_inv base Hbase Halign s free q l Hinv He)) as ([] & s' & Hex & _).
  exists s'. split; [done|]. by eapply reach_step.
Qed.

Lemma uart_now s : reachable base s -> uart s = wire (delivered s) ++ wire_now (cons_pc s).
Proof. intros Hr. destruct (reachable_inv base Hbase Halign s Hr) as (free & q & Hinv). apply Hinv. Qed.

(** What the two writes leave of the state the UART depends on. *)
Lemma send_effect s s' p n o :
  cons_pc s = CFetched p -> objs s !! p = Some o -> exec (LSend n) s = Done (tt, s') -> uart s' = uart s ++ take n (frame_of o).
Proof. intros Hc Ho. cbn [exec]. unfold consumer_send, bind, get. rewrite Hc, Ho. cbn. by intros [= <-]. Qed.

Lemma eol_effect s s' p f n1 n :
  reachable base s -> reachable base s' -> cons_pc s = CSent p f n1 -> exec (LEol n) s = Done (tt, s') ->
  uart s' = uart s ++ take n EOL.
Proof.
  intros Hr Hr' Hc He. rewrite (uart_now s Hr), (uart_now s' Hr'), Hc.
  assert (Hx : delivered s' = delivered s /\ cons_pc s' = CEol p f n1 n).
  { cbn [exec] in He. unfold consumer_eol, bind, get in He. rewrite Hc in He.
    destruct (objs s !! p) as [o|]; [|done]. cbn [lift_opt ret] in He.
    destruct (store (message o) 0 10) as [m|]; [|done]. cbn [lift_opt ret] in He.
    destruct (store m 1 13) as [m'|]; [|done]. by injection He as <-. }
  destruct Hx as [-> ->]. cbn [wire_now]. by rewrite app_assoc.
Qed.

Lemma carries_step y a : carries base y -> link_enabled a y -> safe (link_exec a) (fun _ => carries base) y.
Proof.
  intros (Hr & xs & Hq & Hx) He. destruct a as [l|env|env|k]; cbn [link_exec].
  - assert (Hl : (forall n, l <> LSend n) /\ (forall n, l <> LEol n) /\ enabled l (pipe y)) by (by destruct l).
    destruct Hl as (H1 & H2 & Hen). destruct (exec_total (pipe y) l Hr Hen) as (s' & Hex & Hr').
    apply safe_zoom. unfold safe. cbn [view pipe_lens]. rewrite Hex. split; [done|]. exists xs. split; [done|].
    cbn [over pipe port pipe_lens]. rewrite Hx. symmetry. by eapply (other_steps_keep_uart l (uart (pipe y)) H1 H2).
  - destruct He as [p Hc]. destruct (fetched_bytes (pipe y) p Hr Hc) as (o & Ho & Hne & Hb).
    unfold radio_send. apply safe_bind. unfold get, safe at 1. rewrite Hc. apply safe_bind. unfold safe at 1, lift_opt. rewrite Ho. cbn [ret].
    apply safe_bind, safe_zoom. eapply safe_conseq; [by apply (write_accounts env (port y) xs)|].
    intros n d (Hn & (xs' & Hq' & Hs') & _). apply safe_zoom. cbn [view pipe_lens over port_lens pipe].
    destruct (exec_total (pipe y) (LSend (Z.to_nat n)) Hr) as (s' & Hex & Hr'); [by exists p|].
    pose proof (send_effect _ _ _ _ _ Hc Ho Hex) as Hu. cbn [exec] in Hex. unfold safe. rewrite Hex. split; [done|].
    exists xs'. split; [done|]. cbn [over pipe port pipe_lens]. by rewrite Hs', Hu, <- Hx, app_assoc.
  - destruct He as (p & f & n1 & Hc). unfold radio_eol. apply safe_bind. unfold get, safe at 1. rewrite Hc.
    apply safe_bind, safe_zoom. eapply safe_conseq; [apply (write_accounts env (port y) xs); [done|done|by repeat constructor]|].
    intros n d (Hn & (xs' & Hq' & Hs') & _). apply safe_zoom. cbn [view pipe_lens over port_lens pipe].
    destruct (exec_total (pipe y) (LEol (Z.to_nat n)) Hr) as (s' & Hex & Hr'); [by exists p, f, n1|].
    pose proof (eol_effect _ _ _ _ _ _ Hr Hr' Hc Hex) as Hu. cbn [exec] in Hex. unfold safe. rewrite Hex. split; [done|].
    exists xs'. split; [done|]. cbn [over pipe port pipe_lens]. by rewrite Hs', Hu, <- Hx, app_assoc.
  - apply safe_zoom. eapply safe_conseq; [apply wp_safe, (tx_interrupts_spec k (port y) xs Hq)|].
    intros ? d (Hq' & Hs' & _). split; [done|]. exists (drop k xs). split; [done|]. cbn [over pipe port port_lens].
    by rewrite Hs', <- app_assoc, take_drop.
Qed.

Lemma link_carries y : link_reachable base y -> carries base y.
Proof.
  induction 1 as [s d Hi Hq Hs|y a y' _ IH He Hex].
  - split; [by apply reach_init|]. exists []. split; [done|]. cbn [pipe port]. rewrite Hs.
    destruct Hi as (? & ? & _ & ->). done.
  - pose proof (carries_step y a IH He) as Hc. unfold safe in Hc. by rewrite Hex in Hc.
Qed.
End link.


(** The radio's port, and a frame written through its 16 bytes. *)
Definition radio_port : SerialDriver := Serial (iqObjectInit (replicate 16 0)) (oqObjectInit (replicate 16 0)) [] [].
Definition one_frame : list lstep :=
  map SPipe (two_producers ++ [LPost 0; LFetch]) ++ [SSend [(3%nat, MSG_OK); (4%nat, MSG_OK)]; SLine 2; SEol [(1%nat, MSG_OK)]].

Definition link_after (y : link) (a : lstep) : link := match link_exec a y with Done (_, y') => y' | _ => y end.

Lemma link_after_reachable base y a :
  link_reachable base y -> link_enabled a y -> (match link_exec a y with Done _ => true | _ => false end) = true ->
  link_reachable base (link_after y a).
Proof.
  intros Hr He Hd. eapply link_step; [exact Hr|exact He|]. unfold link_after. by destruct (link_exec a y) as [[[] y']| |].
Qed.

Ltac link_go := apply link_after_reachable; [| |vm_compute; reflexivity].

Lemma one_frame_reachable : link_reachable 0x20000100 (foldl link_after (Link boot radio_port) one_frame).
Proof.
  unfold one_frame, two_producers. cbn [map app foldl].
  link_go; [|do 3 eexists; vm_compute; reflexivity].
  link_go; [|exact I].
  link_go; [|eexists; vm_compute; reflexivity].
  link_go; [|vm_compute; reflexivity].
  link_go; [|do 2 eexists; vm_compute; reflexivity].
  link_go; [|split; [eexists; vm_compute; reflexivity|]; split_and!; [split; lia|lia|cbn; lia|repeat constructor; lia]].
  link_go; [|vm_compute; reflexivity].
  link_go; [|vm_compute; reflexivity].
  apply link_init; [exists Pool.empty_pool, boot_pool; by split| |done].
  split; [|done]. split; [|done]. constructor; cbn; try lia; reflexivity.
Qed.

