(* ===== verification/Hal.v ===== *)
(** * Peripherals: the I2C bus, GPIO lines and time

    The hardware and the rest of the system are a [Platform]: what the I2C
    peripheral answers to a transfer, what the other threads did to the bus
    while this thread waited for its mutex, the 16-bit system time and the
    GPIO lines.  On top of it this file models ChibiOS's I2C driver
    ([ChibiOS/os/hal/src/hal_i2c.c]) with its assertions, [i2c1_init]
    ([src/src/cfg/hw.c]) and [checkI2CCondition] ([src/src/main.c]), the
    recovery that every sensor driver runs after it got the bus.

    [bus_ok] is the discipline a driver operation must follow: started without
    the bus mutex it never halts the system, whatever the devices answer and
    whatever state the other threads left the bus in, and it returns without
    the mutex.  The drivers' files prove it operation by operation; the hint
    database [bus] composes it. *)

From S2P Require Import Prelude Oslib.

Inductive i2cstate_t :=
  I2C_UNINIT | I2C_STOP | I2C_READY | I2C_ACTIVE_TX | I2C_ACTIVE_RX | I2C_LOCKED.

#[global] Instance i2cstate_eq_dec : EqDecision i2cstate_t.
Proof. solve_decision. Defined.

(** A transfer as it is handed to the peripheral: address, bytes sent, number
    of bytes to receive, time-out. *)
Record i2c_req := I2cReq {
  req_addr : Z;
  req_tx : list Z;
  req_rx : nat;
  req_timeout : Z
}.

(** What the firmware does not contain: [p_i2c] is the low-level driver with
    the devices on the bus, giving the status and the bytes it stored in the
    receive buffer; [p_others] is what happens on the bus until the mutex is
    granted, and [p_peek] what a read of [I2CD1.state] without the mutex sees,
    which may be a transfer of another thread in progress. *)
Class Platform (P : Type) := {
  p_i2c : i2c_req -> P -> (Z * list Z) * P;
  p_others : i2cstate_t -> P -> i2cstate_t * P;
  p_peek : i2cstate_t -> P -> i2cstate_t;
  p_time : P -> Z * P;
  p_sleep : Z -> P -> P;
  p_read_line : Z -> P -> bool;
  p_set_line : Z -> bool -> P -> P;
  p_set_mode : Z -> Z -> P -> P
}.

(** What is relied on: the peripheral stores at most the requested bytes, and
    all of them when it reports success; the status is one of the three the
    low-level driver returns; other threads leave the bus ready or locked,
    which is what [bus_ok] guarantees of each of them. *)
Class PlatformOk (P : Type) `{Platform P} : Prop := {
  i2c_rx_length : forall r p,
    (length (snd (fst (p_i2c r p))) <= req_rx r)%nat;
  i2c_rx_full : forall r p,
    fst (fst (p_i2c r p)) = MSG_OK -> length (snd (fst (p_i2c r p))) = req_rx r;
  i2c_rx_bytes : forall r p b, b ∈ snd (fst (p_i2c r p)) -> byte_ok b;
  others_state : forall st p,
    st = I2C_READY \/ st = I2C_LOCKED ->
    fst (p_others st p) = I2C_READY \/ fst (p_others st p) = I2C_LOCKED
}.

(** [I2CD1.state], whether this thread holds the bus mutex, and the transfers
    done so far with their status. *)
Record world (P : Type) := World {
  plat : P;
  i2c_st : i2cstate_t;
  bus_held : bool;
  i2c_log : list (i2c_req * Z)
}.
Arguments World {P} _ _ _ _.
Arguments plat {P} _.
Arguments i2c_st {P} _.
Arguments bus_held {P} _.
Arguments i2c_log {P} _.

Section hal.
Context {P : Type} `{Platform P}.
Notation W := (world P).

Definition set_plat (p : P) (w : W) : W := World p (i2c_st w) (bus_held w) (i2c_log w).
Definition set_i2c_st (st : i2cstate_t) (w : W) : W := World (plat w) st (bus_held w) (i2c_log w).

(** ** Time and GPIO *)

Definition chVTGetSystemTime : M W Z := fun w =>
  let '(t, p) := p_time (plat w) in Done (u16 t, set_plat p w).

Definition chThdSleepMilliseconds (ms : Z) : M W unit :=
  modify (fun w => set_plat (p_sleep ms (plat w)) w).

Definition palSetLine (line : Z) : M W unit :=
  modify (fun w => set_plat (p_set_line line true (plat w)) w).
Definition palClearLine (line : Z) : M W unit :=
  modify (fun w => set_plat (p_set_line line false (plat w)) w).
Definition palReadLine (line : Z) : M W bool := gets (fun w => p_read_line line (plat w)).
Definition palSetLineMode (line mode : Z) : M W unit :=
  modify (fun w => set_plat (p_set_mode line mode (plat w)) w).

Definition GPIOA : Z := 0x50000000.
Definition GPIOB : Z := 0x50000400.
Definition GPIOC : Z := 0x50000800.
Definition PAL_LINE (port pad : Z) : Z := Z.lor port pad.
Definition PAL_STM32_MODE_OUTPUT : Z := 1.
Definition PAL_STM32_OTYPE_OPENDRAIN : Z := 4.
Definition PAL_MODE_ALTERNATE (n : Z) : Z := Z.lor 2 (Z.shiftl n 7).
Definition LINE_NO_PIN : Z := 0xffffff.

(** ** The I2C driver *)

Definition i2cStart : M W unit :=
  let! w := get in
  assert (bool_decide (i2c_st w = I2C_STOP) || bool_decide (i2c_st w = I2C_READY)
          || bool_decide (i2c_st w = I2C_LOCKED)) "invalid state" ;;;
  modify (set_i2c_st I2C_READY).

Definition i2cStop : M W unit :=
  let! w := get in
  assert (bool_decide (i2c_st w = I2C_STOP) || bool_decide (i2c_st w = I2C_READY)
          || bool_decide (i2c_st w = I2C_LOCKED)) "invalid state" ;;;
  modify (set_i2c_st I2C_STOP).

(** The transfer itself; its outcome sets the driver's state. *)
Definition i2c_transfer (active : i2cstate_t) (r : i2c_req) : M W (Z * list Z) :=
  modify (set_i2c_st active) ;;;
  let! w := get in
  let '((rdymsg, rx), p) := p_i2c r (plat w) in
  put (World p (if decide (rdymsg = MSG_TIMEOUT) then I2C_LOCKED else I2C_READY)
             (bus_held w) (i2c_log w ++ [(r, rdymsg)])) ;;;
  ret (rdymsg, rx).

(** Returns the status and the bytes stored in [rxbuf]. *)
Definition i2cMasterTransmitTimeout (addr : Z) (txbuf : list Z) (rxbytes : nat) (timeout : Z)
  : M W (Z * list Z) :=
  assert (bool_decide (txbuf <> []) && bool_decide (timeout <> TIME_IMMEDIATE))
         "i2cMasterTransmitTimeout" ;;;
  let! w := get in
  assert (bool_decide (i2c_st w = I2C_READY)) "not ready" ;;;
  i2c_transfer I2C_ACTIVE_TX (I2cReq addr txbuf rxbytes timeout).

Definition i2cMasterReceiveTimeout (addr : Z) (rxbytes : nat) (timeout : Z)
  : M W (Z * list Z) :=
  assert (bool_decide (addr <> 0) && bool_decide (rxbytes <> 0%nat)
          && bool_decide (timeout <> TIME_IMMEDIATE)) "i2cMasterReceiveTimeout" ;;;
  let! w := get in
  assert (bool_decide (i2c_st w = I2C_READY)) "not ready" ;;;
  i2c_transfer I2C_ACTIVE_RX (I2cReq addr [] rxbytes timeout).

(** [osalMutexLock]: a thread that locks a mutex it holds, or unlocks one it
    does not hold, fails an assertion of [chmtx.c]. *)
Definition i2cAcquireBus : M W unit :=
  let! w := get in
  assert (negb (bus_held w)) "already locked" ;;;
  let '(st, p) := p_others (i2c_st w) (plat w) in
  put (World p st true (i2c_log w)).

Definition i2cReleaseBus : M W unit :=
  let! w := get in
  assert (bus_held w) "not owner" ;;;
  put (World (plat w) (i2c_st w) false (i2c_log w)).

(** [I2CD1.state] read by a thread that does not hold the bus. *)
Definition i2c_state_unlocked : M W i2cstate_t := gets (fun w => p_peek (i2c_st w) (plat w)).

(** [i2c1_init] of hw.c: start the driver, SCL and SDA open drain on PB8/PB9. *)
Definition i2c1_init : M W unit :=
  i2cStart ;;;
  palSetLineMode (PAL_LINE GPIOB 8) (Z.lor (PAL_MODE_ALTERNATE 4) PAL_STM32_OTYPE_OPENDRAIN) ;;;
  palSetLineMode (PAL_LINE GPIOB 9) (Z.lor (PAL_MODE_ALTERNATE 4) PAL_STM32_OTYPE_OPENDRAIN).

(** [checkI2CCondition] of main.c on the driver [I2CD1], the only one used. *)
Definition checkI2CCondition : M W bool :=
  let! w := get in
  (if decide (i2c_st w = I2C_LOCKED) then i2cStop ;;; i2c1_init else ret tt) ;;;
  gets (fun w => bool_decide (i2c_st w = I2C_READY)).

(** ** The bus discipline *)

Definition idle (w : W) : Prop :=
  bus_held w = false /\ (i2c_st w = I2C_READY \/ i2c_st w = I2C_LOCKED).
Definition owned (w : W) : Prop :=
  bus_held w = true /\ (i2c_st w = I2C_READY \/ i2c_st w = I2C_LOCKED).
Definition owned_ready (w : W) : Prop := bus_held w = true /\ i2c_st w = I2C_READY.

Context `{!PlatformOk P}.

Lemma acquire_safe w (Q : unit -> W -> Prop) :
  idle w -> (forall w', owned w' -> Q tt w') -> safe i2cAcquireBus Q w.
Proof.
  intros [Hh Hs] HQ. unfold i2cAcquireBus, safe, bind, get. rewrite Hh. cbn.
  destruct (p_others (i2c_st w) (plat w)) as [st p] eqn:He. cbn. apply HQ.
  split; [done|]. cbn. pose proof (others_state _ (plat w) Hs) as Ho. by rewrite He in Ho.
Qed.

Lemma release_safe w (Q : unit -> W -> Prop) :
  owned w -> (forall w', idle w' -> i2c_st w' = i2c_st w -> Q tt w') -> safe i2cReleaseBus Q w.
Proof.
  intros [Hh Hs] HQ. unfold i2cReleaseBus, safe, bind, get. rewrite Hh. cbn. by apply HQ.
Qed.

(** After the check the bus is always ready: a locked bus is restarted. *)
Lemma check_safe w (Q : bool -> W -> Prop) :
  owned w -> (forall w', owned_ready w' -> Q true w') -> safe checkI2CCondition Q w.
Proof.
  intros [Hh [Hs|Hs]] HQ; unfold checkI2CCondition; apply safe_bind; unfold safe at 1, get.
  - rewrite decide_False by congruence. unfold safe, bind, ret, gets. cbn.
    rewrite bool_decide_true by done. by apply HQ.
  - rewrite decide_True by done.
    unfold safe, i2cStop, i2c1_init, i2cStart, palSetLineMode, bind, get, modify, assert, gets.
    rewrite Hs. cbn. by apply HQ.
Qed.

Lemma transfer_safe active r w (Q : Z * list Z -> W -> Prop) :
  owned_ready w ->
  (forall msg rx w', owned w' -> (msg <> MSG_TIMEOUT -> i2c_st w' = I2C_READY) ->
    (length rx <= req_rx r)%nat -> (msg = MSG_OK -> length rx = req_rx r) ->
    (forall b, b ∈ rx -> byte_ok b) -> Q (msg, rx) w') ->
  safe (i2c_transfer active r) Q w.
Proof.
  intros [Hh Hs] HQ. unfold i2c_transfer, safe, bind, get, modify, put, ret. cbn.
  pose proof (i2c_rx_length r (plat w)) as Hl. pose proof (i2c_rx_full r (plat w)) as Hf.
  pose proof (i2c_rx_bytes r (plat w)) as Hb.
  destruct (p_i2c r (plat w)) as [[msg rx] p]. cbn in *. apply HQ; [| |done..].
  - split; [done|]. cbn. case_decide; auto.
  - intros Hm. cbn. by rewrite decide_False.
Qed.

Lemma transmit_safe addr tx n timeout w (Q : Z * list Z -> W -> Prop) :
  tx <> [] -> timeout <> 0 -> owned_ready w ->
  (forall msg rx w', owned w' -> (msg <> MSG_TIMEOUT -> i2c_st w' = I2C_READY) ->
    (length rx <= n)%nat -> (msg = MSG_OK -> length rx = n) ->
    (forall b, b ∈ rx -> byte_ok b) -> Q (msg, rx) w') ->
  safe (i2cMasterTransmitTimeout addr tx n timeout) Q w.
Proof.
  intros Htx Ht Hw HQ. unfold i2cMasterTransmitTimeout. destruct Hw as [Hh Hs].
  apply safe_bind. rewrite !bool_decide_true by done. apply safe_ret, safe_bind.
  unfold safe at 1, get. apply safe_bind. rewrite bool_decide_true by done. apply safe_ret.
  by apply transfer_safe.
Qed.

Lemma receive_safe addr n timeout w (Q : Z * list Z -> W -> Prop) :
  addr <> 0 -> n <> 0%nat -> timeout <> 0 -> owned_ready w ->
  (forall msg rx w', owned w' -> (msg <> MSG_TIMEOUT -> i2c_st w' = I2C_READY) ->
    (length rx <= n)%nat -> (msg = MSG_OK -> length rx = n) ->
    (forall b, b ∈ rx -> byte_ok b) -> Q (msg, rx) w') ->
  safe (i2cMasterReceiveTimeout addr n timeout) Q w.
Proof.
  intros Ha Hn Ht Hw HQ. unfold i2cMasterReceiveTimeout. destruct Hw as [Hh Hs].
  apply safe_bind. rewrite !bool_decide_true by done. apply safe_ret, safe_bind.
  unfold safe at 1, get. apply safe_bind. rewrite bool_decide_true by done. apply safe_ret.
  by apply transfer_safe.
Qed.

End hal.

(** ** Drivers: the world and a handle *)

Section driver.
Context {P : Type} `{Platform P} {D : Type}.
Notation W := (world P).

(** A driver runs on the world and its own handle and static buffers. *)
Definition hal {A} (m : M W A) : M (W * D) A := zoom (Lens fst (fun w s => (w, snd s))) m.
Definition upd (f : D -> D) : M (W * D) unit := modify (fun s => (fst s, f (snd s))).
Definition see {A} (f : D -> A) : M (W * D) A := gets (fun s => f (snd s)).

Definition bus_ok {A} (m : M (W * D) A) : Prop :=
  forall s, idle (fst s) -> safe m (fun _ s' => idle (fst s')) s.

Lemma safe_hal {A} (m : M W A) (Q : A -> W * D -> Prop) w h :
  safe m (fun a w' => Q a (w', h)) w -> safe (hal m) Q (w, h).
Proof. intros Hm. apply safe_zoom. exact Hm. Qed.

Lemma safe_upd f (Q : unit -> W * D -> Prop) w h : Q tt (w, f h) -> safe (upd f) Q (w, h).
Proof. done. Qed.

Lemma safe_see {A} (f : D -> A) (Q : A -> W * D -> Prop) w h :
  Q (f h) (w, h) -> safe (see f) Q (w, h).
Proof. done. Qed.

Lemma bus_ok_ret {A} (a : A) : bus_ok (ret a).
Proof. by intros s Hs. Qed.

Lemma bus_ok_bind {A B} (m : M (W * D) A) (f : A -> M (W * D) B) :
  bus_ok m -> (forall a, bus_ok (f a)) -> bus_ok (bind m f).
Proof.
  intros Hm Hf s Hs. apply safe_bind. eapply safe_conseq; [by apply Hm|].
  intros a s' Hs'. by apply Hf.
Qed.

Lemma bus_ok_upd f : bus_ok (upd f).
Proof. by intros s Hs. Qed.

Lemma bus_ok_see {A} (f : D -> A) : bus_ok (see f).
Proof. by intros s Hs. Qed.

Lemma bus_ok_sleep ms : bus_ok (hal (chThdSleepMilliseconds ms)).
Proof. by intros s Hs. Qed.

Lemma bus_ok_set_line l : bus_ok (hal (palSetLine l)).
Proof. by intros s Hs. Qed.

Lemma bus_ok_clear_line l : bus_ok (hal (palClearLine l)).
Proof. by intros s Hs. Qed.

Lemma bus_ok_read_line l : bus_ok (hal (palReadLine l)).
Proof. by intros s Hs. Qed.

Lemma bus_ok_mode l m : bus_ok (hal (palSetLineMode l m)).
Proof. by intros s Hs. Qed.

Lemma bus_ok_time : bus_ok (hal chVTGetSystemTime).
Proof.
  intros [w h] Hs. apply safe_hal. unfold safe, chVTGetSystemTime.
  by destruct (p_time (plat w)) as [t p].
Qed.

Lemma bus_ok_time_add start t why :
  (t <=? TIME_MAX_SYSTIME) = true -> bus_ok (lift_opt (chTimeAddX start t) why).
Proof.
  intros Ht%Z.leb_le s Hs. unfold chTimeAddX. by rewrite decide_True.
Qed.

Lemma bus_ok_state : bus_ok (hal i2c_state_unlocked).
Proof. by intros s Hs. Qed.

Lemma bus_ok_loop {A} fuel (body : M (W * D) (option A)) : bus_ok body -> bus_ok (loop fuel body).
Proof.
  intros Hb s Hs. apply (safe_loop body (fun s => idle (fst s))); [|done].
  intros s' Hs'. eapply safe_conseq; [by apply Hb|]. by intros [a|] s''.
Qed.

Lemma bus_ok_mand (m1 m2 : M (W * D) bool) : bus_ok m1 -> bus_ok m2 -> bus_ok (mand m1 m2).
Proof.
  intros H1 H2. apply bus_ok_bind; [done|]. intros [|]; [done|apply bus_ok_ret].
Qed.

End driver.

(** ** Total correctness on a platform with a stable device state

    [Stable I]: neither the other threads, nor time, nor the pin
    configuration change whether the device satisfies [I]. *)

Class Stable {P : Type} `{Platform P} (I : P -> Prop) : Prop := {
  stable_others : forall st p, I p -> I (snd (p_others st p));
  stable_mode : forall l m p, I p -> I (p_set_mode l m p);
  stable_sleep : forall ms p, I p -> I (p_sleep ms p);
  stable_time : forall p, I p -> I (snd (p_time p))
}.

#[global] Instance stable_True {P : Type} `{Platform P} : Stable (fun _ : P => True).
Proof. done. Qed.

Section stable.
Context {P : Type} `{Platform P} `{!PlatformOk P} {D : Type}.
Context (I : P -> Prop) `{!Stable I}.
Notation W := (world P).
Implicit Types (w : W) (d : D).

Lemma acquire_st w d (Q : unit -> W * D -> Prop) :
  idle w -> I (plat w) -> (forall w', owned w' -> I (plat w') -> Q tt (w', d)) ->
  wp (hal i2cAcquireBus) Q (w, d).
Proof.
  intros [Hh Hs] Hi HQ. apply wp_zoom. unfold wp, i2cAcquireBus, bind, get. cbn. rewrite Hh. cbn.
  pose proof (others_state _ (plat w) Hs) as Ho. pose proof (stable_others (i2c_st w) _ Hi) as Hi'.
  destruct (p_others (i2c_st w) (plat w)) as [st p]. by apply HQ.
Qed.

Lemma check_st w d (Q : bool -> W * D -> Prop) :
  owned w -> I (plat w) -> (forall w', owned_ready w' -> I (plat w') -> Q true (w', d)) ->
  wp (hal checkI2CCondition) Q (w, d).
Proof.
  intros [Hh Hs] Hi HQ. apply wp_zoom. unfold checkI2CCondition. apply wp_bind, wp_get. cbn.
  case_decide as Hl.
  - unfold wp, i2cStop, i2c1_init, i2cStart, palSetLineMode, bind, get, modify, assert, gets.
    rewrite Hl. cbn. apply HQ; [done|]. by do 2 apply stable_mode.
  - destruct Hs as [Hs|]; [|done]. unfold wp, bind, ret, gets. cbn.
    rewrite bool_decide_true by done. by apply HQ.
Qed.

(** A transfer that the device answers without a time-out. *)
Lemma transmit_st addr tx n timeout msg rx (J : P -> Prop) w d (Q : Z * list Z -> W * D -> Prop) :
  tx <> [] -> timeout <> 0 -> msg <> MSG_TIMEOUT ->
  (exists p', p_i2c (I2cReq addr tx n timeout) (plat w) = ((msg, rx), p') /\ J p') ->
  owned_ready w ->
  (forall w', owned w' -> J (plat w') -> Q (msg, rx) (w', d)) ->
  wp (hal (i2cMasterTransmitTimeout addr tx n timeout)) Q (w, d).
Proof.
  intros Htx Ht Hm (p' & Hp & HJ) [Hh Hs] HQ. apply wp_zoom. unfold i2cMasterTransmitTimeout.
  apply wp_bind. rewrite !bool_decide_true by done. apply wp_ret, wp_bind, wp_get, wp_bind. cbn [view fst].
  rewrite bool_decide_true by done. apply wp_ret.
  unfold i2c_transfer, wp, bind, get, modify, put, ret. cbn. rewrite Hp. cbn.
  rewrite decide_False by done. apply HQ; [|done]. split; auto.
Qed.

Lemma release_st w d (Q : unit -> W * D -> Prop) :
  owned w -> I (plat w) -> (forall w', idle w' -> I (plat w') -> Q tt (w', d)) ->
  wp (hal i2cReleaseBus) Q (w, d).
Proof.
  intros [Hh Hs] Hi HQ. apply wp_zoom. unfold wp, i2cReleaseBus, bind, get. cbn. rewrite Hh. cbn.
  by apply HQ.
Qed.

Lemma sleep_st ms w d (Q : unit -> W * D -> Prop) :
  idle w -> I (plat w) -> (forall w', idle w' -> I (plat w') -> Q tt (w', d)) ->
  wp (hal (chThdSleepMilliseconds ms)) Q (w, d).
Proof. intros Hw Hi HQ. apply HQ; [done|]. by apply stable_sleep. Qed.

Lemma time_st w d (Q : Z -> W * D -> Prop) :
  idle w -> I (plat w) ->
  (forall w', idle w' -> I (plat w') -> plat w' = snd (p_time (plat w)) ->
     Q (u16 (fst (p_time (plat w)))) (w', d)) ->
  wp (hal chVTGetSystemTime) Q (w, d).
Proof.
  intros Hw Hi HQ. apply wp_zoom. unfold wp, chVTGetSystemTime. cbn.
  pose proof (stable_time _ Hi) as Ht. destruct (p_time (plat w)) as [t p]. by apply HQ.
Qed.

Lemma upd_st (g : D -> D) w d (Q : unit -> W * D -> Prop) : Q tt (w, g d) -> wp (upd g) Q (w, d).
Proof. done. Qed.

Lemma see_st {A} (g : D -> A) w d (Q : A -> W * D -> Prop) : Q (g d) (w, d) -> wp (see g) Q (w, d).
Proof. done. Qed.

End stable.

Create HintDb bus discriminated.
#[export] Hint Resolve bus_ok_ret bus_ok_upd bus_ok_see bus_ok_sleep bus_ok_set_line
  bus_ok_clear_line bus_ok_read_line bus_ok_mode bus_ok_time bus_ok_time_add bus_ok_state : bus.
#[export] Hint Extern 1 (_ = true) => reflexivity : bus.

(** [bus_step] decomposes a driver operation down to calls with a [bus] hint. *)
Ltac bus_step :=
  lazymatch goal with
  | |- bus_ok (bind _ _) => apply bus_ok_bind
  | |- bus_ok (mand _ _) => apply bus_ok_mand
  | |- bus_ok (loop _ _) => apply bus_ok_loop
  | |- bus_ok (if ?b then _ else _) => destruct b
  | |- bus_ok (match ?x with _ => _ end) => destruct x
  | |- forall _, _ => intro
  end.
Ltac bus := repeat (first [solve [eauto with bus] | bus_step]).

(** [own]: symbolic execution inside the critical section of a driver. *)
Ltac own_step :=
  lazymatch goal with
  | |- safe (bind _ _) _ _ => apply safe_bind
  | |- safe (hal i2cAcquireBus) _ _ =>
      apply safe_hal, acquire_safe; [assumption|intros ? ?]
  | |- safe (hal i2cReleaseBus) _ _ =>
      apply safe_hal, release_safe;
        [first [assumption | match goal with Hr : owned_ready _ |- _ =>
                  destruct Hr as [? ?]; split; auto end]|intros ? ? ?]
  | |- safe (hal checkI2CCondition) _ _ =>
      apply safe_hal, check_safe; [assumption|intros ? ?]
  | |- safe (hal (i2cMasterTransmitTimeout _ _ _ _)) _ _ =>
      apply safe_hal, transmit_safe; [done|done|assumption|intros ? ? ? ? ? ? ? ?]
  | |- safe (hal (i2cMasterReceiveTimeout _ _ _)) _ _ =>
      apply safe_hal, receive_safe; [try done|done|done|assumption|intros ? ? ? ? ? ? ? ?]
  | |- safe (upd _) _ _ => apply safe_upd
  | |- safe (see _) _ _ => apply safe_see
  | |- safe (ret _) _ _ => apply safe_ret
  | |- safe (if ?b then _ else _) _ _ => destruct b
  end.
Ltac own := cbv zeta; repeat (own_step; cbn beta iota zeta delta [negb fst snd]); try assumption.
