(* ===== verification/Sim.v ===== *)
(** * Register devices and a simulated platform

    [RegDevice] states what the data sheets of the I2C sensors promise of
    their register interface: a write stores the bytes of one register, a read
    returns them, and neither time nor GPIO nor other threads change them.
    [sim] is an executable platform that has such devices, used to evaluate
    the drivers; it can be scripted to fail transfers and to find the bus
    locked by another thread. *)

From S2P Require Import Prelude Oslib Hal.

(** The device at [addr] is a file of byte registers. *)
Class RegDevice (P : Type) `{Platform P} (addr : Z) := {
  reg : P -> Z -> Z;
  reg_byte : forall p r, byte_ok (reg p r);
  reg_read : forall p r timeout,
    exists p', p_i2c (I2cReq addr [r] 1 timeout) p = ((MSG_OK, [reg p r]), p') /\
      forall r', reg p' r' = reg p r';
  reg_write : forall p r v timeout, byte_ok v ->
    exists p', p_i2c (I2cReq addr [r; v] 0 timeout) p = ((MSG_OK, []), p') /\
      forall r', reg p' r' = if decide (r' = r) then v else reg p r';
  reg_sleep : forall p ms r, reg (p_sleep ms p) r = reg p r;
  reg_mode : forall p l m r, reg (p_set_mode l m p) r = reg p r;
  reg_others : forall p st r, reg (snd (p_others st p)) r = reg p r;
  reg_time : forall p r, reg (snd (p_time p)) r = reg p r
}.

(** [sim_regs] gives the bytes of each register of each device; [sim_script]
    the statuses of the next transfers, after which all succeed;
    [sim_locked] whether other threads left the bus locked at the next
    acquisitions. *)
Record sim := SimState {
  sim_regs : gmap (Z * Z) (list Z);
  sim_script : list Z;
  sim_locked : list bool;
  sim_now : Z;
  sim_lines : gmap Z bool
}.

Definition pad (n : nat) (l : list Z) : list Z := take n (map u8 l ++ replicate n 0).

Definition sim_xfer (r : i2c_req) (p : sim) : (Z * list Z) * sim :=
  let answer := pad (req_rx r)
    (default [] (sim_regs p !! (req_addr r, default 0 (head (req_tx r))))) in
  let regs' := match req_tx r with
               | reg :: (_ :: _) as vs => <[(req_addr r, reg) := tail (req_tx r)]> (sim_regs p)
               | _ => sim_regs p
               end in
  match sim_script p with
  | msg :: script =>
      if decide (msg = MSG_OK)
      then ((MSG_OK, answer), SimState regs' script (sim_locked p) (sim_now p) (sim_lines p))
      else ((msg, []), SimState (sim_regs p) script (sim_locked p) (sim_now p) (sim_lines p))
  | [] => ((MSG_OK, answer), SimState regs' [] (sim_locked p) (sim_now p) (sim_lines p))
  end.

#[global] Instance sim_platform : Platform sim := {
  p_i2c := sim_xfer;
  p_others st p :=
    match sim_locked p with
    | b :: ls => (if (b : bool) then I2C_LOCKED else st,
                  SimState (sim_regs p) (sim_script p) ls (sim_now p) (sim_lines p))
    | [] => (st, p)
    end;
  p_peek st _ := st;
  p_time p := (sim_now p,
    SimState (sim_regs p) (sim_script p) (sim_locked p) (sim_now p + 1) (sim_lines p));
  p_sleep ms p :=
    SimState (sim_regs p) (sim_script p) (sim_locked p) (sim_now p + ms) (sim_lines p);
  p_read_line l p := default false (sim_lines p !! l);
  p_set_line l b p :=
    SimState (sim_regs p) (sim_script p) (sim_locked p) (sim_now p) (<[l := b]> (sim_lines p));
  p_set_mode _ _ p := p
}.

Lemma pad_length n l : length (pad n l) = n.
Proof. unfold pad. rewrite length_take, length_app, length_map, length_replicate. lia. Qed.

Lemma pad_byte n l b : b ∈ pad n l -> byte_ok b.
Proof.
  intros Hb. apply elem_of_take in Hb as (i & Hi & _). apply list_elem_of_lookup_2 in Hi.
  apply elem_of_app in Hi as [Hi|Hi].
  - apply list_elem_of_fmap in Hi as (z & -> & _). apply byte_u8.
  - apply elem_of_replicate in Hi as [-> _]. split; lia.
Qed.

#[global] Instance sim_ok : PlatformOk sim.
Proof.
  constructor.
  - intros r p. cbn. unfold sim_xfer.
    destruct (sim_script p) as [|m s]; [|case_decide]; cbn [fst snd]; rewrite ?pad_length; cbn; lia.
  - intros r p. cbn. unfold sim_xfer.
    destruct (sim_script p) as [|m s]; [|case_decide]; cbn [fst snd]; rewrite ?pad_length; done.
  - intros r p b. cbn. unfold sim_xfer.
    destruct (sim_script p) as [|m s]; [|case_decide]; cbn [fst snd]; try apply pad_byte.
    by intros ?%elem_of_nil.
  - intros st p Hst. cbn. destruct (sim_locked p) as [|[] ls]; cbn; auto.
Qed.

(** A platform with the given registers, and the world after [i2c1_init]. *)
Definition sim_of (regs : gmap (Z * Z) (list Z)) : sim := SimState regs [] [] 0 ∅.
Definition sim_world (p : sim) : world sim := World p I2C_READY false [].

(** A platform whose device never fails: a plain register file. *)
Definition regfile := gmap Z Z.

Definition rf_get (p : regfile) (r : Z) : Z := u8 (default 0 (p !! r)).

Definition rf_xfer (r : i2c_req) (p : regfile) : (Z * list Z) * regfile :=
  let p' := match req_tx r with [a; v] => <[a := v]> p | _ => p end in
  ((MSG_OK, pad (req_rx r) [rf_get p (default 0 (head (req_tx r)))]), p').

#[global] Instance regfile_platform : Platform regfile := {
  p_i2c := rf_xfer;
  p_others st p := (st, p);
  p_peek st _ := st;
  p_time p := (0, p);
  p_sleep _ p := p;
  p_read_line _ _ := false;
  p_set_line _ _ p := p;
  p_set_mode _ _ p := p
}.

#[global] Instance regfile_ok : PlatformOk regfile.
Proof.
  constructor; cbn; intros; rewrite ?pad_length; auto. by eapply pad_byte.
Qed.

#[global] Program Instance regfile_device addr : RegDevice regfile addr := {
  reg := rf_get
}.
Next Obligation. intros. apply byte_u8. Qed.
Next Obligation.
  intros addr p r t. exists p. split; [|done]. cbn. unfold rf_xfer, pad. cbn.
  unfold rf_get. by rewrite (u8_small (u8 _)) by apply u8_range.
Qed.
Next Obligation.
  intros addr p r v t Hv. exists (<[r := v]> p). split; [done|].
  intros r'. unfold rf_get, regfile in *. case_decide as Heq.
  - subst. rewrite lookup_insert_eq. cbn. by apply u8_small.
  - by rewrite lookup_insert_ne by congruence.
Qed.
Next Obligation. done. Qed.
Next Obligation. done. Qed.
Next Obligation. done. Qed.
Next Obligation. done. Qed.

(** ** Total-correctness rules on a register device *)

(** The register file [f] with register [r] set to [v]. *)
Definition reg_set (r v : Z) (f : Z -> Z) : Z -> Z := fun r' => if decide (r' = r) then v else f r'.

Section regdev.
Context {P : Type} `{Platform P} `{!PlatformOk P} (a : Z) `{RD : !RegDevice P a}.
Context {D : Type}.
Implicit Types (w : world P) (d : D) (f : Z -> Z).

(** The device's registers are [f]; the bus is free. *)
Definition has (f : Z -> Z) (w : world P) : Prop := forall r, reg (plat w) r = f r.
Definition at_rest (f : Z -> Z) (w : world P) : Prop := idle w /\ has f w.

Lemma has_byte f w r : has f w -> byte_ok (f r).
Proof using RD. intros Hf. rewrite <- Hf. apply reg_byte. Qed.

Lemma at_rest_ext f g w : at_rest f w -> (forall r, f r = g r) -> at_rest g w.
Proof using. intros [Hi Hf] Hfg. split; [done|]. intros r. by rewrite Hf. Qed.

#[local] Instance has_stable f : Stable (fun p => forall r, reg p r = f r).
Proof using RD.
  split.
  - intros st p Hp r. by rewrite reg_others.
  - intros l m p Hp r. by rewrite reg_mode.
  - intros ms p Hp r. by rewrite reg_sleep.
  - intros p Hp r. by rewrite reg_time.
Qed.

Lemma acquire_wp f w d (Q : unit -> world P * D -> Prop) :
  at_rest f w -> (forall w', owned w' -> has f w' -> Q tt (w', d)) ->
  wp (hal i2cAcquireBus) Q (w, d).
Proof using All. intros [Hi Hf] HQ. by apply (acquire_st (fun p => forall r, reg p r = f r)). Qed.

Lemma check_wp f w d (Q : bool -> world P * D -> Prop) :
  owned w -> has f w -> (forall w', owned_ready w' -> has f w' -> Q true (w', d)) ->
  wp (hal checkI2CCondition) Q (w, d).
Proof using All. intros Ho Hf HQ. by apply (check_st (fun p => forall r, reg p r = f r)). Qed.

Lemma read_reg_wp f r timeout w d (Q : Z * list Z -> world P * D -> Prop) :
  timeout <> 0 -> owned_ready w -> has f w ->
  (forall w', owned w' -> has f w' -> Q (MSG_OK, [f r]) (w', d)) ->
  wp (hal (i2cMasterTransmitTimeout a [r] 1 timeout)) Q (w, d).
Proof using All.
  intros Ht Hw Hf HQ. apply (transmit_st _ _ _ _ MSG_OK [f r] (fun p => forall r, reg p r = f r)); try done.
  destruct (reg_read (plat w) r timeout) as (p' & Hp & Hr). exists p'.
  split; [by rewrite Hp, Hf|]. intros r'. by rewrite Hr.
Qed.

Lemma write_reg_wp f r v timeout w d (Q : Z * list Z -> world P * D -> Prop) :
  timeout <> 0 -> byte_ok v -> owned_ready w -> has f w ->
  (forall w', owned w' -> has (reg_set r v f) w' -> Q (MSG_OK, []) (w', d)) ->
  wp (hal (i2cMasterTransmitTimeout a [r; v] 0 timeout)) Q (w, d).
Proof using All.
  intros Ht Hv Hw Hf HQ.
  apply (transmit_st _ _ _ _ MSG_OK [] (fun p => forall r', reg p r' = reg_set r v f r')); try done.
  destruct (reg_write (plat w) r v timeout Hv) as (p' & Hp & Hr). exists p'. split; [done|].
  intros r'. rewrite Hr. unfold reg_set. case_decide; auto.
Qed.

Lemma release_wp f w d (Q : unit -> world P * D -> Prop) :
  owned w -> has f w -> (forall w', at_rest f w' -> Q tt (w', d)) ->
  wp (hal i2cReleaseBus) Q (w, d).
Proof using All.
  intros Ho Hf HQ. apply (release_st (fun p => forall r, reg p r = f r)); try done.
  intros w' Hi Hf'. by apply HQ.
Qed.

Lemma sleep_wp f ms w d (Q : unit -> world P * D -> Prop) :
  at_rest f w -> (forall w', at_rest f w' -> Q tt (w', d)) ->
  wp (hal (chThdSleepMilliseconds ms)) Q (w, d).
Proof using All.
  intros [Hi Hf] HQ. apply (sleep_st (fun p => forall r, reg p r = f r)); try done.
  intros w' Hi' Hf'. by apply HQ.
Qed.

End regdev.

Arguments at_rest_ext {P _ a _} _ _ _.
Arguments has {P _ a _} _ _.
Arguments at_rest {P _ a _} _ _.
