(* ===== verification/Softfloat.v ===== *)
(** * IEEE 754 arithmetic

    The Cortex-M0+ has no floating-point unit: [float] and [double] operations
    are libgcc's software routines, which round to nearest even.  They are
    evaluated here with the Standard Library's executable [SpecFloat] at the
    two formats.  A decimal literal is the quotient of two integers that are
    exact in the format, which rounds once, as the compiler does. *)

From S2P Require Import Prelude.
From Stdlib Require Export SpecFloat.

Notation float := spec_float (only parsing).

(** ** binary32 *)

Definition f32_of_Z (z : Z) : float := binary_normalize 24 128 z 0 false.
Definition f32_add : float -> float -> float := SFadd 24 128.
Definition f32_sub : float -> float -> float := SFsub 24 128.
Definition f32_mul : float -> float -> float := SFmul 24 128.
Definition f32_div : float -> float -> float := SFdiv 24 128.

(** The literal [num / den]; [den] is a power of ten below 2^24. *)
Definition f32_lit (num den : Z) : float := f32_div (f32_of_Z num) (f32_of_Z den).

(** ** binary64 *)

Definition f64_of_f32 (x : float) : float :=
  match x with
  | S754_finite s m e => binary_normalize 53 1024 (cond_Zopp s (Zpos m)) e s
  | _ => x
  end.
Definition f64_of_Z (z : Z) : float := binary_normalize 53 1024 z 0 false.
Definition f64_div : float -> float -> float := SFdiv 53 1024.

(** The conversion [(float) d]. *)
Definition f32_of_f64 (x : float) : float :=
  match x with
  | S754_finite s m e => binary_normalize 24 128 (cond_Zopp s (Zpos m)) e s
  | _ => x
  end.

(** ** Comparisons and conversion to integers *)

Definition flt : float -> float -> bool := SFltb.
Definition fle : float -> float -> bool := SFleb.

(** Truncation toward zero, the value of a conversion to an integer type;
    [None] for infinities and not-a-number. *)
Definition ftrunc (x : float) : option Z :=
  match x with
  | S754_zero _ => Some 0
  | S754_finite s m e =>
      Some (cond_Zopp s (if decide (0 <= e) then Zpos m * 2 ^ e else Zpos m `div` 2 ^ (- e)))
  | _ => None
  end.

(** [(uint32_t) x] and [(uint16_t) x] as [__aeabi_f2uiz] gives them: values out
    of range saturate, not-a-number gives 0; a [uint16_t] keeps the low half. *)
Definition f2uiz (x : float) : Z :=
  match x with
  | S754_infinity false => 2 ^ 32 - 1
  | _ => match ftrunc x with
         | Some z => if decide (z < 0) then 0 else if decide (2 ^ 32 <= z) then 2 ^ 32 - 1 else z
         | None => 0
         end
  end.

(** ** Checking a property of all integers of an interval by evaluation *)

Fixpoint upto (n : nat) (lo : Z) (p : Z -> bool) : bool :=
  match n with
  | O => true
  | S n => p lo && upto n (lo + 1) p
  end.

Lemma upto_spec n lo p z :
  upto n lo p = true -> lo <= z < lo + Z.of_nat n -> p z = true.
Proof.
  revert lo. induction n as [|n IH]; intros lo H Hz; [lia|].
  cbn in H. apply andb_prop in H as [Hp Hn].
  destruct (decide (z = lo)) as [->|]; [done|]. apply (IH (lo + 1)); [done|lia].
Qed.

(** [25.08f] has the bits 0x41c8a3d7. *)
Example f32_lit_25_08 : f32_lit 2508 100 = S754_finite false 13149143 (-19).
Proof. reflexivity. Qed.
