(* ===== verification/As3935.v ===== *)
(** * AS3935 lightning sensor driver

    [src/src/drivers/PWFusion_AS3935_I2C.c]: every register operation of the
    driver, with the read-modify-write of a masked register and the direct
    commands.  The bus discipline is proved for all of them; on a device that
    is a register file each setter is proved to change exactly the bits of its
    field. *)

From S2P Require Import Prelude Oslib Hal Sim.

(** [AS3935_I2C_dev_t] with the static receive byte of the register read. *)
Record AS3935_I2C_dev_t := AS3935Dev {
  addr : Z;
  thread : Z;
  dataRx : Z
}.

Definition AS3935_LOCATION_OUTDOORS : Z := 1.
Definition AS3935_LOCATION_INDOORS : Z := 2.
Definition AS3935_DISTURBER_DIS : Z := 0.
Definition AS3935_DISTURBER_EN : Z := 1.

Section as3935.
Context {P : Type} `{Platform P}.
Notation D := (M (world P * AS3935_I2C_dev_t)).

Definition set_dataRx (b : Z) (d : AS3935_I2C_dev_t) : AS3935_I2C_dev_t :=
  AS3935Dev (addr d) (thread d) b.

(** Returns 0xff when the bus or the transfer failed. *)
Definition AS3935_I2C__sing_reg_read (regAdd : Z) : D Z :=
  hal i2cAcquireBus ;;;
  let! ok := hal checkI2CCondition in
  if negb ok then hal i2cReleaseBus ;;; ret 0xff else
  let! a := see addr in
  let! r := hal (i2cMasterTransmitTimeout a [regAdd] 1 (TIME_MS2I 800)) in
  upd (fun d => set_dataRx (default (dataRx d) (head (snd r))) d) ;;;
  if decide (fst r = MSG_OK) then
    hal i2cReleaseBus ;;;
    see dataRx
  else
    hal i2cReleaseBus ;;;
    ret 0xff.

(** Read, replace the bits of [dataMask], write back. *)
Definition AS3935_I2C__sing_reg_write (regAdd dataMask regData : Z) : D bool :=
  let! origRegData := AS3935_I2C__sing_reg_read regAdd in
  let newRegData := u8 (Z.lor (Z.land origRegData (Z.lnot dataMask)) (Z.land regData dataMask)) in
  hal i2cAcquireBus ;;;
  let! ok := hal checkI2CCondition in
  if negb ok then hal i2cReleaseBus ;;; ret false else
  let! a := see addr in
  let! r := hal (i2cMasterTransmitTimeout a [regAdd; newRegData] 0 (TIME_MS2I 800)) in
  if decide (fst r = MSG_OK) then
    hal i2cReleaseBus ;;;
    ret true
  else
    hal i2cReleaseBus ;;;
    ret false.

(** The two bytes of a [uint16_t] in memory: little endian. *)
Definition AS3935_I2C__write16 (data : Z) : D bool :=
  hal i2cAcquireBus ;;;
  let! ok := hal checkI2CCondition in
  if negb ok then hal i2cReleaseBus ;;; ret false else
  let! a := see addr in
  let! r := hal (i2cMasterTransmitTimeout a [u8 data; u8 (Z.shiftr data 8)] 0 (TIME_MS2I 800)) in
  if decide (fst r = MSG_OK) then
    hal i2cReleaseBus ;;;
    ret true
  else
    hal i2cReleaseBus ;;;
    ret false.

(** [dev->thread = chThdGetSelfX()] *)
Definition AS3935_init (self : Z) : D bool :=
  upd (fun d => AS3935Dev (addr d) self (dataRx d)) ;;;
  ret true.

Definition AS3935_CalRCO : D bool :=
  let! status := AS3935_I2C__write16 (Z.lor (Z.shiftl 0x3D 8) 0x96) in
  hal (chThdSleepMilliseconds 2) ;;;
  ret status.

Definition AS3935_PowerUp : D bool :=
  let! b := AS3935_I2C__sing_reg_write 0x00 0x01 0x00 in
  if negb b then ret false else
  let! b := AS3935_CalRCO in
  if negb b then ret false else
  let! b := AS3935_I2C__sing_reg_write 0x08 0x20 0x20 in
  if negb b then ret false else
  hal (chThdSleepMilliseconds 2) ;;;
  let! b := AS3935_I2C__sing_reg_write 0x08 0x20 0x00 in
  if negb b then ret false else
  ret true.

Definition AS3935_AS3935_PowerDown : D bool := AS3935_I2C__sing_reg_write 0x00 0x01 0x01.

Definition AS3935_SetIndoors : D bool := AS3935_I2C__sing_reg_write 0x00 0x3E 0x24.
Definition AS3935_SetOutdoors : D bool := AS3935_I2C__sing_reg_write 0x00 0x3E 0x1C.
Definition AS3935_DisturberEn : D bool := AS3935_I2C__sing_reg_write 0x03 0x20 0x00.
Definition AS3935_DisturberDis : D bool := AS3935_I2C__sing_reg_write 0x03 0x20 0x20.
Definition AS3935_SetTuningCaps (tuneCapacitor : Z) : D bool :=
  AS3935_I2C__sing_reg_write 0x08 0x0F tuneCapacitor.

Definition AS3935_SetIRQ_Output_Source (irq_select : Z) : D bool :=
  if decide (irq_select = 1) then AS3935_I2C__sing_reg_write 0x08 0xE0 0x20
  else if decide (irq_select = 2) then AS3935_I2C__sing_reg_write 0x08 0xE0 0x40
  else if decide (irq_select = 3) then AS3935_I2C__sing_reg_write 0x08 0xE0 0x80
  else AS3935_I2C__sing_reg_write 0x08 0xE0 0x00.

Definition AS3935_ManualCal (capacitance location disturber : Z) : D bool :=
  let! b := AS3935_PowerUp in
  if negb b then ret false else
  let! locationStatus :=
    (if decide (location = AS3935_LOCATION_OUTDOORS) then AS3935_SetOutdoors
     else AS3935_SetIndoors) in
  if negb locationStatus then ret false else
  let! disturberStatus :=
    (if decide (disturber = AS3935_DISTURBER_DIS) then AS3935_DisturberDis
     else AS3935_DisturberEn) in
  if negb disturberStatus then ret false else
  let! b := AS3935_SetIRQ_Output_Source 0 in
  if negb b then ret false else
  hal (chThdSleepMilliseconds 500) ;;;
  AS3935_SetTuningCaps capacitance.

Definition PWF_AS3935_I2C__AS3935_Reset : D bool :=
  let! status := AS3935_I2C__write16 (Z.lor (Z.shiftl 0x3C 8) 0x96) in
  hal (chThdSleepMilliseconds 2) ;;;
  ret status.

Definition AS3935_GetInterruptSrc : D Z :=
  hal (chThdSleepMilliseconds 10) ;;;
  let! v := AS3935_I2C__sing_reg_read 0x03 in
  let int_src := Z.land v 0x0F in
  ret (if decide (int_src = 0x08) then 1
       else if decide (int_src = 0x04) then 2
       else if decide (int_src = 0x01) then 3
       else 0xff).

Definition AS3935_GetLightningDistKm : D Z :=
  let! v := AS3935_I2C__sing_reg_read 0x07 in
  ret (Z.land v 0x3F).

Definition AS3935_GetStrikeEnergyRaw : D Z :=
  let! v6 := AS3935_I2C__sing_reg_read 0x06 in
  let nrgy_raw := u32 (Z.shiftl (Z.land v6 0x1F) 8) in
  let! v5 := AS3935_I2C__sing_reg_read 0x05 in
  let nrgy_raw := Z.lor nrgy_raw v5 in
  let nrgy_raw := u32 (Z.shiftl nrgy_raw 8) in
  let! v4 := AS3935_I2C__sing_reg_read 0x04 in
  ret (Z.lor nrgy_raw v4).

(** The status of the register write is not looked at. *)
Definition AS3935_SetMinStrikes (min_strk : Z) : D Z :=
  if decide (5 > min_strk) then AS3935_I2C__sing_reg_write 0x02 0x30 0x00 ;;; ret 1
  else if decide (9 > min_strk) then AS3935_I2C__sing_reg_write 0x02 0x30 0x10 ;;; ret 5
  else if decide (16 > min_strk) then AS3935_I2C__sing_reg_write 0x02 0x30 0x20 ;;; ret 9
  else AS3935_I2C__sing_reg_write 0x02 0x30 0x30 ;;; ret 16.

Definition AS3935_ClearStatistics : D bool :=
  mand (AS3935_I2C__sing_reg_write 0x02 0x40 0x40)
    (mand (AS3935_I2C__sing_reg_write 0x02 0x40 0x00)
      (AS3935_I2C__sing_reg_write 0x02 0x40 0x40)).

Definition AS3935_GetNoiseFloorLvl : D Z :=
  let! reg_raw := AS3935_I2C__sing_reg_read 0x01 in
  ret (Z.shiftr (Z.land reg_raw 0x70) 4).

Definition AS3935_SetNoiseFloorLvl (nf_sel : Z) : D bool :=
  if decide (7 >= nf_sel)
  then AS3935_I2C__sing_reg_write 0x01 0x70 (u8 (Z.shiftl (Z.land nf_sel 0x07) 4))
  else AS3935_I2C__sing_reg_write 0x01 0x70 0x20.

Definition AS3935_GetWatchdogThreshold : D Z :=
  let! reg_raw := AS3935_I2C__sing_reg_read 0x01 in
  ret (Z.land reg_raw 0x0F).

Definition AS3935_SetWatchdogThreshold (wdth : Z) : D bool :=
  AS3935_I2C__sing_reg_write 0x01 0x0F (Z.land wdth 0x0F).

Definition AS3935_GetSpikeRejection : D Z :=
  let! reg_raw := AS3935_I2C__sing_reg_read 0x02 in
  ret (Z.land reg_raw 0x0F).

Definition AS3935_SetSpikeRejection (srej : Z) : D bool :=
  AS3935_I2C__sing_reg_write 0x02 0x0F (Z.land srej 0x0F).

Definition AS3935_SetLCO_FDIV (fdiv : Z) : D bool :=
  AS3935_I2C__sing_reg_write 0x03 0xC0 (u8 (Z.shiftl (Z.land fdiv 0x03) 5)).

Definition AS3935_TuneAntenna (tuneCapacitor : Z) : D bool :=
  let! b := AS3935_I2C__sing_reg_write 0x03 0xC0 0xC0 in
  if negb b then ret false else
  let! b := AS3935_I2C__sing_reg_write 0x08 0x80 0x80 in
  if negb b then ret false else
  let! b := AS3935_SetTuningCaps tuneCapacitor in
  if negb b then ret false else
  ret true.

(** ** Bus discipline *)

Context `{!PlatformOk P}.

Lemma as3935_read_bus r : bus_ok (AS3935_I2C__sing_reg_read r).
Proof. intros [w d] Hs. unfold AS3935_I2C__sing_reg_read. cbn in Hs. own. Qed.

Lemma as3935_write16_bus v : bus_ok (AS3935_I2C__write16 v).
Proof. intros [w d] Hs. unfold AS3935_I2C__write16. cbn in Hs. own. Qed.

Lemma as3935_write_bus r m v : bus_ok (AS3935_I2C__sing_reg_write r m v).
Proof.
  apply bus_ok_bind; [apply as3935_read_bus|]. intros o [w d] Hs. cbn in Hs. own.
Qed.

(** The driver's interface, as the lightning thread and a caller of the
    remaining setters may use it. *)
Inductive as3935_call :=
  | CInit (self : Z) | CPowerUp | CPowerDown | CCalRCO | CManualCal (c l d : Z)
  | CReset | CSetIndoors | CSetOutdoors | CDisturberEn | CDisturberDis
  | CSetIRQ (n : Z) | CSetTuningCaps (c : Z) | CGetInterruptSrc | CGetLightningDistKm
  | CGetStrikeEnergyRaw | CSetMinStrikes (n : Z) | CClearStatistics
  | CGetNoiseFloorLvl | CSetNoiseFloorLvl (n : Z) | CGetWatchdogThreshold
  | CSetWatchdogThreshold (n : Z) | CGetSpikeRejection | CSetSpikeRejection (n : Z)
  | CSetLCO_FDIV (n : Z) | CTuneAntenna (c : Z).

Definition as3935_exec (c : as3935_call) : D unit :=
  match c with
  | CInit self => AS3935_init self ;;; ret tt
  | CPowerUp => AS3935_PowerUp ;;; ret tt
  | CPowerDown => AS3935_AS3935_PowerDown ;;; ret tt
  | CCalRCO => AS3935_CalRCO ;;; ret tt
  | CManualCal c l d => AS3935_ManualCal c l d ;;; ret tt
  | CReset => PWF_AS3935_I2C__AS3935_Reset ;;; ret tt
  | CSetIndoors => AS3935_SetIndoors ;;; ret tt
  | CSetOutdoors => AS3935_SetOutdoors ;;; ret tt
  | CDisturberEn => AS3935_DisturberEn ;;; ret tt
  | CDisturberDis => AS3935_DisturberDis ;;; ret tt
  | CSetIRQ n => AS3935_SetIRQ_Output_Source n ;;; ret tt
  | CSetTuningCaps c => AS3935_SetTuningCaps c ;;; ret tt
  | CGetInterruptSrc => AS3935_GetInterruptSrc ;;; ret tt
  | CGetLightningDistKm => AS3935_GetLightningDistKm ;;; ret tt
  | CGetStrikeEnergyRaw => AS3935_GetStrikeEnergyRaw ;;; ret tt
  | CSetMinStrikes n => AS3935_SetMinStrikes n ;;; ret tt
  | CClearStatistics => AS3935_ClearStatistics ;;; ret tt
  | CGetNoiseFloorLvl => AS3935_GetNoiseFloorLvl ;;; ret tt
  | CSetNoiseFloorLvl n => AS3935_SetNoiseFloorLvl n ;;; ret tt
  | CGetWatchdogThreshold => AS3935_GetWatchdogThreshold ;;; ret tt
  | CSetWatchdogThreshold n => AS3935_SetWatchdogThreshold n ;;; ret tt
  | CGetSpikeRejection => AS3935_GetSpikeRejection ;;; ret tt
  | CSetSpikeRejection n => AS3935_SetSpikeRejection n ;;; ret tt
  | CSetLCO_FDIV n => AS3935_SetLCO_FDIV n ;;; ret tt
  | CTuneAntenna c => AS3935_TuneAntenna c ;;; ret tt
  end.

Fixpoint as3935_session (cs : list as3935_call) : D unit :=
  match cs with
  | [] => ret tt
  | c :: cs => as3935_exec c ;;; as3935_session cs
  end.

End as3935.

#[export] Hint Resolve as3935_read_bus as3935_write16_bus as3935_write_bus : bus.

Section discipline.
Context {P : Type} `{Platform P} `{!PlatformOk P}.

Lemma as3935_exec_bus c : bus_ok (P := P) (as3935_exec c).
Proof.
  destruct c; cbn [as3935_exec];
    unfold AS3935_init, AS3935_ManualCal, AS3935_PowerUp, AS3935_CalRCO, AS3935_AS3935_PowerDown,
      PWF_AS3935_I2C__AS3935_Reset, AS3935_SetIndoors, AS3935_SetOutdoors, AS3935_DisturberEn,
      AS3935_DisturberDis, AS3935_SetIRQ_Output_Source, AS3935_SetTuningCaps,
      AS3935_GetInterruptSrc, AS3935_GetLightningDistKm, AS3935_GetStrikeEnergyRaw,
      AS3935_SetMinStrikes, AS3935_ClearStatistics, AS3935_GetNoiseFloorLvl,
      AS3935_SetNoiseFloorLvl, AS3935_GetWatchdogThreshold, AS3935_SetWatchdogThreshold,
      AS3935_GetSpikeRejection, AS3935_SetSpikeRejection, AS3935_SetLCO_FDIV,
      AS3935_TuneAntenna; bus.
Qed.

(** Whatever the lightning sensor answers (data, NACK or time-out), and
    whatever state the other threads leave the I2C bus in, no sequence of
    calls of the driver halts the system on an assertion of the I2C driver or
    of the mutex, and after it the bus mutex is free. *)
Theorem as3935_never_halts cs (w : world P) (d : AS3935_I2C_dev_t) :
  idle w -> safe (as3935_session cs) (fun _ s => idle (fst s)) (w, d).
Proof.
  revert w d. induction cs as [|c cs IH]; intros w d Hw; [done|].
  apply safe_bind. eapply safe_conseq; [by apply as3935_exec_bus|].
  intros _ [w' d'] Hw'. by apply IH.
Qed.

End discipline.

(** The bus is locked by another thread and the first transfer times out. *)
Lemma as3935_never_halts_witness :
  idle (World (SimState ∅ [MSG_TIMEOUT] [true] 0 ∅) I2C_READY false []) /\
  safe (as3935_session [CPowerUp; CGetStrikeEnergyRaw]) (fun _ s => idle (fst s))
    (World (SimState ∅ [MSG_TIMEOUT] [true] 0 ∅) I2C_READY false [], AS3935Dev 3 0 0).
Proof.
  split; [split; [done|by left]|]. apply as3935_never_halts. split; [done|by left].
Defined.

(** ** Registers *)

(** What a masked write leaves in the register. *)
Definition masked (orig mask v : Z) : Z :=
  u8 (Z.lor (Z.land orig (Z.lnot mask)) (Z.land v mask)).

Lemma testbit_masked o m v i : 0 <= i ->
  Z.testbit (masked o m v) i =
    (i <? 8) && (if Z.testbit m i then Z.testbit v i else Z.testbit o i).
Proof.
  intros Hi. unfold masked.
  rewrite testbit_u8, Z.lor_spec, !Z.land_spec, Z.lnot_spec by done.
  by destruct (Z.testbit m i), (Z.testbit v i), (Z.testbit o i), (i <? 8).
Qed.

(** Two masked writes of one register are one write of the joint mask. *)
Lemma masked_masked o m1 v1 m2 v2 :
  masked (masked o m1 v1) m2 v2 = masked o (Z.lor m1 m2) (masked v1 m2 v2).
Proof.
  apply Z.bits_inj'. intros i Hi. rewrite !testbit_masked, Z.lor_spec by done.
  by destruct (Z.testbit m1 i), (Z.testbit m2 i), (i <? 8).
Qed.

(** The eight bits of a byte, one by one. *)
Ltac bits8 i :=
  let Hi := fresh in
  assert (i = 0 \/ i = 1 \/ i = 2 \/ i = 3 \/ i = 4 \/ i = 5 \/ i = 6 \/ i = 7) as Hi by lia;
  destruct Hi as [->|[->|[->|[->|[->|[->|[->| ->]]]]]]].

(** What register 8 goes through during a calibration. *)
Lemma masked_tuning o c :
  masked (masked (masked (masked o 32 32) 32 0) 224 0) 15 c = masked o 239 (Z.land c 15).
Proof.
  apply Z.bits_inj'. intros i Hi. rewrite !testbit_masked, Z.land_spec by done.
  destruct (Z.ltb_spec i 8); [|done]. bits8 i; cbn; by rewrite ?andb_true_r, ?andb_false_r.
Qed.

Lemma masked_byte o m v : byte_ok (masked o m v).
Proof. apply byte_u8. Qed.

#[export] Hint Resolve masked_byte : word.

Section registers.
Context {P : Type} `{Platform P} `{!PlatformOk P} (a : Z) `{RD : !RegDevice P a}.
Implicit Types (w : world P) (d : AS3935_I2C_dev_t) (f : Z -> Z).

Lemma as3935_read_wp f r w d Q :
  addr d = a -> at_rest f w ->
  (forall w' d', addr d' = a -> at_rest f w' -> Q (f r) (w', d')) ->
  wp (AS3935_I2C__sing_reg_read r) Q (w, d).
Proof.
  intros Hd Hw HQ. unfold AS3935_I2C__sing_reg_read.
  apply wp_bind, (acquire_wp a f); [done|]. intros w1 Ho1 Hf1.
  apply wp_bind, (check_wp a f); [done..|]. intros w2 Ho2 Hf2. cbn [negb].
  apply wp_bind, see_st, wp_bind. rewrite Hd. apply (read_reg_wp a f); [done..|].
  intros w3 Ho3 Hf3. apply wp_bind, upd_st. cbn.
  apply wp_bind, (release_wp a f); [done..|]. intros w4 Hw4. by apply see_st, HQ.
Qed.

Lemma as3935_write_wp f r m v w d Q :
  addr d = a -> at_rest f w ->
  (forall w' d', addr d' = a -> at_rest (reg_set r (masked (f r) m v) f) w' -> Q true (w', d')) ->
  wp (AS3935_I2C__sing_reg_write r m v) Q (w, d).
Proof.
  intros Hd Hw HQ. unfold AS3935_I2C__sing_reg_write.
  apply wp_bind, (as3935_read_wp f); [done..|]. intros w0 d0 Hd0 Hw0. cbv zeta.
  apply wp_bind, (acquire_wp a f); [done|]. intros w1 Ho1 Hf1.
  apply wp_bind, (check_wp a f); [done..|]. intros w2 Ho2 Hf2. cbn [negb].
  apply wp_bind, see_st, wp_bind. rewrite Hd0.
  apply (write_reg_wp a f); [done|apply masked_byte|done..|].
  intros w3 Ho3 Hf3. cbn [fst]. rewrite decide_True by done.
  apply wp_bind, (release_wp a (reg_set r (masked (f r) m v) f)); [done..|].
  intros w4 Hw4. by apply HQ.
Qed.

Lemma as3935_write16_wp f v w d Q :
  addr d = a -> at_rest f w ->
  (forall w' d', addr d' = a -> at_rest (reg_set (u8 v) (u8 (Z.shiftr v 8)) f) w' -> Q true (w', d')) ->
  wp (AS3935_I2C__write16 v) Q (w, d).
Proof.
  intros Hd Hw HQ. unfold AS3935_I2C__write16.
  apply wp_bind, (acquire_wp a f); [done|]. intros w1 Ho1 Hf1.
  apply wp_bind, (check_wp a f); [done..|]. intros w2 Ho2 Hf2. cbn [negb].
  apply wp_bind, see_st, wp_bind. rewrite Hd.
  apply (write_reg_wp a f); [done|apply byte_u8|done..|].
  intros w3 Ho3 Hf3. cbn [fst]. rewrite decide_True by done.
  apply wp_bind, (release_wp a (reg_set (u8 v) (u8 (Z.shiftr v 8)) f)); [done..|].
  intros w4 Hw4. by apply HQ.
Qed.

(** A masked register write returns [true] and changes exactly the bits
    of the mask in that one register to those of the value; every other bit
    of every register keeps its value. *)
Theorem as3935_masked_write f r m v w d :
  addr d = a -> at_rest f w ->
  wp (AS3935_I2C__sing_reg_write r m v)
     (fun ok s => ok = true /\ idle (fst s) /\
        forall r' i, 0 <= i < 8 ->
          Z.testbit (reg (plat (fst s)) r') i =
            (if decide (r' = r /\ Z.testbit m i = true) then Z.testbit v i else Z.testbit (f r') i))
     (w, d).
Proof.
  intros Hd Hw. apply (as3935_write_wp f); [done..|]. intros w' d' _ [Hi Hf].
  split; [done|]. split; [done|]. intros r' i Hr. cbn [fst]. rewrite Hf. unfold reg_set.
  destruct (decide (r' = r)) as [->|Hne].
  - rewrite testbit_masked by lia. rewrite (proj2 (Z.ltb_lt i 8)) by lia.
    case_decide as Hb; [by destruct Hb as [_ ->]|].
    destruct (Z.testbit m i); [by destruct Hb|done].
  - rewrite decide_False by tauto. done.
Qed.

(** [regs]: run the next register access of a sequence of checked calls. *)
Ltac regs :=
  lazymatch goal with
  | |- wp (bind _ _) _ _ => apply wp_bind
  | |- wp (ret _) _ _ => apply wp_ret
  | |- wp (if negb true then _ else _) _ _ => cbn [negb]
  | Hd : addr ?d = a, Hw : at_rest ?f ?w |- wp (AS3935_I2C__sing_reg_write _ _ _) _ (?w, ?d) =>
      apply (as3935_write_wp f); [exact Hd|exact Hw|]; clear Hd Hw; clear w d; intros w d ? ?
  | Hd : addr ?d = a, Hw : at_rest ?f ?w |- wp (AS3935_I2C__write16 _) _ (?w, ?d) =>
      apply (as3935_write16_wp f); [exact Hd|exact Hw|]; clear Hd Hw; clear w d; intros w d ? ?
  | Hd : addr ?d = a, Hw : at_rest ?f ?w |- wp (AS3935_I2C__sing_reg_read _) _ (?w, ?d) =>
      apply (as3935_read_wp f); [exact Hd|exact Hw|]; clear Hd Hw; clear w d; intros w d ? ?
  | Hw : at_rest ?f ?w |- wp (hal (chThdSleepMilliseconds _)) _ (?w, ?d) =>
      apply (sleep_wp a f); [exact Hw|]; clear Hw; clear w; intros w ?
  end.

Lemma if_write {Q : Prop} (b : {Q} + {~ Q}) r m v v' :
  (if b then AS3935_I2C__sing_reg_write r m v else AS3935_I2C__sing_reg_write r m v') =
  AS3935_I2C__sing_reg_write (P := P) r m (if b then v else v').
Proof. by destruct b. Qed.

(** A manual calibration succeeds and leaves: register 0 powered up with
    the analog front end of the location, register 3 with the disturber
    setting, register 8 with no oscillator on the IRQ pin and the low four
    bits of the capacitance, every other field as it was.  The direct command
    that should calibrate the RC oscillator (0x96 to register 0x3D) is sent
    with its bytes swapped: it writes 0x3D to address 0x96, and register 0x3D
    keeps its value. *)
Theorem as3935_manual_cal f c l di w d :
  addr d = a -> at_rest f w ->
  wp (AS3935_ManualCal c l di)
     (fun ok s => ok = true /\
        at_rest (reg_set 0x08 (masked (f 0x08) 0xEF (Z.land c 0x0F))
                (reg_set 0x03 (masked (f 0x03) 0x20 (if decide (di = AS3935_DISTURBER_DIS) then 0x20 else 0))
                (reg_set 0x00 (masked (f 0x00) 0x3F (if decide (l = AS3935_LOCATION_OUTDOORS) then 0x1C else 0x24))
                (reg_set 0x96 0x3D f)))) (fst s))
     (w, d).
Proof.
  intros Hd Hw.
  unfold AS3935_ManualCal, AS3935_PowerUp, AS3935_CalRCO, AS3935_SetOutdoors, AS3935_SetIndoors,
    AS3935_DisturberDis, AS3935_DisturberEn, AS3935_SetTuningCaps.
  change (AS3935_SetIRQ_Output_Source 0) with (AS3935_I2C__sing_reg_write (P := P) 0x08 0xE0 0x00).
  rewrite (if_write (decide (l = _))), (if_write (decide (di = _))). repeat regs.
  split; [done|]. eapply at_rest_ext; [eassumption|]. clear. intros r. unfold reg_set.
  destruct (decide (r = 8)) as [->|]; [|destruct (decide (r = 3)) as [->|];
    [|destruct (decide (r = 0)) as [->|]]].
  all: change (u8 (Z.lor (61 ≪ 8) 150)) with 0x96; change (u8 (Z.lor (61 ≪ 8) 150 ≫ 8)) with 0x3D;
    repeat (case_decide; try done).
  all: clear; first [apply masked_tuning | by rewrite masked_masked].
Qed.

(** The divider of the antenna frequency on the IRQ pin is the field
    LCO_FDIV, bits 7:6 of register 3.  The setter shifts its argument by 5
    instead of 6: the field becomes the argument halved, so 1 (divide by 32)
    programs 0 (divide by 16) and 3 (by 128) programs 1 (by 32). *)
Theorem as3935_lco_fdiv f n w d :
  addr d = a -> at_rest f w -> 0 <= n < 4 ->
  wp (AS3935_SetLCO_FDIV n)
     (fun ok s => ok = true /\
        Z.shiftr (reg (plat (fst s)) 0x03) 6 = n `div` 2 /\
        Z.land (reg (plat (fst s)) 0x03) 0x3F = Z.land (f 0x03) 0x3F)
     (w, d).
Proof.
  intros Hd Hw Hn. unfold AS3935_SetLCO_FDIV. regs. split; [done|]. cbn [fst].
  match goal with Hr : at_rest _ _ |- _ => destruct Hr as [_ Hf] end.
  rewrite !Hf. unfold reg_set. rewrite decide_True by done. split.
  - assert (n = 0 \/ n = 1 \/ n = 2 \/ n = 3) as [->|[->|[->| ->]]] by lia;
      apply Z.bits_inj'; intros i Hi; rewrite Z.shiftr_spec, testbit_masked by lia;
      (destruct (Z.ltb_spec (i + 6) 8); [assert (i = 0 \/ i = 1) as [->| ->] by lia; done|]);
      symmetry; (apply Z.bits_above_log2; [done|]); change (Z.log2 (_ `div` _)) with 0; lia.
  - apply Z.bits_inj'. intros i Hi. rewrite !Z.land_spec, testbit_masked by done.
    destruct (Z.ltb_spec i 8); [bits8 i; cbn; by rewrite ?andb_false_r|].
    change 0x3F with (Z.ones 6). rewrite Z.ones_spec_high by lia. by rewrite !andb_false_r.
Qed.

(** The raw energy of a strike is the 21-bit number made of registers 4,
    5 and the low five bits of register 6. *)
Theorem as3935_strike_energy f w d :
  addr d = a -> at_rest f w ->
  wp AS3935_GetStrikeEnergyRaw
     (fun e s => at_rest f (fst s) /\ 0 <= e < 2 ^ 21 /\
        e = f 0x04 + 2 ^ 8 * f 0x05 + 2 ^ 16 * (f 0x06 `mod` 32))
     (w, d).
Proof.
  intros Hd Hw. pose proof (has_byte a f w 0x04 (proj2 Hw)) as H4.
  pose proof (has_byte a f w 0x05 (proj2 Hw)) as H5. unfold byte_ok in *.
  unfold AS3935_GetStrikeEnergyRaw. repeat regs. split; [done|].
  change 0x1F with (Z.ones 5). rewrite Z.land_ones, !Z.shiftl_mul_pow2 by lia.
  pose proof (Z.mod_pos_bound (f 6) 32 ltac:(lia)) as H6.
  change (2 ^ 5) with 32. rewrite (u32_small (_ `mod` 32 * 2 ^ 8)) by lia.
  rewrite (lor_disjoint_mul _ (f 5) 8) by lia.
  rewrite u32_small by lia. rewrite (lor_disjoint_mul _ (f 4) 8) by lia. lia.
Qed.

End registers.

(** A register file that answers at address 3, and its driver handle. *)
Definition as3935_regs : regfile := {[ 0x00 := 0x25; 0x03 := 0xC1; 0x04 := 7; 0x06 := 0xFF; 0x08 := 0xA9 ]}.
Definition as3935_world : world regfile := World as3935_regs I2C_LOCKED false [].
Definition as3935_dev : AS3935_I2C_dev_t := AS3935Dev 3 0 0.

Lemma as3935_masked_write_witness :
  wp (AS3935_I2C__sing_reg_write 0x08 0x0F 5)
     (fun ok s => ok = true /\ idle (fst s) /\
        forall r' i, 0 <= i < 8 ->
          Z.testbit (rf_get (plat (fst s)) r') i =
            (if decide (r' = 0x08 /\ Z.testbit 0x0F i = true) then Z.testbit 5 i
             else Z.testbit (rf_get as3935_regs r') i))
     (as3935_world, as3935_dev).
Proof.
  refine (as3935_masked_write (P := regfile) 3 (rf_get as3935_regs) 0x08 0x0F 5 as3935_world as3935_dev _ _);
    [reflexivity|]. repeat split. by right.
Defined.

Lemma as3935_manual_cal_witness :
  wp (AS3935_ManualCal 72 AS3935_LOCATION_OUTDOORS AS3935_DISTURBER_EN)
     (fun ok s => ok = true /\
        at_rest (a := 3) (reg_set 0x08 (masked (rf_get as3935_regs 0x08) 0xEF (Z.land 72 0x0F))
                (reg_set 0x03 (masked (rf_get as3935_regs 0x03) 0x20 0)
                (reg_set 0x00 (masked (rf_get as3935_regs 0x00) 0x3F 0x1C)
                (reg_set 0x96 0x3D (rf_get as3935_regs))))) (fst s))
     (as3935_world, as3935_dev).
Proof.
  refine (as3935_manual_cal (P := regfile) 3 (rf_get as3935_regs) 72 AS3935_LOCATION_OUTDOORS
            AS3935_DISTURBER_EN as3935_world as3935_dev _ _); [reflexivity|].
  repeat split. by right.
Defined.

Lemma as3935_lco_fdiv_witness :
  wp (AS3935_SetLCO_FDIV 3)
     (fun ok s => ok = true /\
        Z.shiftr (rf_get (plat (fst s)) 0x03) 6 = 3 `div` 2 /\
        Z.land (rf_get (plat (fst s)) 0x03) 0x3F = Z.land (rf_get as3935_regs 0x03) 0x3F)
     (as3935_world, as3935_dev).
Proof.
  refine (as3935_lco_fdiv (P := regfile) 3 (rf_get as3935_regs) 3 as3935_world as3935_dev _ _ _);
    [reflexivity| |lia]. repeat split. by right.
Defined.

Lemma as3935_strike_energy_witness :
  wp AS3935_GetStrikeEnergyRaw
     (fun e s => at_rest (a := 3) (rf_get as3935_regs) (fst s) /\ 0 <= e < 2 ^ 21 /\
        e = rf_get as3935_regs 0x04 + 2 ^ 8 * rf_get as3935_regs 0x05
            + 2 ^ 16 * (rf_get as3935_regs 0x06 `mod` 32))
     (as3935_world, as3935_dev).
Proof.
  refine (as3935_strike_energy (P := regfile) 3 (rf_get as3935_regs) as3935_world as3935_dev _ _);
    [reflexivity|]. repeat split. by right.
Defined.
