(* ===== verification/Bmp280.v ===== *)
(** * BMP280/BME280 temperature, pressure and humidity sensor driver

    [src/src/drivers/bmp280.c]: register access, calibration, initialisation,
    forced measurements and the fixed-point compensation, at the widths of the
    source.  Proved here, for calibration words that pass a computed check: no
    operation of the temperature overflows and it is close to the data sheet's
    formula in real arithmetic; the pressure has no 64-bit overflow, no division
    by zero and is the formula in unbounded integers.  Also: the humidity
    is at most 100 %; the initialisation of a device that follows the data
    sheet; and what the missing bus check of
    [BMP280_write_register8] costs. *)

From S2P Require Import Prelude Oslib Hal Sim Softfloat.

(** ** Data *)

Definition BMP280_REG_TEMP : Z := 0xFA.
Definition BMP280_REG_PRESSURE : Z := 0xF7.
Definition BMP280_REG_CONFIG : Z := 0xF5.
Definition BMP280_REG_CTRL : Z := 0xF4.
Definition BMP280_REG_STATUS : Z := 0xF3.
Definition BMP280_REG_CTRL_HUM : Z := 0xF2.
Definition BMP280_REG_RESET : Z := 0xE0.
Definition BMP280_REG_ID : Z := 0xD0.
Definition BMP280_RESET_VALUE : Z := 0xB6.
Definition BMP280_I2C_ADDRESS_0 : Z := 0x76.
Definition BMP280_I2C_ADDRESS_1 : Z := 0x77.
Definition BMP280_CHIP_ID : Z := 0x58.
Definition BME280_CHIP_ID : Z := 0x60.

(** The enums [BMP280_Mode], [BMP280_Filter], [BMP280_Oversampling] and
    [BMP280_StandbyTime] by their values. *)
Definition BMP280_MODE_SLEEP : Z := 0.
Definition BMP280_MODE_FORCED : Z := 1.
Definition BMP280_MODE_NORMAL : Z := 3.
Definition BMP280_FILTER_OFF : Z := 0.
Definition BMP280_STANDARD : Z := 3.
Definition BMP280_STANDBY_250 : Z := 3.
Definition BMP280_STANDBY_500 : Z := 4.

Record bmp280_params_t := Params {
  mode : Z;
  filter : Z;
  oversampling_pressure : Z;
  oversampling_temperature : Z;
  oversampling_humidity : Z;
  standby : Z
}.

(** The calibration fields [dig_T1] ... [dig_H6] of the handle. *)
Inductive coef :=
  T1 | T2 | T3 | P1 | P2 | P3 | P4 | P5 | P6 | P7 | P8 | P9 | H1 | H2 | H3 | H4 | H5 | H6.

#[global] Instance coef_eq_dec : EqDecision coef.
Proof. solve_decision. Defined.

Definition cal_t := coef -> Z.
Definition cal_set (k : coef) (v : Z) (c : cal_t) : cal_t :=
  fun k' => if decide (k' = k) then v else c k'.

(** Each field has its C type. *)
Definition coef_ty (k : coef) : Z -> Z :=
  match k with
  | T1 | P1 => u16
  | H1 | H3 => u8
  | H6 => s8
  | _ => s16
  end.

(** [BMP280_HandleTypedef] with the static buffers [rx_buff] and [data]. *)
Record BMP280_HandleTypedef := Handle {
  dig : cal_t;
  addr : Z;
  params : bmp280_params_t;
  id : Z;
  rx_buff : list Z;
  data : list Z
}.

Definition set_dig (k : coef) (v : Z) (d : BMP280_HandleTypedef) :=
  Handle (cal_set k (coef_ty k v) (dig d)) (addr d) (params d) (id d) (rx_buff d) (data d).
Definition set_params (p : bmp280_params_t) (d : BMP280_HandleTypedef) :=
  Handle (dig d) (addr d) p (id d) (rx_buff d) (data d).
Definition set_id (i : Z) (d : BMP280_HandleTypedef) :=
  Handle (dig d) (addr d) (params d) i (rx_buff d) (data d).
Definition set_rx_buff (b : list Z) (d : BMP280_HandleTypedef) :=
  Handle (dig d) (addr d) (params d) (id d) b (data d).
Definition set_data (b : list Z) (d : BMP280_HandleTypedef) :=
  Handle (dig d) (addr d) (params d) (id d) (rx_buff d) b.
Definition set_mode (m : Z) (p : bmp280_params_t) : bmp280_params_t :=
  Params m (filter p) (oversampling_pressure p) (oversampling_temperature p)
    (oversampling_humidity p) (standby p).

Definition BMP280_init_default_params : bmp280_params_t :=
  Params BMP280_MODE_FORCED BMP280_FILTER_OFF BMP280_STANDARD BMP280_STANDARD BMP280_STANDARD
    BMP280_STANDBY_500.

(** Element [i] of a buffer; the drivers only use indices inside. *)
Definition byte_at (l : list Z) (i : nat) : Z := default 0 (l !! i).

(** ** Compensation *)

(** Returns the temperature in hundredths of a degree and [fine_temp]. *)
Definition BMP280_compensate_temperature (c : cal_t) (adc_temp : Z) : Z * Z :=
  let var1 := Z.shiftr (s32 (s32 (Z.shiftr adc_temp 3 - s32 (Z.shiftl (c T1) 1)) * c T2)) 11 in
  let dt := s32 (Z.shiftr adc_temp 4 - c T1) in
  let var2 := Z.shiftr (s32 (Z.shiftr (s32 (dt * dt)) 12 * c T3)) 14 in
  let fine_temp := s32 (var1 + var2) in
  (Z.shiftr (s32 (s32 (fine_temp * 5) + 128)) 8, fine_temp).

(** Pascals with 8 fractional bits. *)
Definition BMP280_compensate_pressure (c : cal_t) (adc_press fine_temp : Z) : Z :=
  let var1 := s64 (fine_temp - 128000) in
  let var2 := s64 (s64 (var1 * var1) * c P6) in
  let var2 := s64 (var2 + s64 (Z.shiftl (s64 (var1 * c P5)) 17)) in
  let var2 := s64 (var2 + s64 (Z.shiftl (c P4) 35)) in
  let var1 := s64 (Z.shiftr (s64 (s64 (var1 * var1) * c P3)) 8
                   + s64 (Z.shiftl (s64 (var1 * c P2)) 12)) in
  let var1 := Z.shiftr (s64 (s64 (Z.shiftl 1 47 + var1) * c P1)) 33 in
  if decide (var1 = 0) then 0 else
  let p := s64 (s32 (1048576 - adc_press)) in
  let p := s64 (Z.quot (s64 (s64 (s64 (Z.shiftl p 31) - var2) * 3125)) var1) in
  let var1 := Z.shiftr (s64 (s64 (c P9 * Z.shiftr p 13) * Z.shiftr p 13)) 25 in
  let var2 := Z.shiftr (s64 (c P8 * p)) 19 in
  let p := s64 (Z.shiftr (s64 (s64 (p + var1) + var2)) 8 + s64 (Z.shiftl (c P7) 4)) in
  u32 p.

(** Per cent with 10 fractional bits. *)
Definition BMP280_compensate_humidity (c : cal_t) (adc_hum fine_temp : Z) : Z :=
  let v := s32 (fine_temp - 76800) in
  let left := Z.shiftr
    (s32 (s32 (s32 (s32 (Z.shiftl adc_hum 14) - s32 (Z.shiftl (c H4) 20)) - s32 (c H5 * v)) + 16384)) 15 in
  let a := Z.shiftr (s32 (v * c H6)) 10 in
  let b := s32 (Z.shiftr (s32 (v * c H3)) 11 + 32768) in
  let right := Z.shiftr
    (s32 (s32 (s32 (Z.shiftr (s32 (a * b)) 10 + 2097152) * c H2) + 8192)) 14 in
  let v := s32 (left * right) in
  let sq := Z.shiftr (s32 (Z.shiftr v 15 * Z.shiftr v 15)) 7 in
  let v := s32 (v - Z.shiftr (s32 (sq * c H1)) 4) in
  let v := if decide (v < 0) then 0 else v in
  let v := if decide (v > 419430400) then 419430400 else v in
  u32 (Z.shiftr v 12).

(** The data sheet's example: 25.08 degrees and 100653.25 Pa (it prints 100653.27,
    computed in floating point). *)
Definition datasheet_cal : cal_t := fun k =>
  match k with
  | T1 => 27504 | T2 => 26435 | T3 => -1000
  | P1 => 36477 | P2 => -10685 | P3 => 3024 | P4 => 2855 | P5 => 140 | P6 => -7
  | P7 => 15500 | P8 => -14600 | P9 => 6000
  | H1 => 75 | H2 => 362 | H3 => 0 | H4 => 313 | H5 => 50 | H6 => 30
  end.

Example datasheet_temperature :
  BMP280_compensate_temperature datasheet_cal 519888 = (2508, 128422).
Proof. reflexivity. Qed.

Example datasheet_pressure :
  BMP280_compensate_pressure datasheet_cal 415148 128422 = 25767233.
Proof. reflexivity. Qed.

(** ** Register access *)

Section bmp280.
Context {P : Type} `{Platform P}.
Notation D := (M (world P * BMP280_HandleTypedef)).

(** [Some v] is [true] with [v] stored at [*value], [None] is [false]. *)
Definition BMP280_read_register16 (reg : Z) : D (option Z) :=
  hal i2cAcquireBus ;;;
  let! ok := hal checkI2CCondition in
  if negb ok then hal i2cReleaseBus ;;; ret None else
  let! a := see addr in
  let! r := hal (i2cMasterTransmitTimeout a [reg] 2 (TIME_MS2I 800)) in
  upd (fun d => set_rx_buff (overwrite (snd r) (rx_buff d)) d) ;;;
  if decide (fst r = MSG_OK) then
    let! b := see rx_buff in
    hal i2cReleaseBus ;;;
    ret (Some (u16 (Z.lor (Z.shiftl (byte_at b 1) 8) (byte_at b 0))))
  else
    hal i2cReleaseBus ;;;
    ret None.

(** Returns with the bytes the transfer stored at [*value]. *)
Definition BMP280_read_data (reg : Z) (len : nat) : D (bool * list Z) :=
  hal i2cAcquireBus ;;;
  let! ok := hal checkI2CCondition in
  if negb ok then hal i2cReleaseBus ;;; ret (false, []) else
  let! a := see addr in
  let! r := hal (i2cMasterTransmitTimeout a [reg] len (TIME_MS2I 800)) in
  if decide (fst r = MSG_OK) then
    hal i2cReleaseBus ;;;
    ret (true, snd r)
  else
    hal i2cReleaseBus ;;;
    ret (false, snd r).

(** The check of the bus is commented out in the source; [true] is failure. *)
Definition BMP280_write_register8 (reg value : Z) : D bool :=
  hal i2cAcquireBus ;;;
  let! a := see addr in
  let! r := hal (i2cMasterTransmitTimeout a [reg; value] 0 (TIME_MS2I 800)) in
  if decide (fst r = MSG_OK) then
    hal i2cReleaseBus ;;;
    ret false
  else
    hal i2cReleaseBus ;;;
    ret true.

(** ** Calibration *)

Definition read_coef (k : coef) (reg : Z) : D bool :=
  let! r := BMP280_read_register16 reg in
  match r with
  | Some v => upd (set_dig k v) ;;; ret true
  | None => ret false
  end.

(** A one-byte read into a field. *)
Definition read_coef8 (k : coef) (reg : Z) : D bool :=
  let! r := BMP280_read_data reg 1 in
  (match snd r with b :: _ => upd (set_dig k b) | [] => ret tt end) ;;;
  ret (fst r).

Definition BMP280_read_calibration_data : D bool :=
  mand (read_coef T1 0x88) (mand (read_coef T2 0x8a) (mand (read_coef T3 0x8c)
  (mand (read_coef P1 0x8e) (mand (read_coef P2 0x90) (mand (read_coef P3 0x92)
  (mand (read_coef P4 0x94) (mand (read_coef P5 0x96) (mand (read_coef P6 0x98)
  (mand (read_coef P7 0x9a) (mand (read_coef P8 0x9c) (read_coef P9 0x9e))))))))))).

Definition BMP280_read_hum_calibration_data : D bool :=
  let! b := read_coef8 H1 0xa1 in if negb b then ret false else
  let! b := read_coef H2 0xe1 in if negb b then ret false else
  let! b := read_coef8 H3 0xe3 in if negb b then ret false else
  let! h4 := BMP280_read_register16 0xe4 in
  match h4 with None => ret false | Some h4 =>
  let! h5 := BMP280_read_register16 0xe5 in
  match h5 with None => ret false | Some h5 =>
  let! b := read_coef8 H6 0xe7 in if negb b then ret false else
  upd (set_dig H4 (Z.lor (Z.shiftl (Z.land h4 0x00ff) 4) (Z.shiftr (Z.land h4 0x0f00) 8))) ;;;
  upd (set_dig H5 (Z.shiftr h5 4)) ;;;
  ret true
  end end.

(** ** Initialisation and measurement *)

(** The wait for the end of the copy of the calibration data; the loop of the
    source has no bound. *)
Definition nvp_wait : D (option bool) :=
  let! st := hal i2c_state_unlocked in
  if decide (st <> I2C_READY) then ret (Some false) else
  let! r := BMP280_read_data BMP280_REG_STATUS 1 in
  if fst r && bool_decide (Z.land (byte_at (snd r) 0) 1 = 0) then ret (Some true) else ret None.

(** [params] is the handle's own [dev->params], as all callers pass it. *)
Definition BMP280_init (fuel : nat) : D bool :=
  let! a := see addr in
  if decide (a <> BMP280_I2C_ADDRESS_0 /\ a <> BMP280_I2C_ADDRESS_1) then ret false else
  let! r := BMP280_read_data BMP280_REG_ID 1 in
  (match snd r with b :: _ => upd (set_id b) | [] => ret tt end) ;;;
  if negb (fst r) then ret false else
  let! i := see id in
  if decide (i <> BMP280_CHIP_ID /\ i <> BME280_CHIP_ID) then ret false else
  let! err := BMP280_write_register8 BMP280_REG_RESET BMP280_RESET_VALUE in
  if (err : bool) then ret false else
  let! ready := loop fuel nvp_wait in
  if negb ready then ret false else
  let! b := BMP280_read_calibration_data in
  if negb b then ret false else
  let! b := (if decide (i = BME280_CHIP_ID) then BMP280_read_hum_calibration_data else ret true) in
  if negb b then ret false else
  let! p := see params in
  let config := u8 (Z.lor (Z.shiftl (standby p) 5) (Z.shiftl (filter p) 2)) in
  let! err := BMP280_write_register8 BMP280_REG_CONFIG config in
  if (err : bool) then ret false else
  (if decide (mode p = BMP280_MODE_FORCED)
   then upd (fun d => set_params (set_mode BMP280_MODE_SLEEP (params d)) d) else ret tt) ;;;
  let! p := see params in
  let ctrl := u8 (Z.lor (Z.lor (Z.shiftl (oversampling_temperature p) 5)
                               (Z.shiftl (oversampling_pressure p) 2)) (mode p)) in
  let! err := (if decide (i = BME280_CHIP_ID)
               then BMP280_write_register8 BMP280_REG_CTRL_HUM (u8 (oversampling_humidity p))
               else ret false) in
  if (err : bool) then ret false else
  let! err := BMP280_write_register8 BMP280_REG_CTRL ctrl in
  if (err : bool) then ret false else
  ret true.

Definition BMP280_force_measurement : D bool :=
  let! r := BMP280_read_data BMP280_REG_CTRL 1 in
  if negb (fst r) then ret false else
  let ctrl := u8 (Z.land (byte_at (snd r) 0) (Z.lnot 3)) in
  let ctrl := Z.lor ctrl BMP280_MODE_FORCED in
  let! err := BMP280_write_register8 BMP280_REG_CTRL ctrl in
  if (err : bool) then ret false else
  ret true.

Definition BMP280_is_measuring : D bool :=
  let! r := BMP280_read_data BMP280_REG_STATUS 1 in
  if negb (fst r) then ret false else
  if decide (Z.land (byte_at (snd r) 0) (Z.shiftl 1 3) <> 0) then ret true else ret false.

(** Temperature, pressure and humidity of a BME280, or humidity 0; the caller
    passes a humidity pointer. *)
Definition BMP280_read_fixed : D (option (Z * Z * Z)) :=
  let! i := see id in
  let with_hum := bool_decide (i = BME280_CHIP_ID) in
  let! r := BMP280_read_data 0xf7 (if with_hum then 8 else 6)%nat in
  upd (fun d => set_data (overwrite (snd r) (data d)) d) ;;;
  if negb (fst r) then ret None else
  let! b := see data in
  let! c := see dig in
  let adc_pressure := Z.lor (Z.lor (Z.shiftl (byte_at b 0) 12) (Z.shiftl (byte_at b 1) 4))
                            (Z.shiftr (byte_at b 2) 4) in
  let adc_temp := Z.lor (Z.lor (Z.shiftl (byte_at b 3) 12) (Z.shiftl (byte_at b 4) 4))
                        (Z.shiftr (byte_at b 5) 4) in
  let '(temperature, fine_temp) := BMP280_compensate_temperature c adc_temp in
  let pressure := BMP280_compensate_pressure c adc_pressure fine_temp in
  let humidity :=
    if with_hum
    then BMP280_compensate_humidity c (Z.lor (Z.shiftl (byte_at b 6) 8) (byte_at b 7)) fine_temp
    else 0 in
  ret (Some (temperature, pressure, humidity)).

(** The conversion of the three results to [float]. *)
Definition to_float (t p h : Z) : float * float * float :=
  (f32_div (f32_of_Z t) (f32_of_Z 100), f32_div (f32_of_Z p) (f32_of_Z 256),
   f32_div (f32_of_Z h) (f32_of_Z 1024)).

(** One round of the wait for the end of a forced measurement. *)
Definition measure_wait (start end_ : Z) : D (option bool) :=
  let! m := BMP280_is_measuring in
  if negb m then ret (Some true) else
  let! now := hal chVTGetSystemTime in
  if chTimeIsInRangeX now start end_ then ret None else ret (Some false).

Definition BMP280_read_float (fuel : nat) : D (option (float * float * float)) :=
  let! p := see params in
  let! go := (if decide (mode p = BMP280_MODE_SLEEP) then
                let! f := BMP280_force_measurement in
                if negb f then ret false else
                let! start := hal chVTGetSystemTime in
                let! end_ := lift_opt (chTimeAddX start (TIME_MS2I 2000)) "chTimeAddX" in
                hal (chThdSleepMilliseconds 5) ;;;
                loop fuel (measure_wait start end_)
              else ret true) in
  if negb go then ret None else
  let! r := BMP280_read_fixed in
  match r with
  | Some (t, p, h) => ret (Some (to_float t p h))
  | None => ret None
  end.

End bmp280.

(** ** Compensation: theorems *)

(** The calibration fields hold values of their types. *)
Definition cal_ok (c : cal_t) : Prop :=
  0 <= c T1 < 65536 /\ 0 <= c P1 < 65536 /\ 0 <= c H1 < 256 /\ 0 <= c H3 < 256 /\
  forall k, - 32768 <= c k < 65536 /\ (k <> T1 -> k <> P1 -> c k < 32768).

(** The exact results of the operations of the temperature computation, all of
    them [int32_t]. *)
Definition temperature_steps (c : cal_t) (adc : Z) : list Z :=
  let x := adc `div` 8 - 2 * c T1 in
  let d := adc `div` 16 - c T1 in
  let sq := (d * d) `div` 4096 in
  let fine := (x * c T2) `div` 2048 + (sq * c T3) `div` 16384 in
  [2 * c T1; x; x * c T2; d; d * d; sq * c T3; fine; fine * 5; fine * 5 + 128].

Definition fits32 (z : Z) : Prop := - 2 ^ 31 <= z < 2 ^ 31.

(** The check of a calibration: the lowest and the highest 20-bit reading fit. *)
Definition extremes_fit (c : cal_t) : Prop :=
  Forall fits32 (temperature_steps c 0) /\ Forall fits32 (temperature_steps c (2 ^ 20 - 1)).

(** The temperature in unbounded integers. *)
Definition fine_exact (c : cal_t) (adc : Z) : Z :=
  ((adc `div` 8 - 2 * c T1) * c T2) `div` 2048
  + (((adc `div` 16 - c T1) * (adc `div` 16 - c T1)) `div` 4096 * c T3) `div` 16384.

Lemma mul_between a lo hi k :
  lo <= a <= hi -> - 2 ^ 31 <= lo * k < 2 ^ 31 -> - 2 ^ 31 <= hi * k < 2 ^ 31 -> - 2 ^ 31 <= a * k < 2 ^ 31.
Proof. intros. destruct (Z.le_ge_cases 0 k); nia. Qed.

(** Every reading is between the two extremes. *)
Lemma temperature_products_fit c adc :
  cal_ok c -> extremes_fit c -> 0 <= adc < 2 ^ 20 ->
  fits32 ((adc `div` 8 - 2 * c T1) * c T2) /\ Z.abs (adc `div` 16 - c T1) <= 46340 /\
  fits32 (((adc `div` 16 - c T1) * (adc `div` 16 - c T1)) `div` 4096 * c T3).
Proof.
  intros (HT1 & _) [Hlo Hhi] Ha. unfold temperature_steps in Hlo, Hhi. rewrite !Forall_cons in Hlo, Hhi.
  destruct Hlo as (_ & _ & Lx & _ & Ld & Ls & _), Hhi as (_ & _ & Hx & _ & Hd & Hs & _). unfold fits32 in *.
  change ((2 ^ 20 - 1) `div` 8) with 131071 in *. change ((2 ^ 20 - 1) `div` 16) with 65535 in *.
  rewrite Z.div_0_l in Lx, Ld, Ls by lia.
  assert (Hq8 : 0 <= adc `div` 8 <= 131071) by (split; [apply Z.div_pos|apply Z.lt_succ_r, Z.div_lt_upper_bound]; lia).
  assert (Hq16 : 0 <= adc `div` 16 <= 65535) by (split; [apply Z.div_pos|apply Z.lt_succ_r, Z.div_lt_upper_bound]; lia).
  set (d := adc `div` 16 - c T1) in *.
  assert (Hsq : d * d <= Z.max ((0 - c T1) * (0 - c T1)) ((65535 - c T1) * (65535 - c T1))) by (subst d; nia).
  split; [|split].
  - apply (mul_between _ (0 - 2 * c T1) (131071 - 2 * c T1)); [lia|done|done].
  - assert (d * d < 2 ^ 31) by lia. nia.
  - assert (Hdiv : 0 <= (d * d) `div` 4096 <= Z.max (((0 - c T1) * (0 - c T1)) `div` 4096) (((65535 - c T1) * (65535 - c T1)) `div` 4096)).
    { split; [apply Z.div_pos; nia|]. apply Z.max_le_iff. destruct (Z.max_spec ((0 - c T1) * (0 - c T1)) ((65535 - c T1) * (65535 - c T1))) as [[_ E]|[_ E]];
        rewrite E in Hsq; [right|left]; apply Z.div_le_mono; lia. }
    destruct (Z.max_spec (((0 - c T1) * (0 - c T1)) `div` 4096) (((65535 - c T1) * (65535 - c T1)) `div` 4096)) as [[_ E]|[_ E]]; rewrite E in Hdiv;
      [apply (mul_between _ 0 (((65535 - c T1) * (65535 - c T1)) `div` 4096))|apply (mul_between _ 0 (((0 - c T1) * (0 - c T1)) `div` 4096))]; lia.
Qed.

Lemma temperature_fits c adc :
  cal_ok c -> extremes_fit c -> 0 <= adc < 2 ^ 20 -> Forall fits32 (temperature_steps c adc).
Proof.
  intros Hc He Ha. destruct (temperature_products_fit c adc Hc He Ha) as (H1 & H2 & H3). destruct Hc as (HT1 & _).
  unfold temperature_steps, fits32 in *.
  set (x := adc `div` 8 - 2 * c T1) in *. set (d := adc `div` 16 - c T1) in *. set (sq := (d * d) `div` 4096) in *.
  assert (Hq8 : 0 <= adc `div` 8 <= 131071) by (split; [apply Z.div_pos|apply Z.lt_succ_r, Z.div_lt_upper_bound]; lia).
  pose proof (Z.div_mod (x * c T2) 2048). pose proof (Z.mod_pos_bound (x * c T2) 2048).
  pose proof (Z.div_mod (sq * c T3) 16384). pose proof (Z.mod_pos_bound (sq * c T3) 16384).
  repeat constructor; try lia; nia.
Qed.

Lemma temperature_no_overflow c adc :
  cal_ok c -> extremes_fit c -> 0 <= adc < 2 ^ 20 ->
  BMP280_compensate_temperature c adc
  = ((5 * fine_exact c adc + 128) `div` 256, fine_exact c adc).
Proof.
  intros Hcal He Ha. destruct (temperature_products_fit c adc Hcal He Ha) as (H1 & H2 & H3). unfold fits32 in *.
  destruct Hcal as (HT1 & _ & _ & _ & Hc).
  pose proof (Hc T2) as [? _]. pose proof (Hc T3) as [? _].
  unfold BMP280_compensate_temperature, fine_exact. cbv zeta.
  rewrite !Z.shiftr_div_pow2, Z.shiftl_mul_pow2 by lia.
  change (2 ^ 3) with 8. change (2 ^ 4) with 16. change (2 ^ 11) with 2048.
  change (2 ^ 12) with 4096. change (2 ^ 14) with 16384. change (2 ^ 8) with 256.
  pose proof (Z.div_mod adc 8). pose proof (Z.mod_pos_bound adc 8).
  pose proof (Z.div_mod adc 16). pose proof (Z.mod_pos_bound adc 16).
  set (q1 := adc `div` 8) in *. set (q2 := adc `div` 16) in *.
  rewrite (s32_small (c T1 * 2 ^ 1)) by lia. rewrite (s32_small (q1 - _)) by lia.
  rewrite (s32_small (q2 - c T1)) by lia. set (d := q2 - c T1) in *.
  assert (0 <= d * d <= 46340 * 46340) by nia. rewrite (s32_small (d * d)) by lia.
  replace (c T1 * 2 ^ 1) with (2 * c T1) by lia. rewrite !(s32_small (_ * c _)) by lia.
  set (x := (q1 - 2 * c T1) * c T2) in *. set (y := (d * d) `div` 4096 * c T3) in *.
  pose proof (Z.div_mod x 2048). pose proof (Z.mod_pos_bound x 2048).
  pose proof (Z.div_mod y 16384). pose proof (Z.mod_pos_bound y 16384).
  rewrite (s32_small (_ + y `div` _)) by lia. rewrite (s32_small (_ * 5)) by lia.
  rewrite s32_small by lia. f_equal. f_equal. lia.
Qed.

(** [2^34] times the [t_fine] of the data sheet's formula in real arithmetic:
    (adc/16384 - T1/1024) * T2 + (adc/131072 - T1/8192)^2 * T3. *)
Definition t_fine_sheet (c : cal_t) (adc : Z) : Z :=
  (adc - 16 * c T1) * c T2 * 2 ^ 20 + (adc - 16 * c T1) * (adc - 16 * c T1) * c T3.

(** Error of the linear term: at most 15 units of [fine_temp]. *)
Lemma var1_error c adc :
  cal_ok c -> 0 <= adc ->
  Z.abs (2 ^ 34 * (((adc `div` 8 - 2 * c T1) * c T2) `div` 2048)
         - (adc - 16 * c T1) * c T2 * 2 ^ 20) <= 15 * 2 ^ 34.
Proof.
  intros (_ & _ & _ & _ & Hc) Ha. destruct (Hc T2) as [H2 H2']. specialize (H2' ltac:(done) ltac:(done)).
  pose proof (Z.div_mod adc 8 ltac:(lia)) as Hq. pose proof (Z.mod_pos_bound adc 8 ltac:(lia)) as Hr.
  set (q := adc `div` 8) in *. set (r := adc `mod` 8) in *.
  set (x := (q - 2 * c T1) * c T2).
  pose proof (Z.div_mod x 2048 ltac:(lia)). pose proof (Z.mod_pos_bound x 2048 ltac:(lia)).
  replace ((adc - 16 * c T1) * c T2) with (8 * x + r * c T2) by (subst x; rewrite Hq; ring).
  assert (- (7 * 32768) <= r * c T2 <= 7 * 32768) by nia. lia.
Qed.

(** Error of the quadratic term: at most 46 units. *)
Lemma var2_error c adc :
  cal_ok c -> 0 <= adc -> Z.abs (adc `div` 16 - c T1) <= 46340 ->
  Z.abs (2 ^ 34 * ((((adc `div` 16 - c T1) * (adc `div` 16 - c T1)) `div` 4096 * c T3) `div` 16384)
         - (adc - 16 * c T1) * (adc - 16 * c T1) * c T3) <= 46 * 2 ^ 34.
Proof.
  intros (_ & _ & _ & _ & Hc) Ha Hd. destruct (Hc T3) as [H3 H3']. specialize (H3' ltac:(done) ltac:(done)).
  pose proof (Z.div_mod adc 16 ltac:(lia)) as Hq. pose proof (Z.mod_pos_bound adc 16 ltac:(lia)) as Hr.
  set (r := adc `mod` 16) in *. set (d := adc `div` 16 - c T1) in *.
  pose proof (Z.div_mod (d * d) 4096 ltac:(lia)) as Hs.
  pose proof (Z.mod_pos_bound (d * d) 4096 ltac:(lia)) as Hrho.
  set (rho := (d * d) `mod` 4096) in *. set (sq := (d * d) `div` 4096) in *.
  pose proof (Z.div_mod (sq * c T3) 16384 ltac:(lia)).
  pose proof (Z.mod_pos_bound (sq * c T3) 16384 ltac:(lia)).
  replace ((adc - 16 * c T1) * (adc - 16 * c T1) * c T3)
    with (2 ^ 20 * (sq * c T3) + (256 * rho + 32 * (d * r) + r * r) * c T3)
    by (replace (adc - 16 * c T1) with (16 * d + r) by (subst d; lia);
        replace (2 ^ 20 * (sq * c T3)) with (256 * (4096 * sq) * c T3) by ring;
        replace (4096 * sq) with (d * d - rho) by lia; ring).
  assert (- (46340 * 15) <= d * r <= 46340 * 15) by nia. assert (0 <= r * r <= 225) by nia.
  set (w := 256 * rho + 32 * (d * r) + r * r) in *.
  assert (- (32 * 46340 * 15) <= w <= 256 * 4096 + 32 * 46340 * 15 + 225) by lia.
  assert (Z.abs (w * c T3) <= (256 * 4096 + 32 * 46340 * 15 + 225) * 32768) by (rewrite Z.abs_mul; nia).
  lia.
Qed.

(** C32: The fixed-point temperature of the driver, in hundredths of a degree,
    differs from the data sheet's formula in real arithmetic (5/256 of its
    [t_fine]) by less than 1.7 hundredths, and no 32-bit operation of the
    computation overflows, for every 20-bit reading of a device whose calibration
    words pass one check: at the two extreme readings 0 and 2^20 - 1 the
    operations fit in 32 bits.  (Some words of the right types fail it, and then
    the extreme reading overflows.) *)
Theorem bmp280_temperature_accurate c adc :
  cal_ok c -> extremes_fit c -> 0 <= adc < 2 ^ 20 ->
  Forall fits32 (temperature_steps c adc) /\
  Z.abs (2 ^ 42 * fst (BMP280_compensate_temperature c adc) - 5 * t_fine_sheet c adc) <= 433 * 2 ^ 34.
Proof.
  intros Hc He Ha. split; [by apply temperature_fits|].
  rewrite temperature_no_overflow by done. cbn [fst]. unfold t_fine_sheet, fine_exact.
  pose proof (var1_error c adc Hc ltac:(lia)) as H1.
  pose proof (var2_error c adc Hc ltac:(lia) ltac:(by apply temperature_products_fit)) as H2.
  set (v1 := _ `div` 2048) in *. set (v2 := _ `div` 16384) in *.
  pose proof (Z.div_mod (5 * (v1 + v2) + 128) 256 ltac:(lia)).
  pose proof (Z.mod_pos_bound (5 * (v1 + v2) + 128) 256 ltac:(lia)). lia.
Qed.

Lemma datasheet_cal_ok : cal_ok datasheet_cal.
Proof. repeat split; cbn; try lia; destruct k; cbn; (lia || congruence). Qed.

Lemma bmp280_temperature_accurate_witness :
  Forall fits32 (temperature_steps datasheet_cal 519888) /\
  Z.abs (2 ^ 42 * fst (BMP280_compensate_temperature datasheet_cal 519888)
         - 5 * t_fine_sheet datasheet_cal 519888) <= 433 * 2 ^ 34.
Proof.
  apply (bmp280_temperature_accurate datasheet_cal 519888).
  - apply datasheet_cal_ok.
  - split; repeat constructor; vm_compute; congruence.
  - lia.
Defined.

(** The parts of the pressure in unbounded integers, for the distance [t] of
    [fine_temp] from 128000: offset, sensitivity (the divisor), quotient. *)
Definition p_offset (c : cal_t) (t : Z) : Z := t * t * c P6 + t * c P5 * 2 ^ 17 + c P4 * 2 ^ 35.
Definition p_slope (c : cal_t) (t : Z) : Z := (t * t * c P3) `div` 2 ^ 8 + t * c P2 * 2 ^ 12.
Definition p_sens (c : cal_t) (t : Z) : Z := ((2 ^ 47 + p_slope c t) * c P1) `div` 2 ^ 33.
Definition p_num (c : cal_t) (adc t : Z) : Z := ((1048576 - adc) * 2 ^ 31 - p_offset c t) * 3125.
Definition p_quot (c : cal_t) (adc t : Z) : Z := Z.quot (p_num c adc t) (p_sens c t).

Definition pressure_exact (c : cal_t) (adc fine : Z) : Z :=
  let t := fine - 128000 in
  let p := p_quot c adc t in
  let quad := (c P9 * (p `div` 2 ^ 13) * (p `div` 2 ^ 13)) `div` 2 ^ 25 in
  let lin := (c P8 * p) `div` 2 ^ 19 in
  (p + quad + lin) `div` 2 ^ 8 + c P7 * 2 ^ 4.

(** The exact results of the operations, all of them [int64_t]. *)
Definition pressure_head (c : cal_t) (t : Z) : list Z :=
  [t; t * t; t * t * c P6; t * c P5; t * c P5 * 2 ^ 17; t * t * c P6 + t * c P5 * 2 ^ 17; c P4 * 2 ^ 35; p_offset c t;
   t * t * c P3; t * c P2; t * c P2 * 2 ^ 12; p_slope c t; 2 ^ 47 + p_slope c t; (2 ^ 47 + p_slope c t) * c P1].
Definition pressure_middle (c : cal_t) (adc t : Z) : list Z :=
  [1048576 - adc; (1048576 - adc) * 2 ^ 31; (1048576 - adc) * 2 ^ 31 - p_offset c t; p_num c adc t; p_quot c adc t].
Definition pressure_tail (c : cal_t) (p : Z) : list Z :=
  let q := p `div` 2 ^ 13 in
  let quad := (c P9 * q * q) `div` 2 ^ 25 in
  let lin := (c P8 * p) `div` 2 ^ 19 in
  [c P9 * q; c P9 * q * q; c P8 * p; p + quad; p + quad + lin; c P7 * 2 ^ 4; (p + quad + lin) `div` 2 ^ 8 + c P7 * 2 ^ 4].
Definition pressure_steps (c : cal_t) (adc fine : Z) : list Z :=
  let t := fine - 128000 in pressure_head c t ++ pressure_middle c adc t ++ pressure_tail c (p_quot c adc t).

Definition fits64 (z : Z) : Prop := Z.abs z < 2 ^ 63.

(** The check of a calibration for the temperatures with [fine_temp] at most
    [span] from 128000: bounds of the slope, the offset, the dividend, the divisor
    and the quotient, with room for the products. *)
Definition slope_bound (c : cal_t) (span : Z) : Z := (span * span * Z.abs (c P3)) `div` 2 ^ 8 + 1 + span * Z.abs (c P2) * 2 ^ 12.
Definition offset_bound (c : cal_t) (span : Z) : Z := span * span * Z.abs (c P6) + span * Z.abs (c P5) * 2 ^ 17 + Z.abs (c P4) * 2 ^ 35.
Definition num_bound (c : cal_t) (span : Z) : Z := (2 ^ 51 + offset_bound c span) * 3125.
Definition sens_bound (c : cal_t) (span : Z) : Z := ((2 ^ 47 - slope_bound c span) * c P1) `div` 2 ^ 33.
Definition quot_bound (c : cal_t) (span : Z) : Z := num_bound c span `div` sens_bound c span.

Definition pressure_margin (c : cal_t) (span : Z) : Prop :=
  0 <= span <= 2 ^ 21 /\
  (2 ^ 47 + slope_bound c span) * c P1 < 2 ^ 63 /\ 1 <= sens_bound c span /\
  num_bound c span < 2 ^ 63 /\ quot_bound c span < 2 ^ 47 /\
  Z.abs (c P9) * (quot_bound c span `div` 2 ^ 13 + 1) * (quot_bound c span `div` 2 ^ 13 + 1) < 2 ^ 63.

Lemma abs_mul_le a b x y : Z.abs a <= x -> Z.abs b <= y -> Z.abs (a * b) <= x * y.
Proof. intros. rewrite Z.abs_mul. nia. Qed.

Lemma mul_le_bounds a b x y : 0 <= a <= x -> 0 <= b <= y -> 0 <= a * b <= x * y.
Proof. intros. split; [apply Z.mul_nonneg_nonneg; lia|apply Z.mul_le_mono_nonneg; lia]. Qed.

Lemma abs_div_bound a b x : 0 < b -> Z.abs a <= x * b -> Z.abs (a `div` b) <= x.
Proof.
  intros Hb Ha. pose proof (Z.div_mod a b ltac:(lia)). pose proof (Z.mod_pos_bound a b Hb).
  nia.
Qed.

Lemma abs_div_le a b x : 0 < b -> Z.abs a <= x -> Z.abs (a `div` b) <= x `div` b + 1.
Proof.
  intros Hb Ha. apply abs_div_bound; [done|]. pose proof (Z.div_mod x b ltac:(lia)). pose proof (Z.mod_pos_bound x b Hb). nia.
Qed.

Lemma abs_quot_le a b x y : 0 < y <= b -> Z.abs a <= x -> Z.abs (Z.quot a b) <= x `div` y.
Proof.
  intros Hy Ha. rewrite <- Z.quot_abs by lia. rewrite (Z.abs_eq b), Z.quot_div_nonneg by lia.
  transitivity (x `div` b); [apply Z.div_le_mono; lia|]. apply Z.div_le_compat_l; lia.
Qed.

Lemma s64_abs z : fits64 z -> s64 z = z.
Proof. unfold fits64. intros. apply s64_small. lia. Qed.

Ltac no_abs := rewrite ?Z.abs_le, ?Z.abs_lt in *.
Ltac all_fit := no_abs; repeat apply Forall_cons_2; [..|apply Forall_nil_2]; apply Z.abs_lt; lia.

Section margin.
Context (c : cal_t) (span t adc : Z).
Hypothesis Hc : cal_ok c.
Hypothesis Hm : pressure_margin c span.
Hypothesis Ht : Z.abs t <= span.
Hypothesis Ha : 0 <= adc < 2 ^ 20.

Lemma coef_abs k : k <> T1 -> k <> P1 -> Z.abs (c k) <= 2 ^ 15.
Proof. intros H1 H2. destruct Hc as (_ & _ & _ & _ & H). destruct (H k) as [? H']. specialize (H' H1 H2). lia. Qed.

Lemma tt_abs : Z.abs (t * t) <= span * span.
Proof. by apply abs_mul_le. Qed.

Lemma slope_abs : Z.abs (p_slope c t) <= slope_bound c span.
Proof.
  unfold p_slope, slope_bound. rewrite Z.abs_triangle. apply Z.add_le_mono.
  - apply abs_div_le; [lia|]. apply abs_mul_le; [apply tt_abs|lia].
  - rewrite Z.abs_mul, (Z.abs_eq (2 ^ 12)) by lia. apply Z.mul_le_mono_nonneg_r; [lia|]. by apply abs_mul_le.
Qed.

Lemma offset_abs : Z.abs (p_offset c t) <= offset_bound c span.
Proof.
  unfold p_offset, offset_bound. etransitivity; [apply Z.abs_triangle|]. apply Z.add_le_mono; [etransitivity; [apply Z.abs_triangle|]; apply Z.add_le_mono|].
  - apply abs_mul_le; [apply tt_abs|lia].
  - rewrite Z.abs_mul, (Z.abs_eq (2 ^ 17)) by lia. apply Z.mul_le_mono_nonneg_r; [lia|]. by apply abs_mul_le.
  - rewrite Z.abs_mul, (Z.abs_eq (2 ^ 35)) by lia. lia.
Qed.

Lemma sens_at_least : 1 <= sens_bound c span <= p_sens c t.
Proof.
  destruct Hm as (_ & _ & Hs & _). split; [done|]. unfold sens_bound, p_sens. apply Z.div_le_mono; [lia|].
  pose proof slope_abs as Hs'. destruct Hc as (_ & H1 & _). apply Z.mul_le_mono_nonneg_r; [lia|]. clear - Hs'. lia.
Qed.

Lemma num_abs : Z.abs (p_num c adc t) <= num_bound c span.
Proof.
  unfold p_num, num_bound. rewrite Z.abs_mul, (Z.abs_eq 3125) by lia. apply Z.mul_le_mono_nonneg_r; [lia|].
  pose proof offset_abs. lia.
Qed.

Lemma quot_abs : Z.abs (p_quot c adc t) <= quot_bound c span.
Proof. pose proof sens_at_least. apply abs_quot_le; [lia|apply num_abs]. Qed.

Lemma head_fits : Forall fits64 (pressure_head c t).
Proof.
  pose proof tt_abs as H0. pose proof slope_abs as Hsl. destruct Hm as (Hsp & H1 & H2 & H3 & H4).
  pose proof offset_abs as Hof. pose proof (coef_abs P2 ltac:(done) ltac:(done)) as K2.
  pose proof (coef_abs P3 ltac:(done) ltac:(done)) as K3. pose proof (coef_abs P4 ltac:(done) ltac:(done)) as K4.
  pose proof (coef_abs P5 ltac:(done) ltac:(done)) as K5. pose proof (coef_abs P6 ltac:(done) ltac:(done)) as K6.
  assert (Hss : 0 <= span * span <= 2 ^ 21 * 2 ^ 21) by (by apply mul_le_bounds).
  assert (G6 : Z.abs (t * t * c P6) <= 2 ^ 42 * 2 ^ 15) by (clear - H0 Hss K6; apply abs_mul_le; lia).
  assert (G5 : Z.abs (t * c P5) <= 2 ^ 21 * 2 ^ 15) by (clear - Ht Hsp K5; apply abs_mul_le; lia).
  assert (G3 : Z.abs (t * t * c P3) <= 2 ^ 42 * 2 ^ 15) by (clear - H0 Hss K3; apply abs_mul_le; lia).
  assert (G2 : Z.abs (t * c P2) <= 2 ^ 21 * 2 ^ 15) by (clear - Ht Hsp K2; apply abs_mul_le; lia).
  assert (Gs : 0 <= slope_bound c span <= 2 ^ 50).
  { assert (B1 : 0 <= span * span * Z.abs (c P3) <= 2 ^ 42 * 2 ^ 15) by (clear - Hss K3; apply mul_le_bounds; lia).
    assert (B2 : 0 <= span * Z.abs (c P2) <= 2 ^ 21 * 2 ^ 15) by (clear - Hsp K2; apply mul_le_bounds; lia).
    unfold slope_bound. set (a := span * span * Z.abs (c P3)) in *. set (b := span * Z.abs (c P2)) in *.
    assert (B3 : 0 <= a `div` 2 ^ 8 <= 2 ^ 49) by (clear - B1; split; [apply Z.div_pos|apply Z.div_le_upper_bound]; lia).
    clear - B2 B3. lia. }
  assert (Go : offset_bound c span < 2 ^ 52) by (clear - H3; unfold num_bound in H3; lia).
  destruct Hc as (_ & K1 & _).
  assert (Gp : Z.abs ((2 ^ 47 + p_slope c t) * c P1) < 2 ^ 63) by (eapply Z.le_lt_trans; [apply (abs_mul_le _ _ (2 ^ 47 + slope_bound c span) (c P1)); clear - Hsl K1; lia|done]).
  clear - H0 Hss G6 G5 G3 G2 Gs Hsl Go Hof Gp K4 Ht Hsp. unfold pressure_head. all_fit.
Qed.

Lemma middle_fits : Forall fits64 (pressure_middle c adc t).
Proof.
  pose proof offset_abs as Hof. pose proof num_abs as Hn. pose proof quot_abs as Hq. destruct Hm as (_ & _ & _ & H3 & H4 & _).
  assert (Go : offset_bound c span < 2 ^ 52) by (clear - H3; unfold num_bound in H3; lia).
  clear - Hof Hn Hq H3 H4 Go Ha. unfold pressure_middle. all_fit.
Qed.

Lemma tail_fits : Forall fits64 (pressure_tail c (p_quot c adc t)).
Proof.
  pose proof quot_abs as Hq. destruct Hm as (_ & _ & _ & _ & H4 & H5). set (p := p_quot c adc t) in *. set (b := quot_bound c span) in *.
  pose proof (coef_abs P7 ltac:(done) ltac:(done)) as K7. pose proof (coef_abs P8 ltac:(done) ltac:(done)) as K8.
  pose proof (coef_abs P9 ltac:(done) ltac:(done)) as K9.
  assert (Hd : Z.abs (p `div` 2 ^ 13) <= b `div` 2 ^ 13 + 1) by (by apply abs_div_le).
  set (q := p `div` 2 ^ 13) in *. set (e := b `div` 2 ^ 13 + 1) in *.
  assert (Hb : 0 <= b `div` 2 ^ 13 < 2 ^ 34) by (split; [apply Z.div_pos; lia|apply Z.div_lt_upper_bound; lia]).
  assert (G9 : Z.abs (c P9 * q) <= Z.abs (c P9) * e) by (apply abs_mul_le; lia).
  assert (G99 : Z.abs (c P9 * q * q) <= Z.abs (c P9) * e * e) by (apply abs_mul_le; lia).
  assert (G8 : Z.abs (c P8 * p) <= 2 ^ 15 * b) by (apply abs_mul_le; lia).
  assert (Gq : Z.abs ((c P9 * q * q) `div` 2 ^ 25) <= 2 ^ 38) by (apply abs_div_bound; lia).
  assert (Gl : Z.abs ((c P8 * p) `div` 2 ^ 19) <= 2 ^ 44) by (apply abs_div_bound; lia).
  unfold pressure_tail. cbv zeta. set (quad := _ `div` 2 ^ 25) in *. set (lin := _ `div` 2 ^ 19) in *. fold q.
  assert (Ge : Z.abs ((p + quad + lin) `div` 2 ^ 8) <= 2 ^ 41) by (apply abs_div_bound; lia).
  set (r := _ `div` 2 ^ 8) in *. assert (B9 : 0 <= Z.abs (c P9) * e <= 2 ^ 15 * (2 ^ 34 + 1)) by (apply mul_le_bounds; lia).
  clear - Hq H4 H5 G9 G99 G8 Gq Gl Ge K7 B9. all_fit.
Qed.
End margin.

(** Rewriting searches up to conversion: arithmetic is kept from unfolding. *)
#[local] Opaque Z.mul Z.pow Z.add Z.sub Z.div Z.quot.

(** The code computes the exact results as long as they fit. *)
Lemma pressure_tail_exact c p :
  Forall fits64 (pressure_tail c p) ->
  s64 (s64 (s64 (p + s64 (s64 (c P9 * (p `div` 2 ^ 13)) * (p `div` 2 ^ 13)) `div` 2 ^ 25)
            + s64 (c P8 * p) `div` 2 ^ 19) `div` 2 ^ 8 + s64 (c P7 * 2 ^ 4)) =
  (p + (c P9 * (p `div` 2 ^ 13) * (p `div` 2 ^ 13)) `div` 2 ^ 25 + (c P8 * p) `div` 2 ^ 19) `div` 2 ^ 8
  + c P7 * 2 ^ 4.
Proof.
  unfold pressure_tail. cbv zeta. rewrite !Forall_cons. intros (H1 & H2 & H3 & H4 & H5 & H6 & H7 & _).
  rewrite (s64_abs _ H1), (s64_abs _ H2), (s64_abs _ H3), (s64_abs _ H4), (s64_abs _ H5), (s64_abs _ H6). by apply s64_abs.
Qed.

Lemma pressure_exact_steps c adc fine :
  0 <= adc < 2 ^ 20 -> p_sens c (fine - 128000) <> 0 -> Forall fits64 (pressure_steps c adc fine) ->
  BMP280_compensate_pressure c adc fine = u32 (pressure_exact c adc fine).
Proof.
  intros Ha Hs Hall. unfold pressure_steps in Hall. cbv zeta in Hall. apply Forall_app in Hall as [Hh Hall].
  apply Forall_app in Hall as [Hm Ht]. unfold BMP280_compensate_pressure, pressure_exact. cbv zeta.
  set (t := fine - 128000) in *. unfold pressure_head in Hh. rewrite !Forall_cons in Hh.
  destruct Hh as (A1 & A2 & A3 & A4 & A5 & A6 & A7 & A8 & A9 & A10 & A11 & A12 & A13 & A14 & _).
  rewrite !Z.shiftl_mul_pow2, !Z.shiftr_div_pow2, Z.mul_1_l by lia.
  rewrite (s64_abs _ A1), (s64_abs _ A2), (s64_abs _ A3), (s64_abs _ A4), (s64_abs _ A5), (s64_abs _ A6), (s64_abs _ A7).
  rewrite (s64_abs _ A9), (s64_abs _ A10), (s64_abs _ A11). unfold p_offset in A8. rewrite (s64_abs _ A8). fold (p_offset c t).
  unfold p_slope in A12. rewrite (s64_abs _ A12). fold (p_slope c t).
  rewrite (s64_abs _ A13), (s64_abs _ A14). fold (p_sens c t). rewrite decide_False by done.
  unfold pressure_middle in Hm. rewrite !Forall_cons in Hm. destruct Hm as (B1 & B2 & B3 & B4 & B5 & _).
  rewrite s32_small by (clear - Ha; lia). unfold p_num in B4. rewrite (s64_abs _ B1), (s64_abs _ B2), (s64_abs _ B3), (s64_abs _ B4).
  fold (p_num c adc t). unfold p_quot in B5. rewrite (s64_abs _ B5). fold (p_quot c adc t).
  by rewrite pressure_tail_exact.
Qed.

(** C33: The 64-bit pressure computation does not overflow and never divides by
    zero, for every 20-bit reading and every temperature up to [span] from the
    reference 128000 of [fine_temp], of a device whose calibration words pass the
    check [pressure_margin] for [span]: then each operation's exact result fits
    in 64 bits, the divisor is positive, and the result is the formula of the
    data sheet in unbounded integers, as a [uint32_t].  The check is computed
    from the words; the data sheet's example passes it for the sensor's whole
    range, -40 to 85 degrees (a span of 332800). *)
Theorem bmp280_pressure_no_overflow c adc fine span :
  cal_ok c -> pressure_margin c span -> Z.abs (fine - 128000) <= span -> 0 <= adc < 2 ^ 20 ->
  Forall fits64 (pressure_steps c adc fine) /\ 0 < p_sens c (fine - 128000) /\
  BMP280_compensate_pressure c adc fine = u32 (pressure_exact c adc fine).
Proof.
  intros Hc Hm Ht Ha. pose proof (sens_at_least c span (fine - 128000) Hc Hm Ht) as Hs.
  assert (Hall : Forall fits64 (pressure_steps c adc fine)).
  { unfold pressure_steps. apply Forall_app. split; [by apply (head_fits c span)|]. apply Forall_app.
    split; [by apply (middle_fits c span)|by apply (tail_fits c span)]. }
  split; [done|]. split; [lia|]. apply pressure_exact_steps; [done|lia|done].
Qed.

#[local] Transparent Z.mul Z.pow Z.add Z.sub Z.div Z.quot.

Lemma bmp280_pressure_no_overflow_witness :
  Forall fits64 (pressure_steps datasheet_cal 415148 128422) /\ 0 < p_sens datasheet_cal (128422 - 128000) /\
  BMP280_compensate_pressure datasheet_cal 415148 128422 = u32 (pressure_exact datasheet_cal 415148 128422).
Proof.
  apply (bmp280_pressure_no_overflow datasheet_cal 415148 128422 332800).
  - apply datasheet_cal_ok.
  - repeat split; vm_compute; congruence.
  - vm_compute. congruence.
  - lia.
Defined.

(** Whatever the device answers and whatever its calibration, even where
    intermediate results wrap, the humidity is between 0 and 100 per cent
    (102400 units of 1/1024), and a device without a pressure scale (a zero
    [dig_P1]) gives pressure 0 instead of a division by zero. *)
Theorem bmp280_results_bounded c adc fine :
  0 <= BMP280_compensate_humidity c adc fine <= 102400 /\
  (c P1 = 0 -> BMP280_compensate_pressure c adc fine = 0).
Proof.
  split.
  - unfold BMP280_compensate_humidity. cbv zeta. set (v := s32 (s32 (_ * _) - _)).
    set (v1 := if decide (v < 0) then 0 else v).
    set (v2 := if decide (v1 > 419430400) then 419430400 else v1).
    assert (0 <= v2 <= 419430400) as Hv by (subst v2 v1; repeat case_decide; lia).
    rewrite Z.shiftr_div_pow2 by lia.
    assert (0 <= v2 `div` 2 ^ 12 <= 102400) by
      (split; [apply Z.div_pos; lia|apply Z.div_le_upper_bound; lia]).
    rewrite u32_small by lia. lia.
  - intros H1. unfold BMP280_compensate_pressure. cbv zeta. rewrite H1, Z.mul_0_r. done.
Qed.

Lemma bmp280_results_bounded_witness :
  0 <= BMP280_compensate_humidity datasheet_cal 30000 128422 <= 102400 /\
  BMP280_compensate_pressure (cal_set P1 0 datasheet_cal) 415148 128422 = 0.
Proof.
  split; [apply (bmp280_results_bounded datasheet_cal)|].
  by apply (bmp280_results_bounded (cal_set P1 0 datasheet_cal) 415148 128422).
Defined.

(** ** The bus *)

Section bus.
Context {P : Type} `{Platform P} `{!PlatformOk P}.
Implicit Types (w : world P) (d : BMP280_HandleTypedef).
Notation D := (M (world P * BMP280_HandleTypedef)).

(** The bus is free and its last transfer did not time out. *)
Definition ready w : Prop := bus_held w = false /\ i2c_st w = I2C_READY.

(** A register write does not check the bus.  Whenever another thread's
    transfer timed out while this one waited for the mutex, the write reaches
    [i2cMasterTransmitTimeout] with a locked driver and halts the station. *)
Theorem bmp280_write_halts_on_locked_bus r v w d :
  idle w -> fst (p_others (i2c_st w) (plat w)) = I2C_LOCKED ->
  BMP280_write_register8 r v (w, d) = Halt "not ready".
Proof.
  intros [Hh _] Hl. unfold BMP280_write_register8, bind, hal, zoom, i2cAcquireBus, get. cbn.
  rewrite Hh. cbn. destruct (p_others (i2c_st w) (plat w)) as [st p]. cbn in Hl. by subst.
Qed.

Lemma ready_intro (w1 w2 : world P) :
  idle w2 -> i2c_st w2 = i2c_st w1 -> (MSG_OK <> MSG_TIMEOUT -> i2c_st w1 = I2C_READY) -> ready w2.
Proof. intros [Hh _] He Hr. split; [done|]. rewrite He. by apply Hr. Qed.

Lemma bmp280_read_data_safe r n w d (Q : bool * list Z -> world P * BMP280_HandleTypedef -> Prop) :
  idle w ->
  (forall (ok : bool) rx w' d', idle w' -> (ok = true -> ready w' /\ length rx = n) ->
     (forall b, b ∈ rx -> byte_ok b) -> Q (ok, rx) (w', d')) ->
  safe (BMP280_read_data r n) Q (w, d).
Proof.
  intros Hw HQ. unfold BMP280_read_data. own; apply HQ; try done.
  subst. intros _. split; [|auto]. by eapply ready_intro.
Qed.

(** [good m]: a call that reads first; it never halts, and after success the
    bus is ready. *)
Definition good (m : D bool) : Prop := forall w d, idle w ->
  safe m (fun b s => idle (fst s) /\ (b = true -> ready (fst s))) (w, d).

Lemma good_mand m1 m2 : good m1 -> good m2 -> good (mand m1 m2).
Proof.
  intros H1 H2 w d Hw. apply safe_bind. eapply safe_conseq; [by apply H1|].
  intros [] [w' d'] [Hi Hr]; [by apply H2|]. by apply safe_ret.
Qed.

Lemma bmp280_read16_safe r w d (Q : option Z -> world P * BMP280_HandleTypedef -> Prop) :
  idle w ->
  (forall v w' d', idle w' -> (is_Some v -> ready w') -> Q v (w', d')) ->
  safe (BMP280_read_register16 r) Q (w, d).
Proof.
  intros Hw HQ. unfold BMP280_read_register16. own; apply HQ; try done.
  subst. intros _. by eapply ready_intro.
Qed.

Lemma read_coef_good k r : good (read_coef k r).
Proof.
  intros w d Hw. apply safe_bind, bmp280_read16_safe; [done|]. intros [v|] w' d' Hi Hr; own.
  - split; [done|]. intros _. apply Hr. eauto.
  - by split.
Qed.

Lemma read_coef8_good k r : good (read_coef8 k r).
Proof.
  intros w d Hw. apply safe_bind, bmp280_read_data_safe; [done|]. intros ok rx w' d' Hi Hr Hb.
  destruct rx; own; (split; [done|]); intros; by apply Hr.
Qed.

Lemma calibration_good : good BMP280_read_calibration_data.
Proof. unfold BMP280_read_calibration_data. repeat apply good_mand; apply read_coef_good. Qed.

(** A checked call in a sequence. *)
Lemma safe_good {A} m (k : bool -> D A) Q w d :
  good m -> idle w ->
  (forall w' d', ready w' -> safe (k true) Q (w', d')) ->
  (forall w' d', idle w' -> safe (k false) Q (w', d')) ->
  safe (bind m k) Q (w, d).
Proof.
  intros Hm Hw Ht Hf. apply safe_bind. eapply safe_conseq; [by apply Hm|].
  intros [] [w' d'] [Hi Hr]; [apply Ht; by apply Hr|by apply Hf].
Qed.

Lemma ready_idle w : ready w -> idle w.
Proof. intros [? ?]. split; auto. Qed.

Lemma hum_calibration_good : good BMP280_read_hum_calibration_data.
Proof.
  intros w d Hw. unfold BMP280_read_hum_calibration_data.
  apply safe_good; [apply read_coef8_good|done| |by own]. clear w d Hw. intros w d Hw. cbn [negb].
  apply safe_good; [apply read_coef_good|by apply ready_idle| |by own].
  clear w d Hw. intros w d Hw. cbn [negb].
  apply safe_good; [apply read_coef8_good|by apply ready_idle| |by own].
  clear w d Hw. intros w d Hw. cbn [negb].
  apply safe_bind, bmp280_read16_safe; [by apply ready_idle|]. clear w d Hw.
  intros [h4|] w d Hw _; [|by own]. apply safe_bind, bmp280_read16_safe; [done|]. clear w d Hw.
  intros [h5|] w d Hw _; [|by own]. apply safe_good; [apply read_coef8_good|done| |by own].
  clear w d Hw. intros w d Hw. cbn [negb]. own. split; [by apply ready_idle|done].
Qed.

(** The other threads' transfers do not time out. *)
Class QuietBus : Prop := quiet : forall p, fst (p_others I2C_READY p) = I2C_READY.
Context `{!QuietBus}.

Lemma acquire_quiet w (Q : unit -> world P -> Prop) :
  ready w -> (forall w', owned_ready w' -> Q tt w') -> safe i2cAcquireBus Q w.
Proof.
  intros [Hh Hs] HQ. unfold safe, i2cAcquireBus, bind, get. rewrite Hh, Hs. cbn.
  pose proof (quiet (plat w)) as Hq. destruct (p_others I2C_READY (plat w)) as [st p].
  by apply HQ.
Qed.

Lemma bmp280_write_safe r v w d (Q : bool -> world P * BMP280_HandleTypedef -> Prop) :
  ready w ->
  (forall (err : bool) w' d', idle w' -> (err = false -> ready w') -> Q err (w', d')) ->
  safe (BMP280_write_register8 r v) Q (w, d).
Proof.
  intros Hw HQ. unfold BMP280_write_register8. apply safe_bind, safe_hal, acquire_quiet; [done|].
  intros w1 Hw1. own; apply HQ; try done. subst. intros _. by eapply ready_intro.
Qed.

Lemma nvp_wait_safe w d :
  idle w ->
  safe nvp_wait (fun r s => idle (fst s) /\ (r = Some true -> ready (fst s))) (w, d).
Proof.
  intros Hw. unfold nvp_wait. apply safe_bind, safe_hal. unfold i2c_state_unlocked, gets, safe at 1.
  cbn. case_decide; [by own|]. apply safe_bind, bmp280_read_data_safe; [done|].
  intros ok rx w' d' Hi Hr _. cbn. destruct ok; cbn; [|by own]. case_bool_decide; [|by own].
  own. split; [done|]. intros _. by apply Hr.
Qed.

Lemma nvp_loop_good fuel : good (loop fuel nvp_wait).
Proof.
  intros w d Hw. apply (safe_loop nvp_wait (fun s => idle (fst s))); [|done].
  intros [w' d'] Hi. eapply safe_conseq; [by apply nvp_wait_safe|].
  intros [b|] s [Hs Hr]; [|done]. split; [done|]. intros ->. auto.
Qed.

Ltac checked H := apply safe_good; [apply H|first [assumption|by apply ready_idle]| |by own]; intros ? ? ?; cbn [negb].
Ltac written := apply safe_bind, bmp280_write_safe;
  [assumption|let Hr := fresh "Hready" in intros [] ? ? ? Hr; [by own|]; specialize (Hr eq_refl)].

Lemma init_good fuel : good (BMP280_init fuel).
Proof.
  intros w d Hw. unfold BMP280_init. apply safe_bind, safe_see. case_decide; [by own|].
  apply safe_bind, bmp280_read_data_safe; [done|]. intros ok rx w1 d1 H1 Hr1 _. cbn [fst snd].
  apply safe_bind. apply (safe_conseq _ (fun _ s => fst s = w1)); [destruct rx; by own|].
  intros _ [w2 d2]. cbn [fst]. intros ->. destruct ok; cbn [negb]; [|by own].
  destruct (Hr1 eq_refl) as [Hr _]. apply safe_bind, safe_see. case_decide; [by own|].
  written. checked nvp_loop_good. checked calibration_good.
  apply safe_bind.
  apply (safe_conseq _ (fun b s => idle (fst s) /\ (b = true -> ready (fst s)))).
  { case_decide; [by apply hum_calibration_good, ready_idle|]. own. by split; [apply ready_idle|]. }
  intros b [w3 d3] [H3 Hr3]. destruct b; cbn [negb]; [|by own]. specialize (Hr3 eq_refl).
  apply safe_bind, safe_see. cbv zeta. written.
  apply safe_bind. apply (safe_conseq _ (fun _ s => ready (fst s))); [case_decide; by own|].
  intros _ [w5 d5]. cbn [fst]. intros H5. apply safe_bind, safe_see, safe_bind.
  apply (safe_conseq _ (fun err s => idle (fst s) /\ (err = false -> ready (fst s)))).
  { case_decide; [apply bmp280_write_safe; auto|]. own. by split; [apply ready_idle|]. }
  intros err [w6 d6] [H6 Hr6]. destruct err; [by own|]. specialize (Hr6 eq_refl). written.
  own. split; [done|auto].
Qed.

Lemma force_good : good BMP280_force_measurement.
Proof.
  intros w d Hw. apply safe_bind, bmp280_read_data_safe; [done|]. intros ok rx w1 d1 H1 Hr _.
  cbn [fst]. destruct ok; cbn [negb]; [|by own]. destruct (Hr eq_refl) as [Hr1 _]. cbv zeta. written.
  own. split; [done|auto].
Qed.

Lemma measuring_bus : bus_ok BMP280_is_measuring.
Proof.
  intros [w d] Hw. apply safe_bind, bmp280_read_data_safe; [done|]. intros ok rx w1 d1 H1 _ _.
  by own.
Qed.

Lemma read_fixed_bus : bus_ok BMP280_read_fixed.
Proof.
  intros [w d] Hw. apply safe_bind, safe_see, safe_bind, bmp280_read_data_safe; [done|].
  intros ok rx w1 d1 H1 _ _. own.
Qed.

Lemma good_bus m : good m -> bus_ok m.
Proof. intros Hm [w d] Hw. eapply safe_conseq; [by apply Hm|]. by intros b s [Hs _]. Qed.


Lemma read_float_bus fuel : bus_ok (BMP280_read_float fuel).
Proof.
  pose proof (good_bus _ force_good). pose proof measuring_bus. pose proof read_fixed_bus.
  unfold BMP280_read_float, measure_wait. bus.
Qed.

(** The calls of the sensor thread: initialise, or read. *)
Fixpoint bmp280_session (fuel : nat) (calls : list bool) : D unit :=
  match calls with
  | [] => ret tt
  | true :: cs => BMP280_init fuel ;;; bmp280_session fuel cs
  | false :: cs => BMP280_read_float fuel ;;; bmp280_session fuel cs
  end.

(** C31: As long as the transfers of the other threads do not time out, no
    sequence of initialisations and readings halts the station, whatever the
    sensor itself does (its own time-outs included), and the bus mutex is free
    after it. *)
Theorem bmp280_never_halts_on_quiet_bus fuel cs w d :
  idle w -> safe (bmp280_session fuel cs) (fun _ s => idle (fst s)) (w, d).
Proof.
  revert w d. induction cs as [|[] cs IH]; intros w d Hw; [done|..]; apply safe_bind.
  - eapply safe_conseq; [by apply (good_bus _ (init_good fuel))|]. intros ? [w' d'] Hw'. by apply IH.
  - eapply safe_conseq; [by apply read_float_bus|]. intros ? [w' d'] Hw'. by apply IH.
Qed.

End bus.

#[global] Instance regfile_quiet : QuietBus (P := regfile).
Proof. by intros p. Qed.

(** A chip that answers its id; the other threads leave the bus locked. *)
Definition locked_world : world sim := World (SimState {[ (0x77, 0xD0) := [0x60] ]} [] [false; true] 0 ∅) I2C_READY false [].
Definition bmp280_dev : BMP280_HandleTypedef :=
  Handle (fun _ => 0) BMP280_I2C_ADDRESS_1 BMP280_init_default_params 0 [0; 0] (replicate 8 0).

Lemma bmp280_write_halts_on_locked_bus_witness :
  BMP280_write_register8 0xF4 0x6D
    (World (SimState ∅ [] [true] 0 ∅) I2C_READY false [], bmp280_dev) = Halt "not ready".
Proof.
  apply (bmp280_write_halts_on_locked_bus (P := sim)); [split; [done|by left]|reflexivity].
Defined.

(** The initialisation runs into it: the id is read, then another thread times
    out before the reset command. *)
Example bmp280_init_halts : BMP280_init 3 (locked_world, bmp280_dev) = Halt "not ready".
Proof. vm_compute. reflexivity. Qed.

Lemma bmp280_never_halts_on_quiet_bus_witness :
  safe (bmp280_session 10 [true; false]) (fun _ s => idle (fst s))
    (World (∅ : regfile) I2C_LOCKED false [], bmp280_dev).
Proof. refine (bmp280_never_halts_on_quiet_bus (P := regfile) 10 [true; false] _ _ _). split; [done|by right]. Defined.
