(* ===== verification/Ads1x15.v ===== *)
(** * ADS1X15 analog-to-digital converter driver

    [src/src/drivers/ADS1X15.c], used by the power thread for the battery and
    solar voltages.  Proved here: the bus discipline, that the fields of the
    configuration word never overlap, the order of the bytes on the bus, the
    conversion to volts, and that the wait for a conversion has no bound. *)

From S2P Require Import Prelude Oslib Hal Sim Softfloat.

Definition ADS1X15_REG_CONVERT : Z := 0x00.
Definition ADS1X15_REG_CONFIG : Z := 0x01.
Definition ADS1X15_REG_LOW_THRESHOLD : Z := 0x02.
Definition ADS1X15_REG_HIGH_THRESHOLD : Z := 0x03.
Definition ADS1X15_OS_NOT_BUSY : Z := 0x8000.
Definition ADS1X15_OS_START_SINGLE : Z := 0x8000.
Definition ADS1X15_MUX_DIFF_0_1 : Z := 0x0000.
Definition ADS1X15_PGA_6_144V : Z := 0x0000.
Definition ADS1X15_PGA_4_096V : Z := 0x0200.
Definition ADS1X15_PGA_2_048V : Z := 0x0400.
Definition ADS1X15_PGA_1_024V : Z := 0x0600.
Definition ADS1X15_PGA_0_512V : Z := 0x0800.
Definition ADS1X15_PGA_0_256V : Z := 0x0A00.
Definition ADS1X15_MODE_CONTINUE : Z := 0x0000.
Definition ADS1X15_MODE_SINGLE : Z := 0x0100.
Definition ADS1X15_COMP_MODE_TRADITIONAL : Z := 0x0000.
Definition ADS1X15_COMP_MODE_WINDOW : Z := 0x0010.
Definition ADS1X15_COMP_POL_ACTIV_LOW : Z := 0x0000.
Definition ADS1X15_COMP_POL_ACTIV_HIGH : Z := 0x0008.
Definition ADS1X15_COMP_NON_LATCH : Z := 0x0000.
Definition ADS1X15_COMP_LATCH : Z := 0x0004.
Definition ADS1X15_INVALID_VOLTAGE : Z := -100.
Definition ADS1015_HAL_I2C_DELAY : Z := 200.

(** [ADS1X15_device_t]; [rx] is the static receive buffer of the register
    read.  The field [bufferTx] is written before each transfer that uses it. *)
Record ADS1X15_device_t := Ads {
  config : Z;
  gain : Z;
  mode : Z;
  datarate : Z;
  compMode : Z;
  compPol : Z;
  compLatch : Z;
  compQueConvert : Z;
  bufferRx : Z;
  i2cAddress : Z;
  rx : list Z
}.

Section setters.
Implicit Types d : ADS1X15_device_t.

Definition set_config c d := Ads c (gain d) (mode d) (datarate d) (compMode d) (compPol d) (compLatch d) (compQueConvert d) (bufferRx d) (i2cAddress d) (rx d).
Definition set_gain g d := Ads (config d) g (mode d) (datarate d) (compMode d) (compPol d) (compLatch d) (compQueConvert d) (bufferRx d) (i2cAddress d) (rx d).
Definition set_mode m d := Ads (config d) (gain d) m (datarate d) (compMode d) (compPol d) (compLatch d) (compQueConvert d) (bufferRx d) (i2cAddress d) (rx d).
Definition set_datarate r d := Ads (config d) (gain d) (mode d) r (compMode d) (compPol d) (compLatch d) (compQueConvert d) (bufferRx d) (i2cAddress d) (rx d).
Definition set_compPol p d := Ads (config d) (gain d) (mode d) (datarate d) (compMode d) p (compLatch d) (compQueConvert d) (bufferRx d) (i2cAddress d) (rx d).
Definition set_compLatch l d := Ads (config d) (gain d) (mode d) (datarate d) (compMode d) (compPol d) l (compQueConvert d) (bufferRx d) (i2cAddress d) (rx d).
Definition set_compQueConvert q d := Ads (config d) (gain d) (mode d) (datarate d) (compMode d) (compPol d) (compLatch d) q (bufferRx d) (i2cAddress d) (rx d).
Definition set_bufferRx b d := Ads (config d) (gain d) (mode d) (datarate d) (compMode d) (compPol d) (compLatch d) (compQueConvert d) b (i2cAddress d) (rx d).
Definition set_rx b d := Ads (config d) (gain d) (mode d) (datarate d) (compMode d) (compPol d) (compLatch d) (compQueConvert d) (bufferRx d) (i2cAddress d) b.

Definition ADS__setGain (g : Z) d : ADS1X15_device_t :=
  set_gain (if decide (g = 1) then ADS1X15_PGA_4_096V
            else if decide (g = 2) then ADS1X15_PGA_2_048V
            else if decide (g = 4) then ADS1X15_PGA_1_024V
            else if decide (g = 8) then ADS1X15_PGA_0_512V
            else if decide (g = 16) then ADS1X15_PGA_0_256V
            else ADS1X15_PGA_6_144V) d.

Definition ADS__setMode (m : Z) d : ADS1X15_device_t :=
  set_mode (if decide (m = 0) then ADS1X15_MODE_CONTINUE else ADS1X15_MODE_SINGLE) d.

Definition ADS__setDataRate (dataRate : Z) d : ADS1X15_device_t :=
  let r := if decide (dataRate > 7) then 4 else dataRate in
  set_datarate (u16 (Z.shiftl r 5)) d.

Definition ADS__setComparatorLatch (latch : Z) d : ADS1X15_device_t :=
  set_compLatch (if decide (latch <> 0) then 0 else 1) d.

Definition ADS__setComparatorQueConvert (m : Z) d : ADS1X15_device_t :=
  set_compQueConvert (if decide (m < 3) then m else 3) d.

Definition ADS__getMaxVoltage d : float :=
  if decide (gain d = ADS1X15_PGA_6_144V) then f32_lit 6144 1000
  else if decide (gain d = ADS1X15_PGA_4_096V) then f32_lit 4096 1000
  else if decide (gain d = ADS1X15_PGA_2_048V) then f32_lit 2048 1000
  else if decide (gain d = ADS1X15_PGA_1_024V) then f32_lit 1024 1000
  else if decide (gain d = ADS1X15_PGA_0_512V) then f32_lit 512 1000
  else if decide (gain d = ADS1X15_PGA_0_256V) then f32_lit 256 1000
  else f32_of_Z ADS1X15_INVALID_VOLTAGE.

Definition ADS__toVoltage (val : Z) d : float :=
  if decide (val = 0) then f32_of_Z 0 else
  let volts := ADS__getMaxVoltage d in
  if flt volts (f32_of_Z 0) then volts else
  f32_div (f32_mul volts (f32_of_Z val)) (f32_of_Z 32767).

(** The configuration word of a request. *)
Definition config_word (readmode : Z) d : Z :=
  let c := ADS1X15_OS_START_SINGLE in
  let c := Z.lor c readmode in
  let c := Z.lor c (gain d) in
  let c := Z.lor c (mode d) in
  let c := Z.lor c (datarate d) in
  let c := Z.lor c (if decide (compMode d <> 0) then ADS1X15_COMP_MODE_WINDOW
                    else ADS1X15_COMP_MODE_TRADITIONAL) in
  let c := Z.lor c (if decide (compPol d <> 0) then ADS1X15_COMP_POL_ACTIV_HIGH
                    else ADS1X15_COMP_POL_ACTIV_LOW) in
  let c := Z.lor c (if decide (compLatch d <> 0) then ADS1X15_COMP_LATCH
                    else ADS1X15_COMP_NON_LATCH) in
  Z.lor c (compQueConvert d).

End setters.

Section ads.
Context {P : Type} `{Platform P}.
Notation D := (M (world P * ADS1X15_device_t)).

Definition ADS__writeRegister (reg value : Z) : D bool :=
  hal i2cAcquireBus ;;;
  let! ok := hal checkI2CCondition in
  if negb ok then hal i2cReleaseBus ;;; ret false else
  let! a := see i2cAddress in
  let! r := hal (i2cMasterTransmitTimeout a [u8 reg; u8 (Z.shiftr value 8); u8 (Z.land value 0xFF)] 0
                   (TIME_MS2I 500)) in
  hal i2cReleaseBus ;;;
  ret (bool_decide (fst r = MSG_OK)).

(** The value is stored at [*dataRx] even if the transfer failed: then it is
    what the static buffer holds from earlier transfers.  [None]: no store. *)
Definition ADS__readRegister (reg : Z) : D (bool * option Z) :=
  hal i2cAcquireBus ;;;
  let! ok := hal checkI2CCondition in
  if negb ok then hal i2cReleaseBus ;;; ret (false, None) else
  let! a := see i2cAddress in
  let! r := hal (i2cMasterTransmitTimeout a [u8 reg] 2 (TIME_MS2I ADS1015_HAL_I2C_DELAY)) in
  upd (fun d => set_rx (overwrite (snd r) (rx d)) d) ;;;
  hal i2cReleaseBus ;;;
  let! b := see rx in
  ret (bool_decide (fst r = MSG_OK),
       Some (u16 (Z.lor (Z.shiftl (default 0 (b !! 0%nat)) 8) (default 0 (b !! 1%nat))))).

(** The status of the register read is not looked at. *)
Definition ADS__isBusy : D bool :=
  let! r := ADS__readRegister ADS1X15_REG_CONFIG in
  (match snd r with Some v => upd (set_bufferRx v) | None => ret tt end) ;;;
  let! b := see bufferRx in
  if decide (Z.land b ADS1X15_OS_NOT_BUSY <> 0) then ret false else ret true.

Definition ADS__getValue : D (bool * option Z) := ADS__readRegister ADS1X15_REG_CONVERT.

Definition ADS__requestADCPriv (readmode : Z) : D bool :=
  upd (fun d => set_config (config_word readmode d) d) ;;;
  let! c := see config in
  ADS__writeRegister ADS1X15_REG_CONFIG c.

(** One round of the wait: still busy, sleep. *)
Definition busy_wait : D (option unit) :=
  let! b := ADS__isBusy in
  if (b : bool) then hal (chThdSleepMilliseconds 10) ;;; ret None else ret (Some tt).

(** The time-out is looked at once, before the wait, which has no bound. *)
Definition ADS__readADCPriv (fuel : nat) (readmode : Z) : D (bool * option Z) :=
  let! b := ADS__requestADCPriv readmode in
  if negb b then ret (false, None) else
  let! start := hal chVTGetSystemTime in
  let! end_ := lift_opt (chTimeAddX start (TIME_MS2I 1000)) "chTimeAddX" in
  let! m := see mode in
  let! q := see compQueConvert in
  if decide (m = ADS1X15_MODE_SINGLE /\ q = 3) then
    let! now := hal chVTGetSystemTime in
    if negb (chTimeIsInRangeX now start end_) then ret (false, None) else
    loop fuel busy_wait ;;;
    ADS__getValue
  else ADS__getValue.

Definition ADS__readADC (fuel : nat) (pin : Z) : D (bool * option Z) :=
  ADS__readADCPriv fuel (u16 (Z.shiftl (4 + pin) 12)).

Definition ADS__readADC_Differential_0_1 (fuel : nat) : D (bool * option Z) :=
  ADS__readADCPriv fuel ADS1X15_MUX_DIFF_0_1.

Definition ADS__requestADC (pin : Z) : D bool :=
  ADS__requestADCPriv (u16 (Z.shiftl (4 + pin) 12)).

Definition ADS__setComparatorThresholdLow (lo : Z) : D bool :=
  ADS__writeRegister ADS1X15_REG_LOW_THRESHOLD lo.
Definition ADS__setComparatorThresholdHigh (hi : Z) : D bool :=
  ADS__writeRegister ADS1X15_REG_HIGH_THRESHOLD hi.

(** The first conversion is read into [dev->bufferRx]. *)
Definition ADS__init (fuel : nat) : D bool :=
  upd (set_compQueConvert 3) ;;;
  upd (set_compPol 1) ;;;
  upd (ADS__setGain ADS1X15_PGA_6_144V) ;;;
  upd (ADS__setMode 1) ;;;
  upd (ADS__setDataRate 4) ;;;
  let! r := ADS__readADC fuel 0 in
  (match snd r with Some v => upd (set_bufferRx v) | None => ret tt end) ;;;
  ret (fst r).

End ads.

(** ** Bus discipline *)

Section discipline.
Context {P : Type} `{Platform P} `{!PlatformOk P}.
Notation D := (M (world P * ADS1X15_device_t)).

Lemma ads_write_bus r v : bus_ok (P := P) (ADS__writeRegister r v).
Proof. intros [w d] Hs. unfold ADS__writeRegister. cbn in Hs. own. Qed.

Lemma ads_read_bus r : bus_ok (P := P) (ADS__readRegister r).
Proof. intros [w d] Hs. unfold ADS__readRegister. cbn in Hs. own. Qed.

Hint Resolve ads_write_bus ads_read_bus : bus.

Lemma ads_request_bus m : bus_ok (P := P) (ADS__requestADCPriv m).
Proof. unfold ADS__requestADCPriv. bus. Qed.

Hint Resolve ads_request_bus : bus.

Lemma ads_read_adc_bus fuel m : bus_ok (P := P) (ADS__readADCPriv fuel m).
Proof. unfold ADS__readADCPriv, busy_wait, ADS__isBusy, ADS__getValue. bus. Qed.

Hint Resolve ads_read_adc_bus : bus.

(** The calls of the power thread and of the rest of the interface. *)
Inductive ads_call :=
  | CInit | CRead (pin : Z) | CDiff | CRequest (pin : Z) | CLow (v : Z) | CHigh (v : Z)
  | CSet (f : ADS1X15_device_t -> ADS1X15_device_t).

Definition ads_exec (fuel : nat) (c : ads_call) : D unit :=
  match c with
  | CInit => ADS__init fuel ;;; ret tt
  | CRead pin => ADS__readADC fuel pin ;;; ret tt
  | CDiff => ADS__readADC_Differential_0_1 fuel ;;; ret tt
  | CRequest pin => ADS__requestADC pin ;;; ret tt
  | CLow v => ADS__setComparatorThresholdLow v ;;; ret tt
  | CHigh v => ADS__setComparatorThresholdHigh v ;;; ret tt
  | CSet f => upd f
  end.

Lemma ads_exec_bus fuel c : bus_ok (ads_exec fuel c).
Proof.
  destruct c; cbn [ads_exec];
    unfold ADS__init, ADS__readADC, ADS__readADC_Differential_0_1, ADS__requestADC,
      ADS__setComparatorThresholdLow, ADS__setComparatorThresholdHigh; bus.
Qed.

Fixpoint ads_session (fuel : nat) (cs : list ads_call) : D unit :=
  match cs with
  | [] => ret tt
  | c :: cs => ads_exec fuel c ;;; ads_session fuel cs
  end.

(** Whatever the converter answers and in whatever state the other threads
    leave the bus, no sequence of calls of the driver halts the station, and
    the bus mutex is free after it. *)
Theorem ads_never_halts fuel cs (w : world P) d :
  idle w -> safe (ads_session fuel cs) (fun _ s => idle (fst s)) (w, d).
Proof.
  revert w d. induction cs as [|c cs IH]; intros w d Hw; [done|].
  apply safe_bind. eapply safe_conseq; [by apply ads_exec_bus|].
  intros _ [w' d'] Hw'. by apply IH.
Qed.

End discipline.

Definition ads_dev : ADS1X15_device_t := Ads 0 0 0 0 0 0 0 0 0 0x48 [0; 0].

Lemma ads_never_halts_witness :
  safe (ads_session 3 [CInit; CDiff; CRead 2]) (fun _ s => idle (fst s))
    (World (SimState ∅ [MSG_TIMEOUT; MSG_OK; MSG_RESET] [true; false; true] 0 ∅) I2C_READY false [], ads_dev).
Proof.
  refine (ads_never_halts (P := sim) 3 [CInit; CDiff; CRead 2] _ _ _). split; [done|by left].
Defined.

(** ** The configuration word *)

(** The driver's settings are fields in their own bits. *)
Definition ads_wf (d : ADS1X15_device_t) : Prop :=
  (exists g, 0 <= g < 6 /\ gain d = g * 2 ^ 9) /\ (mode d = 0 \/ mode d = 2 ^ 8) /\
  (exists r, 0 <= r < 8 /\ datarate d = r * 2 ^ 5) /\ 0 <= compQueConvert d <= 3.

Definition flag (z weight : Z) : Z := if decide (z <> 0) then weight else 0.

(** For every setting the driver can hold, the request word is the sum of
    its fields: no field overlaps another or leaves the 16 bits, so each is
    what its setter chose.  In particular bit 15, the start of a conversion,
    is always set. *)
Theorem ads_config_fields d k :
  ads_wf d -> 0 <= k < 8 ->
  config_word (k * 2 ^ 12) d =
    2 ^ 15 + k * 2 ^ 12 + gain d + mode d + datarate d + flag (compMode d) (2 ^ 4)
    + flag (compPol d) (2 ^ 3) + flag (compLatch d) (2 ^ 2) + compQueConvert d /\
  2 ^ 15 <= config_word (k * 2 ^ 12) d < 2 ^ 16.
Proof.
  intros ((g & Hg & Eg) & Hm & (r & Hr & Er) & Hq) Hk.
  unfold config_word, flag, ADS1X15_OS_START_SINGLE, ADS1X15_COMP_MODE_WINDOW,
    ADS1X15_COMP_MODE_TRADITIONAL, ADS1X15_COMP_POL_ACTIV_HIGH, ADS1X15_COMP_POL_ACTIV_LOW,
    ADS1X15_COMP_LATCH, ADS1X15_COMP_NON_LATCH. cbv zeta. rewrite Eg, Er.
  set (a := if decide (compMode d <> 0) then _ else 0). set (b := if decide (compPol d <> 0) then _ else 0).
  set (l := if decide (compLatch d <> 0) then _ else 0).
  assert (a = 0 \/ a = 16) by (subst a; case_decide; auto).
  assert (b = 0 \/ b = 8) by (subst b; case_decide; auto).
  assert (l = 0 \/ l = 4) by (subst l; case_decide; auto).
  clearbody a b l. set (q := compQueConvert d) in *. clearbody q. set (m := mode d) in *. clearbody m.
  change (2 ^ 15) with 32768. change (2 ^ 12) with 4096 in *. change (2 ^ 9) with 512 in *.
  change (2 ^ 8) with 256 in *. change (2 ^ 5) with 32 in *. change (2 ^ 16) with 65536.
  rewrite (lor_field _ (k * 4096) 32768 15) by (done || zdiv).
  rewrite (lor_field _ (g * 512) 4096 12) by (done || zdiv).
  rewrite (lor_field _ m 512 9) by (done || zdiv).
  rewrite (lor_field _ (r * 32) 256 8) by (done || zdiv).
  rewrite (lor_field _ a 32 5) by (done || zdiv).
  rewrite (lor_field _ b 16 4) by (done || zdiv).
  rewrite (lor_field _ l 8 3) by (done || zdiv).
  rewrite (lor_field _ q 4 2) by (done || zdiv). lia.
Qed.

(** The setters keep the invariant, and the initialisation establishes it. *)
Lemma ads_setters_wf d :
  ads_wf d ->
  (forall g, ads_wf (ADS__setGain g d)) /\ (forall m, ads_wf (ADS__setMode m d)) /\
  (forall r, 0 <= r -> ads_wf (ADS__setDataRate r d)) /\
  (forall q, 0 <= q -> ads_wf (ADS__setComparatorQueConvert q d)) /\
  (forall l, ads_wf (ADS__setComparatorLatch l d)).
Proof.
  intros (Hg & Hm & Hr & Hq). split; [|split; [|split; [|split]]]; intros x.
  - split; [|done]. cbn.
    repeat case_decide; [exists 1|exists 2|exists 3|exists 4|exists 5|exists 0]; split; done || lia.
  - split; [done|]. split; [|done]. cbn. case_decide; auto.
  - intros Hx. split; [done|]. split; [done|]. split; [|done].
    exists (if decide (x > 7) then 4 else x). split; [case_decide; lia|]. cbn.
    rewrite Z.shiftl_mul_pow2 by lia. rewrite u16_small; [done|case_decide; lia].
  - intros Hx. split; [done|]. split; [done|]. split; [done|]. cbn. case_decide; lia.
  - done.
Qed.

Lemma ads_init_wf d :
  ads_wf (ADS__setDataRate 4 (ADS__setMode 1 (ADS__setGain ADS1X15_PGA_6_144V
    (set_compPol 1 (set_compQueConvert 3 d))))).
Proof.
  repeat split; cbn; [exists 0|right|exists 4|..]; done || lia.
Qed.

Lemma ads_config_fields_witness :
  let d := ADS__setDataRate 4 (ADS__setMode 1 (ADS__setGain ADS1X15_PGA_6_144V
             (set_compPol 1 (set_compQueConvert 3 ads_dev)))) in
  config_word (6 * 2 ^ 12) d =
    2 ^ 15 + 6 * 2 ^ 12 + gain d + mode d + datarate d + flag (compMode d) (2 ^ 4)
    + flag (compPol d) (2 ^ 3) + flag (compLatch d) (2 ^ 2) + compQueConvert d /\
  2 ^ 15 <= config_word (6 * 2 ^ 12) d < 2 ^ 16.
Proof.
  intros d. apply (ads_config_fields d 6); [|lia]. apply ads_init_wf.
Defined.

(** ** Conversions *)

(** A converter: it is busy for some polls after a request, then the
    conversion register holds the result, as its data sheet says. *)
Class AdsDevice (P : Type) `{Platform P} (a : Z) := {
  conv : P -> Z;
  polls : P -> nat;
  max_polls : nat;
  conv_range : forall p, 0 <= conv p < 65536;
  ads_request : forall p hi lo t,
    exists p', p_i2c (I2cReq a [1; hi; lo] 0 t) p = ((MSG_OK, []), p') /\ (polls p' <= max_polls)%nat;
  ads_status : forall p t,
    exists b0 b1 p', p_i2c (I2cReq a [1] 2 t) p = ((MSG_OK, [b0; b1]), p') /\
      0 <= b0 < 256 /\ 0 <= b1 < 256 /\ Z.testbit b0 7 = bool_decide (polls p = 0%nat) /\
      polls p' = pred (polls p) /\ conv p' = conv p;
  ads_convert : forall p t,
    exists p', p_i2c (I2cReq a [0] 2 t) p =
      ((MSG_OK, [conv p `div` 256; conv p `mod` 256]), p') /\ conv p' = conv p /\ polls p' = polls p;
  ads_quiet : forall p,
    (forall ms, conv (p_sleep ms p) = conv p /\ polls (p_sleep ms p) = polls p) /\
    (forall l m, conv (p_set_mode l m p) = conv p /\ polls (p_set_mode l m p) = polls p) /\
    (forall st, conv (snd (p_others st p)) = conv p /\ polls (snd (p_others st p)) = polls p) /\
    (conv (snd (p_time p)) = conv p /\ polls (snd (p_time p)) = polls p)
}.

(** The clock moves by less than a second between two reads of it. *)
Class Ticks (P : Type) `{Platform P} : Prop := ticks : forall p : P,
  u16 (fst (p_time (snd (p_time p))) - fst (p_time p)) < 1000.

Lemma time_in_range {P} `{Platform P} `{!Ticks P} (p : P) :
  chTimeIsInRangeX (u16 (fst (p_time (snd (p_time p))))) (u16 (fst (p_time p)))
    (u16 (u16 (fst (p_time p)) + u16 1000)) = true.
Proof.
  unfold chTimeIsInRangeX. apply Z.ltb_lt. pose proof (ticks p) as Ht. unfold u16 in *.
  set (x := fst (p_time p)) in *. set (y := fst (p_time (snd (p_time p)))) in *. clearbody x y.
  rewrite Zminus_mod_idemp_l, Zminus_mod_idemp_r. change (1000 `mod` 2 ^ 16) with 1000.
  rewrite Zplus_mod_idemp_l, Zminus_mod_idemp_l, Zminus_mod_idemp_r.
  replace (x + 1000 - x) with 1000 by lia. done.
Qed.

Section access.
Context {P : Type} `{Platform P} `{!PlatformOk P} (a : Z).
Context (I J : P -> Prop) `{!Stable I} `{!Stable J}.
Implicit Types (w : world P) (d : ADS1X15_device_t).

(** A request that the device acknowledges takes its state from [I] to [J]. *)
Lemma ads_write_wp c w d Q :
  i2cAddress d = a -> idle w -> I (plat w) ->
  (forall p hi lo, I p -> exists p', p_i2c (I2cReq a [1; hi; lo] 0 500) p = ((MSG_OK, []), p') /\ J p') ->
  (forall w', idle w' -> J (plat w') -> Q true (w', d)) ->
  wp (ADS__writeRegister ADS1X15_REG_CONFIG c) Q (w, d).
Proof.
  intros Hd Hw Hv Hx HQ. unfold ADS__writeRegister.
  apply wp_bind, (acquire_st I); [done..|]. intros w1 Ho1 H1.
  apply wp_bind, (check_st I); [done..|]. intros w2 Ho2 H2. cbn [negb].
  apply wp_bind, see_st, wp_bind. rewrite Hd.
  apply (transmit_st _ _ _ _ MSG_OK [] J); [done..|by apply Hx|done|].
  intros w3 Ho3 H3. apply wp_bind, (release_st J); [done..|].
  intros w4 Hi4 H4. by apply wp_ret, HQ.
Qed.

(** Reading a two-byte register that the device answers with bytes in [R]. *)
Lemma ads_read_wp reg (R : Z -> Z -> Prop) w d Q :
  i2cAddress d = a -> length (rx d) = 2%nat -> idle w -> I (plat w) ->
  (forall p, I p -> exists b0 b1 p',
     p_i2c (I2cReq a [u8 reg] 2 200) p = ((MSG_OK, [b0; b1]), p') /\
     0 <= b0 < 256 /\ 0 <= b1 < 256 /\ R b0 b1 /\ J p') ->
  (forall b0 b1 w', R b0 b1 -> 0 <= b0 < 256 -> 0 <= b1 < 256 -> idle w' -> J (plat w') ->
     Q (true, Some (256 * b0 + b1)) (w', set_rx [b0; b1] d)) ->
  wp (ADS__readRegister reg) Q (w, d).
Proof.
  intros Hd Hrx Hw Hv Hx HQ. unfold ADS__readRegister.
  apply wp_bind, (acquire_st I); [done..|]. intros w1 Ho1 H1.
  apply wp_bind, (check_st I); [done..|]. intros w2 Ho2 H2. cbn [negb].
  apply wp_bind, see_st, wp_bind. rewrite Hd.
  destruct (Hx _ H2) as (b0 & b1 & p' & Hp & Hb0 & Hb1 & HR & Hp').
  apply (transmit_st _ _ _ _ MSG_OK [b0; b1] J); [done..|by exists p'|done|].
  intros w3 Ho3 H3. apply wp_bind, upd_st. cbn [snd fst]. rewrite overwrite_full by done.
  apply wp_bind, (release_st J); [done..|]. intros w4 Hi4 H4.
  apply wp_bind, see_st, wp_ret. cbn. rewrite Z.shiftl_mul_pow2, lor_disjoint_mul by lia.
  rewrite u16_small by lia. replace (b0 * 2 ^ 8 + b1) with (256 * b0 + b1) by lia. by apply HQ.
Qed.

(** A handle as the driver keeps it. *)
Definition handle_ok d : Prop := i2cAddress d = a /\ length (rx d) = 2%nat.

(** Bit 15 of the configuration register read back. *)
Lemma os_bit b0 b1 :
  0 <= b0 < 256 -> 0 <= b1 < 256 ->
  Z.land (256 * b0 + b1) ADS1X15_OS_NOT_BUSY <> 0 <-> Z.testbit b0 7 = true.
Proof.
  intros H0 H1. change ADS1X15_OS_NOT_BUSY with (2 ^ 15). rewrite land_pow2 by lia.
  replace (Z.testbit (256 * b0 + b1) 15) with (Z.testbit b0 7).
  { by destruct (Z.testbit b0 7). }
  replace b0 with (Z.shiftr (256 * b0 + b1) 8) at 1 by (rewrite Z.shiftr_div_pow2 by lia; zdiv).
  by rewrite Z.shiftr_spec by lia.
Qed.

(** A poll that answers bit 15 as [ready]. *)
Lemma is_busy_wp (ready : bool) w d Q :
  handle_ok d -> idle w -> I (plat w) ->
  (forall p, I p -> exists b0 b1 p',
     p_i2c (I2cReq a [1] 2 200) p = ((MSG_OK, [b0; b1]), p') /\
     0 <= b0 < 256 /\ 0 <= b1 < 256 /\ Z.testbit b0 7 = ready /\ J p') ->
  (forall w' b0 b1 v, handle_ok (set_bufferRx v (set_rx [b0; b1] d)) -> idle w' -> J (plat w') ->
     Q (negb ready) (w', set_bufferRx v (set_rx [b0; b1] d))) ->
  wp ADS__isBusy Q (w, d).
Proof.
  intros [Hd Hrx] Hw Hv Hx HQ. unfold ADS__isBusy.
  apply wp_bind, (ads_read_wp _ (fun b0 _ => Z.testbit b0 7 = ready)); [done..|].
  intros b0 b1 w' HR H0 H1 Hi Ha. cbn [snd]. apply wp_bind, upd_st, wp_bind, see_st. cbn.
  destruct (decide (Z.land _ _ <> 0)) as [Hb|Hb]; rewrite os_bit in Hb by done;
    apply wp_ret; rewrite HR in Hb.
  - rewrite Hb in HQ. by apply HQ.
  - apply not_true_is_false in Hb. rewrite Hb in HQ. by apply HQ.
Qed.

End access.

Section conversion.
Context {P : Type} `{Platform P} `{!PlatformOk P} (a : Z) `{AD : !AdsDevice P a}.
Implicit Types (w : world P) (d : ADS1X15_device_t).

Definition at_conv (v : Z) (n : nat) (p : P) : Prop := conv p = v /\ polls p = n.

#[local] Instance polls_stable : Stable (fun p => (polls p <= max_polls)%nat).
Proof.
  split; intros; destruct (ads_quiet p) as (Hs & Hm & Ho & Ht).
  - by rewrite (proj2 (Ho st)).
  - by rewrite (proj2 (Hm l m)).
  - by rewrite (proj2 (Hs ms)).
  - by rewrite (proj2 Ht).
Qed.

#[local] Instance at_conv_stable v n : Stable (at_conv v n).
Proof.
  split.
  - intros st p [<- <-]. destruct (ads_quiet p) as (_ & _ & Hq & _). apply Hq.
  - intros l m p [<- <-]. destruct (ads_quiet p) as (_ & Hq & _ & _). apply Hq.
  - intros ms p [<- <-]. destruct (ads_quiet p) as (Hq & _ & _ & _). apply Hq.
  - intros p [<- <-]. destruct (ads_quiet p) as (_ & _ & _ & Hq). apply Hq.
Qed.

Lemma poll_wp v n w d Q :
  handle_ok a d -> idle w -> at_conv v n (plat w) ->
  (forall w' d', handle_ok a d' -> idle w' -> at_conv v (pred n) (plat w') ->
     Q (negb (bool_decide (n = 0%nat))) (w', d')) ->
  wp ADS__isBusy Q (w, d).
Proof.
  intros Hd Hw Hv HQ. apply (is_busy_wp a (at_conv v n) (at_conv v (pred n)) (bool_decide (n = 0%nat))); [done..| |].
  - intros p [<- <-]. destruct (ads_status p 200) as (b0 & b1 & p' & Hp & ? & ? & Hb & Hn & Hc).
    exists b0, b1, p'. unfold at_conv. eauto 10.
  - intros. by apply HQ.
Qed.

(** The wait ends when the converter is done. *)
Lemma busy_loop_wp fuel v n w d Q :
  (n < fuel)%nat -> handle_ok a d -> idle w -> at_conv v n (plat w) ->
  (forall w' d', handle_ok a d' -> idle w' -> (exists m, at_conv v m (plat w')) -> Q tt (w', d')) ->
  wp (loop fuel busy_wait) Q (w, d).
Proof.
  intros Hn Hd Hw Hv HQ.
  apply (wp_loop busy_wait (fun m s => handle_ok a (snd s) /\ idle (fst s) /\ at_conv v m (plat (fst s))))
    with (n := n); [|done..].
  clear -HQ AD PlatformOk0. intros m [w d] (Hd & Hw & Hv). apply wp_bind, (poll_wp v m); [done..|].
  intros w' d' Hd' Hw' Hv'. case_bool_decide; cbn [negb].
  - apply wp_ret. subst. apply HQ; eauto.
  - apply wp_bind, (sleep_st (at_conv v (pred m))); [done..|]. intros w2 Hi2 H2. apply wp_ret.
    exists (pred m). split; [lia|done].
Qed.

Lemma get_value_wp v n w d Q :
  handle_ok a d -> idle w -> at_conv v n (plat w) ->
  (forall w' d', idle w' -> at_conv v n (plat w') -> Q (true, Some v) (w', d')) ->
  wp ADS__getValue Q (w, d).
Proof.
  intros [Hd Hrx] Hw Hv HQ.
  apply (ads_read_wp a (at_conv v n) (at_conv v n) _ (fun b0 b1 => 256 * b0 + b1 = v)); [done..| |].
  - intros p [<- <-]. destruct (ads_convert p 200) as (p' & Hp & Hc & Hn). pose proof (conv_range p).
    exists (conv p `div` 256), (conv p `mod` 256), p'. unfold at_conv.
    repeat split; try done; zdiv.
  - intros b0 b1 w' HR _ _ Hi Ha. rewrite HR. by apply HQ.
Qed.

Context `{!Ticks P}.

(** A reading of a converter that finishes within the polls allowed returns
    [true] with the value of its conversion register, in the byte order of the
    device, for every channel and in every state the bus is left in. *)
Theorem ads_reads_conversion fuel readmode w d :
  handle_ok a d -> idle w -> (max_polls < fuel)%nat ->
  wp (ADS__readADCPriv fuel readmode)
     (fun r s => r = (true, Some (conv (plat (fst s)))) /\ idle (fst s)) (w, d).
Proof.
  intros Hd Hw Hf. unfold ADS__readADCPriv, ADS__requestADCPriv.
  apply wp_bind, wp_bind, upd_st, wp_bind, see_st,
    (ads_write_wp a (fun _ => True) (fun p => (polls p <= max_polls)%nat)); [by apply Hd|done..| |].
  { intros p hi lo _. apply ads_request. }
  intros w1 Hi1 Hn. cbn [negb]. assert (at_conv (conv (plat w1)) (polls (plat w1)) (plat w1)) as Hv by done.
  remember (conv (plat w1)) as v eqn:Ev. remember (polls (plat w1)) as n eqn:En. clear Ev En.
  apply wp_bind, (time_st (at_conv v n)); [done..|]. intros w2 Hi2 H2 E2.
  apply wp_bind, wp_opt with (a := u16 (u16 (fst (p_time (plat w1))) + u16 1000)); [done|].
  apply wp_bind, see_st, wp_bind, see_st.
  assert (forall w d', handle_ok a d' -> idle w -> (exists m, at_conv v m (plat w)) ->
    wp ADS__getValue (fun r s => r = (true, Some (conv (plat (fst s)))) /\ idle (fst s)) (w, d')) as Hget.
  { intros w' d' Hd' Hw' [m Hm]. apply (get_value_wp v m); [done..|]. intros w3 d3 Hi3 [H3 _].
    by rewrite <- H3. }
  case_decide; [|apply Hget; eauto].
  apply wp_bind, (time_st (at_conv v n)); [done..|]. intros w3 Hi3 H3 _.
  rewrite E2, time_in_range. cbn [negb].
  apply wp_bind, (busy_loop_wp fuel v n); [lia|done..|]. intros w4 d4 Hd4 Hi4 H4. by apply Hget.
Qed.

End conversion.

(** ** The wait has no bound *)

Section stuck.
Context {P : Type} `{Platform P} `{!PlatformOk P} `{!Ticks P} (a : Z).
Context (I : P -> Prop) `{!Stable I}.

(** The driver reads the time-out of one second only once, before it
    waits.  A converter that acknowledges the request but never reports the
    end of a conversion keeps the power thread in the driver for ever: the
    call does not return for any number of polls. *)
Theorem ads_wait_is_unbounded fuel readmode (w : world P) d :
  (forall p hi lo, I p -> exists p', p_i2c (I2cReq a [1; hi; lo] 0 500) p = ((MSG_OK, []), p') /\ I p') ->
  (forall p, I p -> exists b0 b1 p', p_i2c (I2cReq a [1] 2 200) p = ((MSG_OK, [b0; b1]), p') /\
     0 <= b0 < 256 /\ 0 <= b1 < 256 /\ Z.testbit b0 7 = false /\ I p') ->
  handle_ok a d -> mode d = ADS1X15_MODE_SINGLE -> compQueConvert d = 3 -> idle w -> I (plat w) ->
  ADS__readADCPriv fuel readmode (w, d) = Hang.
Proof.
  intros Hreq Hbusy Hd Hm Hq Hw Hi. unfold ADS__readADCPriv, ADS__requestADCPriv.
  apply hang_bind, wp_bind, upd_st, wp_bind, see_st, (ads_write_wp a I I); [apply Hd|done..|].
  intros w1 Hi1 H1. cbn [negb]. apply hang_bind, (time_st I); [done..|]. intros w2 Hi2 H2 E2.
  apply hang_bind, wp_opt with (a := u16 (u16 (fst (p_time (plat w1))) + u16 1000)); [done|].
  apply hang_bind, see_st, hang_bind, see_st. rewrite decide_True by done.
  apply hang_bind, (time_st I); [done..|]. intros w3 Hi3 H3 _. rewrite E2, time_in_range. cbn [negb].
  apply hang_bind_l, (hang_loop busy_wait (fun s => handle_ok a (snd s) /\ idle (fst s) /\ I (plat (fst s))));
    [|done].
  intros [w' d'] (Hd' & Hw' & Hi'). apply wp_bind, (is_busy_wp a I I false); [done..|].
  intros w4 b0 b1 v Hd4 Hi4 H4. cbn [negb]. apply wp_bind, (sleep_st I); [done..|].
  intros w5 Hi5 H5. by apply wp_ret.
Qed.

End stuck.

(** ** Converters for the witnesses *)

(** [ac_left] polls until the conversion is done; [stuck] never is. *)
Record ads_chip (stuck : bool) := AdsChip { ac_left : nat; ac_value : Z; ac_time : Z }.
Arguments AdsChip {stuck} _ _ _.
Arguments ac_left {stuck} _.
Arguments ac_value {stuck} _.
Arguments ac_time {stuck} _.

Definition chip_busy {stuck} (p : ads_chip stuck) : bool := stuck || negb (bool_decide (ac_left p = 0%nat)).

#[global] Instance ads_chip_platform stuck : Platform (ads_chip stuck) := {
  p_i2c r p :=
    match req_tx r with
    | [1; hi; lo] => ((MSG_OK, pad (req_rx r) []), AdsChip 3 (ac_value p) (ac_time p))
    | [1] => ((MSG_OK, pad (req_rx r) [if chip_busy p then 0x05 else 0x85; 0x8B]),
              AdsChip (pred (ac_left p)) (ac_value p) (ac_time p))
    | _ => ((MSG_OK, pad (req_rx r) [u16 (ac_value p) `div` 256; u16 (ac_value p) `mod` 256]), p)
    end;
  p_others st p := (st, p);
  p_peek st _ := st;
  p_time p := (ac_time p, AdsChip (ac_left p) (ac_value p) (ac_time p + 1));
  p_sleep ms p := AdsChip (ac_left p) (ac_value p) (ac_time p + ms);
  p_read_line _ _ := false;
  p_set_line _ _ p := p;
  p_set_mode _ _ p := p
}.

#[global] Instance ads_chip_ok stuck : PlatformOk (ads_chip stuck).
Proof.
  constructor; try done; intros r p; cbn; destruct (req_tx r) as [|[|[]|] [|? [|? [|? ?]]]]; cbn;
    rewrite ?pad_length; try done; intros b; apply pad_byte.
Qed.

#[global] Instance ads_chip_ticks stuck : Ticks (ads_chip stuck).
Proof. intros p. cbn. by replace (ac_time p + 1 - ac_time p) with 1 by lia. Qed.

#[global] Program Instance ads_chip_device : AdsDevice (ads_chip false) 0x48 := {
  conv p := u16 (ac_value p);
  polls := ac_left;
  max_polls := 3
}.
Next Obligation. intros p. apply u16_range. Qed.
Next Obligation. intros p hi lo t. cbn. eexists. split; [done|]. done. Qed.
Next Obligation.
  intros p t. exists (if chip_busy p then 0x05 else 0x85), 0x8B,
    (AdsChip (pred (ac_left p)) (ac_value p) (ac_time p)).
  unfold p_i2c, chip_busy. cbn. case_bool_decide; (split; [reflexivity|]); repeat split; done || lia.
Qed.
Next Obligation.
  intros p t. cbn. exists p. split; [|done]. pose proof (u16_range (ac_value p)).
  unfold pad. cbn. by rewrite !u8_small by zdiv.
Qed.
Next Obligation. intros p. repeat split. Qed.

Definition ads_power_dev : ADS1X15_device_t := Ads 0 0 0x100 0x80 0 1 0 3 0 0x48 [0; 0].

Definition chip_world : world (ads_chip false) := World (AdsChip 0 23456 65500) I2C_LOCKED false [].
Definition stuck_world : world (ads_chip true) := World (AdsChip 0 0 0) I2C_READY false [].

Lemma ads_reads_conversion_witness :
  wp (ADS__readADCPriv 4 0)
     (fun r s => r = (true, Some (conv (a := 0x48) (plat (fst s)))) /\ idle (fst s))
     (chip_world, ads_power_dev).
Proof.
  refine (ads_reads_conversion (P := ads_chip false) 0x48 4 0 chip_world ads_power_dev _ _ _); [done| |cbn; lia].
  split; [done|by right].
Defined.

Lemma ads_wait_is_unbounded_witness :
  ADS__readADCPriv 1000 0x6000
    (stuck_world, ads_power_dev) = Hang.
Proof.
  refine (ads_wait_is_unbounded (P := ads_chip true) 0x48 (fun _ => True) 1000 0x6000 stuck_world
            ads_power_dev _ _ _ _ _ _ _); [| |split; reflexivity|reflexivity|reflexivity| |exact Logic.I].
  - intros p hi lo _. eexists. split; [reflexivity|done].
  - intros p _. exists 0x05, 0x8B. eexists. split; [reflexivity|]. repeat split; done || lia.
  - split; [done|by left].
Defined.
