(* ===== verification/Veml7700.v ===== *)
(** * VEML7700 ambient-light sensor driver

    [src/src/drivers/veml7700.c].  Proved here: the bus discipline; that the
    automatic range reprograms the device only when the brightness changes
    its band; and that the range never changes the gain, because the function
    that should set it ignores its argument. *)

From S2P Require Import Prelude Oslib Hal Sim Softfloat.

Definition VEML7700_I2C_ADDRESS : Z := 0x10.
Definition VEML7700_ALS_GAIN_x1 : Z := 0x0.
Definition VEML7700_ALS_GAIN_x2 : Z := 0x1.
Definition VEML7700_ALS_GAIN_d8 : Z := 0x2.
Definition VEML7700_ALS_GAIN_d4 : Z := 0x3.
Definition VEML7700_ALS_INTEGRATION_25ms : Z := 0xc.
Definition VEML7700_ALS_INTEGRATION_50ms : Z := 0x8.
Definition VEML7700_ALS_INTEGRATION_100ms : Z := 0x0.
Definition VEML7700_ALS_INTEGRATION_200ms : Z := 0x1.
Definition VEML7700_ALS_INTEGRATION_400ms : Z := 0x2.
Definition VEML7700_ALS_INTEGRATION_800ms : Z := 0x3.
Definition VEML7700_ALS_PERSISTENCE_1 : Z := 0x0.
Definition VEML7700_ALS_POWER_MODE_3 : Z := 0x2.
Definition VEML7700_ALS_SM_MASK : Z := 0x1800.
Definition VEML7700_ALS_SM_SHIFT : Z := 11.
Definition VEML7700_ALS_IT_MASK : Z := 0x03c0.
Definition VEML7700_ALS_IT_SHIFT : Z := 6.
Definition VEML7700_ALS_PERS_SHIFT : Z := 4.
Definition VEML7700_ALS_INT_EN_SHIFT : Z := 1.
Definition VEML7700_ALS_SD_SHIFT : Z := 0.
Definition VEML7700_PSM_SHIFT : Z := 1.
Definition VEML7700_PSM_EN_SHIFT : Z := 0.
Definition VEML7700_COMMAND_ALS : Z := 0x04.

(** [VEML7700_HandleTypedef] with the static variables of the driver: the
    receive buffer of the register read, [raw_counts], and the range flags
    [x1], [x2] and [d8] of [VEML7700_scaleLux]. *)
Record VEML7700_HandleTypedef := Veml {
  addr : Z;
  lux : float;
  registerCache : list Z;
  dataRx : list Z;
  raw_counts : Z;
  x1 : Z;
  x2 : Z;
  d8 : Z
}.

Implicit Types d : VEML7700_HandleTypedef.

Definition set_lux l d := Veml (addr d) l (registerCache d) (dataRx d) (raw_counts d) (x1 d) (x2 d) (d8 d).
Definition set_cache c d := Veml (addr d) (lux d) c (dataRx d) (raw_counts d) (x1 d) (x2 d) (d8 d).
Definition set_dataRx b d := Veml (addr d) (lux d) (registerCache d) b (raw_counts d) (x1 d) (x2 d) (d8 d).
Definition set_raw r d := Veml (addr d) (lux d) (registerCache d) (dataRx d) r (x1 d) (x2 d) (d8 d).
Definition set_flags a b c d := Veml (addr d) (lux d) (registerCache d) (dataRx d) (raw_counts d) a b c.

(** The four command words of the default configuration. *)
Definition default_cache : list Z :=
  [Z.lor (Z.lor (Z.lor (Z.lor (Z.shiftl VEML7700_ALS_GAIN_d8 VEML7700_ALS_SM_SHIFT)
     (Z.shiftl VEML7700_ALS_INTEGRATION_25ms VEML7700_ALS_IT_SHIFT))
     (Z.shiftl VEML7700_ALS_PERSISTENCE_1 VEML7700_ALS_PERS_SHIFT))
     (Z.shiftl 0 VEML7700_ALS_INT_EN_SHIFT)) (Z.shiftl 0 VEML7700_ALS_SD_SHIFT);
   0x0000; 0xffff;
   Z.lor (Z.shiftl VEML7700_ALS_POWER_MODE_3 VEML7700_PSM_SHIFT) (Z.shiftl 0 VEML7700_PSM_EN_SHIFT)].

Definition VEML7700_init_default_params d : VEML7700_HandleTypedef :=
  let d := Veml VEML7700_I2C_ADDRESS (lux d) (registerCache d) (dataRx d) (raw_counts d) (x1 d) (x2 d) (d8 d) in
  set_cache default_cache d.

(** The argument [als_gain] is not used. *)
Definition VEML7700_init_default_params_gain (als_gain : Z) d : VEML7700_HandleTypedef :=
  set_cache default_cache d.

Definition cache d (i : nat) : Z := default 0 (registerCache d !! i).

Definition VEML7700_getGain d : Z :=
  u8 (Z.shiftr (Z.land (cache d 0) VEML7700_ALS_SM_MASK) VEML7700_ALS_SM_SHIFT).
Definition VEML7700_getIntegrationTime d : Z :=
  u8 (Z.shiftr (Z.land (cache d 0) VEML7700_ALS_IT_MASK) VEML7700_ALS_IT_SHIFT).

(** [factor1] by gain and [factor2] by integration time. *)
Definition gain_factor d : float :=
  let g := Z.land (VEML7700_getGain d) 0x3 in
  if decide (g = VEML7700_ALS_GAIN_x1) then f32_of_Z 1
  else if decide (g = VEML7700_ALS_GAIN_x2) then f32_lit 5 10
  else if decide (g = VEML7700_ALS_GAIN_d8) then f32_of_Z 8
  else if decide (g = VEML7700_ALS_GAIN_d4) then f32_of_Z 4
  else f32_of_Z 1.

Definition time_factor d : float :=
  let t := VEML7700_getIntegrationTime d in
  if decide (t = VEML7700_ALS_INTEGRATION_25ms) then f32_lit 2304 10000
  else if decide (t = VEML7700_ALS_INTEGRATION_50ms) then f32_lit 1152 10000
  else if decide (t = VEML7700_ALS_INTEGRATION_100ms) then f32_lit 576 10000
  else if decide (t = VEML7700_ALS_INTEGRATION_200ms) then f32_lit 288 10000
  else if decide (t = VEML7700_ALS_INTEGRATION_400ms) then f32_lit 144 10000
  else if decide (t = VEML7700_ALS_INTEGRATION_800ms) then f32_lit 72 10000
  else f32_lit 2304 10000.

(** [(float)rawCounts * factor1 * factor2] *)
Definition raw_lux (rawCounts : Z) d : float :=
  f32_mul (f32_mul (f32_of_Z rawCounts) (gain_factor d)) (time_factor d).

(** A literal [m * 10^-n] whose power of ten is not exact in the format: the
    nearest [float] to the rational. *)
Definition f32_sci (num : Z) (n : Z) : float :=
  let q := Z.abs num * 2 ^ 200 `div` 10 ^ n in
  let r := if decide (Z.abs num * 2 ^ 200 `mod` 10 ^ n = 0) then 2 * q else 2 * q + 1 in
  binary_normalize 24 128 (if decide (num < 0) then - r else r) (-201) false.

(** The correction polynomial, by Horner's method. *)
Definition correct_lux (l : float) : float :=
  f32_mul l (f32_add (f32_lit 10023 10000) (f32_mul l
    (f32_add (f32_sci 81488 9) (f32_mul l
      (f32_add (f32_sci (-93924) 13) (f32_mul l (f32_sci 60135 17))))))).

(** The bands of the automatic range. *)
Inductive band := Mid | High | Low.
Definition band_of (r : float) : band :=
  if flt (f32_of_Z 1880) r && flt r (f32_of_Z 3771) then Mid
  else if flt (f32_of_Z 3770) r then High
  else Low.

Section veml.
Context {P : Type} `{Platform P}.
Notation D := (M (world P * VEML7700_HandleTypedef)).

Definition VEML7700_I2C__sing_reg_write (regAdd regData : Z) : D bool :=
  hal i2cAcquireBus ;;;
  let! ok := hal checkI2CCondition in
  if negb ok then hal i2cReleaseBus ;;; ret false else
  let! a := see addr in
  let! r := hal (i2cMasterTransmitTimeout a
                   [regAdd; Z.land regData 0xFF; Z.land (Z.shiftr regData 8) 0xFF] 0 (TIME_MS2I 800)) in
  if decide (fst r = MSG_OK) then
    hal i2cReleaseBus ;;;
    ret true
  else
    hal i2cReleaseBus ;;;
    ret false.

(** [*data] is the static [raw_counts], which the only caller passes; a failed
    bus check returns [true] without storing anything. *)
Definition VEML7700_I2C__sing_reg_read (regAdd : Z) : D bool :=
  hal i2cAcquireBus ;;;
  let! ok := hal checkI2CCondition in
  if negb ok then hal i2cReleaseBus ;;; ret true else
  let! a := see addr in
  let! r := hal (i2cMasterTransmitTimeout a [regAdd] 2 (TIME_MS2I 800)) in
  upd (fun d => set_dataRx (overwrite (snd r) (dataRx d)) d) ;;;
  if decide (fst r = MSG_OK) then
    hal i2cReleaseBus ;;;
    upd (fun d => set_raw (Z.lor (Z.shiftl (default 0 (dataRx d !! 1%nat)) 8)
                                 (Z.land (default 0 (dataRx d !! 0%nat)) 0xff)) d) ;;;
    ret true
  else
    hal i2cReleaseBus ;;;
    ret false.

(** The loop over the four command registers, from [i]. *)
Fixpoint write_cache (n : nat) (i : Z) : D bool :=
  match n with
  | O => ret true
  | S n =>
      let! v := see (fun d => cache d (Z.to_nat i)) in
      let! b := VEML7700_I2C__sing_reg_write i v in
      if negb b then ret false else write_cache n (i + 1)
  end.

Definition VEML7700_init : D bool :=
  let! b := write_cache 4 0 in
  if negb b then ret false else
  hal (chThdSleepMilliseconds 10) ;;;
  ret true.

(** Reprogram for the band unless its flag says it already is. *)
Definition rerange (flag : Z) (als_gain : Z) (f1 f2 f3 : Z) : D bool :=
  if decide (flag = 1) then
    upd (VEML7700_init_default_params_gain als_gain) ;;;
    let! b := VEML7700_init in
    if negb b then ret false else
    upd (set_flags f1 f2 f3) ;;;
    ret true
  else ret true.

Definition VEML7700_scaleLux (rawCounts : Z) : D bool :=
  let! result := see (raw_lux rawCounts) in
  let! b :=
    (match band_of result with
     | Mid => let! f := see x1 in rerange f VEML7700_ALS_GAIN_x1 0 1 1
     | High => let! f := see d8 in rerange f VEML7700_ALS_GAIN_d8 1 1 0
     | Low => let! f := see x2 in rerange f VEML7700_ALS_GAIN_x2 1 0 1
     end) in
  if negb b then ret false else
  upd (set_lux result) ;;;
  upd (fun d => set_lux (correct_lux (lux d)) d) ;;;
  ret true.

Definition VEML7700_getALS : D bool := VEML7700_I2C__sing_reg_read VEML7700_COMMAND_ALS.

Definition VEML7700_getALSLux : D bool :=
  let! b := VEML7700_getALS in
  if negb b then ret false else
  let! raw := see raw_counts in
  VEML7700_scaleLux raw.

End veml.

(** The handle after [VEML7700_init_default_params]; the flags have the initial
    values of the source. *)
Definition veml_dev : VEML7700_HandleTypedef :=
  VEML7700_init_default_params (Veml 0 (f32_of_Z 0) [] [0; 0] 0 0 1 0).

(** 1000 counts at gain 1/8 and 25 ms are 1843.2 lux, 2072 after the correction. *)
Example veml_lux_1000 : f2uiz (correct_lux (raw_lux 1000 veml_dev)) = 2072.
Proof. vm_compute. reflexivity. Qed.

Section discipline.
Context {P : Type} `{Platform P} `{!PlatformOk P}.
Notation D := (M (world P * VEML7700_HandleTypedef)).

Lemma veml_write_bus r v : bus_ok (P := P) (VEML7700_I2C__sing_reg_write r v).
Proof. intros [w d] Hs. unfold VEML7700_I2C__sing_reg_write. cbn in Hs. own. Qed.

Lemma veml_read_bus r : bus_ok (P := P) (VEML7700_I2C__sing_reg_read r).
Proof. intros [w d] Hs. unfold VEML7700_I2C__sing_reg_read. cbn in Hs. own. Qed.

Hint Resolve veml_write_bus veml_read_bus : bus.

Lemma write_cache_bus n i : bus_ok (P := P) (write_cache n i).
Proof. revert i. induction n; intros i; cbn [write_cache]; bus. Qed.

Hint Resolve write_cache_bus : bus.

Lemma veml_init_bus : bus_ok (P := P) VEML7700_init.
Proof. unfold VEML7700_init. bus. Qed.

Hint Resolve veml_init_bus : bus.

Lemma veml_lux_bus : bus_ok (P := P) VEML7700_getALSLux.
Proof. unfold VEML7700_getALSLux, VEML7700_getALS, VEML7700_scaleLux, rerange. bus. Qed.

(** The calls of the light thread: initialise, or measure. *)
Fixpoint veml_session (calls : list bool) : D unit :=
  match calls with
  | [] => ret tt
  | true :: cs => VEML7700_init ;;; veml_session cs
  | false :: cs => VEML7700_getALSLux ;;; veml_session cs
  end.

(** Whatever the light sensor answers and in whatever state the other
    threads leave the bus, no sequence of initialisations and measurements
    halts the station, and the bus mutex is free after it. *)
Theorem veml_never_halts cs (w : world P) d :
  idle w -> safe (veml_session cs) (fun _ s => idle (fst s)) (w, d).
Proof.
  revert w d. induction cs as [|[] cs IH]; intros w d Hw; [done|..]; apply safe_bind.
  - eapply safe_conseq; [by apply veml_init_bus|]. intros ? [w' d'] Hw'. by apply IH.
  - eapply safe_conseq; [by apply veml_lux_bus|]. intros ? [w' d'] Hw'. by apply IH.
Qed.

(** The invariant of the handle: the cache holds the default configuration
    and each range flag is 0 or 1. *)
Definition veml_inv (d : VEML7700_HandleTypedef) : Prop :=
  registerCache d = default_cache /\ (x1 d = 0 \/ x1 d = 1) /\ (x2 d = 0 \/ x2 d = 1) /\
  (d8 d = 0 \/ d8 d = 1).

(** The flag that asks for reprogramming in a band. *)
Definition band_flag (b : band) (d : VEML7700_HandleTypedef) : Z :=
  match b with Mid => x1 d | High => d8 d | Low => x2 d end.

(** Register accesses leave cache and flags alone. *)
Lemma veml_write_keeps r v w d (Q : bool -> world P * VEML7700_HandleTypedef -> Prop) :
  idle w -> (forall b w', idle w' -> Q b (w', d)) ->
  safe (VEML7700_I2C__sing_reg_write r v) Q (w, d).
Proof. intros Hw HQ. unfold VEML7700_I2C__sing_reg_write. own; by apply HQ. Qed.

Lemma veml_read_keeps r w d (Q : bool -> world P * VEML7700_HandleTypedef -> Prop) :
  idle w ->
  (forall b w' rx raw, idle w' -> Q b (w', set_raw raw (set_dataRx rx d))) ->
  safe (VEML7700_I2C__sing_reg_read r) Q (w, d).
Proof.
  intros Hw HQ. unfold VEML7700_I2C__sing_reg_read. own; [by apply HQ|].
  match goal with |- Q _ (?w, set_dataRx ?b d) =>
    exact (HQ false w b (raw_counts d) ltac:(assumption)) end.
Qed.

Lemma write_cache_keeps n i w d (Q : bool -> world P * VEML7700_HandleTypedef -> Prop) :
  idle w -> (forall b w', idle w' -> Q b (w', d)) -> safe (write_cache n i) Q (w, d).
Proof.
  revert i w. induction n as [|n IH]; intros i w Hw HQ; [by apply HQ|]. cbn [write_cache].
  apply safe_bind, safe_see, safe_bind, veml_write_keeps; [done|]. intros [] w' Hw'; cbn [negb].
  - by apply IH.
  - by apply safe_ret, HQ.
Qed.

Lemma veml_init_keeps w d (Q : bool -> world P * VEML7700_HandleTypedef -> Prop) :
  idle w -> (forall b w', idle w' -> Q b (w', d)) -> safe VEML7700_init Q (w, d).
Proof.
  intros Hw HQ. apply safe_bind, write_cache_keeps; [done|]. intros [] w' Hw'; cbn [negb].
  - apply safe_bind. unfold safe at 1. cbn. by apply safe_ret, HQ.
  - by apply safe_ret, HQ.
Qed.

Lemma rerange_keeps f g f1 f2 f3 w d (Q : bool -> world P * VEML7700_HandleTypedef -> Prop) :
  idle w -> veml_inv d ->
  (forall (b : bool) w' d', idle w' -> veml_inv d' ->
     (b = true -> f <> 1 /\ d' = d \/ d' = set_flags f1 f2 f3 d) -> Q b (w', d')) ->
  (f1 = 0 \/ f1 = 1) -> (f2 = 0 \/ f2 = 1) -> (f3 = 0 \/ f3 = 1) ->
  safe (rerange f g f1 f2 f3) Q (w, d).
Proof.
  intros Hw Hd HQ H1 H2 H3. unfold rerange. case_decide; [|apply safe_ret, HQ; auto].
  apply safe_bind, safe_upd. replace (VEML7700_init_default_params_gain g d) with d
    by (destruct d, Hd as [Hc _]; cbn in *; by subst).
  apply safe_bind, veml_init_keeps; [done|]. intros [] w' Hw'; cbn [negb].
  - apply safe_bind, safe_upd, safe_ret, HQ; [done| |auto]. by split; [apply Hd|].
  - by apply safe_ret, HQ.
Qed.

(** A measurement keeps the invariant; when it succeeds the flag of its band
    is clear. *)
Lemma scaleLux_keeps raw w d (Q : bool -> world P * VEML7700_HandleTypedef -> Prop) :
  idle w -> veml_inv d ->
  (forall (b : bool) w' d', idle w' -> veml_inv d' ->
     (b = true -> band_flag (band_of (raw_lux raw d)) d' = 0) -> Q b (w', d')) ->
  safe (VEML7700_scaleLux raw) Q (w, d).
Proof.
  intros Hw Hd HQ. unfold VEML7700_scaleLux. apply safe_bind, safe_see, safe_bind.
  apply (safe_conseq _ (fun b s => idle (fst s) /\ veml_inv (snd s) /\
    (b = true -> band_flag (band_of (raw_lux raw d)) (snd s) = 0))).
  - destruct Hd as (Hc & H1 & H2 & H8) eqn:E. clear E.
    destruct (band_of (raw_lux raw d)); (apply safe_bind, safe_see, rerange_keeps; [done|done| |auto..]);
      intros b w' d' Hw' Hd' Hb; (split; [done|split; [done|]]); intros Ht; cbn;
      destruct (Hb Ht) as [[Hf ->]| ->]; try done; tauto.
  - intros [] [w' d'] (Hw' & Hd' & Hb); cbn [fst snd negb] in *.
    + apply safe_bind, safe_upd, safe_bind, safe_upd, safe_ret, HQ; [done..|]. cbn. by apply Hb.
    + by apply safe_ret, HQ.
Qed.

Lemma measure_keeps w d (Q : bool -> world P * VEML7700_HandleTypedef -> Prop) :
  idle w -> veml_inv d ->
  (forall (b : bool) w' d', idle w' -> veml_inv d' -> Q b (w', d')) ->
  safe VEML7700_getALSLux Q (w, d).
Proof.
  intros Hw Hd HQ. apply safe_bind, veml_read_keeps; [done|]. intros [] w' rx raw Hw'; cbn [negb].
  - apply safe_bind, safe_see, scaleLux_keeps; [done..|]. intros. by apply HQ.
  - by apply safe_ret, HQ.
Qed.

(** The automatic range never changes the gain.  After any sequence of
    initialisations and measurements, in any light, the configuration the
    driver programs is still gain 1/8 with 25 ms, although the driver calls
    the range function with gains x1 and x2. *)
Theorem veml_gain_never_changes cs (w : world P) d :
  idle w -> veml_inv d ->
  safe (veml_session cs)
    (fun _ s => registerCache (snd s) = default_cache /\
       VEML7700_getGain (snd s) = VEML7700_ALS_GAIN_d8 /\
       VEML7700_getIntegrationTime (snd s) = VEML7700_ALS_INTEGRATION_25ms) (w, d).
Proof.
  revert w d. induction cs as [|[] cs IH]; intros w d Hw Hd.
  - apply safe_ret. destruct Hd as [Hc _]. unfold VEML7700_getGain, VEML7700_getIntegrationTime, cache.
    cbn [snd]. by rewrite Hc.
  - apply safe_bind, veml_init_keeps; [done|]. intros. by apply IH.
  - apply safe_bind, measure_keeps; [done..|]. intros. by apply IH.
Qed.

(** After a successful measurement, further measurements in the same band
    of brightness do not touch the bus: the sensor is reprogrammed only when
    the band changes. *)
Theorem veml_reprograms_on_band_change raw raw' (w : world P) d :
  idle w -> veml_inv d -> band_of (raw_lux raw d) = band_of (raw_lux raw' d) ->
  safe (VEML7700_scaleLux raw)
    (fun b s => b = true ->
       VEML7700_scaleLux raw' s =
         Done (true, (fst s, set_lux (correct_lux (raw_lux raw' d)) (snd s)))) (w, d).
Proof.
  intros Hw Hd Hband. apply scaleLux_keeps; [done..|]. intros b w' d' Hw' Hd' Hb Ht.
  specialize (Hb Ht). rewrite Hband in Hb.
  assert (raw_lux raw' d' = raw_lux raw' d) as Hr.
  { unfold raw_lux, gain_factor, time_factor, VEML7700_getGain, VEML7700_getIntegrationTime, cache.
    by rewrite (proj1 Hd), (proj1 Hd'). }
  unfold VEML7700_scaleLux, bind, see, gets, rerange, upd, modify, ret. cbn [fst snd]. rewrite Hr.
  destruct (band_of (raw_lux raw' d)); cbn [band_flag] in Hb; cbn [fst snd]; rewrite Hb; by destruct d'.
Qed.

End discipline.

Lemma veml_dev_inv : veml_inv veml_dev.
Proof. repeat split; auto. Qed.

Definition veml_world : world sim :=
  World (SimState {[ (0x10, 4) := [0x10; 0x27] ]} [MSG_RESET] [true] 0 ∅) I2C_READY false [].

Lemma veml_world_idle : idle veml_world.
Proof. split; [done|by left]. Qed.

Lemma veml_never_halts_witness :
  safe (veml_session [true; false; false]) (fun _ s => idle (fst s)) (veml_world, veml_dev).
Proof. apply (veml_never_halts (P := sim)), veml_world_idle. Defined.

Lemma veml_gain_never_changes_witness :
  safe (veml_session [true; false; false])
    (fun _ s => registerCache (snd s) = default_cache /\
       VEML7700_getGain (snd s) = VEML7700_ALS_GAIN_d8 /\
       VEML7700_getIntegrationTime (snd s) = VEML7700_ALS_INTEGRATION_25ms) (veml_world, veml_dev).
Proof. apply (veml_gain_never_changes (P := sim)); [apply veml_world_idle|apply veml_dev_inv]. Defined.

Lemma veml_reprograms_on_band_change_witness :
  safe (VEML7700_scaleLux 10000)
    (fun b s => b = true ->
       VEML7700_scaleLux 20000 s =
         Done (true, (fst s, set_lux (correct_lux (raw_lux 20000 veml_dev)) (snd s)))) (veml_world, veml_dev).
Proof.
  apply (veml_reprograms_on_band_change (P := sim));
    [apply veml_world_idle|apply veml_dev_inv|vm_compute; reflexivity].
Defined.
