(* ===== verification/Bh1750.v ===== *)
(** * BH1750 light sensor driver

    [src/src/drivers/bh1750.c].  Proved here: the bus discipline of every
    sequence of calls, with the 16-bit value; an evaluated example shows where
    the conversion to lux rounds below the exact quotient. *)

From S2P Require Import Prelude Oslib Hal Sim Softfloat.

Definition BH1750_NO_GROUND_ADDR : Z := 0x5C + 0.
Definition BH1750_GROUND_ADDR : Z := 0x23 + 0.
Definition CMD_POWER_ON : Z := 0x01.
Definition CMD_RESET : Z := 0x07.
Definition CMD_H_RES_MODE : Z := 0x10.

Record BH1750_HandleTypedef := Bh1750 {
  address : Z;
  value : Z;
  bufferTx : Z;
  bufferRx : list Z
}.

Implicit Types d : BH1750_HandleTypedef.

Definition set_address a d := Bh1750 a (value d) (bufferTx d) (bufferRx d).
Definition set_value v d := Bh1750 (address d) v (bufferTx d) (bufferRx d).
Definition set_bufferTx b d := Bh1750 (address d) (value d) b (bufferRx d).
Definition set_bufferRx b d := Bh1750 (address d) (value d) (bufferTx d) b.

Definition BH1750_init_default_params (addr_grounded : bool) d : BH1750_HandleTypedef :=
  set_address (if addr_grounded then BH1750_GROUND_ADDR else BH1750_NO_GROUND_ADDR) d.

(** Three assignments to the [uint16_t] [dev->value]. *)
Definition BH1750_convert d : BH1750_HandleTypedef :=
  let d := set_value (default 0 (bufferRx d !! 0%nat)) d in
  let d := set_value (u16 (Z.lor (Z.shiftl (value d) 8) (default 0 (bufferRx d !! 1%nat)))) d in
  set_value (u16 (f2uiz (f32_div (f32_of_Z (value d)) (f32_lit 12 10)))) d.

Section bh1750.
Context {P : Type} `{Platform P}.
Notation D := (M (world P * BH1750_HandleTypedef)).

Definition BH1750_send_command (cmd : Z) : D Z :=
  hal i2cAcquireBus ;;;
  let! ok := hal checkI2CCondition in
  if negb ok then hal i2cReleaseBus ;;; ret MSG_TIMEOUT else
  upd (set_bufferTx cmd) ;;;
  let! a := see address in
  let! b := see bufferTx in
  let! r := hal (i2cMasterTransmitTimeout a [b] 0 (TIME_MS2I 500)) in
  hal i2cReleaseBus ;;;
  ret (fst r).

Definition BH1750_read_dev : D Z :=
  hal i2cAcquireBus ;;;
  let! ok := hal checkI2CCondition in
  if negb ok then hal i2cReleaseBus ;;; ret MSG_TIMEOUT else
  let! a := see address in
  let! r := hal (i2cMasterReceiveTimeout a 2 (TIME_MS2I 800)) in
  upd (fun d => set_bufferRx (overwrite (snd r) (bufferRx d)) d) ;;;
  hal i2cReleaseBus ;;;
  ret (fst r).

(** The results of the commands are not looked at: always [MSG_OK]. *)
Definition BH1750_init : D Z :=
  BH1750_send_command CMD_POWER_ON ;;;
  BH1750_send_command CMD_RESET ;;;
  BH1750_send_command CMD_H_RES_MODE ;;;
  hal (chThdSleepMilliseconds 300) ;;;
  ret MSG_OK.

Definition BH1750_get_lumen : D bool :=
  let! msg := BH1750_read_dev in
  if decide (msg = MSG_OK) then
    upd BH1750_convert ;;;
    ret true
  else ret false.

(** ** Theorems *)

Context `{!PlatformOk P}.

Lemma bh1750_send_safe c w d (Q : Z -> world P * BH1750_HandleTypedef -> Prop) :
  idle w -> address d <> 0 ->
  (forall msg w', idle w' -> Q msg (w', set_bufferTx c d)) -> safe (BH1750_send_command c) Q (w, d).
Proof. intros Hw Ha HQ. unfold BH1750_send_command. own. by apply HQ. Qed.

Lemma bh1750_read_safe w d (Q : Z -> world P * BH1750_HandleTypedef -> Prop) :
  idle w -> address d <> 0 -> length (bufferRx d) = 2%nat ->
  (forall msg rx w', idle w' -> length rx = 2%nat -> (forall b, b ∈ rx -> byte_ok b) ->
     msg = MSG_OK -> Q msg (w', set_bufferRx rx d)) ->
  (forall msg b w', idle w' -> length b = 2%nat -> msg <> MSG_OK -> Q msg (w', set_bufferRx b d)) ->
  safe BH1750_read_dev Q (w, d).
Proof.
  intros Hw Ha Hl HQ HQ'. unfold BH1750_read_dev. own.
  match goal with Hn : (length ?rx <= 2)%nat |- Q ?m _ =>
    destruct (decide (m = MSG_OK)) as [->|Hne];
      [rewrite overwrite_full by (rewrite Hl; auto); apply HQ; auto
      |apply HQ'; [done| |done]; by rewrite overwrite_length by (rewrite Hl; auto)] end.
Qed.

(** The calls of the light thread. *)
Fixpoint bh1750_session (calls : list bool) : D unit :=
  match calls with
  | [] => ret tt
  | true :: cs => BH1750_init ;;; bh1750_session cs
  | false :: cs => BH1750_get_lumen ;;; bh1750_session cs
  end.

(** The handle of a configured sensor. *)
Definition bh_ok d : Prop := address d <> 0 /\ length (bufferRx d) = 2%nat /\ 0 <= value d < 65536.

Lemma bh1750_init_safe w d :
  idle w -> bh_ok d -> safe BH1750_init (fun _ s => idle (fst s) /\ bh_ok (snd s)) (w, d).
Proof.
  intros Hw (Ha & Hl & Hv). unfold BH1750_init.
  apply safe_bind, bh1750_send_safe; [done..|]. intros ? w1 H1.
  apply safe_bind, bh1750_send_safe; [done..|]. intros ? w2 H2.
  apply safe_bind, bh1750_send_safe; [done..|]. intros ? w3 H3. done.
Qed.

Lemma bh1750_lumen_safe w d :
  idle w -> bh_ok d -> safe BH1750_get_lumen (fun _ s => idle (fst s) /\ bh_ok (snd s)) (w, d).
Proof.
  intros Hw (Ha & Hl & Hv). apply safe_bind, bh1750_read_safe; [done..| |].
  - intros msg rx w' Hw' Hrx Hb ->. rewrite decide_True by done. own. split; [done|].
    split; [done|]. split; [done|]. apply u16_range.
  - intros msg b w' Hw' Hrx Hm. rewrite decide_False by done. own. by split.
Qed.

(** From a configured handle no sequence of initialisations and
    measurements halts the station, whatever the sensor answers and whatever
    the other threads do to the bus; the bus mutex is free after it and the
    value stays a 16-bit number. *)
Theorem bh1750_never_halts cs (w : world P) d :
  idle w -> bh_ok d -> safe (bh1750_session cs) (fun _ s => idle (fst s) /\ bh_ok (snd s)) (w, d).
Proof.
  revert w d. induction cs as [|[] cs IH]; intros w d Hw Hd; [done|..]; apply safe_bind.
  - eapply safe_conseq; [by apply bh1750_init_safe|]. intros ? [w' d'] []. by apply IH.
  - eapply safe_conseq; [by apply bh1750_lumen_safe|]. intros ? [w' d'] []. by apply IH.
Qed.

End bh1750.

Definition bh_dev : BH1750_HandleTypedef := BH1750_init_default_params true (Bh1750 0 0 0 [0; 0]).

Lemma bh1750_never_halts_witness :
  safe (bh1750_session [true; false]) (fun _ s => idle (fst s) /\ bh_ok (snd s))
    (World (SimState ∅ [MSG_RESET; MSG_TIMEOUT] [true] 0 ∅) I2C_READY false [], bh_dev).
Proof.
  apply (bh1750_never_halts (P := sim)); [split; [done|by left]|]. repeat split; cbn; done || lia.
Defined.

(** The raw count 72 is exactly 60 lux; [72 / 1.2f] is below 60 in [float], so
    the driver stores 59. *)
Example bh1750_rounds_down :
  value (BH1750_convert (set_bufferRx [0; 72] bh_dev)) = 59.
Proof. vm_compute. reflexivity. Qed.
