(* ===== verification/Bus.v ===== *)
(** * The drivers together on the I2C bus

    The threads of the lightning sensor, the converter and the two light sensors
    share one I2C bus and its mutex.  Each driver's file proves that its calls
    keep the discipline [bus_ok], for other threads that keep it too
    ([others_state]).  Here the assumption is discharged: [crowd] is a platform
    on which the other threads are these drivers themselves, running any calls
    while a thread waits for the mutex. *)

From S2P Require Import Prelude Oslib Hal Sim.
From S2P Require As3935 Ads1x15 Veml7700 Bh1750.

(** The handles of the devices. *)
Record handles := Handles {
  h_as3935 : As3935.AS3935_I2C_dev_t;
  h_ads : Ads1x15.ADS1X15_device_t;
  h_veml : Veml7700.VEML7700_HandleTypedef;
  h_bh : Bh1750.BH1750_HandleTypedef
}.

(** A call of one of the drivers. *)
Inductive bus_call :=
  | BLightning (c : As3935.as3935_call)
  | BConverter (c : Ads1x15.ads_call)
  | BVemlInit | BVemlLux
  | BBh1750Init | BBh1750Lumen.

Section bus.
Context {P : Type} `{Platform P}.
Notation W := (world P).

(** A driver's view of the world and its handle. *)
Definition on {D} (see : handles -> D) (set : D -> handles -> handles) : lens (W * handles) (W * D) :=
  Lens (fun s => (fst s, see (snd s))) (fun t s => (fst t, set (snd t) (snd s))).

Definition on_as3935 := on h_as3935 (fun d h => Handles d (h_ads h) (h_veml h) (h_bh h)).
Definition on_ads := on h_ads (fun d h => Handles (h_as3935 h) d (h_veml h) (h_bh h)).
Definition on_veml := on h_veml (fun d h => Handles (h_as3935 h) (h_ads h) d (h_bh h)).
Definition on_bh := on h_bh (fun d h => Handles (h_as3935 h) (h_ads h) (h_veml h) d).

(** [fuel] bounds the wait for a conversion. *)
Definition bus_exec (fuel : nat) (c : bus_call) : M (W * handles) unit :=
  match c with
  | BLightning c => zoom on_as3935 (As3935.as3935_exec c)
  | BConverter c => zoom on_ads (Ads1x15.ads_exec fuel c)
  | BVemlInit => zoom on_veml Veml7700.VEML7700_init ;;; ret tt
  | BVemlLux => zoom on_veml Veml7700.VEML7700_getALSLux ;;; ret tt
  | BBh1750Init => zoom on_bh Bh1750.BH1750_init ;;; ret tt
  | BBh1750Lumen => zoom on_bh Bh1750.BH1750_get_lumen ;;; ret tt
  end.

Fixpoint bus_session (fuel : nat) (cs : list bus_call) : M (W * handles) unit :=
  match cs with
  | [] => ret tt
  | c :: cs => bus_exec fuel c ;;; bus_session fuel cs
  end.

Definition bus_free (s : W * handles) : Prop := idle (fst s) /\ Bh1750.bh_ok (h_bh (snd s)).

Context `{!PlatformOk P}.

(** A call that keeps the discipline keeps it in company, and does not touch
    the handle of the BH1750 unless it is its own. *)
Lemma on_bus_ok {D A} (l : handles -> D) set (m : M (W * D) A) s :
  (forall d h, h_bh (set d h) = h_bh h) -> bus_ok m -> bus_free s ->
  safe (zoom (on l set) m) (fun _ => bus_free) s.
Proof.
  intros Hset Hm [Hi Hb]. apply safe_zoom. eapply safe_conseq; [by apply Hm|].
  intros ? [w d] Hw. split; [done|]. cbn. by rewrite Hset.
Qed.

Lemma on_bh_ok {A} (m : M (W * Bh1750.BH1750_HandleTypedef) A) s :
  (forall w d, idle w -> Bh1750.bh_ok d -> safe m (fun _ s => idle (fst s) /\ Bh1750.bh_ok (snd s)) (w, d)) ->
  bus_free s -> safe (zoom on_bh m) (fun _ => bus_free) s.
Proof. intros Hm [Hi Hb]. apply safe_zoom. eapply safe_conseq; [by apply Hm|]. by intros ? [w d] [? ?]. Qed.

Lemma then_done {A} (m : M (W * handles) A) s :
  safe m (fun _ => bus_free) s -> safe (m ;;; ret tt) (fun _ => bus_free) s.
Proof. intros Hm. apply safe_bind. eapply safe_conseq; [exact Hm|]. intros ? s' Hs. by apply safe_ret. Qed.

Lemma bus_exec_ok fuel c s : bus_free s -> safe (bus_exec fuel c) (fun _ => bus_free) s.
Proof.
  intros Hs. destruct c; cbn [bus_exec]; try apply then_done.
  - apply on_bus_ok; [done|apply As3935.as3935_exec_bus|done].
  - apply on_bus_ok; [done|apply Ads1x15.ads_exec_bus|done].
  - apply on_bus_ok; [done|apply Veml7700.veml_init_bus|done].
  - apply on_bus_ok; [done|apply Veml7700.veml_lux_bus|done].
  - apply on_bh_ok; [apply Bh1750.bh1750_init_safe|done].
  - apply on_bh_ok; [apply Bh1750.bh1750_lumen_safe|done].
Qed.

Lemma bus_session_ok fuel cs : forall s, bus_free s -> safe (bus_session fuel cs) (fun _ => bus_free) s.
Proof.
  induction cs as [|c cs IH]; intros s Hs; [done|]. apply safe_bind.
  eapply safe_conseq; [by apply bus_exec_ok|]. intros ? s' Hs'. by apply IH.
Qed.

End bus.

(** ** The other threads are these drivers *)

(** A platform [P] with the handles of the other threads and the calls they make
    each time this thread waits for the mutex. *)
Record crowd (P : Type) := Crowd {
  base : P;
  theirs : handles;
  turns : list (list bus_call)
}.
Arguments Crowd {P} _ _ _.
Arguments base {P} _.
Arguments theirs {P} _.
Arguments turns {P} _.

Section crowd.
Context {P : Type} `{Platform P}.

Definition with_base {A} (x : A * P) (c : crowd P) : A * crowd P := (fst x, Crowd (snd x) (theirs c) (turns c)).
Definition set_base (p : P) (c : crowd P) : crowd P := Crowd p (theirs c) (turns c).

#[global] Instance bh_ok_dec d : Decision (Bh1750.bh_ok d).
Proof. unfold Bh1750.bh_ok. apply _. Defined.

(** What the others do with the bus in state [st]: their next calls.  A halt
    would leave a transfer unfinished; others that wait for ever, or whose
    sensor is not configured, do nothing. *)
Definition others_run (fuel : nat) (st : i2cstate_t) (c : crowd P) : i2cstate_t * crowd P :=
  match turns c with
  | [] => (st, c)
  | cs :: rest =>
      if decide (Bh1750.bh_ok (h_bh (theirs c))) then
        match bus_session fuel cs (World (base c) st false [], theirs c) with
        | Done (_, (w, h)) => (i2c_st w, Crowd (plat w) h rest)
        | Hang => (st, Crowd (base c) (theirs c) rest)
        | Halt _ => (I2C_ACTIVE_TX, Crowd (base c) (theirs c) rest)
        end
      else (st, Crowd (base c) (theirs c) rest)
  end.

Definition crowd_platform (fuel : nat) : Platform (crowd P) := {|
  p_i2c := fun r c => with_base (p_i2c r (base c)) c;
  p_others := others_run fuel;
  p_peek := fun st c => p_peek st (base c);
  p_time := fun c => with_base (p_time (base c)) c;
  p_sleep := fun ms c => set_base (p_sleep ms (base c)) c;
  p_read_line := fun l c => p_read_line l (base c);
  p_set_line := fun l b c => set_base (p_set_line l b (base c)) c;
  p_set_mode := fun l m c => set_base (p_set_mode l m (base c)) c
|}.

Context `{!PlatformOk P}.

(** The drivers' own guarantee is what each assumes of the others. *)
#[global] Instance crowd_ok (fuel : nat) : @PlatformOk (crowd P) (crowd_platform fuel).
Proof.
  constructor.
  - intros r c. exact (i2c_rx_length r (base c)).
  - intros r c. exact (i2c_rx_full r (base c)).
  - intros r c. exact (i2c_rx_bytes r (base c)).
  - intros st c Hst. cbn. unfold others_run. destruct (turns c) as [|cs rest]; [done|]. case_decide as Hb; [|done].
    assert (Hfree : bus_free (World (base c) st false [], theirs c)) by (split; [by split|done]).
    pose proof (bus_session_ok fuel cs _ Hfree) as Hs. unfold safe in Hs.
    destruct (bus_session fuel cs _) as [[_ [w h]]|why|]; [|done|done]. by destruct Hs as [[_ ?] _].
Qed.

(** C21: Threads that use the lightning sensor, the converter and the light
    sensors on one I2C bus never halt the station, whatever the devices answer
    and whenever the threads get the bus: started with the mutex free, any
    sequence of calls by one thread, during whose waits for the mutex the other
    threads make any calls of theirs, trips no assertion and leaves the mutex
    free and the bus ready or locked.  Nothing is assumed of the other threads. *)
Theorem shared_bus_never_halts (fuel : nat) (cs : list bus_call) (w : world (crowd P)) (h : handles) :
  idle w -> Bh1750.bh_ok (h_bh h) ->
  safe (bus_session (H := crowd_platform fuel) fuel cs) (fun _ s => idle (fst s)) (w, h).
Proof.
  intros Hw Hh. eapply safe_conseq; [by apply (bus_session_ok (H := crowd_platform fuel))|]. by intros ? s [? _].
Qed.

End crowd.

(** Two threads with time-outs on the bus: one reads the light, another the
    lightning sensor. *)
Definition some_handles : handles :=
  Handles (As3935.AS3935Dev 3 0 0) Ads1x15.ads_dev Veml7700.veml_dev Bh1750.bh_dev.
Definition busy_world : world (crowd sim) :=
  World (Crowd (SimState ∅ [MSG_TIMEOUT; MSG_OK; MSG_RESET] [true] 0 ∅) some_handles
    [[BLightning As3935.CPowerUp; BConverter (Ads1x15.CRead 2)]; [BBh1750Init]]) I2C_READY false [].

Lemma shared_bus_never_halts_witness :
  idle busy_world /\
  safe (bus_session (H := crowd_platform 3) 3 [BVemlInit; BVemlLux; BBh1750Lumen]) (fun _ s => idle (fst s)) (busy_world, some_handles).
Proof.
  assert (Hi : idle busy_world) by (split; [done|by left]). split; [exact Hi|].
  apply (shared_bus_never_halts 3 [BVemlInit; BVemlLux; BBh1750Lumen] busy_world some_handles Hi).
  repeat split; cbn; done || lia.
Defined.
