(* ===== verification/Ml8511.v ===== *)
(** * ML8511 ultraviolet sensor driver

    [src/src/drivers/ml8511.c] on ChibiOS's ADC driver
    ([ChibiOS/os/hal/src/hal_adc.c]).  The outcome of a conversion is a
    parameter: a 12-bit sample, or the overrun error that wakes the thread with
    [MSG_TIMEOUT].  Proved here: the driver leaves the ADC stopped, its mutex
    free and the sensor switched off on every path; and the reading of every
    possible sample. *)

From S2P Require Import Prelude Oslib Hal Sim Softfloat.

Inductive adcstate_t := ADC_UNINIT | ADC_STOP | ADC_READY | ADC_ACTIVE | ADC_COMPLETE | ADC_ERROR.

#[global] Instance adcstate_eq_dec : EqDecision adcstate_t.
Proof. solve_decision. Defined.

(** [ml8511_cfg_t], with the ADC driver's state and mutex, and the hardware. *)
Record ml8511_cfg_t := Ml8511Cfg {
  num_channels : Z;
  enableLine : Z;
  isEnabled : bool;
  adcSample : Z
}.

Record ml_world (P : Type) := MlWorld {
  ml_plat : P;
  adc_st : adcstate_t;
  adc_held : bool;
  cfg : ml8511_cfg_t
}.
Arguments MlWorld {P} _ _ _ _.
Arguments ml_plat {P} _.
Arguments adc_st {P} _.
Arguments adc_held {P} _.
Arguments cfg {P} _.

Definition ML8511_REFERENCE_VOLTAGE : float := f32_lit 95 100.

(** [(float)(3.3f / (4096.0f / (double)sample))] *)
Definition voltage (sample : Z) : float :=
  f32_of_f64 (f64_div (f64_of_f32 (f32_lit 33 10)) (f64_div (f64_of_f32 (f32_of_Z 4096)) (f64_of_Z sample))).

(** The reading of a sample: -1 outside the sensor's range. *)
Definition uv_of_sample (sample : Z) : float :=
  let v := voltage sample in
  if fle v ML8511_REFERENCE_VOLTAGE || flt (f32_lit 28 10) v then f32_of_Z (-1) else
  f32_mul (f32_sub v ML8511_REFERENCE_VOLTAGE) (f32_div (f32_of_Z 15) (f32_lit 18 10)).

Section ml8511.
Context {P : Type} `{Platform P}.
(** The sample of a conversion, or [None] for an overrun. *)
Context (adc_lld : P -> option Z * P).
Notation D := (M (ml_world P)).

Definition set_ml (p : P) (w : ml_world P) := MlWorld p (adc_st w) (adc_held w) (cfg w).
Definition set_adc (st : adcstate_t) (w : ml_world P) := MlWorld (ml_plat w) st (adc_held w) (cfg w).
Definition set_cfg (c : ml8511_cfg_t) (w : ml_world P) := MlWorld (ml_plat w) (adc_st w) (adc_held w) c.
Definition set_enabled (b : bool) (c : ml8511_cfg_t) :=
  Ml8511Cfg (num_channels c) (enableLine c) b (adcSample c).
Definition set_sample (v : Z) (c : ml8511_cfg_t) :=
  Ml8511Cfg (num_channels c) (enableLine c) (isEnabled c) v.

(** ** The ADC driver *)

Definition adcAcquireBus : D unit :=
  let! w := get in
  assert (negb (adc_held w)) "already locked" ;;;
  put (MlWorld (ml_plat w) (adc_st w) true (cfg w)).

Definition adcReleaseBus : D unit :=
  let! w := get in
  assert (adc_held w) "not owner" ;;;
  put (MlWorld (ml_plat w) (adc_st w) false (cfg w)).

Definition adcStart : D unit :=
  let! w := get in
  assert (bool_decide (adc_st w = ADC_STOP) || bool_decide (adc_st w = ADC_READY)) "invalid state" ;;;
  modify (set_adc ADC_READY).

Definition adcStop : D unit :=
  let! w := get in
  assert (bool_decide (adc_st w = ADC_STOP) || bool_decide (adc_st w = ADC_READY)) "invalid state" ;;;
  modify (set_adc ADC_STOP).

Definition adcStartConversionI (depth : Z) : D unit :=
  assert (bool_decide (depth > 0) && (bool_decide (depth = 1) || bool_decide (Z.land depth 1 = 0)))
    "adcStartConversionI" ;;;
  let! w := get in
  assert (bool_decide (adc_st w = ADC_READY) || bool_decide (adc_st w = ADC_ERROR)) "not ready" ;;;
  modify (set_adc ADC_ACTIVE).

(** The thread sleeps until the interrupt handler has stopped the conversion:
    the full-buffer code wakes it with [MSG_OK], the error code with
    [MSG_TIMEOUT]; both leave the driver ready. *)
Definition adcConvert (depth : Z) : D Z :=
  adcStartConversionI depth ;;;
  let! w := get in
  let '(r, p) := adc_lld (ml_plat w) in
  put (set_ml p w) ;;;
  modify (set_adc ADC_READY) ;;;
  match r with
  | Some v => modify (fun w => set_cfg (set_sample v (cfg w)) w) ;;; ret MSG_OK
  | None => ret MSG_TIMEOUT
  end.

(** ** The driver *)

(** [chSysHalt] unless the conversion group has one channel. *)
Definition ML8511_init (c : ml8511_cfg_t) : D unit :=
  (if decide (num_channels c <> 1) then halt "ML8511_init" else ret tt) ;;;
  modify (set_cfg (set_enabled false c)).

Definition ML8511_enable : D unit :=
  let! w := get in
  if decide (enableLine (cfg w) <> LINE_NO_PIN) then
    if negb (isEnabled (cfg w)) then
      modify (fun w => set_ml (p_set_line (enableLine (cfg w)) true (ml_plat w)) w) ;;;
      modify (fun w => set_cfg (set_enabled true (cfg w)) w) ;;;
      modify (fun w => set_ml (p_sleep 1 (ml_plat w)) w)
    else ret tt
  else ret tt.

Definition ML8511_disable : D unit :=
  let! w := get in
  if decide (enableLine (cfg w) <> LINE_NO_PIN) then
    modify (fun w => set_cfg (set_enabled false (cfg w)) w) ;;;
    modify (fun w => set_ml (p_set_line (enableLine (cfg w)) false (ml_plat w)) w)
  else ret tt.

Definition ML8511_getUV : D float :=
  ML8511_enable ;;;
  adcAcquireBus ;;;
  adcStart ;;;
  let! msg := adcConvert 1 in
  adcStop ;;;
  adcReleaseBus ;;;
  ML8511_disable ;;;
  if decide (msg = MSG_OK) then
    let! w := get in
    ret (uv_of_sample (adcSample (cfg w)))
  else ret (f32_of_Z (-1)).

End ml8511.

(** ** Theorems *)

(** What the ultraviolet thread streams: hundredths of mW/cm2, or nothing. *)
Definition uv_stream (sample : Z) : option Z :=
  let uv := uv_of_sample sample in
  if flt (f32_of_Z 0) uv then Some (f2uiz (f32_mul uv (f32_of_Z 100))) else None.

(** The exact value (sample * 3.3 / 4096 - 0.95) * 15 / 1.8 in hundredths is
    [uv_exact sample / uv_den]. *)
Definition uv_exact (sample : Z) : Z := (sample * 330 - 95 * 4096) * 50.
Definition uv_den : Z := 6 * 4096.

Definition uv_check (s : Z) : bool :=
  match uv_stream s with
  | Some v => (1180 <=? s) && (s <=? 3475) && (0 <=? v) && (v <=? 1541)
              && (Z.abs (v * uv_den - uv_exact s) <=? uv_den)
  | None => (s <? 1180) || (3475 <? s)
  end.

Lemma uv_checked : upto 4096 0 uv_check = true.
Proof. vm_compute. reflexivity. Qed.

(** C36: For every 12-bit sample the ultraviolet reading is what the sensor's
    line says: samples from 1180 to 3475 (above 0.95 V and at most 2.8 V) give
    the exact value to one hundredth, at most 15.41; every other sample, the
    zero that would divide by zero included, gives an error and nothing is
    streamed. *)
Theorem ml8511_uv_of_every_sample s :
  0 <= s < 4096 ->
  if decide (1180 <= s <= 3475)
  then exists v, uv_stream s = Some v /\ 0 <= v <= 1541 /\ Z.abs (v * uv_den - uv_exact s) <= uv_den
  else uv_stream s = None.
Proof.
  intros Hs. pose proof (upto_spec _ _ _ s uv_checked ltac:(lia)) as Hc. unfold uv_check in Hc.
  destruct (uv_stream s) as [v|]; case_decide; try done; try lia.
  exists v. split; [done|]. lia.
Qed.

Lemma ml8511_uv_of_every_sample_witness :
  exists v, uv_stream 2000 = Some v /\ 0 <= v <= 1541 /\ Z.abs (v * uv_den - uv_exact 2000) <= uv_den.
Proof. apply (ml8511_uv_of_every_sample 2000). lia. Defined.

Section measure.
Context {P : Type} `{Platform P}.
Implicit Types w : ml_world P.

Lemma enable_wp w (Q : unit -> ml_world P -> Prop) :
  (forall p b, Q tt (MlWorld p (adc_st w) (adc_held w) (set_enabled b (cfg w)))) ->
  wp ML8511_enable Q w.
Proof.
  intros HQ. apply wp_bind, wp_get. destruct w as [p st h [nc line en smp]]. cbn.
  case_decide; [destruct en; cbn|]; apply HQ.
Qed.

Lemma disable_wp w (Q : unit -> ml_world P -> Prop) :
  (forall p b, (enableLine (cfg w) <> LINE_NO_PIN -> b = false /\
       exists p', p = p_set_line (enableLine (cfg w)) false p') ->
     Q tt (MlWorld p (adc_st w) (adc_held w) (set_enabled b (cfg w)))) ->
  wp ML8511_disable Q w.
Proof.
  intros HQ. apply wp_bind, wp_get. destruct w as [p st h [nc line en smp]]. cbn.
  case_decide; [|by apply HQ]. apply (HQ _ false). eauto.
Qed.

Lemma wp_assert (b : bool) why w (Q : unit -> ml_world P -> Prop) :
  b = true -> Q tt w -> wp (assert b why) Q w.
Proof. by intros ->. Qed.

Lemma adc_switch_wp st w (Q : unit -> ml_world P -> Prop) :
  adc_st w = ADC_STOP \/ adc_st w = ADC_READY -> Q tt (set_adc st w) ->
  wp (let! w := get in
      assert (bool_decide (adc_st w = ADC_STOP) || bool_decide (adc_st w = ADC_READY)) "invalid state" ;;;
      modify (set_adc st)) Q w.
Proof.
  intros Hst HQ. apply wp_bind, wp_get, wp_bind, wp_assert; [|done].
  by destruct Hst as [-> | ->].
Qed.

Lemma convert_wp adc_lld w (Q : Z -> ml_world P -> Prop) :
  adc_st w = ADC_READY ->
  (forall p msg v, (msg = MSG_OK \/ msg = MSG_TIMEOUT) ->
     Q msg (MlWorld p ADC_READY (adc_held w) (set_sample v (cfg w)))) ->
  wp (adcConvert adc_lld 1) Q w.
Proof.
  intros Hst HQ. unfold adcConvert, adcStartConversionI.
  apply wp_bind, wp_bind, wp_assert; [done|]. apply wp_bind, wp_get, wp_bind, wp_assert.
  { by rewrite Hst. }
  unfold wp, bind, get, put, modify, ret. destruct w as [p st h [nc line en smp]]. cbn in *.
  destruct (adc_lld p) as [[v|] p']; cbn.
  - apply (HQ p' MSG_OK v). auto.
  - apply (HQ p' MSG_TIMEOUT smp). auto.
Qed.

Lemma getUV_wp adc_lld w :
  adc_st w = ADC_STOP -> adc_held w = false ->
  wp (ML8511_getUV adc_lld)
     (fun uv w' => adc_st w' = ADC_STOP /\ adc_held w' = false /\
        (enableLine (cfg w) <> LINE_NO_PIN -> isEnabled (cfg w') = false /\
           exists p, ml_plat w' = p_set_line (enableLine (cfg w)) false p) /\
        (uv = f32_of_Z (-1) \/ uv = uv_of_sample (adcSample (cfg w')))) w.
Proof.
  intros Hst Hh. unfold ML8511_getUV. apply wp_bind, enable_wp. intros p1 b1.
  apply wp_bind, wp_bind, wp_get, wp_bind, wp_assert; [cbn; by rewrite Hh|]. apply wp_bind.
  apply adc_switch_wp; [cbn; auto|]. apply wp_bind, convert_wp; [done|]. intros p2 msg v Hm.
  apply wp_bind, adc_switch_wp; [cbn; auto|].
  apply wp_bind, wp_bind, wp_get, wp_bind, wp_assert; [done|].
  apply wp_bind, disable_wp. intros p3 b3 Hoff. cbn in *.
  case_decide; [apply wp_bind, wp_get|]; apply wp_ret; cbn; repeat split; try done; try apply Hoff; auto.
Qed.

(** From a stopped ADC whose mutex is free, a measurement returns on every
    path (a sample or an overrun) without tripping an assertion of the ADC
    driver, and leaves the ADC stopped, the mutex free and the sensor switched
    off; an overrun is reported as -1. *)
Theorem ml8511_leaves_adc_stopped adc_lld w :
  adc_st w = ADC_STOP -> adc_held w = false ->
  wp (ML8511_getUV adc_lld)
     (fun uv w' => adc_st w' = ADC_STOP /\ adc_held w' = false /\
        (enableLine (cfg w) <> LINE_NO_PIN -> isEnabled (cfg w') = false /\
           exists p, ml_plat w' = p_set_line (enableLine (cfg w)) false p) /\
        (uv = f32_of_Z (-1) \/ uv = uv_of_sample (adcSample (cfg w')))) w.
Proof. apply getUV_wp. Qed.

End measure.

Definition ml_cfg : ml8511_cfg_t := Ml8511Cfg 1 (PAL_LINE GPIOC 13) false 0.

Lemma ml8511_leaves_adc_stopped_witness :
  wp (ML8511_getUV (fun p : sim => (Some 2000, p)))
     (fun uv w' => adc_st w' = ADC_STOP /\ adc_held w' = false /\
        (enableLine ml_cfg <> LINE_NO_PIN -> isEnabled (cfg w') = false /\
           exists p, ml_plat w' = p_set_line (enableLine ml_cfg) false p) /\
        (uv = f32_of_Z (-1) \/ uv = uv_of_sample (adcSample (cfg w'))))
     (MlWorld (sim_of ∅) ADC_STOP false ml_cfg).
Proof.
  exact (ml8511_leaves_adc_stopped (P := sim) (fun p : sim => (Some 2000, p))
           (MlWorld (sim_of ∅) ADC_STOP false ml_cfg) eq_refl eq_refl).
Defined.
