(* ===== verification/Eeprom.v ===== *)
(** * Data EEPROM

    [src/src/drivers/eeprom.c] and [src/src/drivers/stm32L0/eeprom_lld.c]: the
    driver of the on-chip data EEPROM with its state machine and its
    assertions.  The flash interface of the microcontroller is a [Flash]; what
    its reference manual says of it is [FlashOk].  Proved here: a write
    followed by a read gives the data back, touches no other byte and leaves
    the memory locked; and the two situations in which a write halts the
    station. *)

From S2P Require Import Prelude Oslib.

Inductive eepromState_t :=
  EEPROM_NINIT | EEPROM_READY | EEPROM_ACTIVE_WRITE | EEPROM_UNLOCKED | EEPROM_FAILED.

#[global] Instance eepromState_eq_dec : EqDecision eepromState_t.
Proof. solve_decision. Defined.

Definition DATA_EEPROM_BASE : Z := 0x08080000.
Definition DATA_EEPROM_END : Z := 0x080807FF.
Definition FLASH_PEKEY1 : Z := 0x89ABCDEF.
Definition FLASH_PEKEY2 : Z := 0x02030405.
Definition FLASH_PECR_PELOCK : Z := 2 ^ 0.
Definition FLASH_PECR_DATA : Z := 2 ^ 4.
Definition FLASH_PECR_ERASE : Z := 2 ^ 9.
Definition FLASH_PECR_EOPIE : Z := 2 ^ 16.
Definition FLASH_PECR_ERRIE : Z := 2 ^ 17.
Definition FLASH_SR_BSY : Z := 2 ^ 0.

(** The registers [SR], [PECR] and [PEKEYR], the bytes of the EEPROM, and the
    system time, which passes while the flash is polled. *)
Class Flash (F : Type) := {
  f_sr : F -> Z * F;
  f_now : F -> Z * F;
  f_pecr : F -> Z;
  f_set_pecr : Z -> F -> F;
  f_set_pekeyr : Z -> F -> F;
  f_byte : F -> Z -> Z;
  f_set_byte : Z -> Z -> F -> F
}.

(** The reference manual: an operation keeps the busy bit set for less than 900
    milliseconds (it takes a few), in which the bit is read at most [max_busy]
    times; a read of a register or of the time takes at most a tick.  While
    PELOCK is set and the flash is ready the two keys clear it; while it is clear
    and the flash is ready PECR can be written, and a byte written to an address
    of the EEPROM is stored. *)
Class FlashOk (F : Type) `{Flash F} := {
  busy_left : F -> nat;
  max_busy : nat;
  clock : F -> Z;
  ready_by : F -> Z;
  busy_bound : forall f, (busy_left f <= max_busy)%nat;
  busy_time : forall f, busy_left f <> 0%nat -> clock f <= ready_by f;
  ready_soon : forall f, ready_by f <= clock f + 900;
  sr_busy : forall f, Z.land (fst (f_sr f)) FLASH_SR_BSY = 0 <-> busy_left f = 0%nat;
  sr_next : forall f, let f' := snd (f_sr f) in
    busy_left f' = pred (busy_left f) /\ clock f <= clock f' <= clock f + 1 /\
    (busy_left f' <> 0%nat -> ready_by f' = ready_by f) /\
    f_pecr f' = f_pecr f /\ forall a, f_byte f' a = f_byte f a;
  now_clock : forall f, fst (f_now f) = clock f;
  now_next : forall f, let f' := snd (f_now f) in
    busy_left f' = busy_left f /\ clock f <= clock f' <= clock f + 1 /\
    (busy_left f' <> 0%nat -> ready_by f' = ready_by f) /\
    f_pecr f' = f_pecr f /\ forall a, f_byte f' a = f_byte f a;
  pecr_set : forall v f, Z.land (f_pecr f) FLASH_PECR_PELOCK = 0 -> busy_left f = 0%nat ->
    f_pecr (f_set_pecr v f) = v /\ busy_left (f_set_pecr v f) = 0%nat /\
    forall a, f_byte (f_set_pecr v f) a = f_byte f a;
  keys_unlock : forall f, Z.land (f_pecr f) FLASH_PECR_PELOCK <> 0 -> busy_left f = 0%nat ->
    let f' := f_set_pekeyr FLASH_PEKEY2 (f_set_pekeyr FLASH_PEKEY1 f) in
    Z.land (f_pecr f') FLASH_PECR_PELOCK = 0 /\ busy_left f' = 0%nat /\ forall a, f_byte f' a = f_byte f a;
  byte_set : forall a v f,
    DATA_EEPROM_BASE <= a <= DATA_EEPROM_END ->
    Z.land (f_pecr f) FLASH_PECR_PELOCK = 0 -> busy_left f = 0%nat -> byte_ok v ->
    f_pecr (f_set_byte a v f) = f_pecr f /\
    forall a', f_byte (f_set_byte a v f) a' = if decide (a' = a) then v else f_byte f a'
}.

(** [EEPROMDriver_t] and the flash. *)
Record eeprom_world (F : Type) := EepromWorld {
  flash : F;
  state : eepromState_t;
  mutex_held : bool
}.
Arguments EepromWorld {F} _ _ _.
Arguments flash {F} _.
Arguments state {F} _.
Arguments mutex_held {F} _.

Section eeprom.
Context {F : Type} `{Flash F}.
Notation W := (eeprom_world F).
Notation D := (M W).

Definition set_flash (f : F) (w : W) : W := EepromWorld f (state w) (mutex_held w).
Definition set_state (st : eepromState_t) (w : W) : W := EepromWorld (flash w) st (mutex_held w).
Definition on_flash (g : F -> F) : D unit := modify (fun w => set_flash (g (flash w)) w).
Definition poll {A} (g : F -> A * F) : D A := fun w =>
  let '(a, f) := g (flash w) in Done (a, set_flash f w).
Definition in_state (st : eepromState_t) (why : string) : D unit :=
  let! w := get in assert (bool_decide (state w = st)) why.

(** One round of the wait for BSY. *)
Definition wait_round (start end_ : Z) : D (option Z) :=
  let! sr := poll f_sr in
  if decide (Z.land sr FLASH_SR_BSY <> 0) then
    let! now := poll f_now in
    if negb (chTimeIsInRangeX (u16 now) start end_) then ret (Some MSG_TIMEOUT) else ret None
  else ret (Some MSG_OK).

Definition eepromWaitForReady (fuel : nat) : D Z :=
  let! now := poll f_now in
  let start := u16 now in
  let! end_ := lift_opt (chTimeAddX start (TIME_MS2I 1000)) "chTimeAddX" in
  loop fuel (wait_round start end_).

Definition unlockEeprom (fuel : nat) : D unit :=
  in_state EEPROM_ACTIVE_WRITE "unexpected state" ;;;
  let! msg := eepromWaitForReady fuel in
  if decide (msg <> MSG_OK) then modify (set_state EEPROM_FAILED) else
  let! w := get in
  if decide (Z.land (f_pecr (flash w)) FLASH_PECR_PELOCK <> 0) then
    on_flash (f_set_pekeyr FLASH_PEKEY1) ;;;
    on_flash (f_set_pekeyr FLASH_PEKEY2) ;;;
    modify (set_state EEPROM_UNLOCKED)
  else ret tt.

Definition lockEeprom (fuel : nat) (st : eepromState_t) : D unit :=
  in_state EEPROM_UNLOCKED "unexpected state" ;;;
  let! msg := eepromWaitForReady fuel in
  if decide (msg <> MSG_OK) then modify (set_state EEPROM_FAILED) else
  on_flash (fun f => f_set_pecr (Z.land (f_pecr f) (Z.lnot (Z.lor FLASH_PECR_ERRIE FLASH_PECR_EOPIE))) f) ;;;
  on_flash (fun f => f_set_pecr (Z.lor (f_pecr f) FLASH_PECR_PELOCK) f) ;;;
  modify (set_state st).

Definition eepromProgram (fuel : nat) (addr data : Z) : D unit :=
  in_state EEPROM_UNLOCKED "not locked" ;;;
  let! msg := eepromWaitForReady fuel in
  if decide (msg <> MSG_OK) then modify (set_state EEPROM_FAILED) else
  on_flash (f_set_byte addr data).

(** The loop over the bytes, from index [i]; addresses are [uint32_t]. *)
Fixpoint program_bytes (fuel : nat) (addr i : Z) (data : list Z) : D unit :=
  match data with
  | [] => ret tt
  | b :: data =>
      in_state EEPROM_UNLOCKED "eeprom failed" ;;;
      eepromProgram fuel (u32 (DATA_EEPROM_BASE + addr + i)) b ;;;
      program_bytes fuel addr (i + 1) data
  end.

Definition writeRegistersToEeprom (fuel : nat) (addr : Z) (data : list Z) : D unit :=
  in_state EEPROM_READY "not ready" ;;;
  modify (set_state EEPROM_ACTIVE_WRITE) ;;;
  unlockEeprom fuel ;;;
  on_flash (fun f => f_set_pecr (Z.land (f_pecr f) (Z.lnot (Z.lor FLASH_PECR_ERASE FLASH_PECR_DATA))) f) ;;;
  program_bytes fuel addr 0 data ;;;
  lockEeprom fuel EEPROM_READY.

(** [None]: the caller's buffer is not written. *)
Definition eepromRead (fuel : nat) (addr : Z) (size : nat) : D (option (list Z)) :=
  in_state EEPROM_READY "not ready" ;;;
  let! msg := eepromWaitForReady fuel in
  if decide (msg <> MSG_OK) then modify (set_state EEPROM_FAILED) ;;; ret None else
  let! w := get in
  ret (Some (map (fun i => f_byte (flash w) (u32 (DATA_EEPROM_BASE + addr + Z.of_nat i))) (seq 0 size))).

Definition EEPROM__init : D unit :=
  in_state EEPROM_NINIT "EEPROM__init" ;;;
  modify (set_state EEPROM_READY).

Definition EEPROM__acquireDevice : D unit :=
  let! w := get in
  assert (negb (mutex_held w)) "already locked" ;;;
  put (EepromWorld (flash w) (state w) true).

Definition EEPROM__releaseDevice : D unit :=
  let! w := get in
  assert (mutex_held w) "not owner" ;;;
  put (EepromWorld (flash w) (state w) false).

Definition EEPROM__read (fuel : nat) (addr : Z) (size : nat) : D (option (list Z)) :=
  eepromRead fuel addr size.
Definition EEPROM__write (fuel : nat) (addr : Z) (data : list Z) : D unit :=
  writeRegistersToEeprom fuel addr data.

End eeprom.

(** ** Theorems *)

Section proofs.
Context {F : Type} `{Flash F} `{FO : !FlashOk F}.
Implicit Types (w : eeprom_world F) (f : F).

(** [f'] has the memory and the control register of [f]. *)
Definition same f f' : Prop := f_pecr f' = f_pecr f /\ forall a, f_byte f' a = f_byte f a.

Lemma same_trans f1 f2 f3 : same f1 f2 -> same f2 f3 -> same f1 f3.
Proof. intros [H1 H2] [H3 H4]. split; [congruence|]. intros a. by rewrite H4. Qed.

Lemma wait_round_wp c0 w n Q :
  busy_left (flash w) = n -> c0 <= clock (flash w) -> (n <> 0%nat -> ready_by (flash w) <= c0 + 902) ->
  (forall f', same (flash w) f' -> busy_left f' = 0%nat -> n = 0%nat -> Q (Some MSG_OK) (set_flash f' w)) ->
  (forall f', same (flash w) f' -> busy_left f' = pred n -> n <> 0%nat ->
     clock (flash w) <= clock f' -> (pred n <> 0%nat -> ready_by f' = ready_by (flash w)) -> Q None (set_flash f' w)) ->
  wp (wait_round (u16 c0) (u16 (u16 c0 + u16 1000))) Q w.
Proof.
  intros Hn Hc Hr HQ0 HQ. unfold wait_round. apply wp_bind. unfold wp at 1, poll.
  destruct (sr_next (flash w)) as (Hb & Hck & Hrb & Hs). pose proof (sr_busy (flash w)) as Hsr.
  pose proof (busy_time (flash w)) as Hbt.
  destruct (f_sr (flash w)) as [sr f1]. cbn in *. destruct (decide _) as [Hz|Hz].
  - assert (Hne : n <> 0%nat) by (intros ->; apply Hz; tauto). specialize (Hbt ltac:(congruence)). specialize (Hr Hne).
    apply wp_bind. unfold wp at 1, poll. destruct (now_next f1) as (Hb' & Hck' & Hrb' & Hs').
    pose proof (now_clock f1) as Hnow. cbn [flash set_flash]. destruct (f_now f1) as [now f2]. cbn in *.
    rewrite Hnow, chTimeIsInRangeX_within by lia. cbn [negb]. apply wp_ret.
    apply HQ; [by eapply same_trans|congruence|done|lia|]. intros Hp. rewrite Hrb' by congruence. apply Hrb. congruence.
  - apply wp_ret. assert (n = 0%nat) as Hn0 by (rewrite <- Hn; apply Hsr; by apply dec_stable).
    apply HQ0; [done| |done]. rewrite Hb, Hn, Hn0. done.
Qed.

(** The flash becomes ready in time. *)
Lemma wait_wp fuel w (Q : Z -> eeprom_world F -> Prop) :
  (max_busy < fuel)%nat ->
  (forall f', same (flash w) f' -> busy_left f' = 0%nat -> Q MSG_OK (set_flash f' w)) ->
  wp (eepromWaitForReady fuel) Q w.
Proof.
  intros Hf HQ. unfold eepromWaitForReady. apply wp_bind. unfold wp at 1, poll.
  destruct (now_next (flash w)) as (Hb & Hck & Hrb & Hs). pose proof (now_clock (flash w)) as Hnow.
  pose proof (ready_soon (flash w)) as Hsoon.
  destruct (f_now (flash w)) as [now f1]. cbn in *. rewrite Hnow. clear Hnow now.
  apply wp_bind, wp_opt with (a := u16 (u16 (clock (flash w)) + u16 1000)); [done|].
  apply (wp_loop _ (fun n w' => exists f', w' = set_flash f' w /\ same (flash w) f' /\ busy_left f' = n /\
    clock (flash w) <= clock f' /\ (n <> 0%nat -> ready_by f' = ready_by (flash w))))
    with (n := busy_left f1).
  - intros n w' (f' & -> & Hsame & Hn & Hc & Hr).
    apply (wait_round_wp _ _ n); [done|done|cbn; intros Hne; rewrite Hr by done; lia|..]; cbn.
    + intros f2 Hs2 Hb2 ->. by apply HQ; [eapply same_trans|].
    + intros f2 Hs2 Hb2 Hne Hc2 Hr2. exists (pred n). split; [lia|]. exists f2.
      split; [done|]. split; [by eapply same_trans|]. split; [done|]. split; [lia|]. intros Hp. rewrite Hr2 by done. apply Hr. lia.
  - pose proof (busy_bound f1). lia.
  - exists f1. split; [done|]. split; [done|]. split; [done|]. split; [lia|done].
Qed.

Lemma in_state_wp st why w (Q : unit -> eeprom_world F -> Prop) :
  state w = st -> Q tt w -> wp (in_state st why) Q w.
Proof. intros Hs HQ. apply wp_bind, wp_get. by rewrite bool_decide_true. Qed.

(** The memory [m] with [data] written from [addr]. *)
Definition mem_write (addr : Z) (data : list Z) (m : Z -> Z) : Z -> Z := fun a =>
  if decide (addr <= a) then default (m a) (data !! Z.to_nat (a - addr)) else m a.

Lemma mem_write_ext addr data m m' a : m a = m' a -> mem_write addr data m a = mem_write addr data m' a.
Proof. unfold mem_write. intros ->. done. Qed.

Lemma mem_write_cons addr b data m a :
  mem_write (addr + 1) data (fun a' => if decide (a' = addr) then b else m a') a =
  mem_write addr (b :: data) m a.
Proof.
  unfold mem_write. cbv beta. destruct (decide (a = addr)) as [->|Hne].
  - rewrite decide_False, decide_True by lia. by rewrite Z.sub_diag.
  - destruct (decide (addr <= a)).
    + rewrite !decide_True by lia.
      replace (Z.to_nat (a - addr)) with (S (Z.to_nat (a - (addr + 1)))) by lia. done.
    + rewrite !decide_False by lia. done.
Qed.

Definition unlocked f : Prop := Z.land (f_pecr f) FLASH_PECR_PELOCK = 0.

Lemma same_unlocked f f' : same f f' -> unlocked f -> unlocked f'.
Proof. unfold unlocked. by intros [-> _]. Qed.

Lemma program_wp fuel a v w (Q : unit -> eeprom_world F -> Prop) :
  (max_busy < fuel)%nat -> state w = EEPROM_UNLOCKED -> unlocked (flash w) -> byte_ok v ->
  DATA_EEPROM_BASE <= a <= DATA_EEPROM_END ->
  (forall f', f_pecr f' = f_pecr (flash w) ->
     (forall a', f_byte f' a' = if decide (a' = a) then v else f_byte (flash w) a') ->
     Q tt (set_flash f' w)) ->
  wp (eepromProgram fuel a v) Q w.
Proof.
  intros Hf Hst Hu Hv Ha HQ. unfold eepromProgram. apply wp_bind, in_state_wp; [done|].
  apply wp_bind, wait_wp; [done|]. intros f' Hs Hb. rewrite decide_False by (by intros []).
  destruct (byte_set a v f' Ha (same_unlocked _ _ Hs Hu) Hb Hv) as [Hp Hm]. destruct Hs as [Hp' Hm'].
  apply HQ; cbn; [congruence|]. intros a'. rewrite Hm. by case_decide.
Qed.

(** A range of addresses relative to the base, inside the EEPROM. *)
Definition inside (addr : Z) (len : nat) : Prop :=
  0 <= addr /\ DATA_EEPROM_BASE + addr + Z.of_nat len <= DATA_EEPROM_END + 1.

Lemma inside_u32 addr len i :
  inside addr len -> 0 <= i < Z.of_nat len ->
  u32 (DATA_EEPROM_BASE + addr + i) = DATA_EEPROM_BASE + addr + i /\
  DATA_EEPROM_BASE <= DATA_EEPROM_BASE + addr + i <= DATA_EEPROM_END.
Proof. unfold inside, DATA_EEPROM_BASE, DATA_EEPROM_END. intros Hin Hi. split; [apply u32_small|]; lia. Qed.

Lemma program_bytes_wp fuel data addr len i w (Q : unit -> eeprom_world F -> Prop) :
  (max_busy < fuel)%nat -> state w = EEPROM_UNLOCKED -> unlocked (flash w) ->
  (forall b, b ∈ data -> byte_ok b) ->
  inside addr len -> 0 <= i -> i + Z.of_nat (length data) = Z.of_nat len ->
  (forall f', f_pecr f' = f_pecr (flash w) ->
     (forall a, f_byte f' a = mem_write (DATA_EEPROM_BASE + addr + i) data (f_byte (flash w)) a) -> Q tt (set_flash f' w)) ->
  wp (program_bytes fuel addr i data) Q w.
Proof.
  intros Hf. revert i w. induction data as [|b data IH]; intros i w Hst Hu Hb Hin Hi Hlen HQ; cbn [program_bytes].
  - apply wp_ret. replace w with (set_flash (flash w) w) by (by destruct w). apply HQ; [done|].
    intros a. unfold mem_write. case_decide; [by destruct (Z.to_nat _)|done].
  - cbn [length] in Hlen. destruct (inside_u32 addr len i Hin ltac:(lia)) as [-> Ha].
    apply wp_bind, in_state_wp; [done|]. apply wp_bind, program_wp; [done..|apply Hb; left|done|].
    intros f1 Hp1 Hm1. apply IH; [done|unfold unlocked; cbn; by rewrite Hp1|intros; apply Hb; by right|done|lia|lia|].
    intros f2 Hp2 Hm2. apply HQ; [cbn in *; congruence|]. intros a. rewrite Hm2, <- mem_write_cons.
    rewrite Z.add_assoc. apply mem_write_ext, Hm1.
Qed.

(** The memory is locked, as it is after a reset and after every write. *)
Definition locked f : Prop := Z.land (f_pecr f) FLASH_PECR_PELOCK <> 0.

Lemma lock_pecr z : Z.land (Z.lor z FLASH_PECR_PELOCK) FLASH_PECR_PELOCK <> 0.
Proof.
  unfold FLASH_PECR_PELOCK. rewrite land_pow2 by lia. by rewrite Z.lor_spec, Z.pow2_bits_true, orb_true_r by lia.
Qed.

Lemma unlock_keeps z m : Z.land z FLASH_PECR_PELOCK = 0 -> Z.land (Z.land z m) FLASH_PECR_PELOCK = 0.
Proof.
  intros Hz. rewrite <- Z.land_assoc, (Z.land_comm m), Z.land_assoc, Hz. apply Z.land_0_l.
Qed.

Lemma write_wp fuel addr data w (Q : unit -> eeprom_world F -> Prop) :
  (max_busy < fuel)%nat -> state w = EEPROM_READY -> locked (flash w) ->
  (forall b, b ∈ data -> byte_ok b) -> inside addr (length data) ->
  (forall f', locked f' ->
     (forall a, f_byte f' a = mem_write (DATA_EEPROM_BASE + addr) data (f_byte (flash w)) a) ->
     Q tt (EepromWorld f' EEPROM_READY (mutex_held w))) ->
  wp (writeRegistersToEeprom fuel addr data) Q w.
Proof.
  intros Hf Hst Hl Hb Hin HQ. unfold writeRegistersToEeprom. apply wp_bind, in_state_wp; [done|].
  apply wp_bind. unfold wp at 1, modify. apply wp_bind. unfold unlockEeprom.
  apply wp_bind, in_state_wp; [done|]. apply wp_bind, wait_wp; [done|]. intros f1 Hs1 Hb1.
  rewrite decide_False by (by intros []). apply wp_bind, wp_get.
  assert (Hl1 : locked f1) by (unfold locked; cbn in *; rewrite (proj1 Hs1); exact Hl).
  rewrite decide_True by exact Hl1.
  apply wp_bind. unfold wp at 1, on_flash, modify. apply wp_bind. unfold wp at 1, on_flash, modify.
  unfold wp at 1, modify. cbn. destruct (keys_unlock f1 Hl1 Hb1) as (Hu & Hb2 & Hk). set (f2 := f_set_pekeyr _ _) in *.
  apply wp_bind. unfold wp at 1, on_flash, modify. cbn.
  set (v := Z.land (f_pecr f2) _). destruct (pecr_set v f2 Hu Hb2) as (Hp3 & _ & Hm3). set (f3 := f_set_pecr v f2) in *.
  assert (Hu3 : unlocked f3) by (unfold unlocked; rewrite Hp3; by apply unlock_keeps).
  apply wp_bind, (program_bytes_wp _ _ _ (length data)); [done|done|done|done|done|lia|lia|].
  intros f4 Hp4 Hm4. unfold lockEeprom. apply wp_bind, in_state_wp; [done|].
  apply wp_bind, wait_wp; [done|]. intros f5 Hs5 Hb5. rewrite decide_False by (by intros []).
  unfold wp, bind, on_flash, modify. cbn [flash set_flash set_state state mutex_held] in *.
  assert (Hu5 : unlocked f5) by (unfold unlocked; rewrite (proj1 Hs5), Hp4; exact Hu3).
  destruct (pecr_set (Z.land (f_pecr f5) (Z.lnot (Z.lor FLASH_PECR_ERRIE FLASH_PECR_EOPIE))) f5 Hu5 Hb5) as (Hp6 & Hb6 & Hm6).
  set (f6 := f_set_pecr _ f5) in *.
  assert (Hu6 : unlocked f6) by (unfold unlocked; rewrite Hp6; by apply unlock_keeps).
  destruct (pecr_set (Z.lor (f_pecr f6) FLASH_PECR_PELOCK) f6 Hu6 Hb6) as (Hp7 & _ & Hm7).
  change (Q tt (EepromWorld (f_set_pecr (Z.lor (f_pecr f6) FLASH_PECR_PELOCK) f6) EEPROM_READY (mutex_held w))).
  apply HQ; [unfold locked; rewrite Hp7; apply lock_pecr|].
  intros a. rewrite Hm7, Hm6, (proj2 Hs5), Hm4, Z.add_0_r. apply mem_write_ext. by rewrite Hm3, Hk, (proj2 Hs1).
Qed.

Lemma read_wp fuel addr size w (Q : option (list Z) -> eeprom_world F -> Prop) :
  (max_busy < fuel)%nat -> state w = EEPROM_READY -> inside addr size ->
  (forall f', same (flash w) f' ->
     Q (Some (map (fun i => f_byte (flash w) (DATA_EEPROM_BASE + addr + Z.of_nat i)) (seq 0 size)))
       (set_flash f' w)) ->
  wp (eepromRead fuel addr size) Q w.
Proof.
  intros Hf Hst Hin HQ. unfold eepromRead. apply wp_bind, in_state_wp; [done|].
  apply wp_bind, wait_wp; [done|]. intros f1 Hs1 _. rewrite decide_False by (by intros []).
  apply wp_bind, wp_get, wp_ret. cbn.
  rewrite (map_ext_in _ (fun i => f_byte (flash w) (DATA_EEPROM_BASE + addr + Z.of_nat i))); [by apply HQ|].
  intros i Hi%in_seq. rewrite (proj1 (inside_u32 addr size (Z.of_nat i) Hin ltac:(lia))). apply Hs1.
Qed.

(** Reading back what was written. *)
Lemma read_mem_write addr data m :
  map (fun i => mem_write addr data m (addr + Z.of_nat i)) (seq 0 (length data)) = data.
Proof.
  apply list_eq. intros i. rewrite list_lookup_fmap. destruct (decide (i < length data)%nat) as [Hi|Hi].
  - rewrite lookup_seq_lt by done. cbn. unfold mem_write. rewrite decide_True by lia.
    replace (Z.to_nat (addr + Z.of_nat i - addr)) with i by lia.
    destruct (lookup_lt_is_Some_2 data i Hi) as [x Hx]. by rewrite Hx.
  - rewrite lookup_ge_None_2 by (rewrite length_seq; lia). by rewrite lookup_ge_None_2 by lia.
Qed.

(** C34: On a flash that follows its reference manual, a write to a range inside
    the EEPROM followed by a read of the same range returns exactly the written
    bytes; both return
    within the polls the flash needs, every byte outside the range keeps its
    value, and the memory is locked and the driver ready again. *)
Theorem eeprom_write_read fuel addr data w :
  (max_busy < fuel)%nat -> state w = EEPROM_READY -> locked (flash w) ->
  (forall b, b ∈ data -> byte_ok b) -> inside addr (length data) ->
  wp (EEPROM__write fuel addr data ;;; EEPROM__read fuel addr (length data))
     (fun r w' => r = Some data /\ state w' = EEPROM_READY /\ locked (flash w') /\
        forall a, a < DATA_EEPROM_BASE + addr \/ DATA_EEPROM_BASE + addr + Z.of_nat (length data) <= a ->
          f_byte (flash w') a = f_byte (flash w) a) w.
Proof.
  intros Hf Hst Hl Hb Hin. apply wp_bind, write_wp; [done..|]. intros f1 Hl1 Hm1.
  apply read_wp; [done..|]. intros f2 [Hp2 Hm2]. cbn in *. split.
  { f_equal. rewrite (map_ext _ _ (fun i => Hm1 _)). apply read_mem_write. }
  split; [done|]. split; [unfold locked; by rewrite Hp2|]. intros a Ha. rewrite Hm2, Hm1.
  unfold mem_write. case_decide; [|done]. by rewrite lookup_ge_None_2 by lia.
Qed.

(** If the memory is already unlocked when a write starts, the driver
    misses the state change that unlocking would have made and halts the
    station before it writes the first byte. *)
Theorem eeprom_write_unlocked_halts fuel addr b data w :
  (max_busy < fuel)%nat -> state w = EEPROM_READY -> unlocked (flash w) ->
  EEPROM__write fuel addr (b :: data) w = Halt "eeprom failed".
Proof.
  intros Hf Hst Hu. unfold EEPROM__write, writeRegistersToEeprom.
  apply halt_bind, in_state_wp; [done|]. apply halt_bind. unfold wp at 1, modify. apply halt_bind.
  unfold unlockEeprom. apply wp_bind, in_state_wp; [done|]. apply wp_bind, wait_wp; [done|].
  intros f1 [Hp1 _] _. rewrite decide_False by (by intros []). apply wp_bind, wp_get.
  rewrite decide_False by (cbn in *; rewrite Hp1; intros Hn; by apply Hn). apply wp_ret.
  apply halt_bind. unfold wp at 1, on_flash, modify. by apply halt_bind_l.
Qed.

End proofs.

(** ** A flash for the witnesses *)

(** A chip that accepts what the manual allows: keys and PECR in their order, bytes
    of the EEPROM while it is unlocked and ready. *)
Record flash_chip := FlashChip {
  fc_mem : gmap Z Z;
  fc_pecr : Z;
  fc_key : bool;
  fc_left : nat;
  fc_clock : Z
}.

(** A byte write keeps the flash busy for three polls. *)
Definition cap (n : nat) : nat := Nat.min 3 n.
#[local] Arguments cap : simpl never.

#[global] Instance flash_chip_flash : Flash flash_chip := {
  f_sr f := (if decide (fc_left f = 0%nat) then 0 else 1,
             FlashChip (fc_mem f) (fc_pecr f) (fc_key f) (pred (cap (fc_left f))) (fc_clock f + 1));
  f_now f := (fc_clock f, FlashChip (fc_mem f) (fc_pecr f) (fc_key f) (fc_left f) (fc_clock f));
  f_pecr := fc_pecr;
  f_set_pecr v f :=
    if decide (Z.land (fc_pecr f) FLASH_PECR_PELOCK = 0 /\ fc_left f = 0%nat)
    then FlashChip (fc_mem f) v (fc_key f) (fc_left f) (fc_clock f) else f;
  f_set_pekeyr k f :=
    if decide (k = FLASH_PEKEY1) then FlashChip (fc_mem f) (fc_pecr f) true (fc_left f) (fc_clock f)
    else if decide (k = FLASH_PEKEY2 /\ fc_key f = true)
    then FlashChip (fc_mem f) (Z.land (fc_pecr f) (Z.lnot FLASH_PECR_PELOCK)) false (fc_left f) (fc_clock f)
    else f;
  f_byte f a := default 0 (fc_mem f !! a);
  f_set_byte a v f :=
    if decide (Z.land (fc_pecr f) FLASH_PECR_PELOCK = 0 /\ fc_left f = 0%nat /\ DATA_EEPROM_BASE <= a <= DATA_EEPROM_END)
    then FlashChip (<[a := v]> (fc_mem f)) (fc_pecr f) (fc_key f) 3 (fc_clock f) else f
}.

Lemma cap_zero n : cap n = 0%nat <-> n = 0%nat.
Proof. unfold cap. lia. Qed.

#[global] Program Instance flash_chip_ok : FlashOk flash_chip := {
  busy_left f := cap (fc_left f);
  max_busy := 3;
  clock := fc_clock;
  ready_by f := fc_clock f + Z.of_nat (cap (fc_left f))
}.
Next Obligation. intros f. apply Nat.le_min_l. Qed.
Next Obligation. intros f _. generalize (cap (fc_left f)). intros n. lia. Qed.
Next Obligation. intros f. pose proof (Nat.le_min_l 3 (fc_left f)) as Hc. unfold cap. lia. Qed.
Next Obligation.
  intros f. unfold f_sr. cbn. rewrite cap_zero. destruct (decide (fc_left f = 0%nat)) as [->|Hn]; cbn; [done|]. done.
Qed.
Next Obligation. intros f. cbn. split; [unfold cap; lia|]. split; [lia|]. split; [unfold cap; lia|]. by split. Qed.
Next Obligation. done. Qed.
Next Obligation. intros f. cbn. split; [done|]. split; [lia|]. by split. Qed.
Next Obligation.
  intros v f Hp Hb. apply (proj1 (cap_zero _)) in Hb. unfold f_set_pecr. cbn -[Z.land] in *. rewrite decide_True by (by split). by rewrite Hb.
Qed.
Next Obligation.
  intros f Hl Hb. cbn in Hl, Hb. apply (proj1 (cap_zero _)) in Hb.
  change (Z.land (Z.land (fc_pecr f) (Z.lnot FLASH_PECR_PELOCK)) FLASH_PECR_PELOCK = 0 /\ cap (fc_left f) = 0%nat /\
    forall a, default 0 (fc_mem f !! a) = default 0 (fc_mem f !! a)).
  split; [|by rewrite cap_zero]. rewrite <- Z.land_assoc.
  rewrite (Z.land_comm (Z.lnot _)), Z.land_lnot_diag. apply Z.land_0_r.
Qed.
Next Obligation.
  intros a v f Ha Hp Hb _. apply (proj1 (cap_zero _)) in Hb. cbn -[Z.land] in *. rewrite decide_True by (by split). cbn. split; [done|]. intros a'.
  case_decide; [subst; by rewrite lookup_insert_eq|by rewrite lookup_insert_ne by congruence].
Qed.

Definition blank_eeprom : eeprom_world flash_chip :=
  EepromWorld (FlashChip ∅ 7 false 0 65000) EEPROM_READY false.

Lemma eeprom_write_read_witness :
  wp (EEPROM__write 10 4 [0x11; 0x22; 0x33] ;;; EEPROM__read 10 4 3)
     (fun r w' => r = Some [0x11; 0x22; 0x33] /\ state w' = EEPROM_READY /\ locked (flash w') /\
        forall a, a < DATA_EEPROM_BASE + 4 \/ DATA_EEPROM_BASE + 4 + 3 <= a ->
          f_byte (flash w') a = f_byte (flash blank_eeprom) a) blank_eeprom.
Proof.
  refine (eeprom_write_read (F := flash_chip) 10 4 [0x11; 0x22; 0x33] blank_eeprom _ _ _ _ _);
    [cbn; lia|done|done| |split; vm_compute; congruence].
  intros b Hb. repeat (apply elem_of_cons in Hb as [->|Hb]; [split; lia|]). by apply elem_of_nil in Hb.
Defined.

Lemma eeprom_write_unlocked_halts_witness :
  EEPROM__write 10 0 [3; 0] (EepromWorld (FlashChip ∅ 6 false 0 0) EEPROM_READY false) = Halt "eeprom failed".
Proof.
  refine (eeprom_write_unlocked_halts (F := flash_chip) 10 0 3 [0]
            (EepromWorld (FlashChip ∅ 6 false 0 0) EEPROM_READY false) _ _ _); [cbn; lia|done|done].
Defined.
