(* ===== verification/Config.v ===== *)
(** * Configuration

    The configuration of [src/src/main.c]: the layout of [appConfiguration_t]
    in the EEPROM, its loading at boot with the defaults of a blank or older
    memory, the intervals the threads are started with, and the shell commands
    that change and save it ([cmd_sch] and [cmd_save] of
    [src/src/shell/shellCmd.c]). *)

From S2P Require Import Prelude Oslib Eeprom.

Definition SCHEDULE_LIST_SIZE : nat := 10.
Definition CONFIG_BASE_ADDR : Z := 0.
Definition VERSION : Z := 3.
Definition DEFAULT_TASK_INTERVAL : Z := 300.

(** The byte [pad] is the padding that aligns [interval]. *)
Record appConfiguration_t := AppConfiguration {
  version : Z;
  pad : Z;
  interval : list Z
}.

(** The static object before the load. *)
Definition zero_config : appConfiguration_t := AppConfiguration 0 0 (replicate SCHEDULE_LIST_SIZE 0).

(** The object in memory: little endian, 22 bytes. *)
Fixpoint le16s (l : list Z) : list Z :=
  match l with
  | [] => []
  | v :: l => u8 v :: u8 (Z.shiftr v 8) :: le16s l
  end.
Definition config_bytes (c : appConfiguration_t) : list Z := version c :: pad c :: le16s (interval c).
Definition sizeof_config : nat := 2 + 2 * SCHEDULE_LIST_SIZE.

Fixpoint of_le16s (l : list Z) : list Z :=
  match l with
  | lo :: hi :: l => (256 * hi + lo) :: of_le16s l
  | _ => []
  end.
Definition config_of_bytes (l : list Z) : appConfiguration_t :=
  match l with
  | v :: p :: l => AppConfiguration v p (of_le16s l)
  | _ => zero_config
  end.

(** [appConfiguration.interval[id] > 0 ? appConfiguration.interval[id] : dflt] *)
Definition task_interval (c : appConfiguration_t) (id : nat) (dflt : Z) : Z :=
  let i := default 0 (interval c !! id) in if decide (i > 0) then i else dflt.

(** The [interval] fields of the thread configurations of [main].  The rain
    and wind threads are given thousands of seconds in a [uint16_t]. *)
Definition bmp280_interval c : Z := task_interval c 1 DEFAULT_TASK_INTERVAL.
Definition veml7700_interval c : Z := task_interval c 2 DEFAULT_TASK_INTERVAL.
Definition ml8511_interval c : Z := task_interval c 3 DEFAULT_TASK_INTERVAL.
Definition power_interval c : Z := task_interval c 4 DEFAULT_TASK_INTERVAL.
Definition RAIN_FC37_DEFAULT_INTERVAL : Z := 10.
Definition rain_interval c : Z :=
  let i := default 0 (interval c !! 6%nat) in
  u16 (if decide (i > 0) then i * 1000 else RAIN_FC37_DEFAULT_INTERVAL * 1000).
Definition wind_interval c : Z :=
  let i := default 0 (interval c !! 5%nat) in
  u16 (if decide (i > 0) then i * 1000 else DEFAULT_TASK_INTERVAL * 1000).

(** [chMsgWaitTimeout(cfg->interval * 1000)], in ticks of a millisecond. *)
Definition wait_ticks (interval : Z) : Z := interval * 1000.

(** [cmd_sch id interval]: both numbers are cast to [uint8_t].  Returns the
    message sent to the thread, if any; [registered] says which threads have a
    schedule in the list. *)
Definition cmd_sch (a0 a1 : Z) (registered : nat -> bool) (c : appConfiguration_t)
  : option (nat * Z) * appConfiguration_t :=
  let id := u8 a0 in
  let intervalI := u8 a1 in
  if decide (id > 0 /\ id < Z.of_nat SCHEDULE_LIST_SIZE /\ registered (Z.to_nat id) = true /\ intervalI > 0)
  then (Some (Z.to_nat id, intervalI),
        AppConfiguration (version c) (pad c) (<[Z.to_nat id := intervalI]> (interval c)))
  else (None, c).

Section boot.
Context {F : Type} `{Flash F}.
Notation D := (M (eeprom_world F)).

(** The loop that sets every interval. *)
Definition set_defaults (c : appConfiguration_t) : appConfiguration_t :=
  AppConfiguration VERSION (pad c) (map (fun _ => DEFAULT_TASK_INTERVAL) (interval c)).

(** [main] from [EEPROM__init] to the end of the defaults. *)
Definition load_config (fuel : nat) : D appConfiguration_t :=
  EEPROM__init ;;;
  let! r := EEPROM__read fuel CONFIG_BASE_ADDR sizeof_config in
  let c := match r with Some l => config_of_bytes l | None => zero_config end in
  if decide (version c <> VERSION) then ret (set_defaults c) else ret c.

Definition cmd_save (fuel : nat) (c : appConfiguration_t) : D unit :=
  EEPROM__write fuel CONFIG_BASE_ADDR (config_bytes c).

End boot.

(** ** Theorems *)

(** A configuration as the C object can hold it. *)
Definition config_ok (c : appConfiguration_t) : Prop :=
  byte_ok (version c) /\ byte_ok (pad c) /\ length (interval c) = SCHEDULE_LIST_SIZE /\
  Forall (fun i => 0 <= i < 65536) (interval c).

Lemma le16s_length l : length (le16s l) = (2 * length l)%nat.
Proof. induction l as [|v l IH]; cbn; [done|]. rewrite IH. lia. Qed.

Lemma of_le16s_le16s l : Forall (fun i => 0 <= i < 65536) l -> of_le16s (le16s l) = l.
Proof.
  induction 1 as [|v l Hv _ IH]; [done|]. cbn. rewrite IH. f_equal.
  unfold u8. rewrite Z.shiftr_div_pow2 by lia. change (2 ^ 8) with 256. zdiv.
Qed.

Lemma le16s_bytes l b : b ∈ le16s l -> byte_ok b.
Proof.
  induction l as [|v l IH]; cbn; [by intros ?%elem_of_nil|].
  intros [->|[->|Hb]%elem_of_cons]%elem_of_cons; auto using byte_u8.
Qed.

Lemma of_le16s_spec l n :
  length l = (2 * n)%nat -> (forall b, b ∈ l -> byte_ok b) ->
  length (of_le16s l) = n /\ Forall (fun i => 0 <= i < 65536) (of_le16s l).
Proof.
  revert l. induction n as [|n IH]; intros l Hl Hb.
  - destruct l; [by split; [|constructor]|done].
  - destruct l as [|lo [|hi l]]; cbn in Hl; [lia|lia|]. cbn.
    destruct (IH l) as [IHl IHf]; [lia|intros; apply Hb; by do 2 right|].
    split; [by rewrite IHl|]. constructor; [|done].
    assert (byte_ok lo) as [] by (apply Hb; left). assert (byte_ok hi) as [] by (apply Hb; right; left). lia.
Qed.

Lemma config_roundtrip_bytes c : config_ok c -> config_of_bytes (config_bytes c) = c.
Proof. intros (_ & _ & _ & Hi). destruct c. cbn in *. by rewrite of_le16s_le16s. Qed.

Lemma config_bytes_ok c b : config_ok c -> b ∈ config_bytes c -> byte_ok b.
Proof.
  intros (Hv & Hp & _ & _). unfold config_bytes.
  intros [->|[->|Hb]%elem_of_cons]%elem_of_cons; [done|done|by eapply le16s_bytes].
Qed.

Lemma config_bytes_length c : config_ok c -> length (config_bytes c) = sizeof_config.
Proof. intros (_ & _ & Hl & _). cbn. by rewrite le16s_length, Hl. Qed.

Lemma config_inside : inside CONFIG_BASE_ADDR sizeof_config.
Proof. split; vm_compute; congruence. Qed.

Section proofs.
Context {F : Type} `{Flash F} `{FO : !FlashOk F}.
Implicit Types w : eeprom_world F.

(** A power cycle keeps the memory, locks it and forgets the driver. *)
Definition power_cycle : M (eeprom_world F) unit :=
  modify (fun w => EepromWorld (flash w) EEPROM_NINIT false).

(** C35: A configuration of the current version that is saved by the shell
    command is loaded unchanged after a power cycle. *)
Theorem config_survives_power_cycle fuel c w :
  (max_busy < fuel)%nat -> state w = EEPROM_READY -> locked (flash w) ->
  config_ok c -> version c = VERSION ->
  wp (cmd_save fuel c ;;; power_cycle ;;; load_config fuel)
     (fun c' w' => c' = c /\ state w' = EEPROM_READY /\ locked (flash w')) w.
Proof.
  intros Hf Hst Hl Hc Hv.
  apply wp_bind, write_wp; [done..|by intros; eapply config_bytes_ok|rewrite config_bytes_length by done; apply config_inside|].
  intros f1 Hl1 Hm1. apply wp_bind. unfold wp at 1, power_cycle, modify.
  apply wp_bind, wp_bind, in_state_wp; [done|]. unfold wp at 1, modify.
  apply wp_bind, read_wp; [done..|apply config_inside|]. intros f2 [Hp2 Hm2]. cbn [flash set_state].
  rewrite (map_ext _ _ (fun i => Hm1 _)), <- (config_bytes_length c Hc), read_mem_write.
  rewrite config_roundtrip_bytes by done. rewrite decide_False by (intros Hn; by apply Hn).
  apply wp_ret. split; [done|]. split; [done|]. unfold locked. cbn in *. by rewrite Hp2.
Qed.

(** The bytes of the EEPROM are bytes. *)
Class ByteMemory : Prop := byte_memory : forall (f : F) a, byte_ok (f_byte f a).
Context `{!ByteMemory}.

Lemma read_config_ok f :
  config_ok (config_of_bytes (map (fun i => f_byte f (DATA_EEPROM_BASE + CONFIG_BASE_ADDR + Z.of_nat i))
                                  (seq 0 sizeof_config))).
Proof.
  set (l := map _ _). assert (length l = sizeof_config) as Hl by (unfold l; by rewrite length_map, length_seq).
  assert (forall b, b ∈ l -> byte_ok b) as Hb.
  { intros b (i & -> & _)%list_elem_of_fmap. apply byte_memory. }
  destruct l as [|v [|p l]]; [done..|]. destruct (of_le16s_spec l SCHEDULE_LIST_SIZE) as [H1 H2].
  { cbn in *. lia. } { intros; apply Hb; by do 2 right. }
  split; [apply Hb; left|]. split; [apply Hb; right; left|]. done.
Qed.

(** Booting from any memory contents gives a configuration of the current
    version with an interval for each task; a blank or older memory gives 300
    seconds for all of them.  Whatever was stored, every task of the station
    waits at least one second and its time-out is neither [TIME_IMMEDIATE] nor
    [TIME_INFINITE]. *)
Theorem boot_config_is_sane fuel w :
  (max_busy < fuel)%nat -> state w = EEPROM_NINIT ->
  wp (load_config fuel)
     (fun c w' => state w' = EEPROM_READY /\ config_ok c /\ version c = VERSION /\
        (f_byte (flash w) DATA_EEPROM_BASE <> VERSION ->
           interval c = replicate SCHEDULE_LIST_SIZE DEFAULT_TASK_INTERVAL) /\
        forall id, 1000 <= wait_ticks (task_interval c id DEFAULT_TASK_INTERVAL) < TIME_INFINITE) w.
Proof.
  intros Hf Hst. apply wp_bind, wp_bind, in_state_wp; [done|]. unfold wp at 1, modify.
  apply wp_bind, read_wp; [done..|apply config_inside|]. intros f1 Hs1. cbn [flash set_state].
  pose proof (read_config_ok (flash w)) as Hc. remember (config_of_bytes _) as c eqn:Ec.
  assert (version c = f_byte (flash w) DATA_EEPROM_BASE) as Hv.
  { rewrite Ec. cbn. by rewrite Z.add_0_r. }
  case_decide as Hver; apply wp_ret; (split; [done|]).
  - assert (interval (set_defaults c) = replicate SCHEDULE_LIST_SIZE DEFAULT_TASK_INTERVAL) as Hi.
    { destruct Hc as (_ & _ & Hl & _). cbn [set_defaults interval]. rewrite <- Hl. clear.
      generalize (interval c) as l. intros l. induction l as [|x l IH]; cbn; [done|by rewrite IH]. }
    split; [|split; [done|split; [done|]]].
    + destruct Hc as (_ & Hp & Hl & _). unfold config_ok. rewrite Hi.
      split; [done|]. split; [done|]. split; [done|]. by apply Forall_replicate.
    + intros id. unfold wait_ticks, task_interval. rewrite Hi. destruct (decide (id < SCHEDULE_LIST_SIZE)%nat).
      * by rewrite lookup_replicate_2.
      * by rewrite lookup_ge_None_2 by (rewrite length_replicate; lia).
  - split; [done|]. split; [done|]. split; [by rewrite <- Hv|].
    intros id. unfold wait_ticks, task_interval, TIME_INFINITE, DEFAULT_TASK_INTERVAL.
    destruct (interval c !! id) as [i|] eqn:Ei; cbn; [|case_decide; lia].
    destruct Hc as (_ & _ & _ & Hall). rewrite Forall_lookup in Hall. specialize (Hall _ _ Ei).
    case_decide; lia.
Qed.

End proofs.

(** The shell's schedule command stores and sends the interval modulo
    256, although configuration and threads use 16 bits: 300 seconds, the
    default, becomes 44.  A multiple of 256 is silently ignored. *)
Theorem cmd_sch_truncates id iv registered c :
  1 <= id < 10 -> 0 <= iv < 65536 -> registered (Z.to_nat id) = true -> length (interval c) = SCHEDULE_LIST_SIZE ->
  cmd_sch id iv registered c =
    if decide (iv `mod` 256 = 0) then (None, c)
    else (Some (Z.to_nat id, iv `mod` 256),
          AppConfiguration (version c) (pad c) (<[Z.to_nat id := iv `mod` 256]> (interval c))).
Proof.
  intros Hid Hiv Hr Hl. unfold cmd_sch. rewrite (u8_small id) by lia. change (u8 iv) with (iv `mod` 256).
  pose proof (Z.mod_pos_bound iv 256 ltac:(lia)).
  destruct (decide (iv `mod` 256 = 0)) as [Hz|Hz].
  - rewrite decide_False by lia. done.
  - rewrite decide_True; [done|]. change (Z.of_nat SCHEDULE_LIST_SIZE) with 10.
    split; [lia|]. split; [lia|]. split; [done|lia].
Qed.

(** ** Witnesses *)

Definition station_config : appConfiguration_t :=
  AppConfiguration VERSION 0 [0; 60; 120; 300; 65535; 0; 0; 0; 0; 0].

Lemma station_config_ok : config_ok station_config.
Proof. repeat split; try done. repeat (apply Forall_cons_2; [lia|]). apply Forall_nil_2. Qed.

Lemma config_survives_power_cycle_witness :
  wp (cmd_save 10 station_config ;;; power_cycle ;;; load_config 10)
     (fun c' w' => c' = station_config /\ state w' = EEPROM_READY /\ locked (flash w')) blank_eeprom.
Proof.
  refine (config_survives_power_cycle (F := flash_chip) 10 station_config blank_eeprom _ _ _ _ _);
    [cbn; lia|done|done|apply station_config_ok|done].
Defined.

(** A flash whose bytes are bytes: the contents are read modulo 256. *)
Record byte_flash := ByteFlash { bf_mem : gmap Z Z; bf_pecr : Z; bf_clock : Z }.

#[global] Instance byte_flash_flash : Flash byte_flash := {
  f_sr f := (0, ByteFlash (bf_mem f) (bf_pecr f) (bf_clock f + 1));
  f_now f := (bf_clock f, f);
  f_pecr := bf_pecr;
  f_set_pecr v f := ByteFlash (bf_mem f) v (bf_clock f);
  f_set_pekeyr k f :=
    if decide (k = FLASH_PEKEY2) then ByteFlash (bf_mem f) 0 (bf_clock f) else f;
  f_byte f a := u8 (default 0 (bf_mem f !! a));
  f_set_byte a v f := ByteFlash (<[a := v]> (bf_mem f)) (bf_pecr f) (bf_clock f)
}.

#[global] Program Instance byte_flash_ok : FlashOk byte_flash := {
  busy_left _ := 0%nat;
  max_busy := 0;
  clock := bf_clock;
  ready_by := bf_clock
}.
Next Obligation. done. Qed.
Next Obligation. done. Qed.
Next Obligation. intros f. lia. Qed.
Next Obligation. done. Qed.
Next Obligation. intros f. cbn. split; [done|]. split; [lia|]. by split. Qed.
Next Obligation. done. Qed.
Next Obligation. intros f. cbn. split; [done|]. split; [lia|]. by split. Qed.
Next Obligation. done. Qed.
Next Obligation. done. Qed.
Next Obligation.
  intros a v f _ _ _ Hv. cbn. split; [done|]. intros a'. case_decide.
  - subst. rewrite lookup_insert_eq. by apply u8_small.
  - by rewrite lookup_insert_ne by congruence.
Qed.

#[global] Instance byte_flash_bytes : ByteMemory (F := byte_flash).
Proof. intros f a. apply byte_u8. Qed.

(** A memory that holds version 2. *)
Definition old_eeprom : eeprom_world byte_flash :=
  EepromWorld (ByteFlash {[ DATA_EEPROM_BASE := 2 ]} 1 0) EEPROM_NINIT false.

Lemma boot_config_is_sane_witness :
  wp (load_config 1)
     (fun c w' => state w' = EEPROM_READY /\ config_ok c /\ version c = VERSION /\
        (f_byte (flash old_eeprom) DATA_EEPROM_BASE <> VERSION ->
           interval c = replicate SCHEDULE_LIST_SIZE DEFAULT_TASK_INTERVAL) /\
        forall id, 1000 <= wait_ticks (task_interval c id DEFAULT_TASK_INTERVAL) < TIME_INFINITE) old_eeprom.
Proof.
  refine (boot_config_is_sane (F := byte_flash) 1 old_eeprom _ _); [cbn; lia|done].
Defined.

Lemma cmd_sch_truncates_witness :
  cmd_sch 1 300 (fun _ => true) station_config =
    (Some (1%nat, 44), AppConfiguration VERSION 0 [0; 44; 120; 300; 65535; 0; 0; 0; 0; 0]).
Proof. rewrite (cmd_sch_truncates 1 300); [done|lia|lia|done|done]. Defined.
