(* ===== verification/Registry.v ===== *)
(** * The registries of hardware and schedules

    [src/src/threads/hwListThread.c] and [src/src/threads/scheduleListThread.c]
    have the same shape: a mailbox of ten slots to which every sensor thread
    posts a pointer to its static descriptor, a thread that files each pointer
    in a table of ten entries under the descriptor's id, and an accessor that
    the shell uses.  Proved here: with at most ten descriptors whose ids are
    inside the table, no registration is lost, the table is never written
    outside, and it holds exactly the descriptors served so far. *)

From S2P Require Import Prelude Oslib.
Import Mbox.

Definition HW_LIST_SIZE : nat := 10.

(** The mailbox, the table of pointers ([NULL] is 0). *)
Record registry := Registry {
  mail : mailbox_t;
  table : list Z
}.

(** [MAILBOX_DECL(registerHwMail, &registerHwDataLetter, HW_LIST_SIZE)] and the
    static table; [registerScheduleMail] is declared in the same way. *)
Definition empty_registry : registry :=
  Registry (Mailbox (replicate HW_LIST_SIZE 0) 0 0 0 false [] [] []) (replicate HW_LIST_SIZE 0).

Definition mail_lens : lens registry mailbox_t := Lens mail (fun m s => Registry m (table s)).

Section registry.
(** The [id] field of the descriptor at an address; the descriptors are static
    and their ids are written once, before they are posted. *)
Context (id_of : Z -> Z).

(** A thread's [(void) chMBPostTimeout(&registerHwMail, &hw, TIME_IMMEDIATE)]. *)
Definition register_post (p : Z) : M registry unit :=
  zoom mail_lens (chMBPostTimeout (fun _ => hang) 1 p TIME_IMMEDIATE) ;;;
  ret tt.

(** One round of [registerHwThread]; with an empty mailbox it stays in its
    wait, which has no time-out. *)
Definition registerHwThread : M registry unit :=
  let! s := get in
  if decide (chMBGetUsedCountI (mail s) = 0) then ret tt else
  let! r := zoom mail_lens (chMBFetchTimeout (fun _ => hang) 1 TIME_INFINITE) in
  if decide (fst r = MSG_OK) then
    let! s := get in
    let! t := lift_opt (store (table s) (id_of (snd r)) (snd r)) "hwList" in
    put (Registry (mail s) t)
  else ret tt.

Definition registerScheduleThread : M registry unit := registerHwThread.

(** [HwList__getHw] and [ScheduleList__getSchedule] give the table itself. *)
Definition HwList__getHw : M registry (list Z) := gets table.
Definition ScheduleList__getSchedule : M registry (list Z) := gets table.

(** An interleaving of registrations and of rounds of the thread. *)
Inductive event := Post (p : Z) | Serve.

Fixpoint run (es : list event) : M registry unit :=
  match es with
  | [] => ret tt
  | Post p :: es => register_post p ;;; run es
  | Serve :: es => registerHwThread ;;; run es
  end.

Definition posts (es : list event) : list Z :=
  omap (fun e => match e with Post p => Some p | Serve => None end) es.

(** The table after serving [ps]. *)
Definition filed (ps : list Z) (t : list Z) : list Z :=
  foldl (fun t p => <[Z.to_nat (id_of p) := p]> t) t ps.

(** [served] is in the table and [waiting] in the mailbox. *)
Definition reg_inv (served waiting : list Z) (s : registry) : Prop :=
  mb_rep 10 (mail s) waiting /\ reset (mail s) = false /\
  table s = filed served (replicate HW_LIST_SIZE 0).

Lemma filed_length ps t : length (filed ps t) = length t.
Proof.
  revert t. induction ps as [|p ps IH]; intros t; [done|].
  change (length (filed ps (<[Z.to_nat (id_of p) := p]> t)) = length t). by rewrite IH, length_insert.
Qed.

Lemma filed_snoc ps p t : filed (ps ++ [p]) t = <[Z.to_nat (id_of p) := p]> (filed ps t).
Proof. unfold filed. by rewrite foldl_app. Qed.

Lemma post_wp served waiting p s :
  reg_inv served waiting s -> (length waiting < 10)%nat ->
  wp (register_post p) (fun _ s' => reg_inv served (waiting ++ [p]) s') s.
Proof.
  intros (Hrep & Hr & Ht) Hl. apply wp_bind, wp_zoom. cbn [view mail_lens].
  eapply wp_eq; [apply post_immediate|]. eapply wp_conseq; [by eapply post_spec|].
  intros r mb [Hr' Hq]. rewrite (proj2 (Z.ltb_lt _ _)) in Hq by lia. destruct Hq as [_ Hrep'].
  by apply wp_ret.
Qed.

(** Ids inside the table. *)
Definition id_ok (p : Z) : Prop := 0 <= id_of p < Z.of_nat HW_LIST_SIZE.

Lemma serve_wp served waiting s :
  reg_inv served waiting s -> Forall id_ok waiting ->
  wp registerHwThread (fun _ s' =>
    match waiting with
    | [] => reg_inv served [] s'
    | p :: waiting' => reg_inv (served ++ [p]) waiting' s'
    end) s.
Proof.
  intros (Hrep & Hr & Ht) Hid. apply wp_bind, wp_get. unfold chMBGetUsedCountI.
  rewrite (rep_cnt _ _ _ Hrep). destruct waiting as [|p waiting].
  - rewrite decide_True by done. by apply wp_ret.
  - rewrite decide_False by (cbn; lia). apply wp_bind, wp_zoom. cbn [view mail_lens].
    eapply wp_eq; [by eapply fetch_ready|]. eapply wp_conseq; [by eapply fetch_spec|].
    intros r mb (Hr' & -> & Hrep'). cbn [fst snd over mail_lens]. rewrite decide_True by done.
    apply Forall_cons in Hid as [Hp _]. unfold id_ok in Hp.
    apply wp_bind, wp_get, wp_bind, wp_opt with (a := <[Z.to_nat (id_of p) := p]> (table s)).
    + apply store_in. cbn. by rewrite Ht, filed_length, length_replicate.
    + split; [done|]. split; [done|]. cbn. by rewrite Ht, filed_snoc.
Qed.

Lemma run_wp es served waiting s :
  reg_inv served waiting s -> Forall id_ok waiting -> Forall id_ok (posts es) ->
  (length waiting + length (posts es) <= 10)%nat ->
  wp (run es) (fun _ s' => exists served' waiting',
    served' ++ waiting' = served ++ waiting ++ posts es /\ reg_inv served' waiting' s') s.
Proof.
  revert served waiting s. induction es as [|[p|] es IH]; intros served waiting s Hs Hw Hp Hl; cbn [run].
  - apply wp_ret. exists served, waiting. by rewrite app_nil_r.
  - change (posts (Post p :: es)) with (p :: posts es) in *. apply Forall_cons in Hp as [Hp1 Hp2]. cbn in Hl.
    apply wp_bind. eapply wp_conseq; [apply post_wp; [done|lia]|]. intros ? s' Hs'.
    eapply wp_conseq; [apply (IH served (waiting ++ [p])); [exact Hs'|by apply Forall_app; split; [|constructor]|done|]|].
    { rewrite length_app. cbn. lia. }
    intros ? s2 (sv & wt & He & H2). exists sv, wt. split; [|done]. rewrite He.
    by rewrite <- !app_assoc.
  - change (posts (Serve :: es)) with (posts es) in *.
    apply wp_bind. eapply wp_conseq; [by apply serve_wp|]. intros ? s' Hs'.
    destruct waiting as [|p waiting].
    + by apply (IH served []).
    + apply Forall_cons in Hw as [_ Hw].
      eapply wp_conseq; [apply (IH (served ++ [p]) waiting); [exact Hs'|done|done|cbn in Hl; lia]|]. intros ? s2 (sv & wt & He & H2).
      exists sv, wt. split; [|done]. rewrite He. by rewrite <- !app_assoc.
Qed.

Lemma filed_lookup ps t p :
  NoDup (id_of <$> ps) -> Forall id_ok ps -> p ∈ ps -> length t = HW_LIST_SIZE ->
  filed ps t !! Z.to_nat (id_of p) = Some p.
Proof.
  induction ps as [|q ps IH] using rev_ind; intros Hnd Hid Hp Ht; [by apply elem_of_nil in Hp|].
  rewrite fmap_app, NoDup_app in Hnd. destruct Hnd as (Hnd & Hne & _).
  apply Forall_app in Hid as [Hid1 [Hid2 _]%Forall_cons]. rewrite filed_snoc.
  unfold id_ok in Hid2. apply elem_of_app in Hp as [Hp|Hp%list_elem_of_singleton].
  - assert (id_of p <> id_of q) as Hd.
    { intros He. apply (Hne (id_of p)); [by apply list_elem_of_fmap_2|]. rewrite He. left. }
    rewrite Forall_forall in Hid1. specialize (Hid1 _ Hp) as Hidp. unfold id_ok in Hidp.
    rewrite list_lookup_insert_ne by lia. apply IH; [done|by apply Forall_forall|done|done].
  - subst. apply list_lookup_insert_eq. rewrite filed_length, Ht. lia.
Qed.

(** For every interleaving of at most ten registrations, with different
    ids inside the table, and of rounds of the registry thread: no
    registration is lost, the table is never written outside its ten entries,
    every descriptor served so far is found under its id, and the ones not yet
    served wait in the mailbox in their order. *)
Theorem registry_files_every_descriptor es :
  Forall id_ok (posts es) -> NoDup (id_of <$> posts es) -> (length (posts es) <= 10)%nat ->
  wp (run es) (fun _ s => exists served waiting,
    served ++ waiting = posts es /\ mb_rep 10 (mail s) waiting /\
    length (table s) = HW_LIST_SIZE /\
    forall p, p ∈ served -> table s !! Z.to_nat (id_of p) = Some p) empty_registry.
Proof.
  intros Hid Hnd Hl. eapply wp_conseq.
  { apply (run_wp es [] []); [|constructor|done|done]. split; [|done].
    by apply (mb_init_rep (replicate HW_LIST_SIZE 0)). }
  intros ? s (sv & wt & He & Hrep & _ & Ht). cbn in He. exists sv, wt. split; [done|]. split; [done|].
  rewrite <- He in Hid, Hnd. rewrite fmap_app in Hnd. apply NoDup_app in Hnd as (Hnd & _).
  apply Forall_app in Hid as [Hid _].
  rewrite Ht. split; [by rewrite filed_length|]. intros p Hp. by apply filed_lookup.
Qed.

End registry.

#[global] Instance id_ok_dec id_of p : Decision (id_ok id_of p).
Proof. unfold id_ok. apply _. Defined.

(** The five descriptors of the station: radio, BMP280, VEML7700, ML8511 and
    power, at word addresses, with their ids of appCfg.h. *)
Definition station_id (p : Z) : Z := p `div` 4 - 1.
Definition station_events : list event :=
  [Post 4; Serve; Post 8; Post 12; Serve; Post 16; Serve; Serve; Post 20; Serve; Serve].

Lemma registry_files_every_descriptor_witness :
  wp (run station_id station_events) (fun _ s => exists served waiting,
    served ++ waiting = posts station_events /\ mb_rep 10 (mail s) waiting /\
    length (table s) = HW_LIST_SIZE /\
    forall p, p ∈ served -> table s !! Z.to_nat (station_id p) = Some p) empty_registry.
Proof.
  refine (registry_files_every_descriptor station_id station_events _ _ _).
  - apply (bool_decide_unpack _). vm_compute. exact Logic.I.
  - apply (bool_decide_unpack _). vm_compute. exact Logic.I.
  - cbn; lia.
Defined.
