(* ===== verification/Boot.v ===== *)
(** * The start of the station

    [main] of [src/src/main.c] from its first thread on, in every configuration of
    [src/src/cfg/appCfg.h]: the threads it creates, with their priorities of
    [main.h], on the scheduler of [Sched] and the registry of [Threads]; what each
    of them does until it has registered its schedule and its descriptor; and the
    two threads of [Registry] that file them, which sleep in the readers' queue of
    their mailbox and are woken by a post.  What a thread does to its device in
    between is any sequence of sleeps, yields and wake-ups, and interrupts come at
    any time.

    Proved: no step fails; the threads are in the registry in the order of their
    start; and because the two registry threads have a higher priority than the
    others, a registration is in its table before the thread that made it runs
    again, so that no mailbox ever holds more than one and no other thread ever
    sees a table with a registration missing. *)

From stdpp Require Import functions.
From S2P Require Import Prelude Oslib Sched Threads Registry.
Import Sched Threads.

Module Boot.

(** ** The threads of the station *)

(** The idle thread is 0 and [main] 1; the others by their working areas. *)
Definition registerScheduleVA : nat := 2.
Definition registerHWVA : nat := 3.
Definition POWERVA : nat := 4.
Definition hc12StreamVA : nat := 5.
Definition BMP280VA : nat := 6.
Definition BH1750VA : nat := 7.
Definition VEML7700VA : nat := 8.
Definition ML8511VA : nat := 9.
Definition RAINVA : nat := 10.
Definition WINDVA : nat := 11.
Definition AS3935VA : nat := 12.
Definition ShellVA : nat := 13.

Inductive table_e := Schedules | Hardware.
#[global] Instance table_eq_dec : EqDecision table_e.
Proof. solve_decision. Defined.

(** The thread that files the registrations of a table. *)
Definition server (b : table_e) : nat := match b with Schedules => registerScheduleVA | Hardware => registerHWVA end.

(** The [hwId] of the configurations. *)
Definition hw_id (t : nat) : Z :=
  match t with
  | 4%nat => 4 | 5%nat => 0 | 6%nat => 1 | 7%nat => 2 | 8%nat => 2 | 9%nat => 3 | 10%nat => 6 | 11%nat => 5 | 12%nat => 5
  | _ => 9
  end.

(** The static descriptor of thread [t] is at the address [t]. *)
Definition id_of (p : Z) : Z := hw_id (Z.to_nat p).

(** What a thread does that the start depends on. *)
Inductive op :=
  | Name (nm : string)           (* chRegSetThreadName *)
  | Post (b : table_e) (p : Z)   (* chMBPostTimeout of a descriptor *)
  | Create (t : nat) (p : Z).    (* chThdCreateStatic *)
#[global] Instance op_eq_dec : EqDecision op.
Proof. solve_decision. Defined.

Record config := Configuration {
  USE_BMP280 : bool; USE_BH1750 : bool; USE_VEML7700 : bool; USE_ML8511 : bool;
  USE_RAIN_FC37 : bool; USE_WIND_SPEED : bool; USE_AS3935 : bool; USE_SHELL : bool
}.

Definition THREAD_PRIORITY : Z := NORMALPRIO + 10.
Definition THREAD_PRIORITY_REGISTER : Z := NORMALPRIO + 20.

Definition start (b : bool) (t : nat) : list op := if b then [Create t THREAD_PRIORITY] else [].

(** [main] from START THREADS on. *)
Definition main_program (c : config) : list op :=
  [Create registerScheduleVA THREAD_PRIORITY_REGISTER; Create registerHWVA THREAD_PRIORITY_REGISTER;
   Create POWERVA THREAD_PRIORITY; Create hc12StreamVA THREAD_PRIORITY]
  ++ start (USE_BMP280 c) BMP280VA ++ start (USE_BH1750 c) BH1750VA ++ start (USE_VEML7700 c) VEML7700VA
  ++ start (USE_ML8511 c) ML8511VA ++ start (USE_RAIN_FC37 c) RAINVA ++ start (USE_WIND_SPEED c) WINDVA
  ++ start (USE_AS3935 c) AS3935VA ++ start (USE_SHELL c) ShellVA.

(** A sensor's thread registers its schedule and then its descriptor. *)
Definition sensor_program (nm : string) (t : nat) : list op :=
  [Name nm; Post Schedules (Z.of_nat t); Post Hardware (Z.of_nat t)].

Definition program (c : config) (t : nat) : list op :=
  match t with
  | 1%nat => main_program c
  | 2%nat => [Name "registerSCH"]
  | 3%nat => [Name "registerHW"]
  | 4%nat => sensor_program "Power" t
  | 5%nat => [Name "hc12Stream"; Post Hardware (Z.of_nat t)]
  | 6%nat => sensor_program "Bmp280" t
  | 7%nat => sensor_program "Bh1750" t
  | 8%nat => sensor_program "Veml7700" t
  | 9%nat => sensor_program "Ml8511" t
  | 10%nat => sensor_program "Rain" t
  | 11%nat => sensor_program "Wind" t
  | 12%nat => sensor_program "AS3935" t
  | 13%nat => [Name "shell"]
  | _ => []
  end.

(** ** The station *)

(** [todo t] is what [t] still does, [asked b] what has been posted to [b]. *)
Record station := Station {
  sys : tsys;
  mails : table_e -> registry;
  todo : nat -> list op;
  asked : table_e -> list Z
}.

Definition sys_lens : lens station tsys := Lens sys (fun y s => Station y (mails s) (todo s) (asked s)).
Definition reg_lens (b : table_e) : lens station registry :=
  Lens (fun s => mails s b) (fun r s => Station (sys s) (<[b := r]> (mails s)) (todo s) (asked s)).
Definition set_todo (t : nat) (l : list op) (s : station) : station :=
  Station (sys s) (mails s) (<[t := l]> (todo s)) (asked s).
Definition log_asked (b : table_e) (p : Z) (s : station) : station :=
  Station (sys s) (mails s) (todo s) (<[b := asked s b ++ [p]]> (asked s)).

Definition set_readers (q : list Z) (wk : list (Z * Z)) (r : registry) : registry :=
  let m := mail r in
  Registry (Mbox.Mailbox (Mbox.buffer m) (Mbox.wrptr m) (Mbox.rdptr m) (Mbox.cnt m) (Mbox.reset m) (Mbox.qw m) q wk) (table r).

Definition kernel (e : kevent) : M station unit := zoom sys_lens (zoom os_lens (kstep e)).

(** [chMBPostTimeout(.., TIME_IMMEDIATE)]: the threads it takes from the readers'
    queue are made ready, and the scheduler may switch to one. *)
Definition mail_post (b : table_e) (p : Z) : M station unit :=
  zoom (reg_lens b) (register_post p) ;;;
  let! s := get in
  let r := mails s b in
  zoom (reg_lens b) (put (set_readers (Mbox.qr (mail r)) [] r)) ;;;
  kernel (KReady (map (fun '(t, msg) => (Z.to_nat t, msg)) (Mbox.woken (mail r)))).

(** A round of a registry thread: with an empty mailbox it goes to sleep in the
    readers' queue, and looks again when it is woken. *)
Definition mail_round (b : table_e) : M station unit :=
  let! s := get in
  let r := mails s b in
  if decide (Mbox.chMBGetUsedCountI (mail r) = 0) then
    zoom (reg_lens b) (put (set_readers (Mbox.qr (mail r) ++ [Z.of_nat (current (os (sys s)))]) (Mbox.woken (mail r)) r)) ;;;
    kernel (KSleep CH_STATE_QUEUED)
  else zoom (reg_lens b) (registerHwThread id_of).

Definition FUEL : nat := 16.

Definition run_op (o : op) : M station unit :=
  match o with
  | Name nm => zoom sys_lens (chRegSetThreadName nm)
  | Post b p => modify (log_asked b p) ;;; mail_post b p
  | Create t p => zoom sys_lens (chThdCreateStatic FUEL t p)
  end.

(** The running thread goes on, or anything of the kernel happens. *)
Inductive bevent := Run | Kernel (e : kevent).

Definition bstep (e : bevent) : M station unit :=
  match e with
  | Kernel e => kernel e
  | Run =>
      let! s := get in
      let w := current (os (sys s)) in
      match todo s w with
      | o :: l => modify (set_todo w l) ;;; run_op o
      | [] =>
          if decide (w = server Schedules) then mail_round Schedules
          else if decide (w = server Hardware) then mail_round Hardware
          else ret tt
      end
  end.

(** The registry threads sleep nowhere else and nobody else wakes them. *)
Definition is_server (t : nat) : Prop := t = server Schedules \/ t = server Hardware.
#[global] Instance is_server_dec t : Decision (is_server t).
Proof. unfold is_server. apply _. Defined.

Definition bpossible (s : station) (e : bevent) : Prop :=
  match e with
  | Run => True
  | Kernel e =>
      possible (os (sys s)) e /\ Forall (fun t => ~ is_server t) (woken e) /\
      match e with KSleep _ => ~ is_server (current (os (sys s))) | _ => True end
  end.

(** After [chSysInit]. *)
Definition powered (c : config) : station := Station system (fun _ => empty_registry) (program c) (fun _ => []).

Inductive breach (c : config) : station -> Prop :=
  | breach_start : breach c (powered c)
  | breach_step s e s' : breach c s -> bpossible s e -> bstep e s = Done (tt, s') -> breach c s'.

(** ** Facts about the programs *)

Definition creates (l : list op) : list nat := omap (fun o => match o with Create t _ => Some t | _ => None end) l.
Definition start_order (c : config) : list nat := creates (main_program c).

Definition thread_prio (t : nat) : Z :=
  match t with 0%nat => IDLEPRIO | 1%nat => NORMALPRIO | 2%nat | 3%nat => THREAD_PRIORITY_REGISTER | _ => THREAD_PRIORITY end.

(** At most one of two sensors with the same id. *)
Definition compatible (c : config) : bool :=
  negb (USE_BH1750 c && USE_VEML7700 c) && negb (USE_WIND_SPEED c && USE_AS3935 c).

Definition op_ok (t : nat) (o : op) : bool :=
  match o with
  | Name _ => true
  | Post _ p => bool_decide (p = Z.of_nat t /\ (4 <= t <= 12)%nat)
  | Create x p => bool_decide (t = 1%nat /\ (2 <= x)%nat /\ p = thread_prio x)
  end.

Lemma op_ok_program c t o : o ∈ program c t -> op_ok t o = true.
Proof.
  intros Ho. assert (Hall : forallb (op_ok t) (program c t) = true).
  { do 14 (destruct t as [|t]; [destruct c as [[] [] [] [] [] [] [] []]; vm_compute; reflexivity|]). done. }
  rewrite forallb_forall in Hall. apply Hall. by apply list_elem_of_In.
Qed.

Lemma program_post c t b p : Post b p ∈ program c t -> p = Z.of_nat t /\ (4 <= t <= 12)%nat.
Proof. intros H%op_ok_program. by apply bool_decide_eq_true in H. Qed.

Lemma program_create c t x p : Create x p ∈ program c t -> t = 1%nat /\ (2 <= x)%nat /\ p = thread_prio x.
Proof. intros H%op_ok_program. by apply bool_decide_eq_true in H. Qed.

Lemma start_order_facts c :
  bool_decide (NoDup (start_order c)) && (length (start_order c) <=? 12)%nat &&
  forallb (fun t => (2 <=? t)%nat) (start_order c) && bool_decide (take 2 (start_order c) = [2; 3]%nat) = true.
Proof. destruct c as [[] [] [] [] [] [] [] []]; vm_compute; reflexivity. Qed.

Lemma ids_distinct c t t' :
  compatible c = true -> t ∈ start_order c -> t' ∈ start_order c -> (4 <= t <= 12)%nat -> (4 <= t' <= 12)%nat ->
  hw_id t = hw_id t' -> t = t'.
Proof.
  intros Hc Ht Ht' Hr Hr' He.
  assert (Hall : compatible c = true -> forallb (fun t => forallb (fun t' =>
    negb ((4 <=? t) && (t <=? 12) && (4 <=? t') && (t' <=? 12))%nat || negb (hw_id t =? hw_id t') || bool_decide (t = t'))
    (start_order c)) (start_order c) = true).
  { destruct c as [[] [] [] [] [] [] [] []]; vm_compute; intros H; congruence. }
  specialize (Hall Hc). rewrite forallb_forall in Hall. specialize (Hall t ltac:(by apply list_elem_of_In)). rewrite forallb_forall in Hall.
  specialize (Hall t' ltac:(by apply list_elem_of_In)). rewrite He, Z.eqb_refl in Hall.
  rewrite !(proj2 (Nat.leb_le _ _)) in Hall by lia. cbn in Hall. by apply bool_decide_eq_true in Hall.
Qed.

(** A later registration under another id leaves the entry. *)
Lemma filed_last ps tb p :
  Forall (fun q => 0 <= id_of q < Z.of_nat HW_LIST_SIZE) ps -> length tb = HW_LIST_SIZE ->
  p ∈ ps -> (forall q, q ∈ ps -> id_of q = id_of p -> q = p) -> filed id_of ps tb !! Z.to_nat (id_of p) = Some p.
Proof.
  intros Hid Hl. induction ps as [|q ps IH] using rev_ind; intros Hp Hu; [by apply elem_of_nil in Hp|].
  apply Forall_app in Hid as [Hid [Hq _]%Forall_cons]. rewrite filed_snoc. destruct (decide (id_of q = id_of p)) as [He|Hne].
  - assert (q = p) as -> by (apply Hu; [set_solver|done]). apply list_lookup_insert_eq. rewrite filed_length. lia.
  - assert (Hp' : p ∈ ps) by (apply elem_of_app in Hp as [?|Hp%list_elem_of_singleton]; [done|congruence]).
    rewrite Forall_forall in Hid. pose proof (Hid p Hp'). rewrite list_lookup_insert_ne by lia.
    apply IH; [by apply Forall_forall|done|]. intros x Hx. apply Hu. apply elem_of_app. by left.
Qed.

(** ** The invariant *)

Notation members created := (1%nat :: 0%nat :: created).

(** All but the mailboxes. *)
Record started_so_far (c : config) (created : list nat) (s : station) : Prop := {
  f_split : created ++ creates (todo s 1%nat) = start_order c;
  f_lists : lists (sys s) (members created);
  f_refs : forall t, refs (sys s) t = if decide (t ∈ members created) then 1 else 0;
  f_ended : forall t, ended (sys s) t <-> t ∉ members created;
  f_ok : sched_ok (os (sys s));
  f_dispatched : dispatched (os (sys s));
  f_prio : forall t, t ∈ members created -> prios (os (sys s)) t = thread_prio t;
  f_todo : forall t o, o ∈ todo s t -> o ∈ program c t;
  f_asked : forall b p, p ∈ asked s b -> exists t, t ∈ start_order c /\ Post b p ∈ program c t;
  f_posted : forall t b p, Post b p ∈ program c t -> Post b p ∈ todo s t \/ p ∈ asked s b
}.

(** The thread of a mailbox does not exist yet, can run, or waits for a post. *)
Definition serving (y : tsys) (t : nat) (q waiting : list Z) : Prop :=
  (ended y t /\ q = [] /\ waiting = []) \/ (asleep (os y) t = None /\ q = []) \/
  (asleep (os y) t = Some CH_STATE_QUEUED /\ q = [Z.of_nat t] /\ waiting = []).

Definition mail_ok (s : station) (b : table_e) : Prop :=
  exists served waiting, reg_inv id_of served waiting (mails s b) /\ asked s b = served ++ waiting /\
    Mbox.qw (mail (mails s b)) = [] /\ Mbox.woken (mail (mails s b)) = [] /\
    serving (sys s) (server b) (Mbox.qr (mail (mails s b))) waiting.

Definition binv (c : config) (created : list nat) (s : station) : Prop :=
  started_so_far c created s /\ forall b, mail_ok s b.

Section invariant.
Context (c : config) (created : list nat) (s : station) (H : started_so_far c created s).

Lemma current_member : current (os (sys s)) ∈ members created.
Proof.
  destruct (decide (current (os (sys s)) ∈ members created)) as [|Hn]; [done|]. apply (f_ended _ _ _ H) in Hn.
  unfold ended in Hn. by rewrite (current_awake _ (f_ok _ _ _ H)) in Hn.
Qed.

Lemma created_order : start_order c = 2%nat :: 3%nat :: drop 2 (start_order c).
Proof.
  pose proof (start_order_facts c) as Hf. repeat (apply andb_prop in Hf as [Hf ?]). apply bool_decide_eq_true in H0.
  rewrite <- (take_drop 2 (start_order c)) at 1. by rewrite H0.
Qed.

Lemma created_nodup : NoDup (start_order c) /\ (length (start_order c) <= 12)%nat /\ Forall (fun t => (2 <= t)%nat) (start_order c).
Proof.
  pose proof (start_order_facts c) as Hf. repeat (apply andb_prop in Hf as [Hf ?]). split; [by apply bool_decide_eq_true in Hf|].
  split; [by apply Nat.leb_le|]. apply Forall_forall. intros t Ht. rewrite forallb_forall in H1. apply Nat.leb_le, H1. by apply list_elem_of_In.
Qed.

(** The registry threads are created before any thread that registers. *)
Lemma servers_first t b : t ∈ members created -> (4 <= t)%nat -> server b ∈ created.
Proof.
  intros Ht H4. rewrite !elem_of_cons in Ht. destruct Ht as [?|[?|Ht]]; [lia..|]. pose proof (f_split _ _ _ H) as Hs.
  rewrite created_order in Hs. destruct created as [|x [|z l]]; [by apply elem_of_nil in Ht|..]; cbn in Hs.
  - injection Hs as -> _. apply list_elem_of_singleton in Ht. lia.
  - injection Hs as -> -> _. destruct b; unfold server, registerScheduleVA, registerHWVA; set_solver.
Qed.

(** While another thread runs, no registry thread can. *)
Lemma server_not_awake b : ~ is_server (current (os (sys s))) -> asleep (os (sys s)) (server b) <> None.
Proof.
  intros Hns Ha. pose proof (f_ok _ _ _ H) as Hok. apply (asleep_None _ _ Hok) in Ha.
  assert (Hm : server b ∈ members created).
  { destruct (decide (server b ∈ members created)) as [|Hn]; [done|]. apply (f_ended _ _ _ H) in Hn. unfold ended in Hn.
    apply (asleep_None _ _ Hok) in Ha. congruence. }
  apply elem_of_cons in Ha as [Ha|Ha]; [apply Hns; rewrite <- Ha; destruct b; [by left|by right]|].
  pose proof (dispatched_sorted _ Hok (f_dispatched _ _ _ H)) as Hd. rewrite Forall_forall in Hd. specialize (Hd _ Ha).
  rewrite !(f_prio _ _ _ H) in Hd by (done || apply current_member). unfold is_server in Hns. cbn in Hns. unfold registerScheduleVA, registerHWVA in Hns.
  assert (Hps : thread_prio (server b) = THREAD_PRIORITY_REGISTER) by by destruct b. rewrite Hps in Hd.
  destruct (current (os (sys s))) as [|[|[|[|x]]]]; try tauto;
    unfold thread_prio, THREAD_PRIORITY_REGISTER, THREAD_PRIORITY, NORMALPRIO, IDLEPRIO in Hd; lia.
Qed.

Lemma nothing_waits b q waiting :
  ~ is_server (current (os (sys s))) -> serving (sys s) (server b) q waiting -> waiting = [].
Proof. intros Hns [(_ & _ & ?)|[(Ha & _)|(_ & _ & ?)]]; [done| |done]. by apply server_not_awake in Ha. Qed.

(** Steps of the kernel alone. *)
Lemma frame_kernel s' os' :
  sys s' = set_os os' (sys s) -> todo s' = todo s -> asked s' = asked s ->
  sched_ok os' -> dispatched os' -> (forall x, prios os' x = prios (os (sys s)) x) ->
  (forall x, asleep os' x = Some CH_STATE_FINAL <-> asleep (os (sys s)) x = Some CH_STATE_FINAL) -> started_so_far c created s'.
Proof.
  intros Hs Ht Ha Hok Hd Hp Hf. assert (Hend : forall x, ended (sys s') x <-> ended (sys s) x) by (intros x; unfold ended; rewrite Hs; apply Hf).
  destruct H as [H1 [H2a H2b] H3 H4 _ _ H7 H8 H9 H10]. constructor; rewrite ?Hs, ?Ht, ?Ha; try done.
  - split; [exact H2a|]. intros t. rewrite H2b, <- Hs, Hend. by rewrite Hs.
  - intros t. rewrite <- Hs, Hend. apply H4.
  - intros t Hin. cbn. rewrite Hp. by apply H7.
Qed.
End invariant.

Lemma final_kept os e x :
  possible os e -> sched_ok os -> asleep_after os e x = Some CH_STATE_FINAL <-> asleep os x = Some CH_STATE_FINAL.
Proof.
  intros Hp Hok. assert (Hw : x ∈ woken e -> asleep os x <> Some CH_STATE_FINAL).
  { assert (Hf : forall ts, Forall (wakeable os) ts -> x ∈ ts -> asleep os x <> Some CH_STATE_FINAL).
    { intros ts Hts Hx. rewrite Forall_forall in Hts. destruct (Hts x Hx) as (st & -> & ?). congruence. }
    destruct e as [st| |t msg|ts|ts|t]; cbn in *; try (by intros ?%elem_of_nil).
    - rewrite list_elem_of_singleton. intros ->. destruct Hp as (st & -> & ?). congruence.
    - apply Hf, Hp.
    - apply Hf, Hp.
    - rewrite list_elem_of_singleton. intros ->. destruct Hp as [_ [->|(st & -> & ?)]]; congruence. }
  unfold asleep_after. case_decide as Hin; [split; [done|]; intros Hx; by apply Hw in Hx|]. destruct e as [st| | | | |]; try done.
  unfold fell_asleep. case_decide as Hx; [|done]. subst x. rewrite (current_awake _ Hok). destruct Hp as [_ (_ & _ & ?)]. split; congruence.
Qed.

Lemma serving_ext y y' t q waiting : asleep (os y') t = asleep (os y) t -> serving y t q waiting -> serving y' t q waiting.
Proof. unfold serving, ended. by intros ->. Qed.

(** A kernel event whose effect on the registry threads is known. *)
Lemma kernel_spec c created s e (Q : station -> Prop) :
  started_so_far c created s -> possible (os (sys s)) e ->
  (forall s', started_so_far c created s' -> mails s' = mails s -> asked s' = asked s ->
    (forall x, asleep (os (sys s')) x = asleep_after (os (sys s)) e x) -> Q s') ->
  wp (kernel e) (fun _ => Q) s.
Proof.
  intros Hs Hp HQ. unfold kernel. do 2 apply wp_zoom. pose proof (f_ok _ _ _ Hs) as Hok.
  eapply wp_conseq; [apply kstep_woken; [exact Hok|exact (f_dispatched _ _ _ Hs)|done]|].
  intros ? os' [(H1 & H2 & H3 & _) H4]. apply HQ; [|done|done|exact H3].
  apply (frame_kernel c created s Hs _ os'); try done. intros x. rewrite H3. by apply final_kept.
Qed.

Lemma step_kernel_event c created s e :
  binv c created s -> bpossible s (Kernel e) -> wp (bstep (Kernel e)) (fun _ => binv c created) s.
Proof.
  intros [Hs Hm] (Hp & Hw & Hsl). apply (kernel_spec c created s e _ Hs Hp). intros s' Hs' Em Ea Has. split; [done|].
  intros b. destruct (Hm b) as (sv & wt & H1 & H2 & H3 & H4 & H5). exists sv, wt. rewrite Em, Ea. split_and!; try done.
  apply (serving_ext (sys s)); [|done]. rewrite Has. unfold asleep_after. assert (Hb : is_server (server b)) by (destruct b; [by left|by right]).
  rewrite decide_False. { destruct e; try done. unfold fell_asleep. rewrite decide_False; [done|]. intros He. apply Hsl. by rewrite <- He. }
  intros Hin. rewrite Forall_forall in Hw. by apply (Hw (server b)).
Qed.

(** *** The mailboxes *)

(** The readers that a post takes from their queue. *)
Definition first_reader (q : list Z) : list (Z * Z) := match q with [] => [] | t :: _ => [(t, MSG_OK)] end.

Lemma register_post_spec sv p r :
  reg_inv id_of sv [] r ->
  wp (register_post p) (fun _ r' => reg_inv id_of sv [p] r' /\ Mbox.qr (mail r') = tail (Mbox.qr (mail r)) /\
    Mbox.qw (mail r') = Mbox.qw (mail r) /\ Mbox.woken (mail r') = Mbox.woken (mail r) ++ first_reader (Mbox.qr (mail r))) r.
Proof.
  intros Hr. pose proof (post_wp id_of sv [] p r Hr ltac:(cbn; lia)) as Hw. destruct Hr as (Hrep & Hres & _).
  pose proof (Mbox.free_count _ _ _ Hrep) as Hfree. unfold wp, register_post, bind, zoom in *. cbn [view mail_lens] in *.
  rewrite Mbox.post_immediate in *. unfold Mbox.chMBPostI, bind, get in *. rewrite Hres, Hfree in *. rewrite decide_True in * by (cbn; lia).
  destruct (Mbox.put_msg p (mail r)) as [mb|] eqn:Hput; [|done]. cbn in *. split; [exact Hw|].
  unfold Mbox.put_msg in Hput. destruct (store _ _ _); [|done]. cbn in Hput. injection Hput as <-. cbn.
  destruct (Mbox.qr (mail r)); cbn; [by rewrite app_nil_r|done].
Qed.

Lemma registerHwThread_spec sv p wt r :
  reg_inv id_of sv (p :: wt) r -> Forall (id_ok id_of) (p :: wt) -> Mbox.qw (mail r) = [] ->
  wp (registerHwThread id_of) (fun _ r' => reg_inv id_of (sv ++ [p]) wt r' /\ Mbox.qr (mail r') = Mbox.qr (mail r) /\
    Mbox.qw (mail r') = [] /\ Mbox.woken (mail r') = Mbox.woken (mail r)) r.
Proof.
  intros Hr Hid Hqw. pose proof (serve_wp id_of sv (p :: wt) r Hr Hid) as Hw. destruct Hr as (Hrep & Hres & _).
  unfold wp, registerHwThread, bind, get, zoom in *. cbn [view mail_lens] in *. unfold Mbox.chMBGetUsedCountI in *.
  rewrite (Mbox.rep_cnt _ _ _ Hrep) in *. rewrite decide_False in * by (cbn; lia). rewrite (Mbox.fetch_ready _ _ _ _ _ _ _ Hrep Hres) in *.
  unfold Mbox.chMBFetchI, bind, get, Mbox.chMBGetUsedCountI in *. rewrite Hres, (Mbox.rep_cnt _ _ _ Hrep) in *. rewrite decide_True in * by (cbn; lia).
  destruct (Mbox.take_msg (mail r)) as [[m mb]|] eqn:Ht; [|done]. unfold lift_opt, ret, put, halt in *. cbn in *.
  rewrite decide_True in * by done. cbn in *. destruct (store (table r) (id_of m) m) as [t|]; [|done]. unfold ret in *. cbn in *. split; [exact Hw|].
  unfold Mbox.take_msg in Ht. destruct (load _ _); [|done]. cbn in Ht. injection Ht as <- <-. unfold Mbox.wake_writer. cbn. by rewrite Hqw.
Qed.

(** Waiting and having been woken are not part of the contents. *)
Lemma reg_inv_readers sv wt q wk r : reg_inv id_of sv wt r -> reg_inv id_of sv wt (set_readers q wk r).
Proof. intros ([? ? ? ? ? ? ?] & ? & ?). by split; [|split]; [constructor| |]. Qed.

Lemma used_count sv wt r : reg_inv id_of sv wt r -> Mbox.chMBGetUsedCountI (mail r) = Z.of_nat (length wt).
Proof. intros (Hrep & _). exact (Mbox.rep_cnt _ _ _ Hrep). Qed.

(** *** The steps of a thread *)

Definition posted (o : op) (b : table_e) : list Z :=
  match o with Post b' p => if decide (b = b') then [p] else [] | _ => [] end.

Section steps.
Context (c : config) (created : list nat) (s : station) (H : binv c created s).
Notation w := (current (os (sys s))).

Lemma member_starts t : t ∈ members created -> (2 <= t)%nat -> t ∈ start_order c.
Proof.
  intros Ht Hle. rewrite !elem_of_cons in Ht. destruct Ht as [?|[?|Ht]]; [lia..|]. rewrite <- (f_split _ _ _ (proj1 H)).
  apply elem_of_app. by left.
Qed.

(** An operation that changes no thread. *)
Lemma frame_op s' o l :
  todo s w = o :: l -> creates [o] = [] -> os (sys s') = os (sys s) -> newer (sys s') = newer (sys s) -> older (sys s') = older (sys s) ->
  refs (sys s') = refs (sys s) -> todo s' = <[w := l]> (todo s) -> (forall b, asked s' b = asked s b ++ posted o b) ->
  started_so_far c created s'.
Proof.
  intros Hw Ho Eos En Eo Er Et Ea. pose proof (current_member c created s (proj1 H)) as Hcm. pose proof member_starts as Hms.
  destruct (proj1 H) as [H1 [H2a H2b] H3 H4 H5 H6 H7 H8 H9 H10]. pose proof (H8 w o ltac:(rewrite Hw; apply elem_of_cons; by left)) as Hop.
  constructor; rewrite ?Eos, ?Er, ?Et; try done.
  - rewrite <- H1. f_equal. destruct (decide (w = 1%nat)) as [Hw1|Hne]; [|by rewrite fn_lookup_insert_ne].
    rewrite Hw1 in *. rewrite fn_lookup_insert, Hw. change (o :: l) with ([o] ++ l). unfold creates in *. by rewrite omap_app, Ho.
  - split; [by unfold linked; rewrite En, Eo|]. intros t. rewrite H2b. unfold ended. by rewrite Eos, Er.
  - intros t. unfold ended. rewrite Eos. apply H4.
  - intros t o' Hin. destruct (decide (t = w)) as [->|Hne]; [|rewrite fn_lookup_insert_ne in Hin by done; by apply H8].
    rewrite fn_lookup_insert in Hin. apply H8. rewrite Hw. apply elem_of_cons. by right.
  - intros b p. rewrite Ea, elem_of_app. intros [Hin|Hin]; [by apply H9|]. exists w. unfold posted in Hin. destruct o as [|b' p'|]; [by apply elem_of_nil in Hin| |by apply elem_of_nil in Hin].
    case_decide; [|by apply elem_of_nil in Hin]. apply list_elem_of_singleton in Hin as ->. subst b'. split; [|done].
    apply program_post in Hop. apply Hms; [done|lia].
  - intros t b p Hin. rewrite Ea, elem_of_app. destruct (H10 t b p Hin) as [Hin'|?]; [|by right; left].
    destruct (decide (t = w)) as [->|Hne]; [|left; by rewrite fn_lookup_insert_ne]. rewrite fn_lookup_insert. rewrite Hw in Hin'.
    apply elem_of_cons in Hin' as [<-|?]; [|by left]. right. right. unfold posted. rewrite decide_True by done. by apply list_elem_of_singleton.
Qed.

Lemma step_name nm l : todo s w = Name nm :: l -> wp (modify (set_todo w l) ;;; run_op (Name nm)) (fun _ => binv c created) s.
Proof.
  intros Hw. apply wp_bind. unfold wp at 1, modify at 1. cbn [run_op]. apply wp_zoom. unfold chRegSetThreadName, wp, modify. split.
  - eapply frame_op; [exact Hw|done..|]. intros b. cbn. by rewrite app_nil_r.
  - intros b. apply (proj2 H b).
Qed.

Lemma step_post b p l : todo s w = Post b p :: l -> wp (modify (set_todo w l) ;;; run_op (Post b p)) (fun _ => binv c created) s.
Proof.
  intros Hw. pose proof (current_member c created s (proj1 H)) as Hcm.
  assert (Hop : Post b p ∈ program c w) by (apply (f_todo _ _ _ (proj1 H)); rewrite Hw; apply elem_of_cons; by left).
  destruct (program_post _ _ _ _ Hop) as [Hpw Hrange]. assert (Hns : ~ is_server w) by (unfold is_server, server, registerScheduleVA, registerHWVA; lia).
  destruct (proj2 H b) as (sv & wt & Hr & Ha & Hqw & Hwk & Hsv).
  assert (Hcr : server b ∈ members created) by (rewrite !elem_of_cons; right; right; by eapply servers_first, Hrange; [apply H|]).
  assert (asleep (os (sys s)) (server b) = Some CH_STATE_QUEUED /\ Mbox.qr (mail (mails s b)) = [Z.of_nat (server b)] /\ wt = []) as (Hsl & Hqr & ->).
  { destruct Hsv as [(He & _)|[(He & _)|?]]; [by apply (f_ended _ _ _ (proj1 H)) in He| |done].
    by apply (server_not_awake c created s (proj1 H)) in He. }
  apply wp_bind. unfold wp at 1, modify at 1. cbn [run_op]. apply wp_bind. unfold wp at 1, modify at 1. unfold mail_post.
  apply wp_bind, wp_zoom. eapply wp_conseq; [exact (register_post_spec sv p _ Hr)|]. intros ? r' (Hr' & Hqr' & Hqw' & Hwk').
  apply wp_bind, wp_get, wp_bind, wp_zoom. unfold wp at 1, put. cbn [view over reg_lens mails]. rewrite fn_lookup_insert.
  rewrite Hqr, Hwk in Hwk'. cbn in Hwk'. rewrite Hwk'. cbn [map]. rewrite Nat2Z.id. rewrite Hqr in Hqr'. cbn [tail] in Hqr'.
  set (s3 := Station _ _ _ _). apply (kernel_spec c created s3).
  - eapply frame_op; [exact Hw|done..|]. intros b'. unfold s3, log_asked; cbn. destruct (decide (b' = b)) as [->|Hne]; [by rewrite fn_lookup_insert|].
    by rewrite fn_lookup_insert_ne, app_nil_r by done.
  - split; [cbn; apply NoDup_singleton|]. cbn. repeat constructor. by exists CH_STATE_QUEUED.
  - intros s4 Hs4 Em Ea Has. split; [done|]. intros b'. unfold mail_ok. rewrite Em, Ea.
    unfold s3, log_asked; cbn [mails asked]. destruct (decide (b' = b)) as [->|Hne].
    + rewrite !fn_lookup_insert. exists sv, [p]. split; [by apply reg_inv_readers|]. split; [cbn; by rewrite Ha, app_nil_r|].
      split; [cbn; by rewrite Hqw', Hqw|]. split; [done|]. right. left. split; [|cbn; by rewrite Hqr'].
      rewrite Has. unfold asleep_after. rewrite decide_True; [done|]. cbn. by apply list_elem_of_singleton.
    + rewrite !fn_lookup_insert_ne by done. destruct (proj2 H b') as (sv2 & wt2 & G1 & G2 & G3 & G4 & G5). exists sv2, wt2.
      split_and!; try done. apply (serving_ext (sys s)); [|done]. rewrite Has. unfold asleep_after. rewrite decide_False; [done|]. cbn.
      rewrite list_elem_of_singleton. destruct b, b'; try done.
Qed.

Lemma step_start t p l :
  todo s w = Create t p :: l -> wp (modify (set_todo w l) ;;; run_op (Create t p)) (fun _ => binv c (created ++ [t])) s.
Proof.
  intros Hw. destruct (proj1 H) as [H1 H2 H3 H4 H5 H6 H7 H8 H9 H10]. pose proof (created_nodup c) as (Hnd & Hlen & _).
  pose proof (H8 w _ ltac:(rewrite Hw; apply elem_of_cons; by left)) as Hop. destruct (program_create _ _ _ _ Hop) as (Hw1 & Ht2 & Hp).
  rewrite Hw1 in *. rewrite Hw in H1. change (creates (Create t p :: l)) with (t :: creates l) in H1. rewrite <- H1 in Hnd, Hlen.
  assert (Htc : t ∉ members created).
  { rewrite !not_elem_of_cons. split; [lia|]. split; [lia|]. apply NoDup_app in Hnd as (_ & Hd & _). intros Hin. apply (Hd t Hin), elem_of_cons. by left. }
  rewrite length_app in Hlen. cbn [length] in Hlen. apply wp_bind. unfold wp at 1, modify at 1. cbn [run_op]. apply wp_zoom. cbn [view sys_lens].
  eapply wp_conseq.
  { apply (chThdCreateStatic_spec (sys s) (members created)); [done| |done|done|done|by apply H4|by rewrite H3, decide_False| |unfold FUEL; cbn; lia].
    - intros x. rewrite H3. case_decide; lia.
    - rewrite Hp. destruct t as [|[|[|[|t]]]]; unfold thread_prio, THREAD_PRIORITY_REGISTER, THREAD_PRIORITY, NORMALPRIO, IDLEPRIO, HIGHPRIO; lia. }
  intros ? y' (G1 & G2 & G3 & G4 & G5 & G6).
  assert (Hmem : forall x, x ∈ members (created ++ [t]) <-> x ∈ members created \/ x = t) by (intros x; set_solver).
  split.
  - constructor; unfold sys_lens, set_todo; cbn [sys over todo asked]; try done.
    + rewrite fn_lookup_insert, <- app_assoc. exact H1.
    + intros x. rewrite G5, H3. case_decide as Hx; [subst; by rewrite decide_True by (apply Hmem; by right)|]. apply decide_ext. rewrite Hmem. tauto.
    + intros x. unfold ended. rewrite G4, Hmem. case_decide as Hx; [subst; split; [done|tauto]|]. change (ended (sys s) x <-> ~ (x ∈ members created \/ x = t)).
      rewrite H4. tauto.
    + intros x Hx. rewrite G6. case_decide as He; [by subst|]. apply H7. apply Hmem in Hx as [?|?]; done.
    + intros x o Ho. destruct (decide (x = 1%nat)) as [->|Hne]; [|rewrite fn_lookup_insert_ne in Ho by done; by apply H8].
      rewrite fn_lookup_insert in Ho. apply H8. rewrite Hw. apply elem_of_cons. by right.
    + intros x b q Hin. destruct (H10 x b q Hin) as [Hin'|?]; [|by right]. destruct (decide (x = 1%nat)) as [->|Hne]; [|left; by rewrite fn_lookup_insert_ne].
      rewrite fn_lookup_insert. rewrite Hw in Hin'. apply elem_of_cons in Hin' as [?|?]; [done|by left].
  - intros b. destruct (proj2 H b) as (sv & wt & K1 & K2 & K3 & K4 & K5). exists sv, wt. unfold sys_lens, set_todo; cbn [sys over mails asked]. split_and!; try done.
    destruct (decide (server b = t)) as [He|Hne].
    + right. left. split; [by rewrite G4, decide_True|]. assert (Hend : ended (sys s) (server b)) by (apply H4; by rewrite He).
      unfold ended in Hend. destruct K5 as [(_ & ? & _)|[(? & _)|(? & _)]]; [done|congruence|congruence].
    + apply (serving_ext (sys s)); [|done]. by rewrite G4, decide_False.
Qed.

Lemma step_round b : w = server b -> wp (mail_round b) (fun _ => binv c created) s.
Proof.
  intros Hw. destruct (proj2 H b) as (sv & wt & K1 & K2 & K3 & K4 & K5). pose proof (proj1 H) as Hs.
  assert (Hq : Mbox.qr (mail (mails s b)) = []).
  { pose proof (current_awake _ (f_ok _ _ _ Hs)) as Haw. rewrite Hw in Haw. destruct K5 as [(Hx & _)|[(_ & ?)|(Hx & _)]]; [unfold ended in Hx; congruence|done|congruence]. }
  assert (Hother : forall b', b' <> b -> server b' <> server b) by (intros b'; clear; by destruct b, b').
  unfold mail_round. apply wp_bind, wp_get. rewrite (used_count _ _ _ K1). destruct wt as [|p wt].
  - rewrite decide_True by done. apply wp_bind, wp_zoom. unfold wp at 1, put. cbn [view over reg_lens]. set (s1 := Station _ _ _ _).
    apply (kernel_spec c created s1).
    + destruct Hs. by constructor.
    + split; [cbn; rewrite Hw; by destruct b|by repeat split].
    + intros s2 Hs2 Em Ea Has. split; [done|]. intros b'. unfold mail_ok. rewrite Em, Ea. unfold s1; cbn [mails asked].
      assert (Hafter : forall x, asleep (os (sys s2)) x = if decide (x = w) then Some CH_STATE_QUEUED else asleep (os (sys s)) x).
      { intros x. rewrite Has. unfold asleep_after. rewrite decide_False by (cbn; apply not_elem_of_nil). done. }
      destruct (decide (b' = b)) as [->|Hne].
      * rewrite fn_lookup_insert. exists sv, []. split; [by apply reg_inv_readers|]. split_and!; try done. right. right.
        rewrite Hafter, decide_True by done. cbn. by rewrite Hq, Hw.
      * rewrite fn_lookup_insert_ne by done. destruct (proj2 H b') as (sv2 & wt2 & G1 & G2 & G3 & G4 & G5). exists sv2, wt2. split_and!; try done.
        apply (serving_ext (sys s)); [|done]. rewrite Hafter, decide_False; [done|]. rewrite Hw. by apply Hother.
  - rewrite decide_False by (cbn; lia). apply wp_zoom. cbn [view reg_lens]. eapply wp_conseq.
    + apply (registerHwThread_spec sv p wt); [done| |done]. apply Forall_forall. intros q Hin.
      assert (Hqa : q ∈ asked s b) by (rewrite K2; apply elem_of_app; by right). destruct (f_asked _ _ _ Hs b q Hqa) as (t & _ & Hpost).
      apply program_post in Hpost as [-> Ht]. unfold id_ok, id_of. rewrite Nat2Z.id. unfold HW_LIST_SIZE.
      do 13 (destruct t as [|t]; [cbn; lia|]). lia.
    + intros ? r' (G1 & G2 & G3 & G4). split; [destruct Hs; by constructor|]. intros b'. unfold mail_ok. cbn [over reg_lens mails asked sys].
      destruct (decide (b' = b)) as [->|Hne]; [|rewrite fn_lookup_insert_ne by done; apply (proj2 H b')].
      rewrite fn_lookup_insert. exists (sv ++ [p]), wt. split; [done|]. split; [by rewrite K2, <- app_assoc|]. split; [done|].
      split; [by rewrite G4|]. right. left. split; [|by rewrite G2]. rewrite <- Hw. apply current_awake, (f_ok _ _ _ Hs).
Qed.
End steps.

Lemma bstep_spec c created s e : binv c created s -> bpossible s e -> wp (bstep e) (fun _ s' => exists created', binv c created' s') s.
Proof.
  intros H Hp. assert (Hex : forall cr (m : M station unit), wp m (fun _ => binv c cr) s -> wp m (fun _ s' => exists created', binv c created' s') s).
  { intros cr m Hm. eapply wp_conseq; [exact Hm|]. intros ? s' Hs'. by exists cr. }
  destruct e as [|e]; [|by eapply Hex, step_kernel_event]. cbn [bstep]. apply wp_bind, wp_get.
  destruct (todo s (current (os (sys s)))) as [|[nm|b p|t p] l] eqn:Hw.
  - case_decide as H2; [by eapply Hex, step_round|]. case_decide as H3; [by eapply Hex, step_round|]. apply wp_ret. by exists created.
  - by eapply Hex, step_name.
  - by eapply Hex, step_post.
  - by eapply Hex, step_start.
Qed.

Lemma powered_binv c : binv c [] (powered c).
Proof.
  pose proof (boot_started 2 ltac:(lia)) as Hb. assert (Hrefs : forall t, refs system t = if decide (t ∈ [1; 0]%nat) then 1 else 0).
  { intros t. destruct (st_refs _ _ Hb t) as [Hr _]. cbn [boot ts loose] in Hr. rewrite Hr.
    destruct t as [|[|t]]; [done|done|]. rewrite !decide_False; [done| |lia]. rewrite elem_of_cons, list_elem_of_singleton. lia. }
  assert (Hmem : forall t, ended system t <-> t ∉ [1; 0]%nat).
  { intros t. pose proof (st_members _ _ Hb t) as Hm. cbn [boot ts] in Hm. unfold mainthread, idle in Hm. destruct (decide (ended system t)); tauto. }
  split.
  - constructor; cbn [powered sys todo asked]; try done.
    + exact (v_lists _ _ (started_rinv _ _ Hb)).
    + exact (st_sched _ _ Hb).
    + intros t Ht. rewrite elem_of_cons, list_elem_of_singleton in Ht. unfold prios. rewrite system_thread. destruct Ht as [->| ->]; done.
    + intros b p Hp. by apply elem_of_nil in Hp.
    + intros t b p Hp. by left.
  - intros b. exists [], []. split.
    + split; [|done]. by apply (Mbox.mb_init_rep (replicate HW_LIST_SIZE 0)).
    + split_and!; try done. left. split_and!; try done. apply Hmem. unfold server, registerScheduleVA, registerHWVA. destruct b; set_solver.
Qed.

Lemma breach_binv c s : breach c s -> exists created, binv c created s.
Proof.
  intros Hr. induction Hr as [|s e s' _ [cr IH] Hp He]; [exists []; apply powered_binv|].
  pose proof (bstep_spec c cr s e IH Hp) as Hw. unfold wp in Hw. by rewrite He in Hw.
Qed.

(** C8: The station starts, in every configuration and with interrupts, sleeps and
    yields at any time: no step fails, in particular no assertion of the kernel
    and no working area used twice; the registry of threads has, after [main] and
    the idle thread, those started so far, in the order of [main], and the others
    are still to come; and, if no two sensors share an id, whenever a thread other
    than the two registry threads runs, both mailboxes are empty and the
    descriptor of every thread that has made its registration is in the table
    under its id, so that no thread ever sees a registration missing. *)
Theorem station_starts (c : config) (s : station) :
  breach c s ->
  (forall e, bpossible s e -> exists s', bstep e s = Done (tt, s')) /\
  (exists created, linked (sys s) (members created) /\ created ++ creates (todo s mainthread) = start_order c) /\
  (~ is_server (current (os (sys s))) -> forall b,
    Mbox.chMBGetUsedCountI (mail (mails s b)) = 0 /\ table (mails s b) = filed id_of (asked s b) (replicate HW_LIST_SIZE 0) /\
    (compatible c = true -> forall t, Post b (Z.of_nat t) ∈ program c t -> Post b (Z.of_nat t) ∉ todo s t ->
      table (mails s b) !! Z.to_nat (hw_id t) = Some (Z.of_nat t))).
Proof.
  intros Hr. destruct (breach_binv c s Hr) as [created H]. split; [|split].
  - intros e He. pose proof (bstep_spec c created s e H He) as Hw. unfold wp in Hw. destruct (bstep e s) as [[[] s']| |]; [eauto|done|done].
  - exists created. split; apply H.
  - intros Hns b. destruct (proj2 H b) as (sv & wt & K1 & K2 & _ & _ & K5). apply (nothing_waits c created s (proj1 H)) in K5; [|done]. subst wt.
    rewrite app_nil_r in K2. split; [by rewrite (used_count _ _ _ K1)|]. destruct K1 as (_ & _ & Htab). rewrite K2. split; [done|].
    intros Hc t Hpost Hdone. rewrite Htab, <- K2. destruct (program_post _ _ _ _ Hpost) as [_ Ht].
    assert (Hid : forall q, q ∈ asked s b -> exists x, q = Z.of_nat x /\ x ∈ start_order c /\ (4 <= x <= 12)%nat).
    { intros q Hq. destruct (f_asked _ _ _ (proj1 H) b q Hq) as (x & Hx & Hp). destruct (program_post _ _ _ _ Hp) as [-> ?]. eauto. }
    assert (Hin : Z.of_nat t ∈ asked s b) by (destruct (f_posted _ _ _ (proj1 H) t b _ Hpost); done).
    replace (hw_id t) with (id_of (Z.of_nat t)) by (unfold id_of; by rewrite Nat2Z.id). apply filed_last; [|done|done|].
    + apply Forall_forall. intros q Hq. destruct (Hid q Hq) as (x & -> & _ & Hx). unfold id_of, HW_LIST_SIZE. rewrite Nat2Z.id.
      clear -Hx. do 13 (destruct x as [|x]; [cbn; lia|]). lia.
    + intros q Hq He. destruct (Hid q Hq) as (x & -> & Hx & Hrx). destruct (Hid _ Hin) as (t' & ?%Nat2Z.inj & Ht' & _). subst t'.
      unfold id_of in He. rewrite !Nat2Z.id in He. f_equal. by apply (ids_distinct c).
Qed.

(** ** A start *)

Definition advance (e : bevent) (s : station) : station := match bstep e s with Done (_, s') => s' | _ => s end.

Lemma breach_advance c s e :
  breach c s -> bpossible s e -> (match bstep e s with Done _ => true | _ => false end) = true -> breach c (advance e s).
Proof. intros Hr Hp He. apply (breach_step c s e); [done|done|]. unfold advance. by destruct (bstep e s) as [[[] ?]| |]. Qed.

(** The configuration of [appCfg.h]. *)
Definition board_config : config := Configuration true false true true false false false true.

Fixpoint runs (n : nat) (s : station) : station := match n with O => s | S n => runs n (advance Run s) end.
Fixpoint runs_ok (n : nat) (s : station) : bool :=
  match n with O => true | S n => match bstep Run s with Done _ => runs_ok n (advance Run s) | _ => false end end.

Lemma breach_runs c n : forall s, breach c s -> runs_ok n s = true -> breach c (runs n s).
Proof.
  induction n as [|n IH]; intros s Hs Hn; [done|]. cbn [runs runs_ok] in *. destruct (bstep Run s) as [[[] s']| |] eqn:He; try done.
  apply IH; [|done]. apply breach_advance; [done|done|]. by rewrite He.
Qed.

(** [main] creates the registry threads, which name themselves and wait, and then
    the power thread, which names itself and posts its schedule; the registry
    thread files it and waits again, and the power thread goes on. *)
Definition power_runs : station := runs 11 (powered board_config).

Lemma station_starts_witness :
  table (mails power_runs Schedules) !! 4%nat = Some 4 /\ exists s', bstep (Kernel (KSleep CH_STATE_SLEEPING)) power_runs = Done (tt, s').
Proof.
  destruct (station_starts board_config power_runs) as (H1 & _ & H3).
  - apply breach_runs; [apply breach_start|]. vm_compute. reflexivity.
  - split.
    + assert (Hn : ~ is_server (current (os (sys power_runs)))).
      { assert (Hc : current (os (sys power_runs)) = 4%nat) by (vm_compute; reflexivity). rewrite Hc. by intros [?|?]. }
      destruct (H3 Hn Schedules) as (_ & _ & H4). apply (H4 eq_refl 4%nat).
      * cbn. right. left.
      * apply (bool_decide_unpack _). vm_compute. exact Logic.I.
    + apply H1. split; [split; [vm_compute; discriminate|by repeat split]|]. split; [constructor|].
      assert (Hc : current (os (sys power_runs)) = 4%nat) by (vm_compute; reflexivity). rewrite Hc. by intros [?|?].
Defined.
End Boot.
