(* ===== verification/Chprintf.v ===== *)
(** * Formatted output

    [ChibiOS/os/hal/lib/streams/chprintf.c], the formatter behind every line
    the shell prints and every command sent to the radio, with
    [CHPRINTF_USE_FLOAT] as CMakeLists.txt sets it.  The stream receives a list
    of bytes; arguments are a list, as [va_arg] takes them.

    [tmpbuf] is a buffer of 23 bytes in which every store is checked; widths and
    precisions are of type [int], whose overflow is an error, as is the negation
    of the smallest [long].

    The reference for the format language ([printed]) does not use the code: a
    number is written by the digits that denote it, without superfluous zeros,
    behind its sign, and padded to its width.  Proved: with arguments of the
    right types a format prints exactly what the reference says, and every
    store stays inside [tmpbuf], all of whose 23 bytes are needed. *)

From S2P Require Import Prelude Softfloat.

(** The bytes of a C string literal. *)
Definition bytes (s : string) : list Z :=
  map (fun a => Z.of_N (Ascii.N_of_ascii a)) (String.list_ascii_of_string s).

Definition MAX_FILLER : Z := 11.
Definition FLOAT_PRECISION : Z := 9.

(** The size of [tmpbuf]. *)
Definition TMPBUF_SIZE : Z := 2 * MAX_FILLER + 1.

(** A variadic argument: an integer of 32 bits, a pointer to a string without
    its final zero ([None] is the null pointer), a [double]. *)
Inductive arg :=
  | AInt (z : Z)
  | AStr (s : option (list Z))
  | AFlt (f : float).

(** ** Numbers *)

Definition digit_char (i : Z) : Z := if decide (i + 48 > 57) then i + 48 + (65 - 48 - 10) else i + 48.

(** The first [do ... while] of [long_to_string_with_divisor].  [radix] is
    unsigned, so [l] and [ll] are divided as 32-bit unsigned numbers; each pass
    stores one digit in front of [q].  A 32-bit number has at most 32 digits. *)
Fixpoint digits_loop (fuel : nat) (tmp : list Z) (q l ll radix : Z) : option (list Z * Z) :=
  match fuel with
  | O => None
  | S fuel =>
      tmp ← store tmp (q - 1) (digit_char (l `mod` radix));
      if decide (ll `div` radix = 0) then Some (tmp, q - 1)
      else digits_loop fuel tmp (q - 1) (l `div` radix) (ll `div` radix) radix
  end.

(** The second one: [do *p++ = *q++; while (--i);] *)
Fixpoint copy_loop (i : nat) (tmp : list Z) (p q : Z) : option (list Z * Z) :=
  match i with
  | O => Some (tmp, p)
  | S i =>
      c ← load tmp q;
      tmp ← store tmp p c;
      copy_loop i tmp (p + 1) (q + 1)
  end.

(** The buffer and the pointer [p] afterwards. *)
Definition long_to_string_with_divisor (tmp : list Z) (p num radix divisor : Z) : option (list Z * Z) :=
  let l := u32 num in
  let ll := if decide (divisor = 0) then u32 num else u32 divisor in
  '(tmp, q) ← digits_loop 32 tmp (p + MAX_FILLER) l ll radix;
  copy_loop (Z.to_nat (p + MAX_FILLER - q)) tmp p q.

Definition ch_ltoa (tmp : list Z) (p num radix : Z) : option (list Z * Z) :=
  long_to_string_with_divisor tmp p num radix 0.

(** [(long) d] saturates, not-a-number gives 0. *)
Definition f2iz (x : float) : Z :=
  match x with
  | S754_infinity s => if s then - 2 ^ 31 else 2 ^ 31 - 1
  | _ => match ftrunc x with Some z => Z.max (- 2 ^ 31) (Z.min (2 ^ 31 - 1) z) | None => 0 end
  end.

(** [pow10[precision - 1]] is the power of ten. *)
Definition ftoa (tmp : list Z) (p : Z) (num : float) (precision : Z) : option (list Z * Z) :=
  let precision := if decide (precision = 0 \/ u32 precision > FLOAT_PRECISION) then FLOAT_PRECISION else precision in
  let precision := 10 ^ precision in
  let l := f2iz num in
  '(tmp, p) ← long_to_string_with_divisor tmp p l 10 0;
  tmp ← store tmp p 46;
  let l := f2iz (SFmul 53 1024 (SFsub 53 1024 num (f64_of_Z l)) (f64_of_Z precision)) in
  long_to_string_with_divisor tmp (p + 1) l 10 (precision `div` 10).

(** ** One directive *)

Definition is_digit (c : Z) : bool := (48 <=? c) && (c <=? 57).

(** [while (true)] over the digits of a width or a precision: the number, the
    character behind it, and the rest.  [None]: the format ended. *)
Fixpoint scan_num (fmt : list Z) (v : Z) : outcome (option (Z * Z * list Z)) :=
  match fmt with
  | [] => Done None
  | c :: fmt' =>
      if is_digit c then
        if decide (v * 10 + (c - 48) < 2 ^ 31) then scan_num fmt' (v * 10 + (c - 48)) else Halt "int overflow"
      else Done (Some (v, c, fmt'))
  end.

Record directive := Directive {
  left_align : bool;
  do_sign : bool;
  filler : Z;
  width : Z;
  precision : Z;
  is_long : bool;
  command : Z
}.

(** [va_arg(ap, int)] *)
Definition next_int (ap : list arg) : outcome (Z * list arg) :=
  match ap with AInt z :: ap' => Done (s32 z, ap') | _ => Halt "va_arg" end.

(** [tmpbuf]; nothing is read from it that was not written before. *)
Definition tmpbuf : list Z := replicate (Z.to_nat TMPBUF_SIZE) 0.

(** The text from [s = tmpbuf] up to [p]. *)
Definition written (r : option (list Z * Z)) (ap : list arg) : outcome (list Z * list arg) :=
  match r with
  | Some (tmp, p) => Done (take (Z.to_nat p) tmp, ap)
  | None => Halt "tmpbuf"
  end.

(** [*p++ = '-'] or [*p++ = '+'] *)
Definition put_sign (neg plus : bool) : option (list Z * Z) :=
  if neg then tmp ← store tmpbuf 0 45; Some (tmp, 1)
  else if plus then tmp ← store tmpbuf 0 43; Some (tmp, 1)
  else Some (tmpbuf, 0).

(** The text of the argument, [s] up to [p]. *)
Definition convert (d : directive) (ap : list arg) : outcome (list Z * list arg) :=
  let number radix :=
    match ap with
    | AInt z :: ap' => written (ch_ltoa tmpbuf 0 z radix) ap'
    | _ => Halt "va_arg"
    end in
  let c := command d in
  if decide (c = 99) then
    match ap with AInt z :: ap' => written (tmp ← store tmpbuf 0 (u8 z); Some (tmp, 1)) ap' | _ => Halt "va_arg" end
  else if decide (c = 115) then
    match ap with
    | AStr s :: ap' =>
        let n := if decide (precision d = 0) then 32767 else precision d in
        if decide (n - 1 < - 2 ^ 31) then Halt "int overflow"
        else Done (take (Z.to_nat n) (default (bytes "(null)") s), ap')
    | _ => Halt "va_arg"
    end
  else if decide (c = 68 \/ c = 100 \/ c = 73 \/ c = 105) then
    match ap with
    | AInt z :: ap' =>
        let l := s32 z in
        if decide (l = - 2 ^ 31) then Halt "long overflow"
        else
          written ('(tmp, p) ← put_sign (bool_decide (l < 0)) (do_sign d);
                   ch_ltoa tmp p (if decide (l < 0) then - l else l) 10) ap'
    | _ => Halt "va_arg"
    end
  else if decide (c = 102) then
    match ap with
    | AFlt x :: ap' =>
        let f := f32_of_f64 x in
        let neg := flt f (f32_of_Z 0) in
        let f := if neg then SFopp f else f in
        written ('(tmp, p) ← put_sign neg (do_sign d); ftoa tmp p (f64_of_f32 f) (precision d)) ap'
    | _ => Halt "va_arg"
    end
  else if decide (c = 88 \/ c = 120 \/ c = 80 \/ c = 112) then number 16
  else if decide (c = 85 \/ c = 117) then number 10
  else if decide (c = 79 \/ c = 111) then number 8
  else written (tmp ← store tmpbuf 0 c; Some (tmp, 1)) ap.

(** [filler = ' '] of the cases [c] and [s]. *)
Definition filler_of (d : directive) : Z :=
  if decide (command d = 99 \/ command d = 115) then 32 else filler d.

(** The output of the field, from [i = (int)(p - s)] on: a negative [width] is
    counted up to 0 in front of the text, a positive one down behind it. *)
Definition field (d : directive) (s : list Z) : outcome (list Z) :=
  let i := Z.of_nat (length s) in
  let width := width d - i in
  if decide (width < - 2 ^ 31) then Halt "int overflow"
  else
    let width := if decide (width < 0) then 0 else width in
    let width := if left_align d then width else - width in
    let '(out, s, i, width) :=
      if decide (width < 0) then
        let '(out, s, i) :=
          match s with
          | c :: s' => if decide ((c = 45 \/ c = 43) /\ filler_of d = 48) then ([c], s', i - 1) else ([], s, i)
          | [] => ([], s, i)
          end in
        (out ++ replicate (Z.to_nat (- width)) (filler_of d), s, i, 0)
      else ([], s, i, width) in
    Done (out ++ take (Z.to_nat i) s ++ replicate (Z.to_nat width) (filler_of d)).

(** The modifiers between [%] and the command. *)
Definition opt_char (c : Z) (fmt : list Z) : bool * list Z :=
  match fmt with
  | x :: fmt' => if decide (x = c) then (true, fmt') else (false, fmt)
  | [] => (false, [])
  end.

(** [*] takes the number from the arguments, otherwise it is written out.
    [None]: the format ended. *)
Definition scan_width (fmt : list Z) (ap : list arg) : outcome (option (Z * Z * list Z * list arg)) :=
  match fmt with
  | [] => Done None
  | x :: fmt' =>
      if decide (x = 42) then
        match next_int ap, fmt' with
        | Done (w, ap'), c :: fmt'' => Done (Some (w, c, fmt'', ap'))
        | Done _, [] => Halt "fmt"
        | _, _ => Halt "va_arg"
        end
      else
        match scan_num fmt 0 with
        | Done (Some (w, c, f)) => Done (Some (w, c, f, ap))
        | Done None => Done None
        | Halt w => Halt w
        | Hang => Hang
        end
  end.

(** The number behind a point is scanned in the same way. *)
Definition scan_precision (c : Z) (fmt : list Z) (ap : list arg)
  : outcome (option (Z * Z * list Z * list arg)) :=
  if decide (c = 46) then scan_width fmt ap else Done (Some (0, c, fmt, ap)).

Definition scan_long (c : Z) (fmt : list Z) : option (bool * Z * list Z) :=
  if decide (c = 108 \/ c = 76) then
    match fmt with c' :: fmt' => Some (true, c', fmt') | [] => None end
  else Some ((65 <=? c) && (c <=? 90), c, fmt).

Definition scan_directive (fmt : list Z) (ap : list arg)
  : outcome (option (directive * list Z * list arg)) :=
  let '(la, fmt) := opt_char 45 fmt in
  let '(sign, fmt) := opt_char 43 fmt in
  let '(zero, fmt) := opt_char 48 fmt in
  match scan_width fmt ap with
  | Halt w => Halt w
  | Hang => Hang
  | Done None => Done None
  | Done (Some (width, c, fmt, ap)) =>
      match scan_precision c fmt ap with
      | Halt w => Halt w
      | Hang => Hang
      | Done None => Done None
      | Done (Some (prec, c, fmt, ap)) =>
          match scan_long c fmt with
          | None => Done None
          | Some (long, c, fmt) =>
              Done (Some (Directive la sign (if zero : bool then 48 else 32) width prec long c, fmt, ap))
          end
      end
  end.

(** ** The formatter *)

(** [chvprintf]: the bytes put on the stream, of which it returns the number.
    Each pass of the loop consumes at least one character of the format. *)
Fixpoint chvprintf (fuel : nat) (fmt : list Z) (ap : list arg) : outcome (list Z) :=
  match fuel with
  | O => Hang
  | S n =>
      match fmt with
      | [] => Done []
      | c :: fmt =>
          let continue out fmt ap :=
            match chvprintf n fmt ap with Done o => Done (out ++ o) | e => e end in
          if decide (c <> 37) then continue [c] fmt ap
          else match scan_directive fmt ap with
               | Halt w => Halt w
               | Hang => Hang
               | Done None => Done []
               | Done (Some (d, fmt, ap)) =>
                   match convert d ap with
                   | Done (s, ap) =>
                       match field d s with
                       | Done out => continue out fmt ap
                       | Halt w => Halt w
                       | Hang => Hang
                       end
                   | Halt w => Halt w
                   | Hang => Hang
                   end
               end
      end
  end.

Definition chprintf (fmt : list Z) (ap : list arg) : outcome (list Z) :=
  chvprintf (S (length fmt)) fmt ap.

Example printf_sch :
  chprintf (bytes "%6u  %11s  %6u seconds") [AInt 1; AStr (Some (bytes "BMP280")); AInt 300]
  = Done (bytes "     1       BMP280     300 seconds").
Proof. vm_compute. reflexivity. Qed.

Example printf_at : chprintf (bytes "AT+B%i") [AInt 9600] = Done (bytes "AT+B9600").
Proof. vm_compute. reflexivity. Qed.

Example printf_flt : chprintf (bytes "%8.2f|%-6d|%05d") [AFlt (f64_of_f32 (f32_lit 2508 100)); AInt 12; AInt (-7)]
  = Done (bytes "   25.07|12    |-0007").
Proof. vm_compute. reflexivity. Qed.

(** The longest text: sign, ten digits, point, and the digits of the fraction
    are first written up to the last byte of [tmpbuf]. *)
Example printf_longest : chprintf (bytes "%f") [AFlt (f64_of_Z (-2147483520))] = Done (bytes "-2147483520.000000000").
Proof. vm_compute. reflexivity. Qed.

Example tmpbuf_tight : ftoa (replicate 22 0) 1 (f64_of_Z 2147483520) 0 = None.
Proof. vm_compute. reflexivity. Qed.


(** ** The format language *)

(** The number denoted by digits, most significant first. *)
Definition value (radix : Z) (vs : list Z) : Z := foldl (fun v d => v * radix + d) 0 vs.

(** The character of a digit. *)
Definition digit_of (d : Z) : Z := nth (Z.to_nat d) (bytes "0123456789ABCDEF") 0.

(** A text of digits that denotes [n]; a numeral has no superfluous zero. *)
Definition denotes (radix n : Z) (text : list Z) : Prop :=
  exists vs, text = map digit_of vs /\ Forall (fun d => 0 <= d < radix) vs /\ value radix vs = n.
Definition numeral (radix n : Z) (text : list Z) : Prop :=
  denotes radix n text /\ text <> [] /\ (head text = Some 48 -> length text = 1%nat).

(** What a command converts; another character stands for itself. *)
Inductive conversion := CChar | CString | CSigned | CUnsigned (radix : Z) | CFloat.

Definition conversion_of (c : Z) : option conversion :=
  if decide (c ∈ bytes "c") then Some CChar
  else if decide (c ∈ bytes "s") then Some CString
  else if decide (c ∈ bytes "dDiI") then Some CSigned
  else if decide (c ∈ bytes "uU") then Some (CUnsigned 10)
  else if decide (c ∈ bytes "xXpP") then Some (CUnsigned 16)
  else if decide (c ∈ bytes "oO") then Some (CUnsigned 8)
  else if decide (c ∈ bytes "f") then Some CFloat
  else None.

Definition sign_of (neg plus : bool) : list Z :=
  if neg then bytes "-" else if plus then bytes "+" else [].

(** A precision of 1 to 9 digits, else 9. *)
Definition places (p : Z) : Z := if decide (1 <= p <= 9) then p else 9.

(** The texts of an argument, with the flag [+] and the precision [p].  A float
    is taken as a [float], its integral part saturates, and its fraction is cut
    off behind the last place. *)
Definition text_of (plus : bool) (p : Z) (cv : conversion) (a : arg) (t : list Z) : Prop :=
  match cv, a with
  | CChar, AInt z => t = [u8 z]
  | CString, AStr s => t = take (Z.to_nat (if decide (p = 0) then 32767 else p)) (default (bytes "(null)") s)
  | CSigned, AInt z =>
      exists n, numeral 10 (Z.abs (s32 z)) n /\ t = sign_of (bool_decide (s32 z < 0)) plus ++ n
  | CUnsigned radix, AInt z => numeral radix (u32 z) t
  | CFloat, AFlt x =>
      let f := f32_of_f64 x in
      let neg := flt f (f32_of_Z 0) in
      let a := f64_of_f32 (if neg then SFopp f else f) in
      let scale := 10 ^ places p in
      let rest := SFmul 53 1024 (SFsub 53 1024 a (f64_of_Z (f2iz a))) (f64_of_Z scale) in
      exists n m, numeral 10 (u32 (f2iz a)) n /\
        denotes 10 (u32 (f2iz rest) `mod` scale) m /\ Z.of_nat (length m) = places p /\
        t = sign_of neg plus ++ n ++ bytes "." ++ m
  | _, _ => False
  end.

(** A text in a field of [w] characters: blanks, or zeros behind the sign, in
    front of it; behind it if it is aligned on the left. *)
Definition padded (left zero : bool) (w : Z) (t : list Z) : list Z :=
  let pad := replicate (Z.to_nat (w - Z.of_nat (length t))) (if zero then 48 else 32) in
  if left then t ++ pad
  else match t with
       | c :: t' => if zero && bool_decide (c ∈ bytes "-+") then c :: pad ++ t' else pad ++ t
       | [] => pad
       end.

(** A directive as it is written: flags, width, precision, [l] or [L], command;
    a star takes a number from the arguments. *)
Inductive number := Digits (ds : list Z) | Star.

Record dsyntax := DSyntax {
  ds_left : bool;
  ds_sign : bool;
  ds_zero : bool;
  ds_width : number;
  ds_prec : option number;
  ds_long : option Z;
  ds_command : Z
}.

Inductive piece :=
  | Lit (c : Z)
  | Dir (x : dsyntax).

(** The value of the digits of a width or a precision. *)
Definition num_of (ds : list Z) : Z := value 10 (map (fun c => c - 48) ds).

Definition take_number (n : number) (ap : list arg) : option (Z * list arg) :=
  match n, ap with
  | Digits ds, _ => Some (num_of ds, ap)
  | Star, AInt z :: ap => Some (s32 z, ap)
  | Star, _ => None
  end.

Definition take_precision (n : option number) (ap : list arg) : option (Z * list arg) :=
  match n with Some n => take_number n ap | None => Some (0, ap) end.

(** Characters and strings are never padded with zeros. *)
Definition zero_filled (x : dsyntax) (cv : option conversion) : bool :=
  ds_zero x && negb (match cv with Some CChar | Some CString => true | _ => false end).

(** What a format prints with its arguments. *)
Inductive printed : list piece -> list arg -> list Z -> Prop :=
  | printed_end ap : printed [] ap []
  | printed_lit c ps ap out : printed ps ap out -> printed (Lit c :: ps) ap (c :: out)
  | printed_arg x ps ap w ap1 p a ap2 cv t out :
      take_number (ds_width x) ap = Some (w, ap1) -> take_precision (ds_prec x) ap1 = Some (p, a :: ap2) ->
      conversion_of (ds_command x) = Some cv -> text_of (ds_sign x) p cv a t ->
      printed ps ap2 out ->
      printed (Dir x :: ps) ap (padded (ds_left x) (zero_filled x (Some cv)) w t ++ out)
  | printed_other x ps ap w ap1 p ap2 out :
      take_number (ds_width x) ap = Some (w, ap1) -> take_precision (ds_prec x) ap1 = Some (p, ap2) ->
      conversion_of (ds_command x) = None ->
      printed ps ap2 out ->
      printed (Dir x :: ps) ap (padded (ds_left x) (zero_filled x None) w [ds_command x] ++ out).

(** The text of a format. *)
Definition show_number (n : number) : list Z := match n with Digits ds => ds | Star => bytes "*" end.

Definition show_directive (x : dsyntax) : list Z :=
  (if ds_left x then bytes "-" else []) ++ (if ds_sign x then bytes "+" else []) ++
  (if ds_zero x then bytes "0" else []) ++ show_number (ds_width x) ++
  (match ds_prec x with Some p => bytes "." ++ show_number p | None => [] end) ++
  (match ds_long x with Some c => [c] | None => [] end) ++ [ds_command x].

Definition show_piece (p : piece) : list Z :=
  match p with Lit c => [c] | Dir x => bytes "%" ++ show_directive x end.

(** A command character is a letter other than the modifiers [l] and [L], or the
    per cent sign. *)
Definition is_command (c : Z) : bool :=
  (((65 <=? c) && (c <=? 90)) || ((97 <=? c) && (c <=? 122)) || (c =? 37))
  && negb (c =? 108) && negb (c =? 76).

(** Digits that denote an [int]. *)
Definition number_ok (n : number) : bool :=
  match n with Digits ds => forallb is_digit ds && (num_of ds <? 2 ^ 31) | Star => true end.

(** A width does not begin with a zero, which is the flag. *)
Definition dsyntax_ok (x : dsyntax) : bool :=
  number_ok (ds_width x) && negb (bool_decide (head (show_number (ds_width x)) = Some 48)) &&
  number_ok (default Star (ds_prec x)) &&
  match ds_long x with Some c => bool_decide (c ∈ bytes "lL") | None => true end &&
  is_command (ds_command x).

Definition piece_ok (p : piece) : bool :=
  match p with Lit c => negb (c =? 37) | Dir x => dsyntax_ok x end.

(** The argument has the type the conversion asks for; the smallest [long] has
    no negation. *)
Definition arg_ok (cv : conversion) (a : arg) : bool :=
  match cv, a with
  | CSigned, AInt z => negb (s32 z =? - 2 ^ 31)
  | (CChar | CUnsigned _), AInt _ => true
  | CString, AStr _ => true
  | CFloat, AFlt _ => true
  | _, _ => false
  end.

(** A width [w] and a precision [p] with which the [int]s do not overflow: all
    those written as digits, and stars unless they are near the smallest [int]. *)
Definition ints_ok (w p : Z) : bool := (- 2 ^ 31 <=? w - Z.max 32767 p) && (- 2 ^ 31 <? p).

(** The arguments fit the directives, in order. *)
Fixpoint well_typed (ps : list piece) (ap : list arg) : bool :=
  match ps with
  | [] => true
  | Lit _ :: ps => well_typed ps ap
  | Dir x :: ps =>
      match take_number (ds_width x) ap with
      | None => false
      | Some (w, ap) =>
          match take_precision (ds_prec x) ap with
          | None => false
          | Some (p, ap) =>
              ints_ok w p &&
              match conversion_of (ds_command x) with
              | None => well_typed ps ap
              | Some cv => match ap with a :: ap => arg_ok cv a && well_typed ps ap | [] => false end
              end
          end
      end
  end.

(** ** Digits in the buffer *)

Lemma value_snoc radix vs d : value radix (vs ++ [d]) = value radix vs * radix + d.
Proof. unfold value. by rewrite foldl_app. Qed.

Lemma digit_char_of d : 0 <= d < 16 -> digit_char d = digit_of d.
Proof.
  intros Hd. assert (Hin : d ∈ [0; 1; 2; 3; 4; 5; 6; 7; 8; 9; 10; 11; 12; 13; 14; 15]) by (rewrite !elem_of_cons; lia).
  repeat (apply elem_of_cons in Hin as [->|Hin]; [reflexivity|]). by apply elem_of_nil in Hin.
Qed.

Lemma value_range radix vs :
  0 < radix -> Forall (fun d => 0 <= d < radix) vs -> 0 <= value radix vs < radix ^ Z.of_nat (length vs).
Proof.
  intros Hr. induction vs as [|d vs IH] using rev_ind; intros Hvs; [cbn; lia|].
  apply Forall_app in Hvs as [Hvs Hd]. apply Forall_cons in Hd as [Hd _]. specialize (IH Hvs).
  rewrite value_snoc, length_app, Nat2Z.inj_add. change (Z.of_nat (length [d])) with 1.
  rewrite Z.pow_add_r, Z.pow_1_r by lia. nia.
Qed.

(** Digits written in front of [q]: as many as [ll] has, the last ones of [l]. *)
Definition digits_of (l ll radix : Z) (vs : list Z) : Prop :=
  Forall (fun d => 0 <= d < radix) vs /\ (1 <= length vs)%nat /\
  value radix vs = l `mod` radix ^ Z.of_nat (length vs) /\ ll < radix ^ Z.of_nat (length vs) /\
  ((1 < length vs)%nat -> radix ^ (Z.of_nat (length vs) - 1) <= ll).

Lemma digits_of_one l ll radix : 2 <= radix -> ll `div` radix = 0 -> 0 <= ll -> digits_of l ll radix [l `mod` radix].
Proof.
  intros Hr Hz Hll. pose proof (Z.mod_pos_bound l radix ltac:(lia)). split_and!; cbn [length].
  - constructor; [done|constructor].
  - lia.
  - rewrite Z.pow_1_r. cbn. lia.
  - rewrite Z.pow_1_r. apply Z.div_small_iff in Hz; lia.
  - lia.
Qed.

Lemma digits_of_step l ll radix vs :
  2 <= radix -> 0 <= ll -> digits_of (l `div` radix) (ll `div` radix) radix vs ->
  ll `div` radix <> 0 -> digits_of l ll radix (vs ++ [l `mod` radix]).
Proof.
  intros Hr Hll (Hvs & Hlen & Hv & Hlt & Hge) Hz. pose proof (Z.mod_pos_bound l radix ltac:(lia)).
  assert (Hn : Z.of_nat (length (vs ++ [l `mod` radix])) = Z.of_nat (length vs) + 1) by (rewrite length_app; cbn; lia).
  pose proof (Z.pow_pos_nonneg radix (Z.of_nat (length vs)) ltac:(lia) ltac:(lia)) as Hpos.
  pose proof (Z.div_mod ll radix ltac:(lia)). pose proof (Z.mod_pos_bound ll radix ltac:(lia)).
  split_and!.
  - apply Forall_app. split; [done|]. constructor; [done|constructor].
  - rewrite length_app. cbn. lia.
  - rewrite Hn, value_snoc, Hv, Z.pow_add_r, Z.pow_1_r, Z.mul_comm by lia.
    rewrite (Z.mul_comm (radix ^ _) radix), Z.rem_mul_r by lia. lia.
  - rewrite Hn, Z.pow_add_r, Z.pow_1_r by lia. nia.
  - intros _. rewrite Hn. replace (Z.of_nat (length vs) + 1 - 1) with (Z.of_nat (length vs) - 1 + 1) by lia.
    rewrite Z.pow_add_r, Z.pow_1_r by lia.
    destruct (decide (length vs = 1)%nat) as [->|]; [cbn; pose proof (Z.div_pos ll radix); nia|].
    specialize (Hge ltac:(lia)). nia.
Qed.

Lemma digits_loop_spec radix k : 2 <= radix <= 16 -> forall fuel tmp q l ll,
  0 <= ll < radix ^ Z.of_nat k -> (0 < k <= fuel)%nat -> Z.of_nat k <= q <= Z.of_nat (length tmp) ->
  exists vs tmp', digits_loop fuel tmp q l ll radix = Some (tmp', q - Z.of_nat (length vs)) /\
    digits_of l ll radix vs /\ (length vs <= k)%nat /\
    tmp' = take (Z.to_nat q - length vs) tmp ++ map digit_of vs ++ drop (Z.to_nat q) tmp.
Proof.
  intros Hr. induction k as [|k IH]; intros [|fuel] tmp q l ll Hll Hf Hq; try lia. cbn [digits_loop].
  pose proof (Z.mod_pos_bound l radix ltac:(lia)) as Hm.
  rewrite store_in by lia. cbn [mbind option_bind]. rewrite digit_char_of by lia.
  assert (Hst : <[Z.to_nat (q - 1) := digit_of (l `mod` radix)]> tmp
    = take (Z.to_nat q - 1) tmp ++ [digit_of (l `mod` radix)] ++ drop (Z.to_nat q) tmp).
  { rewrite insert_take_drop by lia. replace (Z.to_nat (q - 1)) with (Z.to_nat q - 1)%nat by lia.
    by replace (S (Z.to_nat q - 1)) with (Z.to_nat q) by lia. }
  case_decide as Hz.
  - exists [l `mod` radix], (<[Z.to_nat (q - 1) := digit_of (l `mod` radix)]> tmp).
    split; [done|]. split; [apply digits_of_one; lia|]. cbn [length]. split; [lia|]. exact Hst.
  - assert (Hk : (0 < k)%nat).
    { destruct k; [|lia]. exfalso. apply Hz, Z.div_small. rewrite Z.pow_1_r in Hll. lia. }
    destruct (IH fuel (<[Z.to_nat (q - 1) := digit_of (l `mod` radix)]> tmp) (q - 1) (l `div` radix) (ll `div` radix))
      as (vs & tmp' & -> & Hds & Hlen & ->); [|lia|rewrite length_insert; lia|].
    { split; [apply Z.div_pos; lia|]. apply Z.div_lt_upper_bound; [lia|].
      rewrite <- Z.pow_succ_r by lia. rewrite <- Nat2Z.inj_succ. lia. }
    exists (vs ++ [l `mod` radix]). eexists. rewrite length_app. cbn [length]. split; [f_equal; f_equal; lia|].
    split; [apply digits_of_step; (done || lia)|]. split; [lia|].
    rewrite map_app, Hst. cbn [map]. rewrite <- !app_assoc. f_equal.
    + rewrite take_app_le by (rewrite length_take; lia). rewrite take_take. f_equal. lia.
    + f_equal. rewrite drop_app_length' by (rewrite length_take; lia). done.
Qed.

Lemma copy_loop_spec i : forall tmp p q,
  0 <= p <= q -> q + Z.of_nat i <= Z.of_nat (length tmp) ->
  exists tmp', copy_loop i tmp p q = Some (tmp', p + Z.of_nat i) /\ length tmp' = length tmp /\
    take (Z.to_nat p + i) tmp' = take (Z.to_nat p) tmp ++ take i (drop (Z.to_nat q) tmp).
Proof.
  induction i as [|i IH]; intros tmp p q Hp Hq; cbn [copy_loop].
  - exists tmp. rewrite Z.add_0_r, Nat.add_0_r. cbn [take]. by rewrite app_nil_r.
  - rewrite load_lookup by lia. destruct (lookup_lt_is_Some_2 tmp (Z.to_nat q)) as [c Hc]; [lia|]. rewrite Hc. cbn [mbind option_bind].
    rewrite store_in by lia. cbn [mbind option_bind].
    destruct (IH (<[Z.to_nat p := c]> tmp) (p + 1) (q + 1)) as (tmp' & -> & Hlen & Htake); [lia|rewrite length_insert; lia|].
    exists tmp'. split; [f_equal; f_equal; lia|]. split; [by rewrite Hlen, length_insert|].
    replace (Z.to_nat (p + 1) + i)%nat with (Z.to_nat p + S i)%nat in Htake by lia. rewrite Htake.
    replace (Z.to_nat (p + 1)) with (S (Z.to_nat p)) by lia. replace (Z.to_nat (q + 1)) with (S (Z.to_nat q)) by lia.
    rewrite (take_S_r _ _ c) by (apply list_lookup_insert_eq; lia).
    rewrite take_insert_ge, drop_insert_lt by lia. rewrite (drop_S tmp c (Z.to_nat q)) by done. cbn [take].
    by rewrite <- app_assoc.
Qed.

(** The digits of a number are appended to what is in the buffer up to [p]. *)
Lemma long_to_string_spec tmp p num radix divisor k :
  2 <= radix <= 16 -> 2 ^ 32 <= radix ^ Z.of_nat k -> (0 < k <= 11)%nat -> 0 <= p -> p + 11 <= Z.of_nat (length tmp) ->
  exists vs tmp', long_to_string_with_divisor tmp p num radix divisor = Some (tmp', p + Z.of_nat (length vs)) /\
    length tmp' = length tmp /\
    take (Z.to_nat (p + Z.of_nat (length vs))) tmp' = take (Z.to_nat p) tmp ++ map digit_of vs /\
    digits_of (u32 num) (if decide (divisor = 0) then u32 num else u32 divisor) radix vs /\ (length vs <= k)%nat.
Proof.
  intros Hr Hk Hk11 Hp Hlen. unfold long_to_string_with_divisor, MAX_FILLER.
  set (ll := if decide (divisor = 0) then u32 num else u32 divisor).
  assert (Hll : 0 <= ll < 2 ^ 32) by (pose proof (u32_range num); pose proof (u32_range divisor); unfold ll; case_decide; lia).
  destruct (digits_loop_spec radix k Hr 32 tmp (p + 11) (u32 num) ll) as (vs & tmp1 & -> & Hds & Hvk & ->); [lia|lia|lia|].
  assert (Hl : (length vs <= 11)%nat) by lia. cbn [mbind option_bind].
  replace (Z.to_nat (p + 11 - (p + 11 - Z.of_nat (length vs)))) with (length vs) by lia.
  set (tmp1 := take _ tmp ++ _).
  assert (Ht : length tmp1 = length tmp).
  { unfold tmp1. rewrite !length_app, length_map, length_take, length_drop. lia. }
  destruct (copy_loop_spec (length vs) tmp1 p (p + 11 - Z.of_nat (length vs))) as (tmp' & -> & Hlen' & Htake); [lia|lia|].
  exists vs, tmp'. split; [done|]. split; [by rewrite Hlen'|]. split; [|done].
  replace (Z.to_nat (p + Z.of_nat (length vs))) with (Z.to_nat p + length vs)%nat by lia. rewrite Htake. unfold tmp1. f_equal.
  - rewrite take_app_le by (rewrite length_take; lia). rewrite take_take. f_equal. lia.
  - rewrite drop_app_length' by (rewrite length_take; lia). by rewrite take_app_length' by (by rewrite length_map).
Qed.

Lemma digit_of_zero d : 0 <= d < 16 -> digit_of d = 48 -> d = 0.
Proof. intros Hd. rewrite <- digit_char_of by done. unfold digit_char. case_decide; lia. Qed.

(** Without a divisor the digits are the numeral. *)
Lemma digits_numeral l radix vs :
  2 <= radix <= 16 -> 0 <= l -> digits_of l l radix vs -> numeral radix l (map digit_of vs).
Proof.
  intros Hr Hl (Hvs & Hlen & Hv & Hlt & Hge). rewrite Z.mod_small in Hv by lia. split; [by exists vs|].
  destruct vs as [|d vs]; cbn in Hlen; [lia|]. split; [done|]. cbn [map head]. intros [= Hd]. rewrite length_cons, length_map.
  destruct vs as [|d' vs]; [done|]. exfalso. apply Forall_cons in Hvs as [Hd0 Hvs].
  apply digit_of_zero in Hd as ->; [|lia]. specialize (Hge ltac:(cbn; lia)).
  assert (Hlow : value radix (0 :: d' :: vs) = value radix (d' :: vs)) by done. rewrite Hlow in Hv.
  pose proof (value_range radix (d' :: vs) ltac:(lia) Hvs) as Hrange. rewrite Hv in Hrange.
  cbn [length] in Hge, Hrange. replace (Z.of_nat (S (S (length vs))) - 1) with (Z.of_nat (S (length vs))) in Hge by lia. lia.
Qed.

Lemma ltoa_spec tmp p num radix :
  radix = 8 \/ radix = 10 \/ radix = 16 -> 0 <= p -> p + 11 <= Z.of_nat (length tmp) ->
  exists n tmp', ch_ltoa tmp p num radix = Some (tmp', p + Z.of_nat (length n)) /\ length tmp' = length tmp /\
    take (Z.to_nat (p + Z.of_nat (length n))) tmp' = take (Z.to_nat p) tmp ++ n /\
    numeral radix (u32 num) n /\ (length n <= if decide (radix = 10%Z) then 10 else 11)%nat.
Proof.
  intros Hr Hp Hlen. unfold ch_ltoa. pose proof (u32_range num).
  destruct (long_to_string_spec tmp p num radix 0 (if decide (radix = 10) then 10%nat else 11%nat))
    as (vs & tmp' & -> & Hl & Ht & Hds & Hk); [lia|destruct Hr as [->|[->| ->]]; by vm_compute|case_decide; lia|done|done|].
  exists (map digit_of vs), tmp'. rewrite length_map. split_and!; try done. apply digits_numeral; [lia|lia|done].
Qed.

Lemma places_spec p :
  (if decide (p = 0 \/ u32 p > FLOAT_PRECISION) then FLOAT_PRECISION else p) = places p \/ ~ (- 2 ^ 31 < p < 2 ^ 31).
Proof.
  destruct (decide (- 2 ^ 31 < p < 2 ^ 31)); [left|by right]. unfold places, FLOAT_PRECISION, u32.
  destruct (decide (0 <= p)).
  - rewrite Z.mod_small by lia. repeat case_decide; lia.
  - rewrite <- (Z.mod_add p 1), Z.mod_small by lia. rewrite decide_True by lia. by rewrite decide_False by lia.
Qed.

(** The fraction has exactly the places asked for. *)
Lemma fraction_spec tmp p num n :
  1 <= n <= 9 -> 0 <= p -> p + 11 <= Z.of_nat (length tmp) ->
  exists m tmp', long_to_string_with_divisor tmp p num 10 (10 ^ n `div` 10) = Some (tmp', p + Z.of_nat (length m)) /\
    take (Z.to_nat (p + Z.of_nat (length m))) tmp' = take (Z.to_nat p) tmp ++ m /\
    denotes 10 (u32 num `mod` 10 ^ n) m /\ Z.of_nat (length m) = n.
Proof.
  intros Hn Hp Hlen.
  destruct (long_to_string_spec tmp p num 10 (10 ^ n `div` 10) 10) as (vs & tmp' & -> & _ & Ht & Hds & Hk); [lia|cbn; lia|lia|done|done|].
  assert (Hdiv : 10 ^ n `div` 10 = 10 ^ (n - 1)).
  { replace n with (n - 1 + 1) at 1 by lia. rewrite Z.pow_add_r, Z.pow_1_r by lia. apply Z.div_mul. lia. }
  assert (Hpos : 0 < 10 ^ (n - 1) < 2 ^ 32).
  { split; [apply Z.pow_pos_nonneg; lia|]. apply Z.le_lt_trans with (10 ^ 8); [apply Z.pow_le_mono_r; lia|cbn; lia]. }
  rewrite Hdiv in *. rewrite decide_False, (u32_small (10 ^ (n - 1))) in Hds by lia. destruct Hds as (Hvs & H1 & Hv & Hlt & Hge).
  assert (Hlen' : Z.of_nat (length vs) = n).
  { apply Z.pow_lt_mono_r_iff in Hlt; [|lia|lia]. destruct (decide (length vs = 1)%nat) as [He|]; [lia|].
    specialize (Hge ltac:(lia)). apply Z.pow_le_mono_r_iff in Hge; lia. }
  exists (map digit_of vs), tmp'. rewrite length_map. split_and!; try done. exists vs. by rewrite <- Hlen'.
Qed.

(** ** Conversions *)

Lemma tmpbuf_length : Z.of_nat (length tmpbuf) = 23.
Proof. reflexivity. Qed.

Lemma put_sign_spec neg plus :
  exists tmp p, put_sign neg plus = Some (tmp, p) /\ Z.of_nat (length tmp) = 23 /\ 0 <= p <= 1 /\
    take (Z.to_nat p) tmp = sign_of neg plus.
Proof. destruct neg, plus; (eexists _, _; split; [reflexivity|]); by split_and!. Qed.

Lemma sign_of_length neg plus : (length (sign_of neg plus) <= 1)%nat.
Proof. destruct neg, plus; cbn; lia. Qed.

Lemma places_range p : 1 <= places p <= 9.
Proof. unfold places. case_decide; lia. Qed.

Lemma ftoa_spec tmp p x prec :
  - 2 ^ 31 < prec < 2 ^ 31 -> 0 <= p <= 1 -> Z.of_nat (length tmp) = 23 ->
  let scale := 10 ^ places prec in
  let rest := SFmul 53 1024 (SFsub 53 1024 x (f64_of_Z (f2iz x))) (f64_of_Z scale) in
  exists n m tmp' p', ftoa tmp p x prec = Some (tmp', p') /\
    take (Z.to_nat p') tmp' = take (Z.to_nat p) tmp ++ n ++ bytes "." ++ m /\
    numeral 10 (u32 (f2iz x)) n /\ denotes 10 (u32 (f2iz rest) `mod` scale) m /\
    (length n <= 10)%nat /\ Z.of_nat (length m) = places prec.
Proof.
  intros Hprec Hp Hlen scale rest. unfold ftoa.
  assert (Hpl : (if decide (prec = 0 \/ u32 prec > FLOAT_PRECISION) then FLOAT_PRECISION else prec) = places prec)
    by (destruct (places_spec prec); [done|lia]). rewrite Hpl. fold scale. fold rest.
  destruct (ltoa_spec tmp p (f2iz x) 10) as (n & tmp1 & He & Hl1 & Ht1 & Hn & Hk); [auto|lia|lia|].
  rewrite decide_True in Hk by done. unfold ch_ltoa in He. rewrite He. cbn [mbind option_bind].
  set (p1 := p + Z.of_nat (length n)) in *. rewrite store_in by lia. cbn [mbind option_bind].
  set (tmp2 := <[Z.to_nat p1 := 46]> tmp1).
  destruct (fraction_spec tmp2 (p1 + 1) (f2iz rest) (places prec)) as (m & tmp3 & He3 & Ht3 & Hm & Hml);
    [apply places_range|lia|unfold tmp2; rewrite length_insert; lia|].
  fold scale in He3, Hm. rewrite He3. exists n, m, tmp3, (p1 + 1 + Z.of_nat (length m)). split; [done|]. split; [|done].
  rewrite Ht3. replace (Z.to_nat (p1 + 1)) with (S (Z.to_nat p1)) by lia. unfold tmp2.
  rewrite (take_S_r _ _ 46) by (apply list_lookup_insert_eq; lia). rewrite take_insert_ge by lia. rewrite Ht1.
  by rewrite <- !app_assoc.
Qed.

(** The cases of the code's [switch]. *)
Lemma conversion_cases c cv :
  conversion_of c = Some cv ->
  match cv with
  | CChar => c = 99
  | CString => c = 115
  | CSigned => c = 68 \/ c = 100 \/ c = 73 \/ c = 105
  | CUnsigned radix =>
      (radix = 10 /\ (c = 85 \/ c = 117)) \/ (radix = 16 /\ (c = 88 \/ c = 120 \/ c = 80 \/ c = 112)) \/
      (radix = 8 /\ (c = 79 \/ c = 111))
  | CFloat => c = 102
  end.
Proof.
  unfold conversion_of. cbn [bytes String.list_ascii_of_string map].
  repeat (case_decide as Hc; [intros [= <-]; rewrite ?elem_of_cons, ?elem_of_nil in Hc; cbn in Hc; intuition|clear Hc]).
  done.
Qed.

Lemma no_conversion c :
  conversion_of c = None -> c <> 99 /\ c <> 115 /\ c <> 68 /\ c <> 100 /\ c <> 73 /\ c <> 105 /\ c <> 102 /\ c <> 88 /\ c <> 120 /\
    c <> 80 /\ c <> 112 /\ c <> 85 /\ c <> 117 /\ c <> 79 /\ c <> 111.
Proof. intros H. split_and!; intros ->; discriminate H. Qed.

Lemma written_spec tmp p t ap : take (Z.to_nat p) tmp = t -> written (Some (tmp, p)) ap = Done (t, ap).
Proof. by intros <-. Qed.

(** The number of characters of a text that is not cut by the width. *)
Definition short (p : Z) (t : list Z) : Prop := Z.of_nat (length t) <= Z.max 32767 p.

Ltac case_command Hc := unfold convert; cbn zeta;
  repeat first [rewrite decide_True by lia | rewrite decide_False by lia].

Lemma convert_unsigned d z ap radix :
  conversion_of (command d) = Some (CUnsigned radix) ->
  exists t, convert d (AInt z :: ap) = Done (t, ap) /\ numeral radix (u32 z) t /\ (length t <= 11)%nat.
Proof.
  intros Hc%conversion_cases.
  destruct (ltoa_spec tmpbuf 0 z radix) as (n & tmp & He & _ & Ht & Hn & Hk); [lia|lia|by rewrite tmpbuf_length|].
  assert (Hlen : (length n <= 11)%nat) by (revert Hk; case_decide; lia). rewrite Z.add_0_l in *. cbn [take Z.to_nat app] in Ht.
  exists n. split; [|done]. destruct Hc as [[-> Hc]|[[-> Hc]|[-> Hc]]]; case_command Hc; rewrite He; by apply written_spec.
Qed.

Lemma convert_signed d z ap :
  conversion_of (command d) = Some CSigned -> s32 z <> - 2 ^ 31 ->
  exists n, convert d (AInt z :: ap) = Done (sign_of (bool_decide (s32 z < 0)) (do_sign d) ++ n, ap) /\
    numeral 10 (Z.abs (s32 z)) n /\ (length n <= 11)%nat.
Proof.
  intros Hc%conversion_cases Hmin. destruct (put_sign_spec (bool_decide (s32 z < 0)) (do_sign d)) as (tmp & p & Hs & Hl & Hp & Ht).
  pose proof (s32_range z).
  destruct (ltoa_spec tmp p (if decide (s32 z < 0) then - s32 z else s32 z) 10) as (n & tmp' & He & _ & Htn & Hn & Hk); [auto|lia|lia|].
  rewrite decide_True in Hk by done. rewrite u32_small in Hn by (case_decide; lia).
  exists n. split_and!; [|replace (Z.abs (s32 z)) with (if decide (s32 z < 0) then - s32 z else s32 z); [done|case_decide; lia]|lia].
  case_command Hc. rewrite Hs. cbn [mbind option_bind]. rewrite He. apply written_spec. by rewrite Htn, Ht.
Qed.

Lemma convert_float d x ap :
  conversion_of (command d) = Some CFloat -> - 2 ^ 31 < precision d < 2 ^ 31 ->
  exists t, convert d (AFlt x :: ap) = Done (t, ap) /\ text_of (do_sign d) (precision d) CFloat (AFlt x) t /\ (length t <= 23)%nat.
Proof.
  intros Hc%conversion_cases Hprec. set (f := f32_of_f64 x). set (neg := flt f (f32_of_Z 0)).
  destruct (put_sign_spec neg (do_sign d)) as (tmp & p & Hs & Hl & Hp & Ht).
  destruct (ftoa_spec tmp p (f64_of_f32 (if neg then SFopp f else f)) (precision d) Hprec Hp Hl)
    as (n & m & tmp' & p' & He & Htake & Hn & Hm & Hln & Hlm).
  exists (sign_of neg (do_sign d) ++ n ++ bytes "." ++ m). split_and!.
  - case_command Hc. fold f. fold neg. rewrite Hs. cbn [mbind option_bind]. rewrite He. apply written_spec. by rewrite Htake, Ht.
  - by exists n, m.
  - pose proof (sign_of_length neg (do_sign d)). pose proof (places_range (precision d)).
    rewrite !length_app. cbn [bytes length String.list_ascii_of_string map]. lia.
Qed.

Lemma convert_spec d cv a ap :
  conversion_of (command d) = Some cv -> arg_ok cv a = true -> - 2 ^ 31 < precision d < 2 ^ 31 ->
  exists t, convert d (a :: ap) = Done (t, ap) /\ text_of (do_sign d) (precision d) cv a t /\ short (precision d) t.
Proof.
  intros Hc Ha Hp. unfold short. destruct cv as [| | |radix|], a as [z|s|x]; try done.
  - apply conversion_cases in Hc. exists [u8 z]. split; [|split; [done|cbn; lia]]. case_command Hc. by apply written_spec.
  - apply conversion_cases in Hc. eexists. split; [case_command Hc|split; [done|]].
    + rewrite decide_False by (case_decide; lia). done.
    + rewrite length_take. case_decide; lia.
  - cbn [arg_ok] in Ha. apply negb_true_iff, Z.eqb_neq in Ha.
    destruct (convert_signed d z ap Hc Ha) as (n & He & Hn & Hk). eexists. split; [exact He|]. split; [by exists n|].
    pose proof (sign_of_length (bool_decide (s32 z < 0)) (do_sign d)). rewrite length_app. lia.
  - destruct (convert_unsigned d z ap radix Hc) as (t & He & Hn & Hk). exists t. split; [done|]. split; [done|lia].
  - destruct (convert_float d x ap Hc Hp) as (t & He & Ht & Hk). exists t. split; [done|]. split; [done|lia].
Qed.

Lemma convert_other d ap : conversion_of (command d) = None -> convert d ap = Done ([command d], ap).
Proof. intros Hc%no_conversion. case_command Hc. by apply written_spec. Qed.

(** The output of a field is the padded text. *)
Lemma field_spec d t (zero : bool) :
  filler_of d = (if zero then 48 else 32) -> - 2 ^ 31 <= width d - Z.of_nat (length t) ->
  field d t = Done (padded (left_align d) zero (width d) t).
Proof.
  intros Hf Hw. unfold field, padded. rewrite decide_False, Hf by lia. f_equal. set (w := width d - Z.of_nat (length t)).
  replace (if decide (w < 0) then 0 else w) with (Z.max w 0) by (case_decide; lia).
  assert (Hz : Z.to_nat (Z.max w 0) = Z.to_nat w) by lia.
  destruct (left_align d).
  - rewrite decide_False, Nat2Z.id, firstn_all by lia. cbn [app]. by rewrite Hz.
  - destruct (decide (- Z.max w 0 < 0)) as [Hneg|Hneg].
    + replace (- - Z.max w 0) with (Z.max w 0) by lia. rewrite Hz. destruct t as [|c t']; [cbn; by rewrite !app_nil_r|].
      assert (Hd : (c = 45 \/ c = 43) <-> c ∈ bytes "-+") by (cbn [bytes String.list_ascii_of_string map]; rewrite !elem_of_cons, elem_of_nil; cbn; intuition).
      rewrite (decide_ext ((c = 45 \/ c = 43) /\ (if zero then 48 else 32) = 48) (c ∈ bytes "-+" /\ zero = true)) by (rewrite Hd; destruct zero; intuition discriminate). destruct zero; cbn [andb].
      * case_decide as Hs.
        -- rewrite bool_decide_true by apply Hs. rewrite length_cons, (take_ge t') by lia. cbn [app replicate Z.to_nat]. by rewrite app_nil_r.
        -- rewrite bool_decide_false by (intros ?; by apply Hs). rewrite Nat2Z.id, firstn_all. cbn [app replicate Z.to_nat]. by rewrite app_nil_r.
      * rewrite decide_False by (by intros [_ ?]). rewrite Nat2Z.id, firstn_all. cbn [app replicate Z.to_nat]. by rewrite app_nil_r.
    + replace (Z.to_nat w) with 0%nat by lia. replace (Z.to_nat (- Z.max w 0)) with 0%nat by lia.
      rewrite Nat2Z.id, firstn_all. cbn [replicate app]. rewrite app_nil_r. destruct t as [|c t]; [done|].
      by destruct (zero && bool_decide (c ∈ bytes "-+")).
Qed.

(** ** The scanner *)

Definition more (v : Z) (ds : list Z) : Z := foldl (fun v d => v * 10 + d) v (map (fun c => c - 48) ds).

Lemma more_le v ds : 0 <= v -> forallb is_digit ds = true -> v <= more v ds.
Proof.
  revert v. induction ds as [|c ds IH]; intros v Hv Hd; [cbn; lia|]. cbn in Hd. apply andb_prop in Hd as [Hc Hd].
  apply andb_prop in Hc as [?%Z.leb_le ?%Z.leb_le]. specialize (IH (v * 10 + (c - 48)) ltac:(lia) Hd).
  change (more v (c :: ds)) with (more (v * 10 + (c - 48)) ds). lia.
Qed.

Lemma scan_num_digits ds c fmt v :
  0 <= v -> forallb is_digit ds = true -> more v ds < 2 ^ 31 -> is_digit c = false ->
  scan_num (ds ++ c :: fmt) v = Done (Some (more v ds, c, fmt)).
Proof.
  intros Hv Hds Hb Hc. revert v Hv Hb. induction ds as [|x ds IH]; intros v Hv Hb; cbn [app scan_num].
  - by rewrite Hc.
  - cbn in Hds. apply andb_prop in Hds as [Hx Hds]. rewrite Hx. apply andb_prop in Hx as [?%Z.leb_le ?%Z.leb_le].
    change (more v (x :: ds)) with (more (v * 10 + (x - 48)) ds) in *.
    pose proof (more_le (v * 10 + (x - 48)) ds ltac:(lia) Hds). rewrite decide_True by lia. apply IH; [done|lia|done].
Qed.

Lemma head_digit ds c fmt x :
  forallb is_digit ds = true -> is_digit x = false -> c <> x -> head (ds ++ c :: fmt) <> Some x.
Proof. destruct ds as [|d ds]; cbn; [congruence|]. intros Hd%andb_prop Hx _ [= ->]. destruct Hd. congruence. Qed.

(** A number, written or from the arguments. *)
Lemma scan_number n c fmt ap w ap' :
  number_ok n = true -> take_number n ap = Some (w, ap') -> is_digit c = false -> c <> 42 ->
  scan_width (show_number n ++ c :: fmt) ap = Done (Some (w, c, fmt, ap')).
Proof.
  intros Hok Hn Hc Hs. destruct n as [ds|].
  - cbn [take_number] in Hn. injection Hn as <- <-. cbn [number_ok] in Hok. apply andb_prop in Hok as [Hd Hb%Z.ltb_lt].
    pose proof (head_digit ds c fmt 42 Hd eq_refl Hs) as Hh. cbn [show_number].
    pose proof (scan_num_digits ds c fmt 0 ltac:(lia) Hd Hb Hc) as Hscan. unfold scan_width.
    destruct (ds ++ c :: fmt) as [|x l] eqn:E; [by destruct ds|].
    rewrite decide_False by (cbn in Hh; congruence). by rewrite Hscan.
  - cbn [take_number] in Hn. destruct ap as [|[z|s|f] ap]; try done. by injection Hn as <- <-.
Qed.

Lemma opt_char_if c (b : bool) fmt :
  head fmt <> Some c -> opt_char c ((if b then [c] else []) ++ fmt) = (b, fmt).
Proof.
  intros Hh. destruct b; cbn; [by rewrite decide_True|]. destruct fmt as [|x fmt]; [done|]. cbn in Hh |- *.
  rewrite decide_False; [done|congruence].
Qed.

Lemma is_command_facts c :
  is_command c = true -> is_digit c = false /\ c <> 42 /\ c <> 46 /\ c <> 45 /\ c <> 43 /\ c <> 48 /\
  c <> 108 /\ c <> 76.
Proof.
  unfold is_command, is_digit. intros H.
  repeat (apply andb_prop in H as [H ?]).
  rewrite !orb_true_iff, !andb_true_iff, !Z.leb_le, Z.eqb_eq in H.
  rewrite negb_true_iff, Z.eqb_neq in *. rewrite andb_false_iff, !Z.leb_gt. lia.
Qed.

(** What the scanner makes of a directive, with the width and precision. *)
Definition meaning (x : dsyntax) (w p : Z) : directive :=
  Directive (ds_left x) (ds_sign x) (if ds_zero x then 48 else 32) w p
    (match ds_long x with Some _ => true | None => (65 <=? ds_command x) && (ds_command x <=? 90) end) (ds_command x).

Lemma scan_long_show lo cm fmt :
  match lo with Some c => bool_decide (c ∈ bytes "lL") | None => true end = true -> is_command cm = true ->
  exists c f, (match lo with Some c => [c] | None => [] end ++ [cm]) ++ fmt = c :: f /\
    scan_long c f = Some (match lo with Some _ => true | None => (65 <=? cm) && (cm <=? 90) end, cm, fmt) /\
    is_digit c = false /\ c <> 42 /\ c <> 46 /\ c <> 45 /\ c <> 43 /\ c <> 48.
Proof.
  intros Hlo Hc. destruct (is_command_facts cm Hc) as (Hd & Hne). unfold scan_long.
  destruct lo as [c|]; cbn.
  - apply bool_decide_eq_true in Hlo. exists c, (cm :: fmt). split; [done|].
    cbn [bytes String.list_ascii_of_string map] in Hlo. rewrite !elem_of_cons, elem_of_nil in Hlo.
    destruct Hlo as [->|[->|[]]]; by split_and!.
  - exists cm, fmt. split_and!; try (done || lia). rewrite decide_False by lia. done.
Qed.

Definition show_tail (x : dsyntax) : list Z :=
  (match ds_prec x with Some p => bytes "." ++ show_number p | None => [] end) ++
  (match ds_long x with Some c => [c] | None => [] end) ++ [ds_command x].

Lemma scan_tail_show x fmt ap p ap' w :
  number_ok (default Star (ds_prec x)) = true -> take_precision (ds_prec x) ap = Some (p, ap') ->
  match ds_long x with Some c => bool_decide (c ∈ bytes "lL") | None => true end = true -> is_command (ds_command x) = true ->
  exists c f, show_tail x ++ fmt = c :: f /\
    is_digit c = false /\ c <> 42 /\ c <> 45 /\ c <> 43 /\ c <> 48 /\
    exists c' f', scan_precision c f ap = Done (Some (p, c', f', ap')) /\
      scan_long c' f' = Some (is_long (meaning x w p), ds_command x, fmt).
Proof.
  intros Hp Htp Hlo Hc. destruct (scan_long_show (ds_long x) _ fmt Hlo Hc) as (c & f & He & Hl & Hd & H42 & H46 & H45 & H43 & H48).
  unfold show_tail. rewrite <- app_assoc, He. unfold scan_precision.
  destruct (ds_prec x) as [n|] eqn:Ep; cbn [app take_precision default] in *.
  - exists 46, (show_number n ++ c :: f). split_and!; try done. exists c, f. rewrite decide_True by done.
    by rewrite (scan_number n c f ap p ap').
  - injection Htp as <- <-. exists c, f. split_and!; try done. exists c, f. by rewrite decide_False by done.
Qed.

Lemma head_number n c fmt x :
  number_ok n = true -> is_digit x = false -> x <> 42 -> c <> x -> head (show_number n ++ c :: fmt) <> Some x.
Proof.
  intros Hn Hx H42 Hc. destruct n as [ds|]; [|intros [= Hx']; by rewrite <- Hx' in H42]. cbn in Hn. apply andb_prop in Hn as [Hn _]. by apply head_digit.
Qed.

Lemma precision_range n ap p ap' :
  number_ok (default Star n) = true -> take_precision n ap = Some (p, ap') -> p < 2 ^ 31.
Proof.
  destruct n as [[ds|]|]; cbn [default take_precision take_number number_ok].
  - intros [_ Hb%Z.ltb_lt]%andb_prop [= <- _]. done.
  - intros _. destruct ap as [|[z|s|f] ap]; try done. intros [= <- _]. pose proof (s32_range z). lia.
  - intros _ [= <- _]. lia.
Qed.

(** The scanner reads back every directive that is written. *)
Lemma scan_directive_show x fmt ap w ap1 p ap2 :
  dsyntax_ok x = true -> take_number (ds_width x) ap = Some (w, ap1) -> take_precision (ds_prec x) ap1 = Some (p, ap2) ->
  scan_directive (show_directive x ++ fmt) ap = Done (Some (meaning x w p, fmt, ap2)).
Proof.
  intros Hok Hw Hp. unfold dsyntax_ok in Hok. repeat (apply andb_prop in Hok as [Hok ?]).
  destruct (scan_tail_show x fmt ap1 p ap2 w) as (c & f & He & Hd & H42 & H45 & H43 & H48 & c' & f' & Hpr & Hl); [done..|].
  assert (head (show_number (ds_width x) ++ c :: f) <> Some 48).
  { match goal with H : negb _ = true |- _ => apply negb_true_iff, bool_decide_eq_false in H; rename H into Hz end.
    destruct (show_number (ds_width x)); cbn in *; congruence. }
  unfold scan_directive, show_directive. fold (show_tail x). rewrite <- !app_assoc, He.
  change (bytes "-") with [45]. change (bytes "+") with [43]. change (bytes "0") with [48].
  rewrite opt_char_if.
  2: { destruct (ds_sign x), (ds_zero x); try done; by apply head_number. }
  rewrite opt_char_if by (destruct (ds_zero x); [done|by apply head_number]).
  rewrite opt_char_if by done. rewrite (scan_number _ _ _ _ w ap1) by done. rewrite Hpr, Hl.
  by destruct x.
Qed.

(** ** Whole formats *)

Lemma filler_spec x w p cv :
  conversion_of (ds_command x) = cv -> filler_of (meaning x w p) = if zero_filled x cv then 48 else 32.
Proof.
  intros Hc. unfold filler_of, zero_filled. cbn [command filler meaning].
  destruct cv as [[| | |radix|]|]; [apply conversion_cases in Hc..|apply no_conversion in Hc];
    first [rewrite decide_True by lia | rewrite decide_False by lia]; by destruct (ds_zero x).
Qed.

(** A directive prints its field and the scan goes on behind it. *)
Lemma directive_prints x ps fmt ap fuel :
  dsyntax_ok x = true -> well_typed (Dir x :: ps) ap = true ->
  (forall ap', well_typed ps ap' = true -> exists out, chvprintf fuel fmt ap' = Done out /\ printed ps ap' out) ->
  exists out, chvprintf (S fuel) (bytes "%" ++ show_directive x ++ fmt) ap = Done out /\ printed (Dir x :: ps) ap out.
Proof.
  intros Hok Hw Hrest. cbn [well_typed] in Hw. destruct (take_number (ds_width x) ap) as [[w ap1]|] eqn:Ew; [|done].
  destruct (take_precision (ds_prec x) ap1) as [[p ap2]|] eqn:Ep; [|done]. apply andb_prop in Hw as [Hi Hw].
  unfold ints_ok in Hi. apply andb_prop in Hi as [Hi1%Z.leb_le Hi2%Z.ltb_lt].
  change (bytes "%" ++ show_directive x ++ fmt) with (37 :: show_directive x ++ fmt). cbn [chvprintf].
  rewrite decide_False by (intros ?; done). rewrite (scan_directive_show x fmt ap w ap1 p ap2) by done.
  destruct (conversion_of (ds_command x)) as [cv|] eqn:Ec.
  - destruct ap2 as [|a ap2]; [done|]. apply andb_prop in Hw as [Ha Hw].
    assert (Hp31 : p < 2 ^ 31).
    { unfold dsyntax_ok in Hok. repeat (apply andb_prop in Hok as [Hok ?]). by eapply precision_range. }
    destruct (convert_spec (meaning x w p) cv a ap2 Ec Ha ltac:(cbn; lia)) as (t & -> & Ht & Hs).
    rewrite (field_spec _ t (zero_filled x (Some cv))) by (by apply filler_spec || (unfold short in Hs; cbn in *; lia)).
    destruct (Hrest ap2 Hw) as (o & -> & Ho). eexists. split; [done|]. by eapply printed_arg.
  - rewrite convert_other by done. rewrite (field_spec _ _ (zero_filled x None)) by (by apply filler_spec || (cbn; lia)).
    destruct (Hrest ap2 Hw) as (o & -> & Ho). eexists. split; [done|]. by eapply printed_other.
Qed.

Lemma show_length p : (1 <= length (show_piece p))%nat.
Proof. destruct p; cbn; lia. Qed.

Lemma pieces_length ps : (length ps <= length (concat (map show_piece ps)))%nat.
Proof.
  induction ps as [|p ps IH]; cbn; [lia|]. pose proof (show_length p). rewrite length_app. lia.
Qed.

Lemma chvprintf_prints ps : forall ap fuel,
  forallb piece_ok ps = true -> well_typed ps ap = true -> (length ps < fuel)%nat ->
  exists out, chvprintf fuel (concat (map show_piece ps)) ap = Done out /\ printed ps ap out.
Proof.
  induction ps as [|[c|x] ps IH]; intros ap [|fuel] Hok Hw Hf; try (cbn in Hf; lia);
    [exists []; by split; [|constructor]|..];
    cbn [forallb] in Hok; apply andb_prop in Hok as [Hp Hok]; cbn in Hf; cbn [map concat show_piece].
  - cbn in Hp. apply negb_true_iff, Z.eqb_neq in Hp. cbn [app chvprintf]. rewrite decide_True by done.
    destruct (IH ap fuel) as (out & -> & Ho); [done|done|lia|]. exists (c :: out). by split; [|constructor].
  - rewrite <- app_assoc. apply directive_prints; [done|done|]. intros ap' Hw'. apply IH; [done|done|lia].
Qed.

Lemma chprintf_prints ps ap :
  forallb piece_ok ps = true -> well_typed ps ap = true ->
  exists out, chprintf (concat (map show_piece ps)) ap = Done out /\ printed ps ap out.
Proof. intros Hok Hw. apply chvprintf_prints; [done|done|]. pose proof (pieces_length ps). lia. Qed.

Lemma chprintf_total ps ap :
  forallb piece_ok ps = true -> well_typed ps ap = true ->
  exists out, chprintf (concat (map show_piece ps)) ap = Done out.
Proof. intros Hok Hw. destruct (chprintf_prints ps ap Hok Hw) as (out & He & _). eauto. Qed.

(** ** The reference determines the output *)

Lemma value_inj radix vs vs' :
  0 < radix -> Forall (fun d => 0 <= d < radix) vs -> Forall (fun d => 0 <= d < radix) vs' ->
  length vs = length vs' -> value radix vs = value radix vs' -> vs = vs'.
Proof.
  intros Hr. revert vs'. induction vs as [|d vs IH] using rev_ind; intros vs' Hvs Hvs' Hlen Hv; [by destruct vs'|].
  destruct vs' as [|d' vs'] using rev_ind; [rewrite length_app in Hlen; cbn in Hlen; lia|clear IHvs'].
  apply Forall_app in Hvs as [Hvs [Hd _]%Forall_cons]. apply Forall_app in Hvs' as [Hvs' [Hd' _]%Forall_cons].
  rewrite !value_snoc in Hv. rewrite !length_app in Hlen. cbn in Hlen.
  assert (d = d') as ->.
  { apply (f_equal (fun x => x `mod` radix)) in Hv. rewrite !(Z.add_comm (_ * radix)), !Z.mod_add, !Z.mod_small in Hv by lia. done. }
  f_equal. apply IH; [done|done|lia|nia].
Qed.

Lemma denotes_inj radix n t t' :
  0 < radix -> denotes radix n t -> denotes radix n t' -> length t = length t' -> t = t'.
Proof.
  intros Hr (vs & -> & Hvs & Hn) (vs' & -> & Hvs' & Hn'). rewrite !length_map. intros Hl.
  f_equal. apply (value_inj radix); [done..|congruence].
Qed.

(** The length of a numeral is fixed by the number. *)
Lemma numeral_length radix n t :
  2 <= radix <= 16 -> numeral radix n t -> (1 <= length t)%nat /\ n < radix ^ Z.of_nat (length t) /\
    ((1 < length t)%nat -> radix ^ (Z.of_nat (length t) - 1) <= n).
Proof.
  intros Hr ((vs & -> & Hvs & <-) & Hne & Hz). rewrite length_map. pose proof (value_range radix vs ltac:(lia) Hvs).
  destruct vs as [|d vs]; [done|]. split; [cbn; lia|]. split; [lia|]. intros Hlen. cbn [length] in *.
  replace (Z.of_nat (S (length vs)) - 1) with (Z.of_nat (length vs)) by lia.
  apply Forall_cons in Hvs as [Hd Hvs]. assert (d <> 0).
  { intros ->. cbn [map head length] in Hz. rewrite length_map in Hz. specialize (Hz eq_refl). lia. }
  assert (Hsplit : value radix (d :: vs) = d * radix ^ Z.of_nat (length vs) + value radix vs).
  { clear. unfold value. cbn [foldl]. rewrite Z.mul_0_l, Z.add_0_l.
    assert (Hg : forall v, foldl (fun v d => v * radix + d) v vs = v * radix ^ Z.of_nat (length vs) + foldl (fun v d => v * radix + d) 0 vs).
    { induction vs as [|x vs IH]; intros v; [cbn; lia|]. cbn [foldl length]. rewrite IH, (IH (0 * radix + x)), Nat2Z.inj_succ, Z.pow_succ_r by lia. lia. }
    apply Hg. }
  pose proof (value_range radix vs ltac:(lia) Hvs). rewrite Hsplit.
  pose proof (Z.pow_pos_nonneg radix (Z.of_nat (length vs)) ltac:(lia) ltac:(lia)). nia.
Qed.

Lemma numeral_inj radix n t t' : 2 <= radix <= 16 -> numeral radix n t -> numeral radix n t' -> t = t'.
Proof.
  intros Hr Hn Hn'. apply (denotes_inj radix n); [lia|apply Hn|apply Hn'|].
  destruct (numeral_length radix n t Hr Hn) as (H1 & H2 & H3), (numeral_length radix n t' Hr Hn') as (H1' & H2' & H3').
  assert (Hle : forall a b : list Z, (1 <= length a)%nat -> n < radix ^ Z.of_nat (length a) ->
    ((1 < length b)%nat -> radix ^ (Z.of_nat (length b) - 1) <= n) -> (length b <= length a)%nat).
  { intros a b Ha Hlt Hge. destruct (decide (1 < length b)%nat) as [Hb|]; [|lia]. specialize (Hge Hb).
    assert (Hpow : radix ^ (Z.of_nat (length b) - 1) < radix ^ Z.of_nat (length a)) by lia.
    apply Z.pow_lt_mono_r_iff in Hpow; lia. }
  apply Nat.le_antisymm; by apply Hle.
Qed.

Lemma conversion_radix c radix : conversion_of c = Some (CUnsigned radix) -> 2 <= radix <= 16.
Proof. intros H%conversion_cases. lia. Qed.

Lemma text_of_inj c plus p cv a t t' :
  conversion_of c = Some cv -> text_of plus p cv a t -> text_of plus p cv a t' -> t = t'.
Proof.
  intros Hc. destruct cv as [| | |radix|], a as [z|s|x]; cbn [text_of]; try done.
  - by intros -> ->.
  - by intros -> ->.
  - intros (n & Hn & ->) (n' & Hn' & ->). by rewrite (numeral_inj 10 _ n n' ltac:(lia) Hn Hn').
  - apply numeral_inj. by eapply conversion_radix.
  - intros (n & m & Hn & Hm & Hl & ->) (n' & m' & Hn' & Hm' & Hl' & ->).
    rewrite (numeral_inj 10 _ n n' ltac:(lia) Hn Hn'). by rewrite (denotes_inj 10 _ m m' ltac:(lia) Hm Hm' ltac:(lia)).
Qed.

Lemma printed_inj ps ap out out' : printed ps ap out -> printed ps ap out' -> out = out'.
Proof.
  intros H. revert out'. induction H as [|c ps ap out _ IH|x ps ap w ap1 p a ap2 cv t out Hw Hp Hc Ht _ IH|x ps ap w ap1 p ap2 out Hw Hp Hc _ IH];
    intros out' H'; inversion H' as [|? ? ? ? Hr|? ? ? ? ? ? ? ? ? ? ? Hw' Hp' Hc' Ht' Hr|? ? ? ? ? ? ? ? Hw' Hp' Hc' Hr]; subst.
  - done.
  - f_equal. by apply IH.
  - rewrite Hw' in Hw. injection Hw as -> ->. rewrite Hp' in Hp. injection Hp as -> -> ->. rewrite Hc' in Hc. injection Hc as ->.
    rewrite (text_of_inj _ _ _ _ _ _ _ Hc' Ht Ht'). f_equal. by apply IH.
  - congruence.
  - congruence.
  - rewrite Hw' in Hw. injection Hw as -> ->. rewrite Hp' in Hp. injection Hp as -> ->. f_equal. by apply IH.
Qed.

(** C29: The formatter prints what its format language says.  For every format
    made of ordinary characters and directives, with any flags, widths and
    precisions (written or taken from the arguments by a star), the modifiers
    [l] and [L], and arguments of the types the directives ask for (a number
    taken by a star must not be within 32767 of the smallest [int], and the
    smallest [long] is not printed as signed): the output is the one the
    reference [printed] relates to the format and the arguments, and no other.
    There each number is the numeral that denotes it in its
    radix, without superfluous zeros, behind its sign, a float has exactly the
    places asked for, and a field is padded on the right side with the right
    character. *)
Theorem chprintf_renders_format ps ap out :
  forallb piece_ok ps = true -> well_typed ps ap = true ->
  (chprintf (concat (map show_piece ps)) ap = Done out <-> printed ps ap out).
Proof.
  intros Hok Hw. destruct (chprintf_prints ps ap Hok Hw) as (o & He & Hp). rewrite He. split.
  - by intros [= <-].
  - intros Ho. by rewrite (printed_inj _ _ _ _ Hp Ho).
Qed.

Definition radio_format : list piece :=
  map Lit (bytes "AT+B") ++ [Dir (DSyntax false false false (Digits []) None None 105)].

(** The table of registered devices: a right-aligned number, a star for the
    width of the name, and a hexadecimal address with zeros. *)
Definition table_format : list piece :=
  [Dir (DSyntax false false false (Digits (bytes "6")) None None 117); Lit 32;
   Dir (DSyntax true false false Star None None 115); Lit 32;
   Dir (DSyntax false false true (Digits (bytes "8")) None (Some 76) 120)].

Lemma chprintf_renders_format_witness :
  concat (map show_piece table_format) = bytes "%6u %-*s %08Lx" /\
  printed table_format [AInt 300; AInt 8; AStr (Some (bytes "BMP280")); AInt 64202] (bytes "   300 BMP280   0000FACA").
Proof.
  split; [reflexivity|].
  apply (chprintf_renders_format table_format [AInt 300; AInt 8; AStr (Some (bytes "BMP280")); AInt 64202]); reflexivity.
Defined.

(** C30: Formats do not go wrong: whenever the arguments have the types the
    directives ask for, every directive prints, with any flags, any width and
    precision that is an [int] (a number taken by a star must not be within
    32767 of the smallest one, and the smallest [long] is not printed as signed):
    no argument is missing, no [int] overflows, and every store, of the signs,
    of the digits from the end and of their copies, is inside the 23 bytes of
    [tmpbuf]. *)
Theorem chprintf_type_safe ps ap :
  forallb piece_ok ps = true -> well_typed ps ap = true ->
  exists out, chprintf (concat (map show_piece ps)) ap = Done out.
Proof. apply chprintf_total. Qed.

Lemma chprintf_type_safe_witness :
  exists out, chprintf (concat (map show_piece radio_format)) [AInt 9600] = Done out.
Proof. apply (chprintf_type_safe radio_format [AInt 9600]); reflexivity. Defined.

(** ** Reading integers *)

(** [atoi]: blanks, an optional sign, digits. *)
Definition is_space (c : Z) : bool := (c =? 32) || ((9 <=? c) && (c <=? 13)).

Fixpoint atoi_digits (s : list Z) (v : Z) : Z :=
  match s with
  | c :: s' => if is_digit c then atoi_digits s' (v * 10 + (c - 48)) else v
  | [] => v
  end.

Fixpoint skip_space (s : list Z) : list Z :=
  match s with
  | c :: s' => if is_space c then skip_space s' else s
  | [] => []
  end.

Definition atoi (s : list Z) : Z :=
  match skip_space s with
  | c :: s' => if decide (c = 45) then - atoi_digits s' 0
               else if decide (c = 43) then atoi_digits s' 0
               else atoi_digits (c :: s') 0
  | [] => 0
  end.

Lemma atoi_digits_app ds r v :
  forallb is_digit ds = true -> (forall c, head r = Some c -> is_digit c = false) ->
  atoi_digits (ds ++ r) v = more v ds.
Proof.
  intros Hd Hr. revert v. induction ds as [|c ds IH]; intros v; cbn.
  - destruct r as [|c r]; [done|]. cbn. by rewrite Hr.
  - cbn in Hd. apply andb_prop in Hd as [-> Hd]. by apply IH.
Qed.

Lemma atoi_plain c s : is_digit c = true -> atoi (c :: s) = atoi_digits (c :: s) 0.
Proof.
  intros [?%Z.leb_le ?%Z.leb_le]%andb_prop. unfold atoi. cbn [skip_space].
  replace (is_space c) with false; [by rewrite !decide_False by lia|].
  symmetry. unfold is_space. rewrite orb_false_iff, Z.eqb_neq, andb_false_iff, !Z.leb_gt. lia.
Qed.

Lemma digit_of_decimal d : 0 <= d < 10 -> is_digit (digit_of d) = true /\ digit_of d - 48 = d.
Proof.
  intros Hd. rewrite <- digit_char_of by lia. unfold digit_char, is_digit. rewrite decide_False by lia.
  rewrite andb_true_iff, !Z.leb_le. lia.
Qed.

(** The decimal numeral of a number reads back as it. *)
Lemma atoi_numeral n t : numeral 10 n t -> atoi t = n.
Proof.
  intros ((vs & -> & Hvs & <-) & Hne & _). destruct vs as [|d vs]; [done|].
  assert (Hds : forall vs, Forall (fun d => 0 <= d < 10) vs ->
    forallb is_digit (map digit_of vs) = true /\ map (fun c => c - 48) (map digit_of vs) = vs).
  { clear. induction 1 as [|x vs Hx _ [IH1 IH2]]; [done|]. destruct (digit_of_decimal x Hx) as [H1 H2].
    cbn [map forallb]. by rewrite H1, H2, IH1, IH2. }
  destruct (Hds _ Hvs) as [Hd Hv]. change (map digit_of (d :: vs)) with (digit_of d :: map digit_of vs) in *. rewrite atoi_plain by (by apply andb_prop in Hd as [? _]).
  rewrite <- (app_nil_r (_ :: map digit_of vs)), atoi_digits_app by done. unfold more. by rewrite Hv.
Qed.
