(* ===== verification/HwDesc.v ===== *)
(** * Sensor descriptors and the shell's tables

    The descriptor each thread registers ([src/src/threads/hwListThread.h]) and
    the shell commands that print all of them ([cmd_hw], [cmd_values] of
    [src/src/shell/shellCmd.c]).  Proved here: the two commands print every
    registered table without a formatting error. *)

From S2P Require Import Prelude Softfloat Chprintf.

Definition HW_LIST_VALUES_SIZE : nat := 10.

Inductive hwType_e := VALUE_TYPE_SENSOR | VALUE_TYPE_TRANSMITTER.
Inductive hwStatus_e := HW_STATUS_UNKNOWN | HW_STATUS_OK | HW_STATUS_ERROR.
Inductive valueFormatter_e :=
  VALUE_FORMATTER_NONE | VALUE_FORMATTER_100 | VALUE_FORMATTER_100_P100 | VALUE_FORMATTER_BOOL.

#[global] Instance hwType_eq_dec : EqDecision hwType_e.
Proof. solve_decision. Defined.
#[global] Instance hwStatus_eq_dec : EqDecision hwStatus_e.
Proof. solve_decision. Defined.
#[global] Instance formatter_eq_dec : EqDecision valueFormatter_e.
Proof. solve_decision. Defined.

(** A name is a pointer to a literal; [None] is the null pointer of an unused
    value. *)
Record sensorValue_t := SensorValue {
  value : Z;
  formatter : valueFormatter_e;
  name : option string
}.

Record hw_t := Hw {
  id : Z;
  hw_name : string;
  hw_status : hwStatus_e;
  type : hwType_e;
  values : list sensorValue_t
}.

(** The names the tables print. *)
Definition HW_STATUS_LIST (s : hwStatus_e) : string :=
  match s with HW_STATUS_UNKNOWN => "UNKNOWN" | HW_STATUS_OK => "OK" | HW_STATUS_ERROR => "ERROR" end.
Definition HW_TYPE_LIST (t : hwType_e) : string :=
  match t with VALUE_TYPE_SENSOR => "SENSOR" | VALUE_TYPE_TRANSMITTER => "TRANSMITTER" end.

Definition str (s : string) : arg := AStr (Some (bytes s)).

(** Sequencing of outputs. *)
Definition cat (a b : outcome (list Z)) : outcome (list Z) :=
  match a with
  | Done x => match b with Done y => Done (x ++ y) | e => e end
  | e => e
  end.

Definition newline : list Z := [13; 10].

(** [cmd_hw]: one line for each entry of the table that is not null. *)
Fixpoint cmd_hw (hwList : list (option hw_t)) : outcome (list Z) :=
  match hwList with
  | [] => Done []
  | None :: l => cmd_hw l
  | Some h :: l =>
      cat (chprintf (bytes "%6u  %11s  %10s  %10s" ++ newline)
             [AInt (id h); str (HW_TYPE_LIST (type h)); str (hw_name h); str (HW_STATUS_LIST (hw_status h))])
          (cmd_hw l)
  end.

(** The number [cmd_values] shows. *)
Definition shown (v : sensorValue_t) : float :=
  let value := f32_of_Z (value v) in
  if decide (formatter v = VALUE_FORMATTER_100_P100) then
    f32_sub (f32_div value (f32_of_Z 100)) (f32_of_Z 100)
  else if decide (formatter v = VALUE_FORMATTER_100) then f32_div value (f32_of_Z 100)
  else value.

(** One value of a sensor. *)
Definition print_value (v : sensorValue_t) : outcome (list Z) :=
  match name v with
  | None => Done []
  | Some n =>
      if decide (formatter v = VALUE_FORMATTER_BOOL) then
        chprintf (bytes "%15s: %3s  " ++ newline)
          [str n; str (if decide (value v <> 0) then "ON" else "OFF")]
      else
        chprintf (bytes "%15s: %.2f  " ++ newline) [str n; AFlt (f64_of_f32 (shown v))]
  end.

Fixpoint print_values (vs : list sensorValue_t) : outcome (list Z) :=
  match vs with
  | [] => Done []
  | v :: vs => cat (print_value v) (print_values vs)
  end.

Fixpoint cmd_values (hwList : list (option hw_t)) : outcome (list Z) :=
  match hwList with
  | [] => Done []
  | Some h :: l =>
      if decide (type h = VALUE_TYPE_SENSOR) then cat (print_values (values h)) (cmd_values l)
      else cmd_values l
  | None :: l => cmd_values l
  end.

(** 23.45 degrees are stored as 12345. *)
Example values_temperature :
  cmd_values [None; Some (Hw 1 "BMP280" HW_STATUS_OK VALUE_TYPE_SENSOR
    [SensorValue 12345 VALUE_FORMATTER_100_P100 (Some "Tempeature"); SensorValue 0 VALUE_FORMATTER_BOOL None])]
  = Done (bytes "     Tempeature: 23.44  " ++ newline).
Proof. vm_compute. reflexivity. Qed.

(** ** The tables always print *)

(** The three formats as their pieces. *)
Definition plain (s : string) : list piece := map Lit (bytes s).
Definition dir (width : string) (prec : option string) (c : Z) : piece :=
  Dir (DSyntax false false false (Digits (bytes width)) ((fun p => Digits (bytes p)) <$> prec) None c).

Definition hw_format : list piece :=
  [dir "6" None 117] ++ plain "  " ++ [dir "11" None 115] ++ plain "  " ++ [dir "10" None 115] ++ plain "  "
  ++ [dir "10" None 115] ++ map Lit newline.
Definition bool_format : list piece :=
  [dir "15" None 115] ++ plain ": " ++ [dir "3" None 115] ++ plain "  " ++ map Lit newline.
Definition float_format : list piece :=
  [dir "15" None 115] ++ plain ": " ++ [dir "" (Some "2") 102] ++ plain "  " ++ map Lit newline.

Lemma cat_done a b : (exists x, a = Done x) -> (exists y, b = Done y) -> exists z, cat a b = Done z.
Proof. intros [x ->] [y ->]. cbn. eauto. Qed.

Lemma print_value_done v : exists out, print_value v = Done out.
Proof.
  unfold print_value. destruct (name v) as [n|]; [|eauto]. case_decide.
  - by apply (chprintf_total bool_format).
  - by apply (chprintf_total float_format).
Qed.

Lemma print_values_done vs : exists out, print_values vs = Done out.
Proof. induction vs as [|v vs IH]; [by eexists|]. apply cat_done; [apply print_value_done|done]. Qed.

(** The commands [hw] and [values] print every table of descriptors to the
    end, whatever numbers, formatters and names the sensor threads stored. *)
Theorem tables_always_print l :
  (exists out, cmd_hw l = Done out) /\ (exists out, cmd_values l = Done out).
Proof.
  induction l as [|[h|] l [IH1 IH2]]; [split; by eexists| |done]. cbn [cmd_hw cmd_values]. split.
  - apply cat_done; [|done]. by apply (chprintf_total hw_format).
  - case_decide; [|done]. apply cat_done; [apply print_values_done|done].
Qed.
