(* ===== verification/Commands.v ===== *)
(** * The shell commands about the system

    [cmd_threads], [cmd_mem], [cmd_sch] and [cmd_sleep] of
    [src/src/shell/shellCmd.c].  [threads] walks along the registry of [Threads]
    and prints a line for each thread; the bytes it reads between a thread's
    [wabase] and its [thread_t] are a parameter, for other threads write them.
    [mem] prints what [chHeapStatus] and [chCoreGetStatusX] count.  [sch] is the command of [Config] with its arguments
    and its table as text.  [sleep] writes two registers.

    Proved: [threads] prints exactly the registered threads, each with a use
    between 0 and 100 per cent, the part of those bytes that differ from the fill
    value, and leaves the reference counters as they were; the heap's numbers are
    the count, the sum and the maximum of its free blocks; the texts of [sch] reach the configuration
    as numbers; after [sleep] the idle thread stops the clocks whenever it runs. *)

From stdpp Require Import functions.
From S2P Require Import Prelude Oslib Sched Threads Softfloat Chprintf HwDesc Config.
Import Sched Threads.

Module Commands.

(** ** The table of threads *)

Definition CH_DBG_STACK_FILL_VALUE : Z := 85.

Definition CH_STATE_NAMES (st : tstate_t) : string :=
  match st with
  | CH_STATE_READY => "READY" | CH_STATE_CURRENT => "CURRENT" | CH_STATE_WTSTART => "WTSTART"
  | CH_STATE_SUSPENDED => "SUSPENDED" | CH_STATE_QUEUED => "QUEUED" | CH_STATE_WTSEM => "WTSEM"
  | CH_STATE_WTMTX => "WTMTX" | CH_STATE_WTCOND => "WTCOND" | CH_STATE_SLEEPING => "SLEEPING"
  | CH_STATE_WTEXIT => "WTEXIT" | CH_STATE_WTOREVT => "WTOREVT" | CH_STATE_WTANDEVT => "WTANDEVT"
  | CH_STATE_SNDMSGQ => "SNDMSGQ" | CH_STATE_SNDMSG => "SNDMSG" | CH_STATE_WTMSG => "WTMSG"
  | CH_STATE_FINAL => "FINAL"
  end.

(** The loop over the bytes from [wabase] to the thread. *)
Fixpoint count_fill (bytes : list Z) (n : Z) : Z :=
  match bytes with
  | [] => n
  | b :: bytes => count_fill bytes (if decide (b = CH_DBG_STACK_FILL_VALUE) then u32 (n + 1) else n)
  end.

Definition used_pct (sz n : Z) : Z := u32 (100 - u32 (n * 100) `div` sz).

(** Text from [chprintf] in a command that changes the system. *)
Definition emit {S} (o : outcome (list Z)) : M S (list Z) := fun s =>
  match o with Done x => Done (x, s) | Halt w => Halt w | Hang => Hang end.

Definition thread_fmt : list Z := bytes "%6u   %6u  %6u%%   %3u      %9s %12s" ++ newline.

Definition shellUsage (message : string) : outcome (list Z) := chprintf (bytes "Usage: %s" ++ newline) [str message].

Section threads.
(** What the command takes for the stack of a thread: the bytes from its [wabase]
    up to its [thread_t].  They are the stack of a thread created on a working
    area; the [thread_t] of [main] is in the kernel instance, so for [main] they
    are the memory from the base of its stack up to there. *)
Context (area : nat -> list Z).

Definition thread_row (y : tsys) (tp : nat) : list arg :=
  let sz := Z.of_nat (length (area tp)) in
  let n := count_fill (area tp) 0 in
  [AInt sz; AInt (u32 (sz - n)); AInt (used_pct sz n); AInt (u32 (realprio y tp));
   str (CH_STATE_NAMES (state (thd (os y) tp))); str (Threads.name y tp)].

(** [n * 100 / sz] is defined when there is such a byte. *)
Definition thread_line (tp : nat) : T (list Z) :=
  let! y := get in
  assert (0 <? Z.of_nat (length (area tp))) "division by zero" ;;;
  emit (chprintf thread_fmt (thread_row y tp)).

Fixpoint threads_loop (fuel : nat) (tp : nat) : T (list Z) :=
  match fuel with
  | O => hang
  | S fuel =>
      let! line := thread_line tp in
      let! o := chRegNextThread tp in
      match o with
      | None => ret line
      | Some tp => let! rest := threads_loop fuel tp in ret (line ++ rest)
      end
  end.

Definition threads_head : outcome (list Z) :=
  cat (chprintf (bytes "  size    used   used %%     prio     state         name" ++ newline) [])
      (chprintf (bytes "--------------------------------------------------------------------" ++ newline) []).

Definition cmd_threads (fuel : nat) (argc : nat) : T (list Z) :=
  if decide (0 < argc)%nat then emit (shellUsage "threads")
  else
    let! head := emit threads_head in
    let! tp := chRegFirstThread in
    let! lines := threads_loop fuel tp in
    ret (head ++ lines).

End threads.

(** ** The memory *)

Definition CH_HEAP_ALIGNMENT : Z := 8.

(** The free blocks of the heap, by their sizes in pages, and the bounds of the
    memory no allocator has taken. *)
Record memory := Memory { free_pages : list Z; basemem : Z; topmem : Z }.

(** [(n, tpages, lpages)] after the blocks. *)
Fixpoint heap_loop (blocks : list Z) (n tpages lpages : Z) : Z * Z * Z :=
  match blocks with
  | [] => (n, tpages, lpages)
  | pages :: blocks =>
      heap_loop blocks (u32 (n + 1)) (u32 (tpages + pages)) (if decide (pages > lpages) then pages else lpages)
  end.

(** The number of fragments, [*totalp] and [*largestp]. *)
Definition chHeapStatus (m : memory) : Z * Z * Z :=
  let '(n, tpages, lpages) := heap_loop (free_pages m) 0 0 0 in
  (n, u32 (tpages * CH_HEAP_ALIGNMENT), u32 (lpages * CH_HEAP_ALIGNMENT)).

Definition chCoreGetStatusX (m : memory) : Z := u32 (topmem m - basemem m).

Definition cmd_mem (m : memory) (argc : nat) : outcome (list Z) :=
  if decide (0 < argc)%nat then shellUsage "mem"
  else
    let '(n, total, largest) := chHeapStatus m in
    cat (chprintf (bytes "core free memory : %u bytes" ++ newline) [AInt (chCoreGetStatusX m)])
      (cat (chprintf (bytes "heap fragments   : %u" ++ newline) [AInt n])
        (cat (chprintf (bytes "heap free total  : %u bytes" ++ newline) [AInt total])
          (chprintf (bytes "heap free largest: %u bytes" ++ newline) [AInt largest]))).

(** ** The schedules *)

(** [schedule_t] with the interval it points to. *)
Record schedule_t := Schedule { sch_id : Z; sch_name : string; sch_interval : Z }.

Fixpoint print_schedules (scheduleList : list (option schedule_t)) : outcome (list Z) :=
  match scheduleList with
  | [] => Done []
  | None :: l => print_schedules l
  | Some h :: l =>
      cat (chprintf (bytes "%6u  %11s  %6u seconds" ++ newline) [AInt (sch_id h); str (sch_name h); AInt (sch_interval h)])
          (print_schedules l)
  end.

(** What [cmd_sch] does with its arguments: the message to a thread and the
    configuration, [Config.cmd_sch] on the numbers of the texts. *)
Definition sch_request (argv : list (list Z)) (registered : nat -> bool) (c : appConfiguration_t)
  : option (nat * Z) * appConfiguration_t :=
  match argv with
  | [a0; a1] => Config.cmd_sch (atoi a0) (atoi a1) registered c
  | _ => (None, c)
  end.

(** What it prints then, from the table as it is after the message. *)
Definition sch_text (argc : nat) (scheduleList : list (option schedule_t)) : outcome (list Z) :=
  cat (if decide (argc <> 0 /\ argc <> 2)%nat then chprintf (bytes "wrong params" ++ newline) [] else Done [])
      (print_schedules scheduleList).

(** ** Sleep *)

Definition PWR_CR_LPSDSR : Z := 1.
Definition PWR_CR_PDDS : Z := 2.
Definition PWR_CR_CWUF : Z := 4.
Definition PWR_CR_CSBF : Z := 8.
Definition SCB_SCR_SLEEPDEEP_Msk : Z := 4.

Record power_regs := PowerRegs { pwr_cr : Z; scb_scr : Z }.

(** The text, and the registers at the [WFI]. *)
Definition cmd_sleep (argc : nat) (r : power_regs) : outcome (list Z * power_regs) :=
  if decide (0 < argc)%nat then
    match chprintf (bytes "Usage: sleep" ++ newline) [] with Done t => Done (t, r) | Halt w => Halt w | Hang => Hang end
  else
    match chprintf (bytes "Going to sleep. Type any character to wake up." ++ newline) [] with
    | Done t =>
        let cr := Z.lor (pwr_cr r) (Z.lor PWR_CR_LPSDSR (Z.lor PWR_CR_CSBF PWR_CR_CWUF)) in
        Done (t, PowerRegs (Z.ldiff cr PWR_CR_PDDS) (Z.lor (scb_scr r) SCB_SCR_SLEEPDEEP_Msk))
    | Halt w => Halt w
    | Hang => Hang
    end.

(** The mode a [WFI] enters: with [SLEEPDEEP] the clocks stop. *)
Definition wfi_stops (r : power_regs) : bool := Z.testbit (scb_scr r) 2.

(** ** Proofs *)

Definition filled (l : list Z) : list Z := filter (fun b => b = CH_DBG_STACK_FILL_VALUE) l.

Lemma count_fill_from l : forall n, 0 <= n -> n + Z.of_nat (length l) < 2 ^ 32 -> count_fill l n = n + Z.of_nat (length (filled l)).
Proof.
  induction l as [|b l IH]; intros n Hn Hl; cbn [count_fill length] in *; [cbn; lia|]. unfold filled. rewrite filter_cons. fold (filled l).
  case_decide; cbn [length]; [|apply IH; lia]. unfold u32. rewrite Z.mod_small by lia. rewrite IH; lia.
Qed.

Lemma filled_le l : (length (filled l) <= length l)%nat.
Proof. apply length_filter. Qed.

Lemma filled_all l : length (filled l) = length l -> filled l = l.
Proof.
  induction l as [|b l IH]; [done|]. unfold filled. rewrite filter_cons. fold (filled l). pose proof (filled_le l) as Hle.
  case_decide; cbn [length]; intros Hl; [|lia]. f_equal. apply IH. lia.
Qed.

(** The use in per cent is in range, rounded up, and 0 only when all bytes still
    have the value they were filled with. *)
Lemma used_pct_spec l :
  l <> [] -> Z.of_nat (length l) * 100 < 2 ^ 32 ->
  let sz := Z.of_nat (length l) in
  let used := sz - Z.of_nat (length (filled l)) in
  let p := used_pct sz (count_fill l 0) in
  0 <= p <= 100 /\ used * 100 <= p * sz < used * 100 + sz /\ (p = 0 <-> filled l = l).
Proof.
  intros Hne Hl sz used p. pose proof (filled_le l) as Hle. assert (Hsz : 0 < sz) by (destruct l; [done|unfold sz; cbn; lia]).
  set (n := Z.of_nat (length (filled l))) in *. assert (Hn : 0 <= n <= sz) by (unfold n, sz; lia).
  assert (Hp : p = 100 - (n * 100) `div` sz).
  { unfold p, used_pct. rewrite count_fill_from by (unfold sz in *; lia). fold n. unfold u32. rewrite (Z.mod_small ((0 + n) * 100)) by (unfold sz in *; lia).
    rewrite Z.add_0_l. apply Z.mod_small. pose proof (Z.div_pos (n * 100) sz). pose proof (Z.div_le_upper_bound (n * 100) sz 100). lia. }
  pose proof (Z.div_mod (n * 100) sz ltac:(lia)) as Hd. pose proof (Z.mod_pos_bound (n * 100) sz Hsz) as Hm.
  set (q := (n * 100) `div` sz) in *. assert (Hq : 0 <= q <= 100) by nia. rewrite Hp. split; [lia|]. split; [unfold used; fold n; nia|].
  split.
  - intros H. apply filled_all. assert (n = sz) by nia. unfold n, sz in *. lia.
  - intros H. assert (n = sz) by (unfold n; rewrite H; done). nia.
Qed.

Definition thread_format : list piece :=
  [dir "6" None 117] ++ plain "   " ++ [dir "6" None 117] ++ plain "  " ++ [dir "6" None 117; dir "" None 37] ++ plain "   "
  ++ [dir "3" None 117] ++ plain "      " ++ [dir "9" None 115] ++ plain " " ++ [dir "12" None 115] ++ map Lit newline.

Lemma thread_line_text area y tp : exists line, chprintf thread_fmt (thread_row area y tp) = Done line.
Proof. by apply (chprintf_total thread_format). Qed.

Section walk.
Context (area : nat -> list Z) (y0 : tsys).

(** The lines of the threads [l]. *)
Definition lines_of (l : list nat) (lines : list (list Z)) : Prop :=
  Forall2 (fun t line => chprintf thread_fmt (thread_row area y0 t) = Done line) l lines.

Lemma thread_line_spec l tp y (Q : list Z -> tsys -> Prop) :
  visiting y0 l (Some tp) y -> area tp <> [] ->
  (forall line, chprintf thread_fmt (thread_row area y0 tp) = Done line -> Q line y) -> wp (thread_line area tp) Q y.
Proof.
  intros [Ho Hp Hn _ _ _] Hs HQ. unfold thread_line. apply wp_bind, wp_get, wp_bind. unfold wp at 1, assert.
  rewrite (proj2 (Z.ltb_lt _ _)) by (destruct (area tp); [done|cbn; lia]). cbn [ret].
  assert (Er : thread_row area y tp = thread_row area y0 tp) by (unfold thread_row; by rewrite Ho, Hp, Hn).
  rewrite Er. destruct (thread_line_text area y0 tp) as [line Hline]. rewrite Hline. unfold wp, emit. by apply HQ.
Qed.

Lemma threads_loop_spec l2 : forall fuel l1 tp y,
  lists y0 (l1 ++ tp :: l2) -> countable y0 -> visiting y0 (l1 ++ tp :: l2) (Some tp) y -> (length l2 < fuel)%nat ->
  Forall (fun t => area t <> []) (tp :: l2) ->
  wp (threads_loop area fuel tp)
    (fun out y' => visiting y0 (l1 ++ tp :: l2) None y' /\ exists lines, lines_of (tp :: l2) lines /\ out = concat lines) y.
Proof.
  induction l2 as [|n l3 IH]; intros [|fuel] l1 tp y Hl Hc Hv Hf Hs; cbn [length] in Hf; try lia; cbn [threads_loop];
    apply Forall_cons in Hs as [Hs Hss]; apply wp_bind; (eapply thread_line_spec; [exact Hv|done|]); intros line Hline;
    apply wp_bind; (eapply wp_conseq; [by apply chRegNextThread_spec|]); intros o y' [-> Hv']; cbn [head] in *.
  - apply wp_ret. split; [done|]. exists [line]. split; [by repeat constructor|]. cbn. by rewrite app_nil_r.
  - assert (El : l1 ++ tp :: n :: l3 = (l1 ++ [tp]) ++ n :: l3) by by rewrite <- app_assoc. rewrite El in *.
    apply wp_bind. eapply wp_conseq; [apply IH; [done|done|done|lia|done]|]. intros rest y2 [Hv2 (lines & Hls & ->)].
    apply wp_ret. split; [done|]. exists (line :: lines). split; [by constructor|done].
Qed.
End walk.

(** The lines above the table. *)
Definition head_text : list Z :=
  bytes "  size    used   used %     prio     state         name" ++ newline
  ++ bytes "--------------------------------------------------------------------" ++ newline.

Lemma threads_head_text : threads_head = Done head_text.
Proof. vm_compute. reflexivity. Qed.

(** C19: The command [threads] prints its two head lines and then exactly one line
    for each thread of the registry, in the order in which they were created,
    with the thread's real priority, state and name; and no thread stays
    referred to.  The use it prints is a number between 0 and 100: the part of
    the bytes between the thread's [wabase] and its [thread_t] that differ from
    the fill value, in per cent and rounded up, so 0 exactly when all these
    bytes have the fill value.  (For a thread created on a working area these
    bytes are its stack, filled at its creation; for [main] and [idle] they are
    not, and their numbers say nothing of their stacks.) *)
Theorem threads_command (area : nat -> list Z) (y : tsys) (l : list nat) (fuel : nat) :
  lists y l -> countable y -> l <> [] -> (length l <= fuel)%nat ->
  Forall (fun t => area t <> [] /\ Z.of_nat (length (area t)) * 100 < 2 ^ 32) l ->
  exists y' lines, cmd_threads area fuel 0 y = Done (head_text ++ concat lines, y') /\
    lines_of area y l lines /\ linked y' l /\ os y' = os y /\ (forall t, refs y' t = refs y t) /\
    Forall (fun t =>
      let sz := Z.of_nat (length (area t)) in
      let used := sz - Z.of_nat (length (filled (area t))) in
      let p := used_pct sz (count_fill (area t) 0) in
      0 <= p <= 100 /\ used * 100 <= p * sz < used * 100 + sz /\ (p = 0 <-> filled (area t) = area t)) l.
Proof.
  intros Hl Hc Hne Hf Hs.
  assert (Hw : wp (cmd_threads area fuel 0) (fun out y' => visiting y l None y' /\ exists lines, lines_of area y l lines /\ out = head_text ++ concat lines) y).
  { destruct l as [|a l2]; [done|]. cbn [length] in Hf. unfold cmd_threads. rewrite decide_False by lia. rewrite threads_head_text.
    apply wp_bind. unfold wp at 1, emit. apply wp_bind. eapply wp_conseq; [by apply (chRegFirstThread_spec y (a :: l2) a l2)|].
    intros tp y1 [-> Hv]. apply wp_bind. eapply wp_conseq.
    - apply (threads_loop_spec area y l2 fuel [] a y1 Hl Hc Hv); [lia|]. eapply Forall_impl; [exact Hs|]. by intros t [? _].
    - intros out y2 [Hv2 (lines & Hls & ->)]. apply wp_ret. split; [done|]. by exists lines. }
  apply wp_run in Hw as (out & y' & Hrun & [Ho _ _ _ Hlk Hr] & lines & Hls & ->). exists y', lines.
  split; [done|]. split; [done|]. split; [done|]. split; [done|]. split.
  - intros t. rewrite Hr, decide_False by done. lia.
  - eapply Forall_impl; [exact Hs|]. intros t [H1 H2]. by apply used_pct_spec.
Qed.

(** The station after [main] has created the shell, thread 2. *)
Lemma shell_lists : lists (ts walk_1) [mainthread; idle; 2%nat] /\ countable (ts walk_1).
Proof.
  assert (H : started [mainthread; idle] (boot 8)) by (apply boot_started; lia).
  pose proof (step_create [mainthread; idle] (boot 8) (started_rinv _ _ H) 2%nat 138) as Hs.
  assert (Hp : rpossible (boot 8) (ECreate 2 138)) by (split_and!; vm_compute; try reflexivity; lia).
  specialize (Hs Hp). apply wp_run in Hs as ([] & r & Hr & Hi).
  assert (Hw : walk_1 = r) by (unfold walk_1, event; by rewrite Hr). rewrite <- Hw in Hi. split; [apply Hi|].
  assert (Hlo : loose r = <[2%nat := 1%nat]> (loose (boot 8)) /\ at_ r = at_ (boot 8)).
  { revert Hr. unfold rstep, bind, get, zoom, modify. destruct (thd_create _ _ _) as [[[] y]| |]; [|done..].
    by intros [= <-]. }
  intros t. rewrite (v_refs _ _ Hi), Hw. destruct Hlo as [-> ->]. rewrite (total_free _ _ _ (fun _ => eq_refl)).
  destruct (decide (t = 2%nat)) as [->|Ht]; [rewrite fn_lookup_insert; lia|].
  rewrite fn_lookup_insert_ne by done. cbn [boot loose]. case_decide; lia.
Qed.

(** The bytes of [main] and [idle] happen to be as they are; the shell has used
    half of its stack. *)
Definition some_bytes (t : nat) : list Z := if decide (t = 2%nat) then [85; 85; 0; 1] else [85; 7; 85].

Lemma threads_command_witness :
  exists y' lines, cmd_threads some_bytes 4 0 (ts walk_1) = Done (head_text ++ concat lines, y') /\ length lines = 3%nat.
Proof.
  destruct (threads_command some_bytes (ts walk_1) [mainthread; idle; 2%nat] 4 (proj1 shell_lists)) as (y' & lines & H & Hl & _).
  - exact (proj2 shell_lists).
  - done.
  - cbn. lia.
  - repeat constructor; done.
  - exists y', lines. split; [exact H|]. symmetry. exact (Forall2_length _ _ _ Hl).
Defined.

Example threads_printed :
  match cmd_threads some_bytes 4 0 (ts walk_1) with
  | Done (out, _) => out = head_text
      ++ bytes "     3        1      34%   128          READY         main" ++ newline
      ++ bytes "     3        1      34%     1          READY         idle" ++ newline
      ++ bytes "     4        2      50%   138        CURRENT       noname" ++ newline
  | _ => False
  end.
Proof. vm_compute. reflexivity. Qed.

(** *** The other commands *)

Lemma heap_loop_spec blocks : forall n tp lp,
  Forall (fun p => 0 <= p) blocks -> 0 <= n -> 0 <= tp -> n + Z.of_nat (length blocks) < 2 ^ 32 -> tp + foldr Z.add 0 blocks < 2 ^ 32 ->
  heap_loop blocks n tp lp = (n + Z.of_nat (length blocks), tp + foldr Z.add 0 blocks, foldr Z.max lp blocks).
Proof.
  induction blocks as [|p blocks IH]; intros n tp lp Hp Hn Ht Hl Hs; cbn [heap_loop length foldr] in *; [by rewrite !Z.add_0_r|].
  apply Forall_cons in Hp as [Hp Hps]. assert (Hpos : 0 <= foldr Z.add 0 blocks) by (clear -Hps; induction Hps; cbn; lia).
  unfold u32. rewrite !Z.mod_small by lia. rewrite IH by (done || lia). rewrite <- !Z.add_assoc.
  assert (Hmax : forall a b, foldr Z.max (Z.max a b) blocks = Z.max a (foldr Z.max b blocks)).
  { clear. intros a b. induction blocks as [|q blocks IH]; cbn; lia. }
  replace (if decide (p > lp) then p else lp) with (Z.max p lp) by (case_decide; lia). rewrite Hmax. repeat f_equal; lia.
Qed.

Lemma max_le_sum blocks : Forall (fun p => 0 <= p) blocks -> 0 <= foldr Z.max 0 blocks <= foldr Z.add 0 blocks.
Proof. induction 1; cbn; lia. Qed.

Lemma length_le_sum blocks : Forall (fun p => 0 < p) blocks -> Z.of_nat (length blocks) <= foldr Z.add 0 blocks.
Proof. induction 1; cbn [length foldr]; lia. Qed.

(** [chHeapStatus] counts the free blocks and gives their sum and maximum in
    bytes. *)
Lemma chHeapStatus_spec m :
  Forall (fun p => 0 < p) (free_pages m) -> foldr Z.add 0 (free_pages m) * CH_HEAP_ALIGNMENT < 2 ^ 32 ->
  chHeapStatus m = (Z.of_nat (length (free_pages m)), foldr Z.add 0 (free_pages m) * CH_HEAP_ALIGNMENT,
    foldr Z.max 0 (free_pages m) * CH_HEAP_ALIGNMENT).
Proof.
  unfold CH_HEAP_ALIGNMENT. intros Hp Hs. assert (Hp0 : Forall (fun p => 0 <= p) (free_pages m)) by (eapply Forall_impl; [exact Hp|]; cbv beta; intros; lia).
  assert (Hlen : Z.of_nat (length (free_pages m)) <= foldr Z.add 0 (free_pages m)) by by apply length_le_sum.
  pose proof (max_le_sum _ Hp0) as Hm. unfold chHeapStatus, CH_HEAP_ALIGNMENT. rewrite heap_loop_spec by (done || lia).
  rewrite !Z.add_0_l. unfold u32. by rewrite !Z.mod_small by lia.
Qed.

Definition count_format (text tail : string) : list piece := plain text ++ [dir "" None 117] ++ plain tail ++ map Lit newline.
Definition sch_format : list piece :=
  [dir "6" None 117] ++ plain "  " ++ [dir "11" None 115] ++ plain "  " ++ [dir "6" None 117] ++ plain " seconds" ++ map Lit newline.

Lemma print_schedules_done l : exists out, print_schedules l = Done out.
Proof.
  induction l as [|[h|] l IH]; cbn [print_schedules]; [by eexists| |done]. apply cat_done; [|done].
  by apply (chprintf_total sch_format).
Qed.

(** [mem] and [sch] print to the end, whatever the counters, names and intervals
    are and however many arguments there are. *)
Theorem system_tables_print m l argc : (exists out, cmd_mem m argc = Done out) /\ (exists out, sch_text argc l = Done out).
Proof.
  split.
  - unfold cmd_mem. case_decide; [by apply (chprintf_total (plain "Usage: " ++ [dir "" None 115] ++ map Lit newline))|].
    destruct (chHeapStatus m) as [[n total] largest]. repeat apply cat_done.
    + by apply (chprintf_total (count_format "core free memory : " " bytes")).
    + by apply (chprintf_total (count_format "heap fragments   : " "")).
    + by apply (chprintf_total (count_format "heap free total  : " " bytes")).
    + by apply (chprintf_total (count_format "heap free largest: " " bytes")).
  - unfold sch_text. apply cat_done; [|apply print_schedules_done]. case_decide; [|by eexists].
    by apply (chprintf_total (plain "wrong params" ++ map Lit newline)).
Qed.

(** Every decimal number that is typed is the number the command uses. *)
Lemma sch_request_typed d0 d1 registered c :
  d0 <> [] -> d1 <> [] -> forallb is_digit d0 = true -> forallb is_digit d1 = true ->
  sch_request [d0; d1] registered c = Config.cmd_sch (num_of d0) (num_of d1) registered c.
Proof.
  intros H0 H1 Hd0 Hd1. assert (Ha : forall ds, ds <> [] -> forallb is_digit ds = true -> atoi ds = num_of ds).
  { intros [|x ds] Hne Hds; [done|]. pose proof Hds as Hx. cbn in Hx. apply andb_prop in Hx as [Hx _]. rewrite atoi_plain by done.
    rewrite <- (app_nil_r (x :: ds)) at 1. by rewrite (atoi_digits_app (x :: ds) []). }
  cbn [sch_request]. by rewrite !Ha.
Qed.

(** [sleep] sets [SLEEPDEEP], which nothing clears: whenever the idle thread waits
    for an interrupt after it, the clocks stop, the timer's among them. *)
Lemma cmd_sleep_stays r :
  exists text r', cmd_sleep 0 r = Done (text, r') /\ wfi_stops r' = true /\ Z.testbit (pwr_cr r') 1 = false /\ Z.testbit (pwr_cr r') 0 = true /\
    forall i, 4 <= i -> Z.testbit (pwr_cr r') i = Z.testbit (pwr_cr r) i /\ Z.testbit (scb_scr r') i = Z.testbit (scb_scr r) i.
Proof.
  unfold cmd_sleep. rewrite decide_False by lia. destruct (chprintf_total (plain "Going to sleep. Type any character to wake up." ++ map Lit newline) []) as [t Ht]; [done|done|].
  change (concat _) with (bytes "Going to sleep. Type any character to wake up." ++ newline) in Ht. rewrite Ht. eexists t, _. split; [done|].
  unfold wfi_stops, PWR_CR_LPSDSR, PWR_CR_CSBF, PWR_CR_CWUF, PWR_CR_PDDS, SCB_SCR_SLEEPDEEP_Msk. cbn [pwr_cr scb_scr]. rewrite !Z.ldiff_spec, !Z.lor_spec.
  split; [by rewrite orb_true_r|]. split; [by rewrite andb_false_r|]. split; [by rewrite !orb_true_r|].
  intros i Hi. rewrite !Z.ldiff_spec, !Z.lor_spec.
  assert (Hz : forall b, 0 <= b < 16 -> Z.testbit b i = false).
  { intros b Hb. apply Z.bits_above_log2; [lia|]. destruct (decide (b = 0)) as [->|]; [cbn; lia|]. apply Z.log2_lt_pow2; [lia|].
    apply Z.lt_le_trans with (2 ^ 4); [lia|]. apply Z.pow_le_mono_r; lia. }
  rewrite (Hz 1), (Hz 8), (Hz 4), (Hz 2) by lia. by rewrite !orb_false_r, andb_true_r.
Qed.
End Commands.
