(* ===== verification/Coop.v ===== *)
(** * Cooperative threads

    The radio thread, the power thread and the shell have the same priority
    ([main.h], [shell.c]: [NORMALPRIO + 10]) and [CH_CFG_TIME_QUANTUM] is 0:
    ChibiOS switches between them only where the running one waits in a kernel
    call.  A thread is therefore a [prog]: stretches of code that run without
    losing the processor ([Do]), separated by kernel calls ([Call]).  [run]
    executes a program alone, with what happens during its calls as a
    parameter; [step] interleaves two threads and advances the clock.

    [rg] is a proof rule for such programs: each thread has a phase that only
    it changes, and a global invariant ties the phases to the shared state.
    [rg_sound] shows that a system whose threads satisfy it keeps the
    invariant in every reachable state. *)

From S2P Require Import Prelude Oslib.

(** The UART of the radio and the UART of the shell. *)
Inductive channel := ChRadio | ChShell.

(** Kernel calls that may suspend.  A time-out is in ticks (milliseconds),
    [None] is [TIME_INFINITE]. *)
Inductive call : Type -> Type :=
  | Sleep (ms : Z) : call unit                                    (* chThdSleepMilliseconds *)
  | SemWait (timeout : option Z) : call Z                         (* chBSemWait, chBSemWaitTimeout *)
  | ChnRead (n : nat) (timeout : Z) : call (list Z)               (* chnReadTimeout on the radio *)
  | ChnWrite (ch : channel) (bs : list Z) (timeout : option Z) : call nat  (* chnWriteTimeout, chprintf *)
  | Fetch (timeout : Z) : call (option (list Z))                  (* chMBFetchTimeout(&streamMail) *)
  | Elsewhere : call unit.                                        (* work that does not touch the radio *)

Inductive prog (S A : Type) : Type :=
  | Ret (a : A)
  | Do {B : Type} (m : M S B) (k : B -> prog S A)
  | Call {B : Type} (c : call B) (k : B -> prog S A).
Arguments Ret {S A} _.
Arguments Do {S A B} _ _.
Arguments Call {S A B} _ _.

Fixpoint pbind {S A B} (p : prog S A) (f : A -> prog S B) : prog S B :=
  match p with
  | Ret a => f a
  | Do m k => Do m (fun b => pbind (k b) f)
  | Call c k => Call c (fun b => pbind (k b) f)
  end.

Notation "'do!' x := p 'in' k" := (pbind p (fun x => k))
  (at level 10, x pattern, p at level 100, k at level 200,
   format "'[v' 'do!'  x  :=  p  'in' '/' k ']'") : fw_scope.
Notation "p >>> k" := (pbind p (fun _ => k))
  (at level 100, k at level 200, right associativity,
   format "'[v' p  >>> '/' k ']'") : fw_scope.

Definition act {S A} (m : M S A) : prog S A := Do m Ret.
Definition kcall {S A} (c : call A) : prog S A := Call c Ret.

(** ** Running one thread alone *)

(** [h] says what a kernel call returns and does to the state. *)
Fixpoint run {S A} (h : forall B, call B -> M S B) (p : prog S A) : M S A :=
  match p with
  | Ret a => ret a
  | Do m k => let! b := m in run h (k b)
  | Call c k => let! b := h _ c in run h (k b)
  end.

Lemma run_bind {S A B} h (p : prog S A) (f : A -> prog S B) s :
  run h (pbind p f) s = bind (run h p) (fun a => run h (f a)) s.
Proof.
  revert s. induction p as [a|C m k IH|C c k IH]; intros s; cbn [pbind run]; unfold bind; [done|..].
  - destruct (m s) as [[b s']| |]; [apply IH|done..].
  - destruct (h C c s) as [[b s']| |]; [apply IH|done..].
Qed.

(** ** Interleaving *)

(** A thread runs to its next kernel call, or to its end. *)
Fixpoint burst {S A} (p : prog S A) (s : S) : outcome (prog S A * S) :=
  match p with
  | Ret a => Done (Ret a, s)
  | Do m k => match m s with
              | Done (b, s') => burst (k b) s'
              | Halt w => Halt w
              | Hang => Hang
              end
  | Call c k => Done (Call c k, s)
  end.

Section sched.
Context {S : Type}.
(** The semaphore in the shared state. *)
Context (taken : S -> bool) (take : S -> S).

(** How a call ends that has lasted [e] ticks: its result, and the state. *)
Inductive resume (e : Z) (s : S) : forall B, call B -> B -> S -> Prop :=
  | resume_sleep ms : ms <= e -> resume e s unit (Sleep ms) tt s
  | resume_take t : taken s = false -> resume e s Z (SemWait t) MSG_OK (take s)
  | resume_timeout t : t <= e -> resume e s Z (SemWait (Some t)) MSG_TIMEOUT s
  | resume_read n t bs : (length bs <= n)%nat -> (forall b, b ∈ bs -> byte_ok b) ->
      resume e s (list Z) (ChnRead n t) bs s
  | resume_write ch bs t n : (n <= length bs)%nat -> resume e s nat (ChnWrite ch bs t) n s
  | resume_fetch t f : resume e s (option (list Z)) (Fetch t) (Some f) s
  | resume_empty t : t <= e -> resume e s (option (list Z)) (Fetch t) None s
  | resume_elsewhere : resume e s unit Elsewhere tt s.

(** The same, by cases on the call. *)
Definition ends {B} (e : Z) (s : S) (c : call B) : B -> S -> Prop :=
  match c with
  | SemWait t => fun r s' =>
      (r = MSG_OK /\ taken s = false /\ s' = take s) \/
      (r = MSG_TIMEOUT /\ s' = s /\ exists d, t = Some d /\ d <= e)
  | ChnRead n _ => fun bs s' => s' = s /\ (length bs <= n)%nat
  | Sleep ms => fun _ s' => s' = s /\ ms <= e
  | _ => fun _ s' => s' = s
  end.

Lemma resume_ends e s B (c : call B) b s' : resume e s B c b s' -> ends e s c b s'.
Proof. destruct 1; cbn; eauto 10. Qed.

(** A thread: its remaining code, the label of the loop pass that follows it,
    and when it was suspended. *)
Record thread (L : Type) := Thread {
  code : prog S L;
  since : Z
}.
Arguments Thread {L} _ _.
Arguments code {L} _.
Arguments since {L} _.

(** One stretch of a thread whose loop bodies are [body]. *)
Inductive tstep {L} (body : L -> prog S L) (now : Z) : thread L -> S -> thread L -> S -> Prop :=
  | tstep_call B (c : call B) k b t s s1 p s2 :
      code t = Call c k -> resume (now - since t) s B c b s1 ->
      burst (k b) s1 = Done (p, s2) -> tstep body now t s (Thread p now) s2
  | tstep_loop l t s p s' :
      code t = Ret l -> burst (body l) s = Done (p, s') -> tstep body now t s (Thread p now) s'.

(** Two threads. *)
Record sys (L1 L2 : Type) := Sys {
  now : Z;
  shared : S;
  th1 : thread L1;
  th2 : thread L2
}.
Arguments Sys {L1 L2} _ _ _ _.
Arguments now {L1 L2} _.
Arguments shared {L1 L2} _.
Arguments th1 {L1 L2} _.
Arguments th2 {L1 L2} _.

Inductive step {L1 L2} (b1 : L1 -> prog S L1) (b2 : L2 -> prog S L2) : sys L1 L2 -> sys L1 L2 -> Prop :=
  | step_tick d x : 0 <= d -> step b1 b2 x (Sys (now x + d) (shared x) (th1 x) (th2 x))
  | step_1 x t s : tstep b1 (now x) (th1 x) (shared x) t s -> step b1 b2 x (Sys (now x) s t (th2 x))
  | step_2 x t s : tstep b2 (now x) (th2 x) (shared x) t s -> step b1 b2 x (Sys (now x) s (th1 x) t).

(** ** Proofs about one thread *)

Section rg.
Context {P Q : Type}.
(** The invariant, with the phase of this thread and that of the other. *)
Context (Inv : S -> P -> Q -> Prop).
(** In which phases a call may be made. *)
Context (at_call : forall B, call B -> P -> Prop).

(** From here the thread never fails, makes every call in a phase that fits
    it with the invariant intact, and leaves a pass of its loop in [Post],
    whatever the other thread does during the calls. *)
Fixpoint rg {A} (p : prog S A) (Post : A -> S -> Q -> Prop) (s : S) (q : Q) : Prop :=
  match p with
  | Ret a => Post a s q
  | Do m k => match m s with Done (b, s') => rg (k b) Post s' q | _ => False end
  | Call c k => exists ph, at_call _ c ph /\ Inv s ph q /\
      forall s1 q1, Inv s1 ph q1 -> forall e b s2, resume e s1 _ c b s2 -> rg (k b) Post s2 q1
  end.

Lemma rg_bind {A B} (p : prog S A) (f : A -> prog S B) Post s q :
  rg p (fun a => rg (f a) Post) s q -> rg (pbind p f) Post s q.
Proof.
  revert s q. induction p as [a|C m k IH|C c k IH]; intros s q; cbn [pbind rg]; [done|..].
  - destruct (m s) as [[b s']| |]; [apply IH|done..].
  - intros (ph & Hc & HI & Hk). exists ph. split_and!; [done..|]. eauto.
Qed.

Lemma rg_conseq {A} (p : prog S A) (Post Post' : A -> S -> Q -> Prop) s q :
  rg p Post s q -> (forall a s q, Post a s q -> Post' a s q) -> rg p Post' s q.
Proof.
  intros Hp HP. revert s q Hp. induction p as [a|C m k IH|C c k IH]; intros s q; cbn [rg]; [apply HP|..].
  - destruct (m s) as [[b s']| |]; [apply IH|done..].
  - intros (ph & Hc & HI & Hk). exists ph. split_and!; [done..|]. eauto.
Qed.

Lemma rg_act {A} (m : M S A) (Post : A -> S -> Q -> Prop) s q :
  wp m (fun a s' => Post a s' q) s -> rg (act m) Post s q.
Proof. unfold wp, act. cbn. by destruct (m s) as [[]| |]. Qed.

Lemma rg_ret {A} (a : A) (Post : A -> S -> Q -> Prop) s q : Post a s q -> rg (Ret a) Post s q.
Proof. done. Qed.

Lemma rg_gets {A} (f : S -> A) (Post : A -> S -> Q -> Prop) s q :
  Post (f s) s q -> rg (act (gets f)) Post s q.
Proof. done. Qed.

Lemma rg_modify (f : S -> S) (Post : unit -> S -> Q -> Prop) s q :
  Post tt (f s) q -> rg (act (modify f)) Post s q.
Proof. done. Qed.

Lemma rg_sem ph t (Post : Z -> S -> Q -> Prop) s q :
  at_call _ (SemWait t) ph -> Inv s ph q ->
  (forall s q, Inv s ph q -> taken s = false -> Post MSG_OK (take s) q) ->
  (forall s q d, t = Some d -> Inv s ph q -> Post MSG_TIMEOUT s q) ->
  rg (kcall (SemWait t)) Post s q.
Proof.
  intros Hc HI Hok Hto. exists ph. split_and!; [done..|]. intros s1 q1 HI1 e b s2 Hr%resume_ends.
  destruct Hr as [(-> & Ht & ->)|(-> & -> & d & -> & _)]; cbn; eauto.
Qed.

(** Every other call leaves the state alone. *)
Lemma rg_call {B} ph (c : call B) (Post : B -> S -> Q -> Prop) s q :
  match c with SemWait _ => False | _ => True end ->
  at_call _ c ph -> Inv s ph q ->
  (forall e b s q, Inv s ph q -> ends e s c b s -> Post b s q) ->
  rg (kcall c) Post s q.
Proof.
  intros Hn Hc HI HP. exists ph. split_and!; [done..|]. intros s1 q1 HI1 e b s2 Hr%resume_ends. cbn.
  assert (s2 = s1) as -> by (destruct c; try done; cbn in Hr; naive_solver). eauto.
Qed.

(** A suspended thread, and one between two passes. *)
Definition parked {L} (start : L -> P -> Prop) (p : prog S L) (ph : P) : Prop :=
  match p with
  | Ret l => start l ph
  | Do _ _ => False
  | Call c k => at_call _ c ph /\
      forall s1 q1, Inv s1 ph q1 -> forall e b s2, resume e s1 _ c b s2 ->
        rg (k b) (fun l s q => exists ph, start l ph /\ Inv s ph q) s2 q1
  end.

Lemma burst_parked {L} (start : L -> P -> Prop) (p : prog S L) s q :
  rg p (fun l s q => exists ph, start l ph /\ Inv s ph q) s q ->
  forall p' s', burst p s = Done (p', s') -> exists ph, parked start p' ph /\ Inv s' ph q.
Proof.
  revert s. induction p as [a|C m k IH|C c k IH]; intros s; cbn [rg burst].
  - intros (ph & Hs & HI) p' s' [= <- <-]. by exists ph.
  - destruct (m s) as [[b s']| |]; [apply IH|done..].
  - intros (ph & Hc & HI & Hk) p' s' [= <- <-]. by exists ph.
Qed.

(** Every stretch keeps the invariant and parks the thread again. *)
Lemma tstep_parked {L} (start : L -> P -> Prop) (body : L -> prog S L) n t s ph q t' s' :
  (forall l ph s q, start l ph -> Inv s ph q ->
     rg (body l) (fun l s q => exists ph, start l ph /\ Inv s ph q) s q) ->
  parked start (code t) ph -> Inv s ph q -> tstep body n t s t' s' ->
  exists ph', parked start (code t') ph' /\ Inv s' ph' q.
Proof.
  intros Hb Hp HI Ht. destruct Ht as [B c k b t s s1 p s2 Hc Hr Hbu|l t s p s' Hc Hbu];
    rewrite Hc in Hp; cbn in Hp.
  - destruct Hp as [_ Hk]. cbn. eapply burst_parked; [|done]. by eapply Hk.
  - cbn. eapply burst_parked; [|done]. by eapply Hb.
Qed.

(** A stretch of a parked thread never fails. *)
Lemma tstep_no_failure {L} (start : L -> P -> Prop) (body : L -> prog S L) ph s q p :
  (forall l ph s q, start l ph -> Inv s ph q ->
     rg (body l) (fun l s q => exists ph, start l ph /\ Inv s ph q) s q) ->
  parked start p ph -> Inv s ph q ->
  match p with
  | Ret l => exists r, burst (body l) s = Done r
  | Do _ _ => False
  | Call c k => forall e b s1, resume e s _ c b s1 -> exists r, burst (k b) s1 = Done r
  end.
Proof.
  intros Hb Hp HI.
  assert (forall (p : prog S L) Post s q, rg p Post s q -> exists r, burst p s = Done r) as Hburst.
  { clear. intros p Post s q. revert s. induction p as [a|C m k IH|C c k IH]; intros s; cbn [rg burst]; eauto.
    destruct (m s) as [[b s']| |]; [apply IH|done..]. }
  destruct p; cbn in Hp; [|done|].
  - eapply Hburst. by eapply Hb.
  - intros e b s1 Hr. eapply Hburst. by eapply Hp.
Qed.
End rg.

End sched.

Arguments Thread {S L} _ _.
Arguments code {S L} _.
Arguments since {S L} _.
Arguments Sys {S L1 L2} _ _ _ _.
Arguments now {S L1 L2} _.
Arguments shared {S L1 L2} _.
Arguments th1 {S L1 L2} _.
Arguments th2 {S L1 L2} _.

(** ** Two threads together *)

Section pair.
Context {S P Q L1 L2 : Type} (taken : S -> bool) (take : S -> S).
Context (Inv : S -> P -> Q -> Prop).
Context (at1 : forall B, call B -> P -> Prop) (at2 : forall B, call B -> Q -> Prop).
Context (start1 : L1 -> P -> Prop) (start2 : L2 -> Q -> Prop).
Context (b1 : L1 -> prog S L1) (b2 : L2 -> prog S L2).

(** The invariant from the second thread's side. *)
Definition flip_inv (s : S) (q : Q) (p : P) : Prop := Inv s p q.

Hypothesis body1 : forall l ph s q, start1 l ph -> Inv s ph q ->
  rg taken take Inv at1 (b1 l) (fun l s q => exists ph, start1 l ph /\ Inv s ph q) s q.
Hypothesis body2 : forall l ph s q, start2 l ph -> flip_inv s ph q ->
  rg taken take flip_inv at2 (b2 l) (fun l s q => exists ph, start2 l ph /\ flip_inv s ph q) s q.

Definition coherent (x : sys L1 L2) : Prop :=
  exists p q, Inv (shared x) p q /\
    parked taken take Inv at1 start1 (code (th1 x)) p /\
    parked taken take flip_inv at2 start2 (code (th2 x)) q.

Lemma coherent_step x y : coherent x -> step taken take b1 b2 x y -> coherent y.
Proof.
  intros (p & q & HI & H1 & H2) Hs. destruct Hs as [d x Hd|x t s Ht|x t s Ht]; cbn in *.
  - by exists p, q.
  - destruct (tstep_parked taken take Inv at1 start1 b1 (now x) (th1 x) (shared x) p q t s)
      as (p' & Hp' & HI'); [exact body1|done..|]. by exists p', q.
  - destruct (tstep_parked taken take flip_inv at2 start2 b2 (now x) (th2 x) (shared x) q p t s)
      as (q' & Hq' & HI'); [exact body2|done..|]. by exists p, q'.
Qed.

Lemma rg_sound x y : coherent x -> rtc (step taken take b1 b2) x y -> coherent y.
Proof. intros Hx Hr. induction Hr as [|x y z Hs _ IH]; [done|]. eauto using coherent_step. Qed.
End pair.

(** [rgs] executes the stretches of a thread; calls are left to the proof. *)
Ltac rg_step :=
  lazymatch goal with
  | |- rg _ _ _ _ (pbind _ _) _ _ _ => apply rg_bind
  | |- rg _ _ _ _ (Ret _) _ _ _ => apply rg_ret
  | |- rg _ _ _ _ (act (gets _)) _ _ _ => apply rg_gets; cbv beta
  | |- rg _ _ _ _ (act (modify _)) _ _ _ => apply rg_modify; cbv beta
  end.
Ltac rgs := repeat rg_step; cbv beta.

(** ** Executing a schedule

    [exec] runs a given schedule, in which every sleep and every time-out ends
    exactly when it is due.  It is used to exhibit runs. *)

Inductive answer :=
  | AnsDone
  | AnsTimeout
  | AnsBytes (bs : list Z)
  | AnsFrame (f : list Z).

Inductive event := Tick (d : Z) | Run1 (a : answer) | Run2 (a : answer).

Section exec.
Context {S L1 L2 : Type} (taken : S -> bool) (take : S -> S).
Context (b1 : L1 -> prog S L1) (b2 : L2 -> prog S L2).

Definition choose {B} (e : Z) (s : S) (c : call B) (a : answer) : option (B * S) :=
  match c in call B return option (B * S) with
  | Sleep ms => if decide (e = ms) then Some (tt, s) else None
  | SemWait t =>
      match a, t with
      | AnsDone, _ => if taken s then None else Some (MSG_OK, take s)
      | AnsTimeout, Some d => if decide (e = d) then Some (MSG_TIMEOUT, s) else None
      | _, _ => None
      end
  | ChnRead n _ =>
      match a with
      | AnsBytes bs => if decide ((length bs <= n)%nat /\ Forall byte_ok bs) then Some (bs, s) else None
      | _ => None
      end
  | ChnWrite _ bs _ => Some (length bs, s)
  | Fetch t =>
      match a with
      | AnsFrame f => Some (Some f, s)
      | AnsTimeout => if decide (e = t) then Some (None, s) else None
      | _ => None
      end
  | Elsewhere => Some (tt, s)
  end.

Lemma choose_resume {B} e s (c : call B) a b s' :
  choose e s c a = Some (b, s') -> resume taken take e s B c b s'.
Proof.
  destruct c; cbn; repeat (case_match; try done); intros; simplify_eq; try case_decide; simplify_eq;
    try (constructor; (done || lia)).
  match goal with H : _ /\ Forall byte_ok _ |- _ => destruct H as [Hl Hf] end.
  apply resume_read; [done|]. by apply Forall_forall.
Qed.

Definition advance {L} (body : L -> prog S L) (n : Z) (t : thread L) (s : S) (a : answer)
  : option (thread L * S) :=
  match code t with
  | Ret l => match burst (body l) s with Done (p, s') => Some (Thread p n, s') | _ => None end
  | Do _ _ => None
  | Call c k =>
      match choose (n - since t) s c a with
      | Some (b, s1) => match burst (k b) s1 with Done (p, s2) => Some (Thread p n, s2) | _ => None end
      | None => None
      end
  end.

Lemma advance_step {L} (body : L -> prog S L) n t s a t' s' :
  advance body n t s a = Some (t', s') -> tstep taken take body n t s t' s'.
Proof.
  unfold advance. destruct (code t) as [l| |B c k] eqn:Hc; [|done|].
  - destruct (burst (body l) s) as [[p s1]| |] eqn:Hb; intros; simplify_eq. by econstructor.
  - destruct (choose _ s c a) as [[b s1]|] eqn:Hch; [|done].
    destruct (burst (k b) s1) as [[p s2]| |] eqn:Hb; intros; simplify_eq.
    eapply tstep_call; [done|by eapply choose_resume|done].
Qed.

Fixpoint exec (es : list event) (x : sys L1 L2) : option (sys L1 L2) :=
  match es with
  | [] => Some x
  | Tick d :: es => if decide (0 <= d) then exec es (Sys (now x + d) (shared x) (th1 x) (th2 x)) else None
  | Run1 a :: es =>
      match advance b1 (now x) (th1 x) (shared x) a with
      | Some (t, s) => exec es (Sys (now x) s t (th2 x))
      | None => None
      end
  | Run2 a :: es =>
      match advance b2 (now x) (th2 x) (shared x) a with
      | Some (t, s) => exec es (Sys (now x) s (th1 x) t)
      | None => None
      end
  end.

Lemma exec_reachable es x y : exec es x = Some y -> rtc (step taken take b1 b2) x y.
Proof.
  revert x. induction es as [|[d|a|a] es IH]; intros x Hx; cbn in Hx.
  - simplify_eq. constructor.
  - case_decide; [|done]. eapply rtc_l; [by apply step_tick|auto].
  - destruct (advance b1 _ _ _ a) as [[t s]|] eqn:Ha; [|done].
    eapply rtc_l; [apply step_1; by eapply advance_step|auto].
  - destruct (advance b2 _ _ _ a) as [[t s]|] eqn:Ha; [|done].
    eapply rtc_l; [apply step_2; by eapply advance_step|auto].
Qed.
End exec.

(** The write a suspended program is in. *)
Definition writing {S A} (p : prog S A) : option (channel * list Z * option Z) :=
  match p with
  | Call (ChnWrite ch bs t) _ => Some (ch, bs, t)
  | _ => None
  end.

Lemma writing_inv {S A} (p : prog S A) ch bs t :
  writing p = Some (ch, bs, t) -> exists k, p = Call (ChnWrite ch bs t) k.
Proof. destruct p as [| |B c k]; try done. destruct c; cbn; intros; simplify_eq. by eexists. Qed.
