(* ===== verification/Hc12.v ===== *)
(** * The HC-12 radio

    [src/src/threads/hc12Thread.c]: power and programming mode of the radio,
    its reconfiguration by AT commands, and the thread that sends the frames;
    with the part of [powerThread.c] that switches the radio off and on.  The
    functions are thread programs ([Coop]); the UART of the radio and the clock
    are a parameter ([UartHw]).  A frame is fetched as the contents of its pool
    object, whose life is the subject of [Stream].

    Proved here: between the radio thread and the power thread, in every
    interleaving, a frame is only ever sent while the radio is powered and in
    normal mode; what the shell command [hc12set] adds to that; and what the
    waiting loop of the reconfiguration does with its 16-bit time. *)

From S2P Require Import Prelude Oslib Hal Chprintf HwDesc Coop.

Definition STREAM_BUFFER_SIZE : nat := 64.
Definition HC12_WAIT_ENTER_TO_PROG_MODE_TIMEOUT : Z := 50.
Definition HC12_WAIT_EXIT_FROM_PROG_MODE_TIMEOUT : Z := 50.
Definition HC12_WAIT_TO_ANSWER_TIMEOUT : Z := 200.
Definition HC12_WAIT_AFTER_SLEEP_TIMEOUT : Z := 500.
Definition HC12_AT_PING : string := "AT".
Definition HC12_AT_CHANNEL : string := "AT+C00%i".
Definition HC12_AT_BAUD : string := "AT+B%i".
Definition HC12_AT_MODE_FU : string := "AT+FU%i".
Definition HC12_AT_POWER : string := "AT+P%i".
(** [NEWLINE_STR] *)
Definition NEWLINE : list Z := [13; 10].

Inductive hc12StatusEnum := HC12_STATUS_NOK | HC12_STATUS_SLEEP | HC12_STATUS_OK.

#[global] Instance hc12Status_eq_dec : EqDecision hc12StatusEnum.
Proof. solve_decision. Defined.

Record hc12cfg_t := Hc12Cfg {
  channel : Z;
  baud : Z;
  modeFU : Z;
  power : Z
}.

Record hc12ThreadCfg_t := Hc12ThreadCfg {
  hwId : Z;
  lineSet : Z;
  enableLine : Z
}.

(** [uart_bsem] is whether the semaphore is taken. *)
Record hc12State_t := Hc12State {
  rxBuff : list Z;
  txBuff : list Z;
  status : hc12StatusEnum;
  hc12Cfg : hc12cfg_t;
  threadCfg : hc12ThreadCfg_t;
  uart_bsem : bool
}.

(** The system time, and the next byte the radio has sent, if any. *)
Class UartHw (P : Type) := {
  u_time : P -> Z * P;
  u_getc : P -> option Z * P
}.

(** The shared state, with the GPIO lines, the status of the descriptor
    [hc12HW], the hardware, and the frames whose objects were freed. *)
Record radio (P : Type) := Radio {
  hc12State : hc12State_t;
  hw_status : hwStatus_e;
  lines : gmap Z bool;
  modes : gmap Z Z;
  plat : P;
  released : list (list Z)
}.
Arguments Radio {P} _ _ _ _ _ _.
Arguments hc12State {P} _.
Arguments hw_status {P} _.
Arguments lines {P} _.
Arguments modes {P} _.
Arguments plat {P} _.
Arguments released {P} _.

Section hc12.
Context {P : Type} `{UartHw P}.
Notation R := (radio P).
Notation prog := (prog R).

Definition on_state (f : hc12State_t -> hc12State_t) (s : R) : R :=
  Radio (f (hc12State s)) (hw_status s) (lines s) (modes s) (plat s) (released s).
Definition set_rxBuff x h := Hc12State x (txBuff h) (status h) (hc12Cfg h) (threadCfg h) (uart_bsem h).
Definition set_status x h := Hc12State (rxBuff h) (txBuff h) x (hc12Cfg h) (threadCfg h) (uart_bsem h).
Definition set_hc12Cfg x h := Hc12State (rxBuff h) (txBuff h) (status h) x (threadCfg h) (uart_bsem h).
Definition set_bsem x h := Hc12State (rxBuff h) (txBuff h) (status h) (hc12Cfg h) (threadCfg h) x.
Definition set_hw x (s : R) := Radio (hc12State s) x (lines s) (modes s) (plat s) (released s).
Definition set_line l b (s : R) :=
  Radio (hc12State s) (hw_status s) (<[l := b]> (lines s)) (modes s) (plat s) (released s).
Definition set_mode l m (s : R) :=
  Radio (hc12State s) (hw_status s) (lines s) (<[l := m]> (modes s)) (plat s) (released s).
Definition set_plat (p : P) (s : R) : R := Radio (hc12State s) (hw_status s) (lines s) (modes s) p (released s).
Definition add_released f (s : R) :=
  Radio (hc12State s) (hw_status s) (lines s) (modes s) (plat s) (released s ++ [f]).

Definition bsem_taken (s : R) : bool := uart_bsem (hc12State s).
Definition bsem_take (s : R) : R := on_state (set_bsem true) s.
Definition chBSemSignal : M R unit := modify (on_state (set_bsem false)).

Definition get_status : M R hc12StatusEnum := gets (fun s => status (hc12State s)).
Definition put_status x : M R unit := modify (on_state (set_status x)).

Definition systime : M R Z := fun s =>
  let '(t, p) := u_time (plat s) in Done (u16 t, set_plat p s).

(** [chnReadTimeout(sc_channel, .., 1, TIME_IMMEDIATE)] *)
Definition read_immediate : M R (option Z) := fun s =>
  let '(c, p) := u_getc (plat s) in Done (u8 <$> c, set_plat p s).

(** The bytes [chprintf] puts on a stream. *)
Definition printed (fmt : string) (ap : list arg) : M R (list Z) := fun s =>
  match chprintf (bytes fmt) ap with
  | Done o => Done (o, s)
  | Halt w => Halt w
  | Hang => Hang
  end.

(** ** Modes and power *)

Definition HC12__thread_progMode : prog unit :=
  act (modify (fun s => set_line (lineSet (threadCfg (hc12State s))) false s)) >>>
  kcall (Sleep HC12_WAIT_ENTER_TO_PROG_MODE_TIMEOUT).

Definition HC12__thread_normalMode : prog unit :=
  act (modify (fun s => set_line (lineSet (threadCfg (hc12State s))) true s)) >>>
  kcall (Sleep HC12_WAIT_EXIT_FROM_PROG_MODE_TIMEOUT).

Definition HC12__thread_goToSleep : prog bool :=
  do! st := act get_status in
  if decide (st <> HC12_STATUS_OK) then Ret false
  else
    act (modify (fun s => set_line (enableLine (threadCfg (hc12State s))) false s)) >>>
    kcall (Sleep 10) >>>
    act (put_status HC12_STATUS_SLEEP) >>>
    Ret true.

Definition HC12__thread_wakeUp : prog bool :=
  do! st := act get_status in
  if decide (st <> HC12_STATUS_SLEEP) then Ret false
  else
    act (modify (fun s => set_line (enableLine (threadCfg (hc12State s))) true s)) >>>
    kcall (Sleep HC12_WAIT_AFTER_SLEEP_TIMEOUT) >>>
    act (put_status HC12_STATUS_OK) >>>
    Ret true.

Definition HC12__tunrOffRadio : prog bool :=
  do! msg := kcall (SemWait (Some (TIME_MS2I 1000))) in
  if decide (msg <> MSG_OK) then Ret false
  else HC12__thread_goToSleep >>> Ret true.

Definition HC12__tunrOnRadio : prog unit :=
  HC12__thread_wakeUp >>> act chBSemSignal.

(** ** Status *)

(** [O] then [K] within the first three bytes. *)
Definition answered (rx : list Z) : M R bool :=
  let! b0 := lift_opt (load rx 0) "rxBuff" in
  let! b1 := lift_opt (load rx 1) "rxBuff" in
  let! b2 := lift_opt (load rx 2) "rxBuff" in
  ret (((b0 =? 0x4F) || (b1 =? 0x4F)) && ((b1 =? 0x4b) || (b2 =? 0x4b))).

Definition HC12__thread_checkStatus : prog unit :=
  act (put_status HC12_STATUS_NOK) >>>
  do! msg := kcall (SemWait (Some 500)) in
  if decide (msg <> MSG_OK) then Ret tt
  else
    HC12__thread_progMode >>>
    do! ping := act (printed HC12_AT_PING []) in
    kcall (ChnWrite ChRadio ping None) >>>
    do! rx := kcall (ChnRead 8 (TIME_MS2I HC12_WAIT_TO_ANSWER_TIMEOUT)) in
    act (modify (on_state (fun h => set_rxBuff (overwrite rx (rxBuff h)) h))) >>>
    do! ok := act (let! s := get in answered (rxBuff (hc12State s))) in
    (if ok : bool then act (put_status HC12_STATUS_OK) else Ret tt) >>>
    HC12__thread_normalMode >>>
    act chBSemSignal.

(** ** Reconfiguration *)

(** [while (chnReadTimeout(.., 1, TIME_IMMEDIATE)) {}]: throws away what the
    radio sent before, through [rxBuff[0]]. *)
Definition drain (fuel : nat) : M R unit :=
  loop fuel (let! c := read_immediate in
             match c with
             | None => ret (Some tt)
             | Some b =>
                 let! s := get in
                 let! rx := lift_opt (store (rxBuff (hc12State s)) 0 b) "rxBuff" in
                 put (on_state (set_rxBuff rx) s) ;;; ret None
             end).

(** The loop that waits for an answer of one line.  Both times are promoted to
    [int] before the subtraction; [index] is a [uint8_t]. *)
Fixpoint await (fuel : nat) (timeout index : Z) : prog bool :=
  match fuel with
  | O => act hang
  | Datatypes.S n =>
      do! t := act systime in
      if decide (t - timeout > 1000) then Ret false
      else
        do! c := act read_immediate in
        match c with
        | None => await n timeout index
        | Some b =>
            act (let! s := get in
                 let! rx := lift_opt (store (rxBuff (hc12State s)) index b) "rxBuff" in
                 put (on_state (set_rxBuff rx) s)) >>>
            do! echo := act (printed "%c" [AInt b; AInt 1]) in
            kcall (ChnWrite ChShell echo None) >>>
            do! last := act (let! s := get in
              if decide (index > 1) then
                let! x := lift_opt (load (rxBuff (hc12State s)) (index - 1)) "rxBuff" in
                let! y := lift_opt (load (rxBuff (hc12State s)) index) "rxBuff" in
                ret ((x =? 0x0d) && (y =? 0x0a))
              else ret false) in
            if last : bool then Ret true else await n timeout (u8 (index + 1))
        end
  end.

(** One AT command, echoed on the shell, and its answer. *)
Definition at_exchange (fuel : nat) (fmt : string) (v : Z) : prog bool :=
  do! cmd := act (printed fmt [AInt v]) in
  kcall (ChnWrite ChRadio cmd None) >>>
  kcall (ChnWrite ChShell cmd None) >>>
  kcall (ChnWrite ChShell NEWLINE None) >>>
  do! timeout := act systime in
  do! ok := await fuel timeout 0 in
  if ok : bool then
    kcall (ChnWrite ChShell NEWLINE None) >>>
    kcall (Sleep 10) >>>
    Ret true
  else
    HC12__thread_normalMode >>>
    act chBSemSignal >>>
    Ret false.

Definition HC12__reconfigure (fuel : nat) (cfg : hc12cfg_t) : prog bool :=
  do! st := act get_status in
  (if decide (st = HC12_STATUS_SLEEP) then HC12__thread_wakeUp else Ret false) >>>
  do! st := act get_status in
  if decide (st <> HC12_STATUS_OK) then Ret false
  else
    do! msg := kcall (SemWait (Some 1000)) in
    if decide (msg <> MSG_OK) then Ret false
    else
      HC12__thread_progMode >>>
      act (drain fuel) >>>
      do! ok := at_exchange fuel HC12_AT_CHANNEL (channel cfg) in
      if negb ok then Ret false
      else
        do! ok := at_exchange fuel HC12_AT_BAUD (baud cfg) in
        if negb ok then Ret false
        else
          do! ok := at_exchange fuel HC12_AT_MODE_FU (modeFU cfg) in
          if negb ok then Ret false
          else
            do! ok := at_exchange fuel HC12_AT_POWER (power cfg) in
            if negb ok then Ret false
            else
              act (modify (on_state (set_hc12Cfg cfg))) >>>
              HC12__thread_normalMode >>>
              act chBSemSignal >>>
              Ret true.

Definition HC12__reconfigureDefault (fuel : nat) : prog bool :=
  do! cfg := act (gets (fun s => hc12Cfg (hc12State s))) in
  HC12__reconfigure fuel cfg.

(** ** The threads *)

(** [HC12__thread_init] *)
Definition HC12__thread_init (tc : hc12ThreadCfg_t) (c : hc12cfg_t) : M R unit :=
  modify (on_state (set_status HC12_STATUS_NOK)) ;;;
  modify (set_mode (lineSet tc) PAL_STM32_MODE_OUTPUT) ;;;
  modify (set_mode (PAL_LINE GPIOC 10) PAL_STM32_MODE_OUTPUT) ;;;
  modify (on_state (fun h => Hc12State (rxBuff h) (txBuff h) (status h) c tc (uart_bsem h))) ;;;
  modify (on_state (set_bsem false)).

(** Where the radio thread is: before its first loop, in the loop that waits
    for the radio, in the loop that sends. *)
Inductive radio_loc := Start | Boot | Serve.

Definition hc12StreamThread (l : radio_loc) : prog radio_loc :=
  match l with
  | Start =>
      act (modify (set_hw HW_STATUS_UNKNOWN)) >>>
      HC12__thread_normalMode >>>
      Ret Boot
  | Boot =>
      HC12__thread_checkStatus >>>
      do! st := act get_status in
      if decide (st = HC12_STATUS_OK) then
        HC12__thread_goToSleep >>>
        act (modify (set_hw HW_STATUS_OK)) >>>
        Ret Serve
      else
        act (modify (set_hw HW_STATUS_ERROR)) >>>
        kcall (Sleep 1000) >>>
        Ret Boot
  | Serve =>
      do! msg := kcall (Fetch (TIME_MS2I 300)) in
      match msg with
      | Some f =>
          HC12__thread_wakeUp >>>
          kcall (SemWait None) >>>
          kcall (ChnWrite ChRadio f (Some (TIME_MS2I 5000))) >>>
          kcall (ChnWrite ChRadio [0x0a; 0x0d] (Some (TIME_MS2I 5000))) >>>
          kcall (Sleep 50) >>>
          act (modify (add_released f)) >>>
          act chBSemSignal >>>
          Ret Serve
      | None =>
          HC12__thread_goToSleep >>>
          Ret Serve
      end
  end.

(** One pass of [powerThread]: configuring and reading the converter, posting
    the frame and waiting for the next pass do not touch the radio. *)
Definition powerThread (_ : unit) : prog unit :=
  kcall Elsewhere >>>
  do! off := HC12__tunrOffRadio in
  if negb off then Ret tt
  else
    HC12__tunrOnRadio >>>
    kcall Elsewhere >>>
    Ret tt.

End hc12.

(** ** Sending with the radio powered *)

(** [main.c]: SET on PC11, the enable line on PC10. *)
Definition hc12ThreadCfg : hc12ThreadCfg_t := Hc12ThreadCfg 0 (PAL_LINE GPIOC 11) (PAL_LINE GPIOC 10).

(** What the protocol depends on: status, enable line, SET line, semaphore. *)
Record view := View {
  v_status : hc12StatusEnum;
  v_power : bool;
  v_normal : bool;
  v_taken : bool
}.

Definition view_of {P} (s : radio P) : view :=
  View (status (hc12State s))
       (default false (lines s !! PAL_LINE GPIOC 10))
       (default false (lines s !! PAL_LINE GPIOC 11))
       (uart_bsem (hc12State s)).

(** Phases of the radio thread: starting; waiting for the semaphore or sleeping
    at boot; asking for the status with the semaphore; back in normal mode after
    it; between frames; in the ten milliseconds of [goToSleep]; in the 500 of [wakeUp]; waiting for the
    semaphore with a frame; sending it. *)
Inductive rphase := RBoot | RPing | RPinged | RFree | RLowering | RWaking | RWaiting | RSending.

(** Phases of the power thread: without the semaphore; in the ten milliseconds
    of [goToSleep]; in the 500 of [wakeUp]. *)
Inductive pphase := PFree | PLowering | PRaising.

#[global] Instance rphase_eq_dec : EqDecision rphase.
Proof. solve_decision. Defined.
#[global] Instance pphase_eq_dec : EqDecision pphase.
Proof. solve_decision. Defined.

Definition r_owns (r : rphase) : bool := match r with RPing | RPinged | RSending => true | _ => false end.
Definition p_owns (q : pphase) : bool := match q with PFree => false | _ => true end.

Definition is_st (a b : hc12StatusEnum) : bool := bool_decide (a = b).

(** What each pair of phases says about the status and the two lines. *)
Definition agree (v : view) (r : rphase) (q : pphase) : bool :=
  let ok := is_st (v_status v) HC12_STATUS_OK in
  let asleep := is_st (v_status v) HC12_STATUS_SLEEP in
  match r, q with
  | RBoot, PFree => negb ok && negb asleep && v_power v
  | RPing, PFree => negb asleep && v_power v
  | RPinged, PFree => negb asleep && v_power v && v_normal v
  | RFree, PFree => v_normal v && (asleep || (ok && v_power v))
  | RFree, PLowering => v_normal v && (ok || asleep)
  | RFree, PRaising => v_normal v && asleep && v_power v
  | RLowering, PFree => v_normal v && ok
  | RLowering, PLowering => v_normal v && ok
  | RLowering, PRaising => v_normal v && asleep && v_power v
  | RWaking, PFree => v_normal v && (ok || asleep) && v_power v
  | RWaking, PLowering => v_normal v && (ok || asleep)
  | RWaking, PRaising => v_normal v && (ok || asleep) && v_power v
  | RWaiting, PFree => v_normal v && ok && v_power v
  | RWaiting, PLowering => v_normal v && (ok || asleep)
  | RWaiting, PRaising => v_normal v && (ok || asleep) && v_power v
  | RSending, PFree => v_normal v && ok && v_power v
  | _, _ => false
  end.

Definition protocol (v : view) (r : rphase) (q : pphase) : bool :=
  Bool.eqb (v_taken v) (r_owns r || p_owns q) && agree v r q.

Section powered.
Context {P : Type} `{UartHw P}.
Notation R := (radio P).

Definition radio_inv (s : R) (r : rphase) (q : pphase) : Prop :=
  threadCfg (hc12State s) = hc12ThreadCfg /\ length (rxBuff (hc12State s)) = STREAM_BUFFER_SIZE /\
  protocol (view_of s) r q = true.

(** Frames are written in the sending phase only. *)
Definition r_at {B} (c : call B) (r : rphase) : Prop :=
  match c with
  | ChnWrite ChRadio _ (Some _) => r = RSending
  | _ => True
  end.

Definition p_at {B} (c : call B) (q : pphase) : Prop := True.

Definition r_start (l : radio_loc) (r : rphase) : Prop :=
  match l with Start => r = RBoot | Boot => r = RBoot | Serve => r = RFree end.
Definition p_start (_ : unit) (q : pphase) : Prop := q = PFree.

Implicit Types s : R.

(** How the updates of the code change the view. *)
Lemma view_power b s :
  view_of (set_line (PAL_LINE GPIOC 10) b s) =
  View (v_status (view_of s)) b (v_normal (view_of s)) (v_taken (view_of s)).
Proof. unfold view_of, set_line. cbn [hc12State lines]. by rewrite lookup_insert_eq, lookup_insert_ne. Qed.

Lemma view_normal b s :
  view_of (set_line (PAL_LINE GPIOC 11) b s) =
  View (v_status (view_of s)) (v_power (view_of s)) b (v_taken (view_of s)).
Proof. unfold view_of, set_line. cbn [hc12State lines]. by rewrite lookup_insert_eq, lookup_insert_ne. Qed.

Lemma view_status x s :
  view_of (on_state (set_status x) s) =
  View x (v_power (view_of s)) (v_normal (view_of s)) (v_taken (view_of s)).
Proof. done. Qed.

Lemma view_bsem b s :
  view_of (on_state (set_bsem b) s) =
  View (v_status (view_of s)) (v_power (view_of s)) (v_normal (view_of s)) b.
Proof. done. Qed.

Lemma view_take s :
  view_of (bsem_take s) =
  View (v_status (view_of s)) (v_power (view_of s)) (v_normal (view_of s)) true.
Proof. done. Qed.

Lemma view_rx f s : view_of (on_state (fun h => set_rxBuff (f h) h) s) = view_of s.
Proof. done. Qed.

Lemma view_hw x s : view_of (set_hw x s) = view_of s.
Proof. done. Qed.

Lemma view_released f s : view_of (add_released f s) = view_of s.
Proof. done. Qed.

End powered.

Create Rewrite HintDb view.
#[export] Hint Rewrite @view_power @view_normal @view_status @view_bsem @view_take @view_rx @view_hw @view_released : view.

(** [phase]: the view conditions of a step, by cases on the finite view. *)
Ltac to_view s :=
  change (status (hc12State s)) with (v_status (view_of s)) in *;
  change (bsem_taken s) with (v_taken (view_of s)) in *.
Ltac phase s :=
  unfold flip_inv in *;
  repeat match goal with H : radio_inv _ _ _ |- _ => destruct H as (? & ? & ?) end;
  split_and!; try done;
  cbn [enableLine lineSet hc12ThreadCfg]; autorewrite with view; cbn [v_status v_power v_normal v_taken];
  to_view s; generalize dependent (view_of s); intros [[] [] [] []]; cbn; intros;
  repeat match goal with x : pphase |- _ => destruct x | x : rphase |- _ => destruct x end;
  cbn in *; try done; naive_solver.

Section powered_proofs.
Context {P : Type} `{UartHw P}.
Notation R := (radio P).
Notation rgr := (rg bsem_taken bsem_take radio_inv (@r_at)).
Implicit Types (s : R) (q : pphase).

Lemma inv_cfg s r q : radio_inv s r q -> threadCfg (hc12State s) = hc12ThreadCfg.
Proof. by intros (? & _). Qed.

Lemma r_goToSleep s q :
  radio_inv s RFree q -> rgr HC12__thread_goToSleep (fun _ s q => radio_inv s RFree q) s q.
Proof.
  intros HI. unfold HC12__thread_goToSleep, get_status. rgs. case_decide as Hst; rgs; [done|].
  rewrite (inv_cfg _ _ _ HI). apply (rg_call _ _ _ _ RLowering); [done|done|phase s|].
  clear. intros _ _ s q HI _. unfold put_status. rgs. phase s.
Qed.

Lemma r_wakeUp s q :
  radio_inv s RFree q -> rgr HC12__thread_wakeUp (fun _ s q => radio_inv s RWaiting q) s q.
Proof.
  intros HI. unfold HC12__thread_wakeUp, get_status. rgs. case_decide as Hst; rgs; [phase s|].
  rewrite (inv_cfg _ _ _ HI). apply (rg_call _ _ _ _ RWaking); [done|done|phase s|].
  clear. intros _ _ s q HI _. unfold put_status. rgs. phase s.
Qed.
Lemma printed_ok fmt ap out s (Q : list Z -> R -> Prop) :
  chprintf (bytes fmt) ap = Done out -> Q out s -> wp (printed fmt ap) Q s.
Proof. intros Hf HQ. unfold wp, printed. by rewrite Hf. Qed.

Lemma answered_ok rx s (Q : bool -> R -> Prop) :
  length rx = STREAM_BUFFER_SIZE -> (forall b, Q b s) -> wp (answered rx) Q s.
Proof. intros Hl HQ. do 3 (destruct rx as [|? rx]; [done|]). apply HQ. Qed.

Lemma boot_nok s q : radio_inv s RBoot q -> status (hc12State s) = HC12_STATUS_NOK.
Proof.
  intros (_ & _ & Hp). to_view s. generalize dependent (view_of s).
  by intros [[] [] [] []]; destruct q; cbn.
Qed.

Lemma inv_rx rx s r q :
  (length rx <= 8)%nat -> radio_inv s r q ->
  radio_inv (on_state (fun h => set_rxBuff (overwrite rx (rxBuff h)) h) s) r q.
Proof.
  intros Hl (Hc & Hb & Hp). split_and!; [done| |done]. cbn.
  rewrite overwrite_length; [done|]. rewrite Hb. unfold STREAM_BUFFER_SIZE. lia.
Qed.

(** The status check: from boot to boot, or to service when the radio
    answered. *)
Lemma r_checkStatus s q :
  radio_inv s RBoot q ->
  rgr HC12__thread_checkStatus
    (fun _ s q => radio_inv s (if decide (status (hc12State s) = HC12_STATUS_OK) then RFree else RBoot) q) s q.
Proof.
  intros HI. unfold HC12__thread_checkStatus, HC12__thread_progMode, put_status. rgs.
  apply (rg_sem _ _ _ _ RBoot); [done|phase s| |]; clear.
  2: { intros s q d _ HI. rewrite decide_True by done. rgs.
       rewrite decide_False; [done|]. by rewrite (boot_nok _ _ HI). }
  intros s q HI Hf. rewrite decide_False by auto. rgs. cbn [bsem_take on_state set_bsem hc12State threadCfg].
  rewrite (inv_cfg _ _ _ HI). apply (rg_call _ _ _ _ RPing); [done|done|phase s|]; clear.
  intros _ _ s q HI _. rgs. apply rg_act. eapply printed_ok; [reflexivity|]. rgs.
  apply (rg_call _ _ _ _ RPing); [done|done|done|]. clear. intros _ _ s q HI _. rgs.
  apply (rg_call _ _ _ _ RPing); [done|done|done|]. clear. intros _ rx s q HI [_ Hlen]. rgs.
  apply rg_act, wp_bind, wp_get.
  pose proof (inv_rx rx s RPing q ltac:(done) HI) as HI'. revert HI'.
  generalize (on_state (fun h => set_rxBuff (overwrite rx (rxBuff h)) h) s) as s'. clear. intros s HI.
  apply answered_ok; [apply HI|]. intros ok. rgs.
  assert (forall s q, radio_inv s RPing q ->
    rgr (HC12__thread_normalMode >>> act chBSemSignal)
      (fun _ s q => radio_inv s (if decide (status (hc12State s) = HC12_STATUS_OK) then RFree else RBoot) q) s q) as Hend.
  { clear. intros s q HI. unfold HC12__thread_normalMode, chBSemSignal. rgs. rewrite (inv_cfg _ _ _ HI).
    apply (rg_call _ _ _ _ RPinged); [done|done|phase s|]. clear. intros _ _ s q HI _. rgs.
    change (status (hc12State (on_state (set_bsem false) s))) with (status (hc12State s)).
    case_decide; phase s. }
  destruct ok; rgs; apply Hend; phase s.
Qed.
Lemma r_body l r s q :
  r_start l r -> radio_inv s r q ->
  rgr (hc12StreamThread l) (fun l s q => exists r, r_start l r /\ radio_inv s r q) s q.
Proof.
  destruct l; cbn [r_start]; intros -> HI; unfold hc12StreamThread, HC12__thread_normalMode, get_status, chBSemSignal.
  - rgs. cbn [set_hw hc12State]. rewrite (inv_cfg _ _ _ HI). apply (rg_call _ _ _ _ RBoot); [done|done|phase s|].
    intros _ _ s' q' HI' _. rgs. by exists RBoot.
  - apply rg_bind. eapply rg_conseq; [by apply r_checkStatus|]. clear. intros ? s q HI; cbv beta in HI. rgs. case_decide.
    + apply rg_bind. eapply rg_conseq; [by apply r_goToSleep|]. clear. intros ? s q HI; cbv beta in HI. rgs. by exists RFree.
    + rgs. apply (rg_call _ _ _ _ RBoot); [done|done|phase s|]. intros _ _ s' q' HI' _. rgs. by exists RBoot.
  - rgs. apply (rg_call _ _ _ _ RFree); [done|done|done|]. clear. intros _ [f|] s q HI _.
    + apply rg_bind. eapply rg_conseq; [by apply r_wakeUp|]. clear. intros ? s q HI; cbv beta in HI. rgs.
      apply (rg_sem _ _ _ _ RWaiting); [done|done| |done]. clear. intros s q HI Hf. rgs.
      apply (rg_call _ _ _ _ RSending); [done|done|phase s|]. clear. intros _ _ s q HI _. rgs.
      apply (rg_call _ _ _ _ RSending); [done|done|done|]. clear. intros _ _ s q HI _. rgs.
      apply (rg_call _ _ _ _ RSending); [done|done|done|]. clear. intros _ _ s q HI _. rgs.
      exists RFree. split; [done|]. phase s.
    + apply rg_bind. eapply rg_conseq; [by apply r_goToSleep|]. clear. intros ? s q HI; cbv beta in HI. rgs. by exists RFree.
Qed.

(** The power thread does everything with the semaphore, so its pass is one
    critical section. *)
Notation rgp := (rg bsem_taken bsem_take (flip_inv radio_inv) (@p_at)).

Lemma p_raise s r :
  (status (hc12State s) = HC12_STATUS_NOK /\ radio_inv (on_state (set_bsem false) s) r PFree) \/
  (status (hc12State s) = HC12_STATUS_SLEEP /\ radio_inv (set_line (PAL_LINE GPIOC 10) true s) r PRaising) ->
  rgp HC12__tunrOnRadio (fun _ s r => radio_inv s r PFree) s r.
Proof.
  intros Hs. unfold HC12__tunrOnRadio, HC12__thread_wakeUp, get_status, put_status, chBSemSignal. rgs.
  destruct Hs as [[Hst HI]|[Hst HI]]; rewrite Hst.
  - rewrite decide_True by done. rgs. done.
  - rewrite decide_False by auto. rgs.
    assert (threadCfg (hc12State s) = hc12ThreadCfg) as -> by (apply inv_cfg in HI; exact HI).
    apply (rg_call _ _ _ _ PRaising); [done|done|exact HI|]. clear. intros _ _ s r HI _. rgs. phase s.
Qed.

Lemma p_body l ph s r :
  p_start l ph -> flip_inv radio_inv s ph r ->
  rgp (powerThread l) (fun l s r => exists ph, p_start l ph /\ flip_inv radio_inv s ph r) s r.
Proof.
  intros -> HI. unfold powerThread, HC12__tunrOffRadio. rgs.
  apply (rg_call _ _ _ _ PFree); [done|done|done|]. clear. intros _ _ s r HI _. rgs.
  apply (rg_sem _ _ _ _ PFree); [done|done| |]; clear.
  2: { intros s r d _ HI. rewrite decide_True by done. rgs. by exists PFree. }
  intros s r HI Hf. rewrite decide_False by auto. unfold HC12__thread_goToSleep, get_status, put_status. rgs.
  assert (forall s r, rgp HC12__tunrOnRadio (fun _ s r => radio_inv s r PFree) s r ->
    rgp (HC12__tunrOnRadio >>> kcall Elsewhere >>> Ret tt)
        (fun l s r => exists ph, p_start l ph /\ flip_inv radio_inv s ph r) s r) as Hrest.
  { clear. intros s r Hr. apply rg_bind. eapply rg_conseq; [exact Hr|]. clear. intros ? s r HI; cbv beta in HI. rgs.
    apply (rg_call _ _ _ _ PFree); [done|done|done|]. clear. intros _ _ s r HI _. rgs. by exists PFree. }
  change (status (hc12State (bsem_take s))) with (status (hc12State s)).
  case_decide as Hst; rgs.
  - apply Hrest, p_raise. change (status (hc12State (bsem_take s))) with (status (hc12State s)).
    destruct (status (hc12State s)) eqn:E; [left|right|done]; (split; [done|]); phase s.
  - change (threadCfg (hc12State (bsem_take s))) with (threadCfg (hc12State s)).
    rewrite (inv_cfg _ _ _ HI). apply (rg_call _ _ _ _ PLowering); [done|done|phase s|]; clear -Hrest.
    intros _ _ s r HI _. rgs. apply Hrest, p_raise. right. split; [done|]. phase s.
Qed.
End powered_proofs.

(** ** The two threads together *)

Section system.
Context {P : Type} `{UartHw P}.
Notation R := (radio P).
Notation hc12_step := (step bsem_taken bsem_take (L1 := radio_loc) (L2 := unit) hc12StreamThread powerThread).

(** After [HC12__thread_init]: lines as [board.h] leaves them (high), both
    threads at their start. *)
Definition booted (c : hc12cfg_t) (p : P) (x : sys radio_loc unit) : Prop :=
  exists ln md rx tx st0 c0 tc0 sem0 hw,
    ln !! PAL_LINE GPIOC 10 = Some true /\ ln !! PAL_LINE GPIOC 11 = Some true /\
    length rx = STREAM_BUFFER_SIZE /\
    HC12__thread_init hc12ThreadCfg c (Radio (Hc12State rx tx st0 c0 tc0 sem0) hw ln md p [])
      = Done (tt, shared x) /\
    code (th1 x) = Ret Start /\ code (th2 x) = Ret tt.

(** The radio thread is inside [chnWriteTimeout] with a frame or an end of
    line. *)
Definition sending (x : sys (S := R) radio_loc unit) : Prop :=
  exists bs t k, code (th1 x) = Call (ChnWrite ChRadio bs (Some t)) k.

Lemma booted_coherent c p x :
  booted c p x -> coherent bsem_taken bsem_take radio_inv (@r_at) (@p_at) r_start p_start x.
Proof.
  intros (ln & md & rx & tx & st0 & c0 & tc0 & sem0 & hw & H10 & H11 & Hrx & Hi & H1 & H2).
  exists RBoot, PFree. rewrite H1, H2. split_and!; [|done..].
  assert (shared x = Radio (Hc12State rx tx HC12_STATUS_NOK c hc12ThreadCfg false) hw ln
     (<[PAL_LINE GPIOC 10 := PAL_STM32_MODE_OUTPUT]> (<[PAL_LINE GPIOC 11 := PAL_STM32_MODE_OUTPUT]> md)) p [])
    as -> by (injection Hi as <-; done).
  split_and!; [done|done|]. unfold view_of. cbn [lines hc12State status uart_bsem]. by rewrite H10, H11.
Qed.

Lemma reachable_coherent c p x y :
  booted c p x -> rtc hc12_step x y ->
  coherent bsem_taken bsem_take radio_inv (@r_at) (@p_at) r_start p_start y.
Proof.
  intros Hb. apply rg_sound; [apply r_body|apply p_body|by eapply booted_coherent].
Qed.

(** C9: In every interleaving of the radio thread and the power thread, at any
    speed, the radio thread is only ever inside the write of a frame while the
    radio is switched on, in normal mode and not in its sleeping status, and
    while it holds the semaphore. *)
Theorem hc12_sends_powered c p x y :
  booted c p x -> rtc hc12_step x y -> sending y ->
  lines (shared y) !! PAL_LINE GPIOC 10 = Some true /\
  lines (shared y) !! PAL_LINE GPIOC 11 = Some true /\
  status (hc12State (shared y)) = HC12_STATUS_OK /\ uart_bsem (hc12State (shared y)) = true.
Proof.
  intros Hb Hr (bs & t & k & Hk).
  destruct (reachable_coherent c p x y Hb Hr) as (r & q & (_ & _ & Hp) & H1 & _).
  rewrite Hk in H1. destruct H1 as [-> _]. revert Hp. unfold protocol, view_of. cbn.
  destruct q, (status (hc12State (shared y))), (lines (shared y) !! PAL_LINE GPIOC 10) as [[]|],
    (lines (shared y) !! PAL_LINE GPIOC 11) as [[]|], (uart_bsem (hc12State (shared y))); cbn; try done; naive_solver.
Qed.

(** No stretch of the two threads ever fails: in every reachable state, a
    thread whose kernel call ends, however it ends, reaches its next call
    without a memory error, an assertion or an endless loop. *)
Theorem hc12_threads_never_fail c p x y :
  booted c p x -> rtc hc12_step x y ->
  match code (th1 y) with
  | Ret l => exists r, burst (hc12StreamThread l) (shared y) = Done r
  | Do _ _ => False
  | Call cl k => forall e b s1, resume bsem_taken bsem_take e (shared y) _ cl b s1 -> exists r, burst (k b) s1 = Done r
  end /\
  match code (th2 y) with
  | Ret l => exists r, burst (powerThread l) (shared y) = Done r
  | Do _ _ => False
  | Call cl k => forall e b s1, resume bsem_taken bsem_take e (shared y) _ cl b s1 -> exists r, burst (k b) s1 = Done r
  end.
Proof.
  intros Hb Hr. destruct (reachable_coherent c p x y Hb Hr) as (r & q & HI & H1 & H2). split.
  - by eapply (tstep_no_failure _ _ radio_inv (@r_at) r_start hc12StreamThread); [apply r_body|..].
  - by eapply (tstep_no_failure _ _ (flip_inv radio_inv) (@p_at) p_start powerThread); [apply p_body|..].
Qed.
End system.

(** ** Runs *)

(** A radio that never sends a byte, and a clock that stands still. *)
#[global] Instance silent_uart : UartHw unit := {
  u_time := fun _ => (0, tt);
  u_getc := fun _ => (None, tt)
}.

(** [main.c]: channel 1, 9600 baud, FU1, 6.3 mW. *)
Definition hc12cfg : hc12cfg_t := Hc12Cfg 1 9600 1 4.

Definition boot_state : radio unit :=
  Radio (Hc12State (replicate 64 0) (replicate 64 0) HC12_STATUS_NOK hc12cfg hc12ThreadCfg false) HW_STATUS_UNKNOWN
    (<[PAL_LINE GPIOC 10 := true]> (<[PAL_LINE GPIOC 11 := true]> ∅))
    (<[PAL_LINE GPIOC 10 := PAL_STM32_MODE_OUTPUT]> (<[PAL_LINE GPIOC 11 := PAL_STM32_MODE_OUTPUT]> ∅)) tt [].

Definition boot_sys : sys radio_loc unit := Sys 0 boot_state (Thread (Ret Start) 0) (Thread (Ret tt) 0).

Lemma boot_sys_booted : booted hc12cfg tt boot_sys.
Proof.
  exists (<[PAL_LINE GPIOC 10 := true]> (<[PAL_LINE GPIOC 11 := true]> ∅)), ∅, (replicate 64 0), (replicate 64 0),
    HC12_STATUS_NOK, hc12cfg, hc12ThreadCfg, false, HW_STATUS_UNKNOWN. by split_and!.
Qed.

(** The radio answers the status request and goes to sleep; the thread then
    waits for frames. *)
Definition startup : list event :=
  [Run1 AnsDone; Tick 50; Run1 AnsDone; Run1 AnsDone; Run1 AnsDone; Tick 50; Run1 AnsDone; Run1 AnsDone;
   Run1 (AnsBytes (bytes "OK")); Tick 50; Run1 AnsDone; Tick 10; Run1 AnsDone; Run1 AnsDone].

(** A frame arrives while the power thread cycles the radio. *)
Definition frame_run : list event :=
  startup ++ [Run1 (AnsFrame (bytes "$M")); Run2 AnsDone; Run2 AnsDone; Run2 AnsDone; Tick 500;
              Run1 AnsDone; Run2 AnsDone; Run1 AnsDone].

Lemma hc12_sends_powered_witness :
  exists y, exec bsem_taken bsem_take hc12StreamThread powerThread frame_run boot_sys = Some y /\ sending y /\
    lines (shared y) !! PAL_LINE GPIOC 10 = Some true /\
    lines (shared y) !! PAL_LINE GPIOC 11 = Some true /\
    status (hc12State (shared y)) = HC12_STATUS_OK /\ uart_bsem (hc12State (shared y)) = true.
Proof.
  destruct (exec bsem_taken bsem_take hc12StreamThread powerThread frame_run boot_sys) as [y|] eqn:E;
    [|vm_compute in E; discriminate E].
  assert (sending y) as Hs.
  { vm_compute in E. injection E as <-. do 3 eexists. reflexivity. }
  exists y. split; [reflexivity|]. split; [exact Hs|].
  refine (hc12_sends_powered hc12cfg tt boot_sys y boot_sys_booted _ Hs).
  exact (exec_reachable _ _ _ _ frame_run boot_sys y E).
Defined.

Lemma hc12_threads_never_fail_witness :
  exists r, burst (hc12StreamThread Start) (shared boot_sys) = Done r.
Proof.
  refine (proj1 (hc12_threads_never_fail hc12cfg tt boot_sys boot_sys boot_sys_booted _)). apply rtc_refl.
Defined.

(** ** The shell command *)

(** The shell runs [hc12set] again and again. *)
Definition hc12set_loop (fuel : nat) (_ : unit) : prog (radio unit) unit :=
  HC12__reconfigureDefault fuel >>> Ret tt.

(** The command starts 80 ms after the radio thread began to wait for a frame;
    the thread's second wait of 300 ms ends while the command is in the 50 ms of
    entering the programming mode. *)
Definition hc12set_run : list event :=
  startup ++ [Tick 80; Run2 AnsDone; Tick 220; Run1 AnsTimeout; Run1 AnsDone; Tick 280; Run2 AnsDone; Run2 AnsDone;
              Tick 20; Run1 AnsTimeout; Tick 10; Run1 AnsDone; Run1 AnsDone; Tick 20; Run2 AnsDone].

(** C40: The radio thread puts the radio to sleep without taking the semaphore.
    A run of the two threads with the exact delays of the code in which the
    shell command [hc12set] holds the semaphore and writes its first AT
    command while the radio is switched off. *)
Theorem hc12set_loses_power :
  exists y, rtc (step bsem_taken bsem_take hc12StreamThread (hc12set_loop 10)) boot_sys y /\
    (exists k, code (th2 y) = Call (ChnWrite ChRadio (bytes "AT+C001") None) k) /\
    uart_bsem (hc12State (shared y)) = true /\
    lines (shared y) !! PAL_LINE GPIOC 10 = Some false.
Proof.
  set (obs := fun y : sys (S := radio unit) radio_loc unit =>
    (writing (code (th2 y)), uart_bsem (hc12State (shared y)), lines (shared y) !! PAL_LINE GPIOC 10)).
  assert (obs <$> exec bsem_taken bsem_take hc12StreamThread (hc12set_loop 10) hc12set_run boot_sys
          = Some (Some (ChRadio, bytes "AT+C001", None), true, Some false)) as Ho by (vm_compute; reflexivity).
  destruct (exec _ _ _ _ hc12set_run boot_sys) as [y|] eqn:E; [|done].
  injection Ho as Hw Hb Hl. exists y. split; [by eapply exec_reachable|]. eauto using writing_inv.
Qed.

(** ** Waiting for an answer *)

Section await.
Context {P : Type} `{UartHw P}.
Notation R := (radio P).

(** A silent radio and a clock: [clk] is the tick counter before the 16-bit
    truncation, and it advances by one tick at the latest after [N] polls. *)
Context (I : P -> Prop) (clk : P -> Z) (wait : P -> nat) (N : nat).
Hypothesis silent : forall p, I p -> exists p', u_getc p = (None, p') /\ I p' /\ clk p' = clk p /\ wait p' = wait p.
Hypothesis clock : forall p, I p -> exists p', u_time p = (clk p, p') /\ I p' /\ (wait p' <= N)%nat /\
  ((clk p' = clk p /\ (wait p' < wait p)%nat) \/ clk p' = clk p + 1).

(** One pass of the loop. *)
Lemma await_pass h fuel timeout index (s : R) :
  I (plat s) ->
  if decide (u16 (clk (plat s)) - timeout > 1000)
  then exists s', run h (await (Datatypes.S fuel) timeout index) s = Done (false, s')
  else exists s', run h (await (Datatypes.S fuel) timeout index) s = run h (await fuel timeout index) s' /\
    I (plat s') /\ (wait (plat s') <= N)%nat /\
    ((clk (plat s') = clk (plat s) /\ (wait (plat s') < wait (plat s))%nat) \/ clk (plat s') = clk (plat s) + 1).
Proof.
  intros Hs. destruct (clock _ Hs) as (p1 & Ht & H1 & Hw1 & Hc1). destruct (silent _ H1) as (p2 & Hg & H2 & Hc2 & Hw2).
  cbn [await]. assert (systime s = Done (u16 (clk (plat s)), set_plat p1 s)) as Hst by (unfold systime; by rewrite Ht).
  case_decide as Hd.
  - exists (set_plat p1 s). rewrite run_bind. cbn [run act]. unfold bind. rewrite Hst. cbn [ret].
    by rewrite decide_True.
  - exists (set_plat p2 s). rewrite run_bind. cbn [run act]. unfold bind. rewrite Hst. cbn [ret].
    rewrite decide_False by done. rewrite run_bind. cbn [run act]. unfold bind.
    assert (read_immediate (set_plat p1 s) = Done (None, set_plat p2 s)) as ->.
    { unfold read_immediate. cbn. by rewrite Hg. }
    cbn [ret]. split; [done|]. cbn. rewrite Hc2, Hw2. split_and!; done.
Qed.

(** C39: The wait for the radio's answer compares 16-bit times without
    wrapping.  If it starts in the last second before the counter wraps (from
    tick 64535 on), a radio that does not answer keeps the shell, and with it every
    thread of its priority, in the loop for ever.  If it starts earlier, the
    wait ends with an error after a second. *)
Theorem hc12_await_silent h timeout index (s : R) :
  I (plat s) -> 0 <= timeout < 65536 ->
  (64535 <= timeout -> forall fuel, run h (await fuel timeout index) s = Hang) /\
  (timeout < 64535 -> clk (plat s) = timeout -> (wait (plat s) <= N)%nat ->
     exists s', run h (await ((N + 1) * 1002) timeout index) s = Done (false, s')).
Proof.
  intros Hs Ht. split.
  - intros Hlate fuel. revert s Hs. induction fuel as [|fuel IH]; intros s Hs; [done|].
    pose proof (await_pass h fuel timeout index s Hs) as Hp. rewrite decide_False in Hp.
    + destruct Hp as (s' & -> & Hs' & _). by apply IH.
    + pose proof (u16_range (clk (plat s))). lia.
  - intros Hearly Hc Hw.
    assert (forall fuel s, I (plat s) -> timeout <= clk (plat s) <= timeout + 1001 -> (wait (plat s) <= N)%nat ->
      ((N + 1) * Z.to_nat (timeout + 1001 - clk (plat s)) + wait (plat s) < fuel)%nat ->
      exists s', run h (await fuel timeout index) s = Done (false, s')) as Hrun.
    { clear s Hs Hc Hw. induction fuel as [|fuel IH]; intros s Hs Hc Hw Hf; [lia|].
      pose proof (await_pass h fuel timeout index s Hs) as Hp. rewrite u16_small in Hp by lia.
      case_decide as Hd; [done|]. destruct Hp as (s' & -> & Hs' & Hw' & Hcl). apply IH; [done|lia|lia|].
      destruct Hcl as [[-> ?]| ->]; [lia|].
      replace (timeout + 1001 - clk (plat s)) with (Z.succ (timeout + 1001 - (clk (plat s) + 1))) in Hf by lia.
      rewrite Z2Nat.inj_succ in Hf by lia. lia. }
    apply Hrun; [done|lia|done|]. rewrite Hc. replace (timeout + 1001 - timeout) with 1001 by lia. lia.
Qed.
End await.

(** A clock that ticks at every poll. *)
#[global] Instance ticking_uart : UartHw Z := {
  u_time := fun t => (t, t + 1);
  u_getc := fun t => (None, t)
}.

Definition ticking_state (t : Z) : radio Z :=
  Radio (Hc12State (replicate 64 0) (replicate 64 0) HC12_STATUS_OK hc12cfg hc12ThreadCfg true) HW_STATUS_OK ∅ ∅ t [].

Lemma hc12_await_silent_witness :
  (forall fuel, run (fun _ _ => hang) (await fuel 65000 0) (ticking_state 65000) = Hang) /\
  (exists s', run (fun _ _ => hang) (await 1002 64000 0) (ticking_state 64000) = Done (false, s')).
Proof.
  assert (forall p : Z, True -> exists p', u_getc p = (None, p') /\ True /\ p' = p /\ 0%nat = 0%nat) as Hs
    by (intros p _; by exists p).
  assert (forall p : Z, True -> exists p', u_time p = (p, p') /\ True /\ (0 <= 0)%nat /\ ((p' = p /\ (0 < 0)%nat) \/ p' = p + 1)) as Hc
    by (intros p _; exists (p + 1); split_and!; auto).
  split.
  - refine (proj1 (hc12_await_silent (fun _ => True) (fun t => t) (fun _ => 0%nat) 0 Hs Hc (fun _ _ => hang) 65000 0
      (ticking_state 65000) Logic.I _) _); lia.
  - refine (proj2 (hc12_await_silent (fun _ => True) (fun t => t) (fun _ => 0%nat) 0 Hs Hc (fun _ _ => hang) 64000 0
      (ticking_state 64000) Logic.I _) _ _ _); [lia|lia|reflexivity|apply le_n].
Defined.

(** The index of the answer is not bounded by the buffer: the radio's 65th byte
    without an end of line is stored behind [rxBuff]. *)
#[global] Instance chatty_uart : UartHw bool := {
  u_time := fun b => (0, b);
  u_getc := fun b => (Some 65, b)
}.

Example await_overflow :
  run (fun B c => match c in call B return M (radio bool) B with ChnWrite _ bs _ => ret (length bs) | _ => hang end)
      (await 65 0 0)
      (Radio (Hc12State (replicate 64 0) (replicate 64 0) HC12_STATUS_OK hc12cfg hc12ThreadCfg true) HW_STATUS_OK ∅ ∅ true [])
  = Halt "rxBuff".
Proof. vm_compute. reflexivity. Qed.
