(* ===== verification/Shell.v ===== *)
(** * The shell

    [src/src/shell/shell.c] as the firmware configures it (no history, no
    completion, no escape sequences, no [exit] command): reading a line with
    echo and erase, splitting it in place into a command and its arguments, and
    finding the command in the table of [shellCmd.c], which depends on two macros
    of the build.

    The line is a buffer of characters with a final zero; a pointer into it is
    an index, and a read or store outside the buffer is an error.  Proved here:
    the line editor stays inside its buffer and leaves the edited line in it;
    the splitter, which writes zeros into the buffer and returns pointers into
    it, gives the words that a splitter on lists gives, and all of them are
    still in the buffer when the command runs. *)

From S2P Require Import Prelude Oslib Chprintf Msp.

Definition SHELL_MAX_LINE_LENGTH : nat := 64.
Definition SHELL_MAX_ARGUMENTS : nat := 4.
Definition SHELL_NEWLINE_STR : list Z := [13; 10].

(** ** C strings in a buffer *)

(** The characters up to the first zero; [None] when there is none. *)
Fixpoint cstr (l : list Z) : option (list Z) :=
  match l with
  | [] => None
  | c :: l => if decide (c = 0) then Some [] else cons c <$> cstr l
  end.

Definition cstr_at (buf : list Z) (p : nat) : option (list Z) := cstr (drop p buf).

(** [strspn] with a set of characters that does not contain the zero, and
    [strpbrk]; both stop at the final zero. *)
Fixpoint strspn (accept : Z -> bool) (l : list Z) : option nat :=
  match l with
  | [] => None
  | c :: l => if accept c then S <$> strspn accept l else Some 0%nat
  end.

Fixpoint strpbrk (accept : Z -> bool) (l : list Z) : option (option nat) :=
  match l with
  | [] => None
  | c :: l => if decide (c = 0) then Some None
              else if accept c then Some (Some 0%nat)
              else option_map (option_map S) (strpbrk accept l)
  end.

Definition blank (c : Z) : bool := (c =? 32) || (c =? 9).
Definition quote (c : Z) : bool := c =? 34.

(** ** Splitting a line *)

(** From [strpbrk] on: finds the delimiter, replaces it with a zero, and
    returns the word unless it is empty. *)
Definition cut_word (p : nat) (delim : Z -> bool) : M (list Z * option nat) (option nat) :=
  let! s := get in
  let! e := lift_opt (strpbrk delim (drop p (fst s))) "line" in
  (match e with
   | Some n =>
       let! buf := lift_opt (store (fst s) (Z.of_nat (p + n)) 0) "line" in
       put (buf, Some (S (p + n)))
   | None => put (fst s, None)
   end) ;;;
  let! s := get in
  let! c := lift_opt (fst s !! p) "line" in
  ret (if decide (c <> 0) then Some p else None).

(** [parse_arguments(str, &tokp)] on the line and [tokp]. *)
Definition parse_arguments (str : option nat) : M (list Z * option nat) (option nat) :=
  let! s := get in
  match (match str with Some p => Some p | None => snd s end) with
  | None => put (fst s, None) ;;; ret None
  | Some p =>
      let! n := lift_opt (strspn blank (drop p (fst s))) "line" in
      let! c := lift_opt (fst s !! (p + n)%nat) "line" in
      if decide (c = 34) then cut_word (S (p + n)) quote else cut_word (p + n) blank
  end.

(** The [while] of [shellThread] with [n] more arguments allowed: the
    arguments, and whether there were too many. *)
Fixpoint collect (n : nat) : M (list Z * option nat) (list nat * bool) :=
  let! lp := parse_arguments None in
  match lp with
  | None => ret ([], false)
  | Some p =>
      match n with
      | O => ret ([], true)
      | S n => let! r := collect n in ret (p :: fst r, snd r)
      end
  end.

(** What [shellThread] makes of a line: [cmd] (null after too many arguments),
    [args], and whether it printed the complaint. *)
Definition split_line : M (list Z * option nat) (option nat * list nat * bool) :=
  let! cmd := parse_arguments (Some 0%nat) in
  let! r := collect SHELL_MAX_ARGUMENTS in
  ret (if snd r then None else cmd, fst r, snd r).

(** ** Reading a line *)

(** What the editor keeps: the buffer and the pointer [p]. *)
Record editor := Editor {
  ed_line : list Z;
  ed_p : nat;
  ed_echo : list Z
}.

Definition put_echo (bs : list Z) : M editor unit :=
  modify (fun e => Editor (ed_line e) (ed_p e) (ed_echo e ++ bs)).

Definition ed_store (i : nat) (c : Z) : M editor unit :=
  let! e := get in
  let! l := lift_opt (store (ed_line e) (Z.of_nat i) c) "line" in
  put (Editor l (ed_p e) (ed_echo e)).

Definition set_p (p : nat) : M editor unit := modify (fun e => Editor (ed_line e) p (ed_echo e)).

(** [if (p < line + size - 1) { streamPut(chp, c); *p++ = c; }] *)
Definition ed_append (size : nat) (c : Z) : M editor unit :=
  let! e := get in
  if decide (ed_p e < size - 1)%nat then
    put_echo [c] ;;; ed_store (ed_p e) c ;;; set_p (S (ed_p e))
  else ret tt.

(** One pass of [shellGetLine] for the character [c] (a [char] is unsigned on
    this target): [Some] leaves the loop. *)
Definition shell_char (size : nat) (c : Z) : M editor (option bool) :=
  let! e := get in
  if decide (c = 8 \/ c = 127) then
    (if decide (ed_p e <> 0%nat) then put_echo [0x08; 0x20; 0x08] ;;; set_p (ed_p e - 1) else ret tt) ;;;
    ret None
  else if decide (c = 13) then
    put_echo SHELL_NEWLINE_STR ;;;
    ed_store (ed_p e) 0 ;;;
    ret (Some false)
  else if decide (c < 0x20) then ret None
  else
    ed_append size c ;;;
    ret None.

(** [shellGetLine] on a stream that delivers the characters [input] and is then
    reset: [true] is an end of the stream. *)
Fixpoint shellGetLine_loop (size : nat) (input : list Z) : M editor bool :=
  match input with
  | [] => ret true
  | c :: input =>
      let! r := shell_char size c in
      match r with Some b => ret b | None => shellGetLine_loop size input end
  end.

(** [p = line] *)
Definition shellGetLine (size : nat) (input : list Z) : M editor bool :=
  set_p 0 ;;; shellGetLine_loop size input.

(** ** Commands *)

(** [strcmp(scp->sc_name, name) == 0]: the first entry with the name. *)
Fixpoint cmdexec {C} (scp : list (list Z * C)) (name : list Z) : option C :=
  match scp with
  | [] => None
  | (n, f) :: scp => if decide (n = name) then Some f else cmdexec scp name
  end.

Definition list_commands {C} (scp : list (list Z * C)) : list Z :=
  concat (map (fun e => fst e ++ [32]) scp).

(** The macros the table depends on: the Debug build enables [threads], and
    [appCfg.h] may enable the lightning sensor. *)
Record build := Build { SHELL_CMD_THREADS_ENABLED : bool; USE_AS3935 : bool }.

Inductive command :=
  | CmdThreads | CmdTune | CmdSleep | CmdHc12Set | CmdValues | CmdSend | CmdHw | CmdSch | CmdSave | CmdMem.

Definition shellCommands (b : build) : list (list Z * command) :=
  (if SHELL_CMD_THREADS_ENABLED b then [(bytes "threads", CmdThreads)] else []) ++
  (if USE_AS3935 b then [(bytes "tune", CmdTune)] else []) ++
  [(bytes "sleep", CmdSleep); (bytes "hc12set", CmdHc12Set); (bytes "values", CmdValues);
   (bytes "send", CmdSend); (bytes "hw", CmdHw); (bytes "schedule", CmdSch);
   (bytes "save", CmdSave); (bytes "mem", CmdMem)].

(** What [shellThread] does with a line that was read. *)
Inductive reaction :=
  | Nothing
  | TooMany
  | HelpUsage
  | Help (text : list Z)
  | Execute (c : command) (argv : list (list Z))
  | Unknown (name : list Z).

Definition dispatch (b : build) (cmd : list Z) (argv : list (list Z)) : reaction :=
  if decide (cmd = bytes "help") then
    match argv with
    | _ :: _ => HelpUsage
    | [] => Help (bytes "Commands: help " ++ list_commands (shellCommands b) ++ list_commands (shellCommands b)
                  ++ SHELL_NEWLINE_STR)
    end
  else match cmdexec (shellCommands b) cmd with
       | Some c => Execute c argv
       | None => match cmdexec (shellCommands b) cmd with
                 | Some c => Execute c argv
                 | None => Unknown cmd
                 end
       end.

(** One pass of the loop of [shellThread] over a line buffer: the strings that
    [cmd] and [args] point to are read when the command runs. *)
Definition shell_pass (b : build) : M (list Z * option nat) reaction :=
  let! r := split_line in
  let '(cmd, args, many) := r in
  let! s := get in
  match cmd with
  | None => ret (if many : bool then TooMany else Nothing)
  | Some p =>
      let! name := lift_opt (cstr_at (fst s) p) "line" in
      let! argv := lift_opt (mapM (cstr_at (fst s)) args) "args" in
      ret (dispatch b name argv)
  end.

(** The Debug build without the lightning sensor, as it is configured. *)
Definition debug_build : build := Build true false.

Example shell_sch :
  match shell_pass debug_build (bytes "  schedule 1  120" ++ [0; 7], None) with
  | Done (r, _) => Some r
  | _ => None
  end = Some (Execute CmdSch [bytes "1"; bytes "120"]).
Proof. vm_compute. reflexivity. Qed.

(** ** The words of a line *)

(** A reference splitter on lists: the length of the leading blanks, the
    position of the first delimiter, the next word and what is behind its
    delimiter. *)
Fixpoint span (f : Z -> bool) (s : list Z) : nat :=
  match s with c :: s => if f c then S (span f s) else 0%nat | [] => 0%nat end.

Fixpoint index (f : Z -> bool) (s : list Z) : option nat :=
  match s with c :: s => if f c then Some 0%nat else S <$> index f s | [] => None end.

Definition split_at (f : Z -> bool) (s : list Z) : list Z * option (list Z) :=
  match index f s with
  | Some n => (take n s, Some (drop (S n) s))
  | None => (s, None)
  end.

(** A word ends at a blank, or at the second quote when it starts with one. *)
Definition next_word (s : list Z) : list Z * option (list Z) :=
  match drop (span blank s) s with
  | c :: s' => if decide (c = 34) then split_at quote s' else split_at blank (c :: s')
  | [] => ([], None)
  end.

Fixpoint more_words (n : nat) (r : option (list Z)) : list (list Z) * bool :=
  match r with
  | None => ([], false)
  | Some s =>
      match next_word s with
      | ([], _) => ([], false)
      | (w, r') => match n with
                   | O => ([], true)
                   | S n => (w :: fst (more_words n r'), snd (more_words n r'))
                   end
      end
  end.

(** What the shell should do with the line [s]. *)
Definition react (b : build) (s : list Z) : reaction :=
  let '(cmd, r) := next_word s in
  let '(argv, many) := more_words SHELL_MAX_ARGUMENTS r in
  if many : bool then TooMany else
  match cmd with [] => Nothing | _ => dispatch b cmd argv end.

Lemma cstr_app s t : 0 ∉ s -> cstr (s ++ 0 :: t) = Some s.
Proof.
  induction s as [|c s IH]; cbn; intros Hs; [done|].
  rewrite decide_False by set_solver. by rewrite IH by set_solver.
Qed.

Lemma cstr_inv l s : cstr l = Some s -> exists t, l = s ++ 0 :: t /\ 0 ∉ s.
Proof.
  revert s. induction l as [|c l IH]; intros s Hs; [done|]. cbn in Hs. case_decide.
  - simplify_eq. exists l. set_solver.
  - destruct (cstr l) as [s'|]; [|done]. cbn in Hs. simplify_eq.
    destruct (IH s' eq_refl) as (t & -> & ?). exists t. set_solver.
Qed.

Lemma strspn_app f s t : f 0 = false -> strspn f (s ++ 0 :: t) = Some (span f s).
Proof. intros H0. induction s as [|c s IH]; cbn; [by rewrite H0|]. destruct (f c); [by rewrite IH|done]. Qed.

Lemma strpbrk_app f s t : 0 ∉ s -> strpbrk f (s ++ 0 :: t) = Some (index f s).
Proof.
  induction s as [|c s IH]; cbn; intros Hs; [done|]. rewrite decide_False by set_solver.
  destruct (f c); [done|]. rewrite IH by set_solver. by destruct (index f s).
Qed.

Lemma span_le f s : (span f s <= length s)%nat.
Proof. induction s as [|c s IH]; cbn; [lia|]. destruct (f c); lia. Qed.

Lemma index_lt f s n : index f s = Some n -> (n < length s)%nat.
Proof.
  revert n. induction s as [|c s IH]; intros n Hn; [done|]. cbn in Hn. destruct (f c); [simplify_eq; cbn; lia|].
  destruct (index f s) as [m|]; [|done]. injection Hn as <-. specialize (IH m eq_refl). cbn. lia.
Qed.

(** A string in a buffer, character by character. *)
Lemma cstr_at_intro buf p s :
  0 ∉ s -> (forall i c, s !! i = Some c -> buf !! (p + i)%nat = Some c) -> buf !! (p + length s)%nat = Some 0 ->
  cstr_at buf p = Some s.
Proof.
  unfold cstr_at. revert p. induction s as [|c s IH]; intros p Hn Hc H0; cbn in H0.
  - rewrite Nat.add_0_r in H0. by rewrite (drop_S _ _ _ H0).
  - pose proof (Hc 0%nat c eq_refl) as Hp. rewrite Nat.add_0_r in Hp.
    rewrite (drop_S _ _ _ Hp). cbn. rewrite decide_False by set_solver.
    rewrite IH; [done|set_solver| |]; [|by rewrite Nat.add_succ_comm].
    intros i x Hi. rewrite Nat.add_succ_comm. by apply Hc.
Qed.

Lemma cstr_at_elim buf p s :
  cstr_at buf p = Some s ->
  0 ∉ s /\ (forall i c, s !! i = Some c -> buf !! (p + i)%nat = Some c) /\ buf !! (p + length s)%nat = Some 0.
Proof.
  intros (t & He & Hn)%cstr_inv. split; [done|]. split.
  - intros i c Hi. rewrite <- lookup_drop, He. by apply lookup_app_l_Some.
  - rewrite <- lookup_drop, He. by rewrite list_lookup_middle.
Qed.

Lemma cstr_drop buf p s n :
  cstr_at buf p = Some s -> (n <= length s)%nat -> cstr_at buf (p + n) = Some (drop n s).
Proof.
  intros (Hn & Hc & H0)%cstr_at_elim Hle. apply cstr_at_intro.
  - intros Hx. apply Hn. rewrite <- (take_drop n s). set_solver.
  - intros i c Hi. rewrite lookup_drop in Hi. rewrite <- Nat.add_assoc. by apply Hc.
  - rewrite length_drop. by replace (p + n + (length s - n))%nat with (p + length s)%nat by lia.
Qed.

(** The string at a pointer does not change when the buffer only changes
    behind it. *)
Lemma cstr_frame buf buf' p s :
  cstr_at buf p = Some s -> (forall i, (i <= p + length s)%nat -> buf' !! i = buf !! i) ->
  cstr_at buf' p = Some s.
Proof.
  intros (Hn & Hc & H0)%cstr_at_elim Hag. apply cstr_at_intro; [done| |].
  - intros i c Hi. rewrite Hag; [by apply Hc|]. apply lookup_lt_Some in Hi. lia.
  - by rewrite Hag by lia.
Qed.

(** Writing a zero into a string cuts it in two. *)
Lemma cstr_cut buf p s n :
  cstr_at buf p = Some s -> (n < length s)%nat ->
  cstr_at (<[(p + n)%nat := 0]> buf) p = Some (take n s) /\
  cstr_at (<[(p + n)%nat := 0]> buf) (S (p + n)) = Some (drop (S n) s).
Proof.
  intros Hs Hlt. pose proof (cstr_drop buf p s (S n) Hs ltac:(lia)) as Hd. destruct (cstr_at_elim _ _ _ Hs) as (Hn & Hc & H0).
  assert (p + n < length buf)%nat.
  { apply lookup_lt_Some in H0. lia. }
  split.
  - apply cstr_at_intro.
    + intros Hx. apply Hn. rewrite <- (take_drop n s). set_solver.
    + intros i c Hi. apply lookup_take_Some in Hi as [Hi Hlti]. rewrite list_lookup_insert_ne by lia. by apply Hc.
    + rewrite length_take. replace (p + n `min` length s)%nat with (p + n)%nat by lia. by apply list_lookup_insert_eq.
  - replace (S (p + n)) with (p + S n)%nat by lia.
    destruct (cstr_at_elim _ _ _ Hd) as (Hn' & Hc' & H0'). apply cstr_at_intro; [done| |].
    + intros i c Hi. rewrite list_lookup_insert_ne by lia. by apply Hc'.
    + by rewrite list_lookup_insert_ne by lia.
Qed.

(** A word cut out of the buffer: where it is, and that the buffer changed only
    behind [p0]. *)
Definition cut_ok (buf : list Z) (p0 : nat) (w : list Z) (r : option (list Z))
    (res : option nat) (st : list Z * option nat) : Prop :=
  length (fst st) = length buf /\ (forall i, (i < p0)%nat -> fst st !! i = buf !! i) /\
  match res with
  | None => w = []
  | Some p => w <> [] /\ (p0 <= p)%nat /\ cstr_at (fst st) p = Some w /\
              (forall q, snd st = Some q -> (p + length w < q)%nat)
  end /\
  match r, snd st with
  | None, None => True
  | Some s, Some q => (p0 < q)%nat /\ cstr_at (fst st) q = Some s
  | _, _ => False
  end.

Lemma first_char buf p w :
  cstr_at buf p = Some w -> exists c, buf !! p = Some c /\ (c = 0 <-> w = []).
Proof.
  intros (Hn & Hc & H0)%cstr_at_elim. destruct w as [|c w].
  - exists 0. cbn in H0. by rewrite Nat.add_0_r in H0.
  - exists c. split; [by specialize (Hc 0%nat c eq_refl); rewrite Nat.add_0_r in Hc|]. set_solver.
Qed.

(** The end of [cut_word]: the word is returned unless it is empty. *)
Lemma word_or_null p w (Q : option nat -> list Z * option nat -> Prop) st :
  cstr_at (fst st) p = Some w -> (w = [] -> Q None st) -> (w <> [] -> Q (Some p) st) ->
  wp (let! s := get in let! c := lift_opt (fst s !! p) "line" in ret (if decide (c <> 0) then Some p else None)) Q st.
Proof.
  intros Hw H0 H1. destruct (first_char _ _ _ Hw) as (c & Hc & Hiff).
  apply wp_bind, wp_get, wp_bind. eapply wp_opt; [done|]. apply wp_ret. case_decide; [apply H1|apply H0]; naive_solver.
Qed.

Lemma cut_word_spec f p u buf tok :
  cstr_at buf p = Some u ->
  wp (cut_word p f) (cut_ok buf p (fst (split_at f u)) (snd (split_at f u))) (buf, tok).
Proof.
  intros Hu. unfold cut_word, split_at. apply wp_bind, wp_get, wp_bind. cbn [fst].
  destruct (cstr_inv _ _ Hu) as (t & He & Hn). destruct (cstr_at_elim _ _ _ Hu) as (_ & Hc & H0).
  eapply wp_opt; [rewrite He; by apply strpbrk_app|]. apply wp_bind.
  destruct (index f u) as [n|] eqn:Hi; cbn [fst snd].
  - pose proof (index_lt _ _ _ Hi) as Hlt. destruct (cstr_cut buf p u n Hu Hlt) as [Hw Hr].
    pose proof (lookup_lt_Some _ _ _ H0). apply wp_bind. eapply wp_opt; [apply store_in; lia|].
    rewrite Nat2Z.id. apply (word_or_null p (take n u)); [done| |]; intros Hnil; unfold cut_ok; cbn [fst snd];
      rewrite length_insert; split_and!; try (done || lia);
      try (intros i Hlt'; by rewrite list_lookup_insert_ne by lia).
    intros q [= <-]. rewrite length_take. lia.
  - apply (word_or_null p u); [done| |]; intros Hnil; by split_and!.
Qed.

(** One call of the splitter from a pointer to the string [s]. *)
Lemma parse_spec str p s buf tok :
  (str = Some p \/ str = None /\ tok = Some p) -> cstr_at buf p = Some s ->
  wp (parse_arguments str)
    (fun res st => exists p0, (p <= p0)%nat /\ cut_ok buf p0 (fst (next_word s)) (snd (next_word s)) res st) (buf, tok).
Proof.
  intros Hstr Hs. unfold parse_arguments. apply wp_bind, wp_get. cbn [fst snd].
  assert (match str with Some p => Some p | None => tok end = Some p) as -> by (destruct Hstr as [->|[-> ->]]; done).
  destruct (cstr_inv _ _ Hs) as (t & He & Hn).
  apply wp_bind. eapply wp_opt; [rewrite He; by apply strspn_app|].
  pose proof (span_le blank s) as Hle. pose proof (cstr_drop _ _ _ _ Hs Hle) as Hd.
  destruct (first_char _ _ _ Hd) as (c & Hc & Hiff). apply wp_bind. eapply wp_opt; [done|].
  unfold next_word. destruct (drop (span blank s) s) as [|x u] eqn:Hx.
  - assert (c = 0) as -> by naive_solver. rewrite decide_False by done.
    eapply wp_conseq; [by apply cut_word_spec|]. intros res st Hok. exists (p + span blank s)%nat. split; [lia|done].
  - destruct (cstr_at_elim _ _ _ Hd) as (_ & Hch & _). pose proof (Hch 0%nat x eq_refl) as Hx0.
    rewrite Nat.add_0_r in Hx0. rewrite Hc in Hx0. injection Hx0 as ->. case_decide.
    + pose proof (cstr_drop _ _ _ 1 Hd ltac:(cbn; lia)) as Hd1. cbn [drop] in Hd1. rewrite Nat.add_1_r in Hd1.
      eapply wp_conseq; [by apply cut_word_spec|]. intros res st Hok. exists (S (p + span blank s))%nat. split; [lia|done].
    + eapply wp_conseq; [by apply cut_word_spec|]. intros res st Hok. exists (p + span blank s)%nat. split; [lia|done].
Qed.

(** [tokp] and the text it still has to split. *)
Definition pending (buf : list Z) (tok : option nat) (r : option (list Z)) : Prop :=
  match r, tok with
  | None, None => True
  | Some s, Some q => cstr_at buf q = Some s
  | _, _ => False
  end.

Lemma collect_spec n r buf tok :
  pending buf tok r ->
  wp (collect n) (fun res st =>
    mapM (cstr_at (fst st)) (fst res) = Some (fst (more_words n r)) /\ snd res = snd (more_words n r) /\
    forall i, (forall q, tok = Some q -> (i < q)%nat) -> fst st !! i = buf !! i) (buf, tok).
Proof.
  revert r buf tok. induction n as [|n IH]; intros r buf tok Hp;
    destruct r as [s|], tok as [q|]; try done; cbn in Hp; cbn [collect]; apply wp_bind;
    (eapply wp_conseq; [by apply (parse_spec None q s); auto|]);
    intros res [buf1 tok1] (p0 & Hq & Hlen & Hfr & Hres & Hr); cbn [fst snd] in *; cbn [more_words];
    destruct (next_word s) as [w r']; cbn [fst snd] in *.
  - destruct res as [p|].
    + destruct Hres as (Hw & _). destruct w; [done|]. apply wp_ret. split_and!; [done..|]. intros i Hi. apply Hfr.
      specialize (Hi q eq_refl). lia.
    + subst w. apply wp_ret. split_and!; [done..|]. intros i Hi. apply Hfr. specialize (Hi q eq_refl). lia.
  - destruct res as [p|].
    + destruct Hres as (Hw & Hp0 & Hcw & Hlt). destruct w as [|c w]; [done|]. apply wp_bind.
      eapply wp_conseq; [apply (IH r')|].
      { destruct r', tok1; try done. by destruct Hr. }
      intros res [buf2 tok2] (Hm & Hs & Hfr2). cbn [fst snd] in *. apply wp_ret. cbn [fst snd mapM].
      assert (cstr_at buf2 p = Some (c :: w)) as ->.
      { eapply cstr_frame; [done|]. intros i Hi. apply Hfr2. intros q' Hq'. specialize (Hlt q' Hq'). lia. }
      split_and!; [cbn; by rewrite Hm|done|]. intros i Hi. specialize (Hi q eq_refl). rewrite Hfr2; [apply Hfr; lia|].
      intros q' Hq'. specialize (Hlt q' Hq'). lia.
    + subst w. apply wp_ret. split_and!; [done..|]. intros i Hi. apply Hfr. specialize (Hi q eq_refl). lia.
Qed.

(** C27: In every build and for every line in the buffer the shell reacts as the reference
    splitter says: the command and each argument that the handler sees are the
    words of the line, quoted or not, although they are pointers into the one
    buffer the splitter writes zeros into; too many words are refused, and no
    access leaves the buffer. *)
Theorem shell_reacts_to_words b buf tok s :
  cstr buf = Some s -> wp (shell_pass b) (fun r _ => r = react b s) (buf, tok).
Proof.
  intros Hs. unfold shell_pass, split_line. apply wp_bind, wp_bind.
  eapply wp_conseq; [apply (parse_spec (Some 0%nat) 0 s); [auto|done]|].
  intros cmd [buf1 tok1] (p0 & _ & Hlen & Hfr & Hcmd & Hr). cbn [fst snd] in *.
  unfold react. destruct (next_word s) as [w r]. cbn [fst snd] in *.
  apply wp_bind. eapply wp_conseq; [apply (collect_spec SHELL_MAX_ARGUMENTS r)|].
  { destruct r, tok1; try done. by destruct Hr. }
  intros res [buf2 tok2] (Hm & Hmany & Hfr2). cbn [fst snd] in *. apply wp_ret, wp_bind, wp_get.
  destruct (more_words SHELL_MAX_ARGUMENTS r) as [argv many]. cbn [fst snd] in *. rewrite Hmany.
  destruct many; [by apply wp_ret|]. destruct cmd as [p|]; [|subst w; by apply wp_ret].
  destruct Hcmd as (Hw & _ & Hcw & Hlt). destruct w as [|c w]; [done|].
  apply wp_bind. eapply wp_opt.
  { eapply cstr_frame; [done|]. cbn [fst]. intros i Hi. apply Hfr2. intros q Hq. specialize (Hlt q Hq). lia. }
  apply wp_bind. eapply wp_opt; [done|]. by apply wp_ret.
Qed.

Lemma shell_reacts_to_words_witness :
  react debug_build (bytes "send hello") = Execute CmdSend [bytes "hello"] /\
  wp (shell_pass debug_build) (fun r _ => r = react debug_build (bytes "send hello")) (bytes "send hello" ++ replicate 54 0, None).
Proof. split; [reflexivity|]. apply (shell_reacts_to_words debug_build _ None (bytes "send hello")). reflexivity. Defined.

(** ** The line editor *)

(** What a terminal user sees: printable characters are appended while there is
    room, backspace and delete erase, other control characters are ignored,
    return ends the line. *)
Fixpoint edit (room : nat) (line : list Z) (input : list Z) : option (list Z) :=
  match input with
  | [] => None
  | c :: input =>
      if decide (c = 8 \/ c = 127) then edit room (removelast line) input
      else if decide (c = 13) then Some line
      else if decide (c < 0x20) then edit room line input
      else edit room (if decide (length line < room)%nat then line ++ [c] else line) input
  end.

(** The characters before [p] are the edited line. *)
Definition edited (size : nat) (line : list Z) (e : editor) : Prop :=
  length (ed_line e) = size /\ ed_p e = length line /\ take (ed_p e) (ed_line e) = line /\
  (ed_p e < size)%nat /\ Forall (fun c => 32 <= c) line.

Lemma store_append {A} (l line : list A) (x : A) :
  take (length line) l = line -> (length line < length l)%nat ->
  take (S (length line)) (<[length line := x]> l) = line ++ [x].
Proof.
  intros Ht Hl. erewrite take_S_r by (by apply list_lookup_insert_eq). by rewrite take_insert_ge, Ht by lia.
Qed.

Lemma shell_char_spec size c line e :
  edited size line e -> 0 <= c ->
  wp (shell_char size c) (fun r e' =>
    match r with
    | Some b => b = false /\ c = 13 /\ length (ed_line e') = size /\ cstr (ed_line e') = Some line
    | None => c <> 13 /\ edited size
        (if decide (c = 8 \/ c = 127) then removelast line
         else if decide (c < 0x20) then line
         else if decide (length line < size - 1)%nat then line ++ [c] else line) e'
    end) e.
Proof.
  intros (Hl & Hp & Ht & Hlt & Hf) Hc. destruct e as [buf p echo]. cbn in *. subst p.
  unfold shell_char. apply wp_bind, wp_get. cbn [ed_p ed_line ed_echo].
  destruct (decide (c = 8 \/ c = 127)) as [Her|Her]; [|destruct (decide (c = 13)) as [->|Hcr];
    [|destruct (decide (c < 32)) as [Hctl|Hpr]]].
  - case_decide as Hnil; apply wp_bind; (split; [lia|]); unfold edited; cbn [ed_line ed_p ed_echo].
    + rewrite removelast_firstn_len, length_take.
      assert (pred (length line) = length line - 1)%nat as -> by lia. split_and!; [done|lia| |lia|by apply Forall_take].
      rewrite <- Ht at 3. rewrite take_take. f_equal. lia.
    + destruct line; [|done]. by split_and!.
  - apply wp_bind. unfold put_echo, modify, wp at 1. cbn [ed_p ed_line ed_echo]. apply wp_bind, wp_bind, wp_get, wp_bind. cbn [ed_line ed_p ed_echo].
    eapply wp_opt; [apply store_in; lia|]. rewrite Nat2Z.id.
    split; [done|]. split; [done|]. cbn. rewrite length_insert. split; [done|].
    change (cstr_at (<[length line:=0]> buf) 0 = Some line). apply cstr_at_intro.
    + intros Hin. rewrite Forall_forall in Hf. specialize (Hf 0 Hin). lia.
    + intros i x Hi. pose proof (lookup_lt_Some _ _ _ Hi). rewrite list_lookup_insert_ne by (cbn; lia). cbn.
      rewrite <- Ht in Hi. by apply lookup_take_Some in Hi as [Hi _].
    + apply list_lookup_insert_eq. cbn. lia.
  - apply wp_ret. split; [done|]. by split_and!.
  - apply wp_bind. unfold ed_append. apply wp_bind, wp_get. cbn [ed_p ed_line ed_echo]. case_decide as Hroom.
    + apply wp_bind. unfold put_echo, modify, wp at 1. cbn [ed_p ed_line ed_echo]. apply wp_bind, wp_bind, wp_get, wp_bind. cbn [ed_line ed_p ed_echo].
      eapply wp_opt; [apply store_in; lia|]. rewrite Nat2Z.id. split; [done|]. unfold edited. cbn.
      rewrite length_insert, length_app. cbn. split_and!; [done|lia| |lia|].
      * apply store_append; [done|lia].
      * apply Forall_app. split; [done|]. constructor; [lia|constructor].
    + apply wp_ret, wp_ret. split; [done|]. by split_and!.
Qed.

Lemma getline_spec size input line e :
  edited size line e -> Forall (Z.le 0) input ->
  wp (shellGetLine_loop size input) (fun r e' =>
    match edit (size - 1) line input with
    | Some l => r = false /\ length (ed_line e') = size /\ cstr (ed_line e') = Some l /\ (length l < size)%nat
    | None => r = true
    end) e.
Proof.
  revert line e. induction input as [|c input IH]; intros line e He Hi; [done|].
  inversion Hi as [|? ? Hc Hi']; subst. cbn [shellGetLine_loop edit]. apply wp_bind.
  pose proof (shell_char_spec size c line e He Hc) as Hs. eapply wp_conseq; [exact Hs|].
  intros [b|] e' Hr.
  - destruct Hr as (-> & -> & Hl & Hcs). apply wp_ret. rewrite decide_False by lia. rewrite decide_True by done.
    split_and!; try done. destruct He as (_ & <- & _ & ? & _). done.
  - destruct Hr as [Hne Hr]. case_decide; [by apply IH|]. rewrite decide_False by done. case_decide; by apply IH.
Qed.


