(* ===== verification/Sensors.v ===== *)
(** * The sensor threads

    [src/src/threads/bmp280Thread.c], [veml7700Thread.c], [bh1750Thread.c],
    [ml8511Thread.c], [powerThread.c] and [rainThread.c] have one shape: they
    register a descriptor, and then in each pass reinitialise a device that
    failed, measure, store the readings in the descriptor, stream them in a
    frame, and wait for their interval or for a new one from the shell.

    [SensorTask] is what such a thread asks of its device, [SensorLaws] what the
    device promises; the pass and its theorem are written against them, and the
    drivers' theorems discharge them.  [windThread.c] and [as3935Thread.c] are
    modelled on their own.

    The pool object a thread gets, or the null pointer, and the message the
    shell may send are inputs of a pass.  [device_run] says which calls the
    device went through and what its measurements returned, and the theorem
    ties every report to them. *)

From S2P Require Import Prelude Oslib Hal Sim Softfloat Msp HwDesc.
From S2P Require Bmp280 Ads1x15 Veml7700 Bh1750 Ml8511 As3935.

(** ** One thread *)

(** The device, the descriptor, the interval of the configuration, the frames
    posted to [streamMail], and the history of readings. *)
Record task (E : Type) := Task {
  dev : E;
  hw : hw_t;
  interval : Z;
  outbox : list (list Z);
  readings : list (list Z)
}.
Arguments Task {E} _ _ _ _ _.
Arguments dev {E} _.
Arguments hw {E} _.
Arguments interval {E} _.
Arguments outbox {E} _.
Arguments readings {E} _.

Class SensorTask (E : Type) := {
  before : M E unit;
  retry : M E unit;
  measure : M E (option (list Z));
  after : M E unit
}.

(** [dev_ok] holds between the calls; a measurement gives [argc] numbers of 32
    bits, and no call halts the station. *)
Class SensorLaws (E : Type) `{SensorTask E} := {
  dev_ok : E -> Prop;
  argc : nat;
  argc_fits : (argc <= 4)%nat;
  before_ok : forall e, dev_ok e -> safe before (fun _ e' => dev_ok e') e;
  retry_ok : forall e, dev_ok e -> safe retry (fun _ e' => dev_ok e') e;
  after_ok : forall e, dev_ok e -> safe after (fun _ e' => dev_ok e') e;
  measure_ok : forall e, dev_ok e -> safe measure (fun r e' => dev_ok e' /\
    forall vs, r = Some vs -> length vs = argc /\ Forall (fun v => 0 <= v < 2 ^ 32) vs) e
}.

Definition set_hw_status (st : hwStatus_e) (h : hw_t) : hw_t :=
  Hw (id h) (hw_name h) st (type h) (values h).
Definition set_hw_values (vs : list sensorValue_t) (h : hw_t) : hw_t :=
  Hw (id h) (hw_name h) (hw_status h) (type h) vs.

(** [hw.values[i].value = v] for the readings [vs] from value 0 on. *)
Fixpoint store_values (vs : list Z) (l : list sensorValue_t) : list sensorValue_t :=
  match vs, l with
  | v :: vs, x :: l => SensorValue v (formatter x) (name x) :: store_values vs l
  | _, _ => l
  end.

Section task.
Context {E : Type} `{SensorTask E}.
Notation T := (task E).

Definition on_dev {A} (m : M E A) : M T A :=
  zoom (Lens dev (fun e t => Task e (hw t) (interval t) (outbox t) (readings t))) m.
Definition set_hw (f : hw_t -> hw_t) : M T unit :=
  modify (fun t => Task (dev t) (f (hw t)) (interval t) (outbox t) (readings t)).

(** [messagePoolObject = chPoolAlloc(..); if (messagePoolObject) { MSP__createMspFrame(..);
    chMBPostTimeout(..) }]: [alloc] is the object with its old contents. *)
Definition post_frame (alloc : option poolStreamObject_t) (vs : list Z) : M T unit :=
  match alloc with
  | None => ret tt
  | Some o =>
      let! t := get in
      let! o' := lift_opt (MSP__createMspFrame o (u8 (id (hw t))) (length vs) vs) "frame" in
      put (Task (dev t) (hw t) (interval t) (outbox t ++ [take (Z.to_nat (size o')) (message o')]) (readings t))
  end.

(** The readings go to [streamBuff] and to the descriptor. *)
Definition publish (alloc : option poolStreamObject_t) (vs : list Z) : M T unit :=
  set_hw (fun h => set_hw_values (store_values vs (values h)) h) ;;;
  set_hw (set_hw_status HW_STATUS_OK) ;;;
  modify (fun t => Task (dev t) (hw t) (interval t) (outbox t) (readings t ++ [vs])) ;;;
  post_frame alloc vs.

(** [tp = chMsgWaitTimeout(..); if (tp) { interval = (uint16_t)chMsgGet(tp); .. }] *)
Definition load_interval (msg : option Z) : M T unit :=
  match msg with
  | None => ret tt
  | Some v => modify (fun t => Task (dev t) (hw t) (u16 v) (outbox t) (readings t))
  end.

Definition sensor_pass (alloc : option poolStreamObject_t) (msg : option Z) : M T unit :=
  on_dev before ;;;
  let! t := get in
  (if decide (hw_status (hw t) = HW_STATUS_ERROR) then on_dev retry else ret tt) ;;;
  let! r := on_dev measure in
  (match r with
   | Some vs => publish alloc vs
   | None => set_hw (set_hw_status HW_STATUS_ERROR)
   end) ;;;
  on_dev after ;;;
  load_interval msg.

(** The passes of a thread. *)
Fixpoint sensor_loop (ins : list (option poolStreamObject_t * option Z)) : M T unit :=
  match ins with
  | [] => ret tt
  | (alloc, msg) :: ins => sensor_pass alloc msg ;;; sensor_loop ins
  end.

(** ** What a thread guarantees *)

Context `{!SensorLaws E}.

(** Every frame in the outbox decodes to a reading of the sensor under its id,
    and the descriptor holds the last reading. *)
Definition task_ok (t : T) : Prop :=
  dev_ok (dev t) /\ length (values (hw t)) = HW_LIST_VALUES_SIZE /\ byte_ok (id (hw t)) /\
  Forall (fun vs => length vs = argc /\ Forall (fun v => 0 <= v < 2 ^ 32) vs) (readings t) /\
  Forall (fun f => exists vs, vs ∈ readings t /\ msp_decode f = Some (id (hw t), vs)) (outbox t) /\
  (forall vs, last (readings t) = Some vs -> take argc (value <$> values (hw t)) = vs).

(** What the rest of the station sees of the thread: its id, its status, its
    interval, its readings so far and its frames as the receiver decodes them. *)
Record seen := Seen {
  s_id : Z;
  s_status : hwStatus_e;
  s_interval : Z;
  s_readings : list (list Z);
  s_frames : list (option (Z * list Z))
}.

Definition view (t : T) : seen :=
  Seen (id (hw t)) (hw_status (hw t)) (interval t) (readings t) (msp_decode <$> outbox t).

(** One pass in the abstract: [r] is the result of the measurement. *)
Definition report (v : seen) (p : (option poolStreamObject_t * option Z) * option (list Z)) : seen :=
  let '((alloc, msg), r) := p in
  let iv := match msg with Some z => u16 z | None => s_interval v end in
  match r with
  | None => Seen (s_id v) HW_STATUS_ERROR iv (s_readings v) (s_frames v)
  | Some vs => Seen (s_id v) HW_STATUS_OK iv (s_readings v ++ [vs])
                 (s_frames v ++ match alloc with Some _ => [Some (s_id v, vs)] | None => [] end)
  end.

(** The device alone in one pass: from [e], where [st] is the status the last
    pass left, the calls of the pass end in [e'], and [r] is the result of its
    [measure].  [retry] comes first after a failure. *)
Definition pass_calls (e : E) (st : hwStatus_e) (r : option (list Z)) (e' : E) : Prop :=
  exists e1 e2 e3,
    before e = Done (tt, e1) /\
    (if decide (st = HW_STATUS_ERROR) then retry else ret tt) e1 = Done (tt, e2) /\
    measure e2 = Done (r, e3) /\
    after e3 = Done (tt, e').

(** The status a pass leaves. *)
Definition status_after (r : option (list Z)) : hwStatus_e :=
  match r with Some _ => HW_STATUS_OK | None => HW_STATUS_ERROR end.

(** And through the passes of a thread: [rs] are the results of [measure], one
    after the other. *)
Inductive device_run : E -> hwStatus_e -> list (option (list Z)) -> E -> Prop :=
  | run_stop e st : device_run e st [] e
  | run_pass e st r e1 rs e' :
      pass_calls e st r e1 ->
      device_run e1 (status_after r) rs e' ->
      device_run e st (r :: rs) e'.

Lemma store_values_length vs l : length (store_values vs l) = length l.
Proof. revert l. induction vs as [|v vs IH]; intros [|x l]; cbn; try done. by rewrite IH. Qed.

Lemma store_values_take vs l :
  (length vs <= length l)%nat -> take (length vs) (value <$> store_values vs l) = vs.
Proof.
  revert l. induction vs as [|v vs IH]; intros [|x l] Hl; cbn in *; try (done || lia). by rewrite IH by lia.
Qed.

(** The outcome of a call on the device is kept with what it guarantees. *)
Lemma on_dev_safe {A} (m : M E A) (R : A -> E -> Prop) (Q : A -> T -> Prop) t :
  safe m R (dev t) ->
  (forall a e, m (dev t) = Done (a, e) -> R a e ->
     Q a (Task e (hw t) (interval t) (outbox t) (readings t))) -> safe (on_dev m) Q t.
Proof.
  intros Hm HQ. apply safe_zoom. unfold safe in *. cbn [Prelude.view].
  destruct (m (dev t)) as [[a e]| |] eqn:He; eauto.
Qed.

Lemma post_frame_safe alloc vs t :
  task_ok t -> vs ∈ readings t -> (forall o, alloc = Some o -> length (message o) = 23%nat) ->
  safe (post_frame alloc vs)
    (fun _ t' => task_ok t' /\
       view t' = Seen (id (hw t)) (hw_status (hw t)) (interval t) (readings t)
                   ((msp_decode <$> outbox t) ++ match alloc with Some _ => [Some (id (hw t), vs)] | None => [] end) /\
       dev t' = dev t) t.
Proof.
  intros Hok Hin Hal. destruct alloc as [o|]; [|split_and!; try done; unfold view; by rewrite app_nil_r].
  unfold post_frame. apply safe_bind.
  unfold safe at 1, get. apply safe_bind. destruct Hok as (Hd & Hv & Hid & Hr & Ho & Hl).
  pose proof argc_fits as H4. destruct (proj1 (Forall_forall _ _) Hr vs Hin) as [Hlen Hvs].
  rewrite u8_small by apply Hid.
  destruct (frame_decodes o (id (hw t)) (length vs) vs) as (o' & -> & Hdec); [by apply Hal|done|lia|done|done|].
  rewrite (take_ge vs) in Hdec by lia. apply safe_ret. unfold safe, put.
  split; [|split; [unfold view; cbn [hw outbox interval readings]; by rewrite fmap_app, list_fmap_singleton, Hdec|done]].
  split_and!; try done. cbn [outbox readings hw].
  apply Forall_app. split; [done|]. constructor; [|constructor]. by exists vs.
Qed.

Lemma publish_safe alloc vs t :
  task_ok t -> length vs = argc -> Forall (fun v => 0 <= v < 2 ^ 32) vs ->
  (forall o, alloc = Some o -> length (message o) = 23%nat) ->
  safe (publish alloc vs)
    (fun _ t' => task_ok t' /\ view t' = report (view t) (alloc, None, Some vs) /\ dev t' = dev t) t.
Proof.
  intros (Hd & Hv & Hid & Hr & Ho & Hl) Hlen Hvs Hal. pose proof argc_fits as H4.
  unfold publish, set_hw. do 3 (apply safe_bind; unfold safe at 1, modify).
  eapply safe_conseq; [apply post_frame_safe; [|cbn; set_solver|done]|by intros].
  split_and!; cbn [dev hw values id readings outbox set_hw_values set_hw_status].
  - done.
  - by rewrite store_values_length.
  - done.
  - apply Forall_app. by split; [|constructor].
  - eapply Forall_impl; [exact Ho|]. cbn. intros f (vs' & Hin & Hdec). exists vs'. split; [set_solver|done].
  - intros vs' Hlast. rewrite last_snoc in Hlast. injection Hlast as <-. rewrite <- Hlen. apply store_values_take.
    rewrite Hv, Hlen. unfold HW_LIST_VALUES_SIZE. lia.
Qed.

(** Changing the device alone is not seen. *)
Lemma task_ok_dev e t : dev_ok e -> task_ok t -> task_ok (Task e (hw t) (interval t) (outbox t) (readings t)).
Proof. intros He (_ & Hok). by split. Qed.

Lemma step_dev (m : M E unit) t :
  (forall e, dev_ok e -> safe m (fun _ e' => dev_ok e') e) -> task_ok t ->
  safe (on_dev m) (fun _ t' => task_ok t' /\ view t' = view t /\ m (dev t) = Done (tt, dev t')) t.
Proof.
  intros Hm Hok. eapply on_dev_safe; [apply Hm, Hok|]. intros [] e Hrun He.
  split; [by apply task_ok_dev|done].
Qed.

(** What becomes of the result of a measurement. *)
Lemma settle_safe alloc r t :
  task_ok t -> (forall vs, r = Some vs -> length vs = argc /\ Forall (fun v => 0 <= v < 2 ^ 32) vs) ->
  (forall o, alloc = Some o -> length (message o) = 23%nat) ->
  safe (match r with Some vs => publish alloc vs | None => set_hw (set_hw_status HW_STATUS_ERROR) end)
    (fun _ t' => task_ok t' /\ view t' = report (view t) (alloc, None, r) /\ dev t' = dev t) t.
Proof.
  intros Hok Hr Hal. destruct r as [vs|]; [destruct (Hr vs eq_refl); by apply publish_safe|].
  split; [|done]. destruct Hok as (? & ? & ? & ? & ? & ?). by split_and!.
Qed.

(** A pass is one report of its measurement. *)
Lemma pass_safe alloc msg t :
  task_ok t -> (forall o, alloc = Some o -> length (message o) = 23%nat) ->
  safe (sensor_pass alloc msg)
    (fun _ t' => task_ok t' /\ exists r, pass_calls (dev t) (hw_status (hw t)) r (dev t') /\
       view t' = report (view t) (alloc, msg, r)) t.
Proof.
  intros Hok Hal. unfold sensor_pass. apply safe_bind.
  eapply safe_conseq; [apply step_dev; [apply before_ok|done]|]. intros _ t1 (Hok1 & Hv1 & Hb).
  apply safe_bind. unfold safe at 1, get. apply safe_bind.
  assert (hw_status (hw t1) = hw_status (hw t)) as -> by (by injection Hv1).
  apply (safe_conseq _ (fun _ t' => task_ok t' /\ view t' = view t1 /\
    (if decide (hw_status (hw t) = HW_STATUS_ERROR) then retry else ret tt) (dev t1) = Done (tt, dev t'))).
  { case_decide; [apply step_dev; [apply retry_ok|done]|done]. }
  intros _ t2 (Hok2 & Hv2 & Hrt). apply safe_bind.
  eapply on_dev_safe; [apply measure_ok, Hok2|]. intros r e Hm [He Hr]. apply safe_bind.
  eapply safe_conseq; [apply settle_safe; [by apply task_ok_dev|done|done]|]. intros _ t4 (Hok4 & Hv4 & Hd4).
  apply safe_bind. eapply safe_conseq; [apply step_dev; [apply after_ok|done]|]. intros _ t5 (Hok5 & Hv5 & Ha).
  rewrite Hd4 in Ha. cbn [dev] in Ha.
  assert (Hcalls : pass_calls (dev t) (hw_status (hw t)) r (dev t5)) by (by exists (dev t1), (dev t2), e).
  change (view (Task e _ _ _ _)) with (view t2) in Hv4. rewrite Hv2, Hv1 in Hv4. rewrite <- Hv5 in Hv4.
  destruct msg as [v|]; (split; [done|exists r; split; [done|]]); [|done].
  unfold view in Hv4 |- *. destruct r; injection Hv4 as Hi Hs _ Hrd Hfr; cbn; by rewrite Hi, Hs, Hrd, Hfr.
Qed.
End task.


Lemma f2uiz_range x : 0 <= f2uiz x < 2 ^ 32.
Proof.
  unfold f2uiz. destruct x as [s|s| |s m e]; [..|]; try (destruct s); cbn [ftrunc]; try lia;
    repeat case_decide; cbn [cond_Zopp] in *; lia.
Qed.

(** The unused values of a descriptor. *)
Definition no_value : sensorValue_t := SensorValue 0 VALUE_FORMATTER_NONE None.
Definition pad_values (vs : list sensorValue_t) : list sensorValue_t :=
  vs ++ replicate (HW_LIST_VALUES_SIZE - length vs) no_value.
Definition named (n : string) (f : valueFormatter_e) : sensorValue_t := SensorValue 0 f (Some n).
Definition status_of (ok : bool) : hwStatus_e := if ok then HW_STATUS_OK else HW_STATUS_ERROR.

(** ** BMP280 *)

Section bmp280.
Import Bmp280.
Context {P : Type} `{Platform P}.
Notation E := (world P * BMP280_HandleTypedef)%type.
(** [cfg->enablePinLine], and the fuel of the driver's loops. *)
Context (enablePinLine : Z) (fuel : nat).

Definition BM280_NAME : string := "BMP280".
Definition BMP280_HW_ID : Z := 1.

Definition Bmp280__thread_deviceStart : M E unit :=
  let! down := (if decide (enablePinLine <> LINE_NO_PIN)
                then let! l := hal (palReadLine enablePinLine) in ret (negb l) else ret false) in
  if (down : bool) then
    hal (palSetLine enablePinLine) ;;;
    hal (chThdSleepMilliseconds 100) ;;;
    BMP280_init fuel ;;;
    hal (chThdSleepMilliseconds 100)
  else ret tt.

Definition Bmp280__thread_deviceStop : M E unit :=
  let! up := (if decide (enablePinLine <> LINE_NO_PIN) then hal (palReadLine enablePinLine) else ret false) in
  if (up : bool) then hal (palClearLine enablePinLine) else ret tt.

(** The numbers that are streamed: temperature plus 100 in hundredths, humidity
    in per cent, pressure in hectopascal. *)
Definition bmp280_stream (r : float * float * float) : list Z :=
  let '(temperature, pressure, humidity) := r in
  [f2uiz (f32_mul (f32_add temperature (f32_of_Z 100)) (f32_of_Z 100)); f2uiz humidity;
   f2uiz (f32_div pressure (f32_of_Z 100))].

Definition bmp280_task : SensorTask E := {|
  before := Bmp280__thread_deviceStart;
  retry := BMP280_init fuel ;;; ret tt;
  measure := let! r := BMP280_read_float fuel in ret (bmp280_stream <$> r);
  after := Bmp280__thread_deviceStop
|}.

(** [Bmp280__thread_init] *)
Definition Bmp280__thread_init : M E unit :=
  upd (fun d => set_params BMP280_init_default_params
                  (Handle (dig d) BMP280_I2C_ADDRESS_1 (params d) (Bmp280.id d) (rx_buff d) (data d))) ;;;
  if decide (enablePinLine <> LINE_NO_PIN) then hal (palSetLineMode enablePinLine PAL_STM32_MODE_OUTPUT) else ret tt.

(** [Bmp280Thread] up to its loop: the descriptor it registers. *)
Definition Bmp280Thread_begin : M E hw_t :=
  hal (chThdSleepMilliseconds 1000) ;;;
  Bmp280__thread_deviceStart ;;;
  let! ok := BMP280_init fuel in
  Bmp280__thread_deviceStop ;;;
  hal (chThdSleepMilliseconds 1000) ;;;
  ret (Hw BMP280_HW_ID BM280_NAME (status_of ok) VALUE_TYPE_SENSOR
        (pad_values [named "Tempeature" VALUE_FORMATTER_100_P100; named "Humidity" VALUE_FORMATTER_NONE;
                     named "Pressure" VALUE_FORMATTER_NONE])).

Context `{!PlatformOk P} `{!QuietBus}.

Lemma device_start_bus : bus_ok Bmp280__thread_deviceStart.
Proof.
  pose proof (good_bus _ (init_good fuel)). unfold Bmp280__thread_deviceStart. bus.
Qed.

Lemma device_stop_bus : bus_ok Bmp280__thread_deviceStop.
Proof. unfold Bmp280__thread_deviceStop. bus. Qed.

(** The readings of the sensor have the shape of a frame. *)
Definition bmp280_laws : SensorLaws E (H := bmp280_task).
Proof.
  refine {| dev_ok := fun e => idle (fst e); argc := 3 |}.
  - lia.
  - intros e He. by apply device_start_bus.
  - intros e He. cbn. apply safe_bind. eapply safe_conseq; [by apply (good_bus _ (init_good fuel))|]. done.
  - intros e He. by apply device_stop_bus.
  - intros e He. cbn. apply safe_bind. eapply safe_conseq; [by apply read_float_bus|].
    intros r e' He'. apply safe_ret. split; [done|]. intros vs Hvs. destruct r as [[[t p] h]|]; [|done].
    cbn in Hvs. injection Hvs as <-. split; [done|]. repeat constructor; apply f2uiz_range.
Defined.
End bmp280.

(** ** VEML7700 *)

Section veml7700.
Import Veml7700.
Context {P : Type} `{Platform P}.
Notation E := (world P * VEML7700_HandleTypedef)%type.
Context (enablePinLine : Z).

Definition VEML7700_NAME : string := "VEML7700".
Definition VEML7700_HW_ID : Z := 2.

Definition veml7700_task : SensorTask E := {|
  before := ret tt;
  retry := VEML7700_init ;;; hal (chThdSleepMilliseconds 100);
  measure := let! ok := VEML7700_getALSLux in
             if (ok : bool) then let! l := see lux in ret (Some [f2uiz l]) else ret None;
  after := ret tt
|}.

Definition Veml7700__thread_init : M E unit :=
  upd VEML7700_init_default_params ;;;
  if decide (enablePinLine <> LINE_NO_PIN) then
    hal (palSetLineMode enablePinLine PAL_STM32_MODE_OUTPUT) ;;;
    hal (palSetLine enablePinLine)
  else ret tt.

Definition VEML7700Thread_begin : M E hw_t :=
  hal (chThdSleepMilliseconds 1000) ;;;
  let! ok := VEML7700_init in
  hal (chThdSleepMilliseconds 1000) ;;;
  ret (Hw VEML7700_HW_ID VEML7700_NAME (status_of ok) VALUE_TYPE_SENSOR
        (pad_values [named "Lux" VALUE_FORMATTER_NONE])).

Context `{!PlatformOk P}.

Definition veml7700_laws : SensorLaws E (H := veml7700_task).
Proof.
  refine {| dev_ok := fun e => idle (fst e); argc := 1 |}.
  - lia.
  - done.
  - intros e He. cbn. apply safe_bind. eapply safe_conseq; [by apply veml_init_bus|]. intros ? e' He'. done.
  - done.
  - intros e He. cbn. apply safe_bind. eapply safe_conseq; [by apply veml_lux_bus|].
    intros [] e' He'; [|by apply safe_ret]. apply safe_bind. unfold safe at 1, see, gets. apply safe_ret.
    split; [done|]. intros vs [= <-]. split; [done|]. repeat constructor; apply f2uiz_range.
Defined.
End veml7700.

(** ** BH1750 *)

Section bh1750.
Import Bh1750.
Context {P : Type} `{Platform P}.
Notation E := (world P * BH1750_HandleTypedef)%type.

Definition BH11750_NAME : string := "BH1750".
Definition BH1750_HW_ID : Z := 2.

Definition bh1750_task : SensorTask E := {|
  before := ret tt;
  retry := BH1750_init ;;; ret tt;
  measure := let! ok := BH1750_get_lumen in
             if (ok : bool) then let! v := see Bh1750.value in ret (Some [v]) else ret None;
  after := ret tt
|}.

Definition BH1750Thread_begin : M E hw_t :=
  hal (chThdSleepMilliseconds 1000) ;;;
  BH1750_init ;;;
  hal (chThdSleepMilliseconds 1000) ;;;
  ret (Hw BH1750_HW_ID BH11750_NAME HW_STATUS_UNKNOWN VALUE_TYPE_SENSOR
        (pad_values [named "Lux" VALUE_FORMATTER_NONE])).

Context `{!PlatformOk P}.

Definition bh1750_laws : SensorLaws E (H := bh1750_task).
Proof.
  refine {| dev_ok := fun e => idle (fst e) /\ bh_ok (snd e); argc := 1 |}.
  - lia.
  - done.
  - intros [w d] [Hw Hd]. cbn. apply safe_bind. eapply safe_conseq; [by apply bh1750_init_safe|]. done.
  - done.
  - intros [w d] [Hw Hd]. cbn. apply safe_bind. eapply safe_conseq; [by apply bh1750_lumen_safe|].
    intros [] [w' d'] [Hw' Hd']; [|by apply safe_ret]. apply safe_bind. unfold safe at 1, see, gets. apply safe_ret.
    split; [done|]. intros vs [= <-]. split; [done|]. destruct Hd' as (_ & _ & Hv). cbn in *.
    repeat constructor; lia.
Defined.
End bh1750.

(** ** ML8511 *)

Section ml8511.
Import Ml8511.
Context {P : Type} `{Platform P} (adc_lld : P -> option Z * P).
Notation E := (ml_world P).
Context (driverEnableLine enablePinLine : Z).

Definition ML8511_NAME : string := "ML8511".
Definition ML8511_HW_ID : Z := 3.

Definition ml8511_task : SensorTask E := {|
  before := ret tt;
  retry := ret tt;
  measure := let! uv := ML8511_getUV adc_lld in
             if flt (f32_of_Z 0) uv then ret (Some [f2uiz (f32_mul uv (f32_of_Z 100))]) else ret None;
  after := ret tt
|}.

(** [Ml8511__thread_init] *)
Definition Ml8511__thread_init : M E unit :=
  (if decide (driverEnableLine <> LINE_NO_PIN)
   then modify (fun w => set_ml (p_set_mode driverEnableLine PAL_STM32_MODE_OUTPUT (ml_plat w)) w) else ret tt) ;;;
  if decide (enablePinLine <> LINE_NO_PIN) then
    modify (fun w => set_ml (p_set_mode enablePinLine PAL_STM32_MODE_OUTPUT (ml_plat w)) w) ;;;
    modify (fun w => set_ml (p_set_line enablePinLine true (ml_plat w)) w)
  else ret tt.

(** [driverCfg] takes the group, the driver and the line of the configuration. *)
Definition ML8511Thread_begin (channels : Z) : M E hw_t :=
  modify (fun w => set_ml (p_sleep 1000 (ml_plat w)) w) ;;;
  ML8511_init (Ml8511Cfg channels driverEnableLine false 0) ;;;
  ret (Hw ML8511_HW_ID ML8511_NAME HW_STATUS_UNKNOWN VALUE_TYPE_SENSOR
        (pad_values [named "UV" VALUE_FORMATTER_100])).

Definition ml8511_laws : SensorLaws E (H := ml8511_task).
Proof.
  refine {| dev_ok := fun w => adc_st w = ADC_STOP /\ adc_held w = false; argc := 1 |}.
  - lia.
  - done.
  - done.
  - done.
  - intros w [Hst Hh]. cbn [measure ml8511_task]. apply safe_bind, wp_safe. eapply wp_conseq; [by apply getUV_wp|].
    intros uv w' (Hst' & Hh' & _ & _). destruct (flt (f32_of_Z 0) uv); apply safe_ret; (split; [done|]); [|done].
    intros vs [= <-]. split; [done|]. repeat constructor; apply f2uiz_range.
Defined.
End ml8511.

(** ** Rain *)

Section rain.
Import Ml8511.
Context {P : Type} `{Platform P} (adc_lld : P -> option Z * P).
(** The ADC with [adcRainSamples[0]], and [referenceNoRain]. *)
Notation E := (ml_world P * Z)%type.
Definition on_adc {A} (m : M (ml_world P) A) : M E A := zoom (Lens fst (fun w e => (w, snd e))) m.

Definition RAIN_NAME : string := "Rain".
Definition RAIN_FC37_HW_ID : Z := 6.

Definition rain_convert : M (ml_world P) Z :=
  adcAcquireBus ;;;
  adcStart ;;;
  let! msg := adcConvert adc_lld 1 in
  adcStop ;;;
  adcReleaseBus ;;;
  ret msg.

(** The first dry sample above 1000 becomes the reference; it rains while the
    sample is below it. *)
Definition rain_measure : M E (option (list Z)) :=
  let! msg := on_adc rain_convert in
  if decide (msg = MSG_OK) then
    let! e := get in
    let sample := adcSample (cfg (fst e)) in
    let ref := if decide (snd e = 0 /\ sample > 1000) then sample else snd e in
    put (fst e, ref) ;;;
    ret (Some [if decide (sample < ref) then 1 else 0])
  else ret None.

Definition rain_task : SensorTask E := {|
  before := ret tt;
  retry := ret tt;
  measure := rain_measure;
  after := ret tt
|}.

Definition Rain__thread_init (num_channels : Z) : M E unit :=
  assert (bool_decide (num_channels = 1)) "Rain__thread_init".

Definition rainThread_begin : M E hw_t :=
  on_adc (modify (fun w => set_ml (p_sleep 1000 (ml_plat w)) w)) ;;;
  ret (Hw RAIN_FC37_HW_ID RAIN_NAME HW_STATUS_UNKNOWN VALUE_TYPE_SENSOR
        (pad_values [named "Rain status" VALUE_FORMATTER_BOOL])).

Lemma rain_convert_wp w :
  adc_st w = ADC_STOP -> adc_held w = false ->
  wp rain_convert (fun _ w' => adc_st w' = ADC_STOP /\ adc_held w' = false) w.
Proof.
  intros Hst Hh. unfold rain_convert. apply wp_bind, wp_bind, wp_get, wp_bind, wp_assert; [cbn; by rewrite Hh|].
  apply wp_bind, adc_switch_wp; [cbn; auto|]. apply wp_bind, convert_wp; [done|]. intros p2 msg v Hm.
  apply wp_bind, adc_switch_wp; [cbn; auto|].
  apply wp_bind, wp_bind, wp_get, wp_bind, wp_assert; [done|]. done.
Qed.

Definition rain_laws : SensorLaws E (H := rain_task).
Proof.
  refine {| dev_ok := fun e => adc_st (fst e) = ADC_STOP /\ adc_held (fst e) = false; argc := 1 |}.
  - lia.
  - done.
  - done.
  - done.
  - intros [w r] [Hst Hh]. cbn in Hst, Hh. cbn [measure rain_task]. unfold rain_measure. apply safe_bind, wp_safe, wp_zoom. cbn [view fst].
    eapply wp_conseq; [by apply rain_convert_wp|]. intros msg w' [Hst' Hh']. cbn [over snd].
    case_decide; [apply safe_bind; unfold safe at 1, get; apply safe_bind; unfold safe at 1, put|];
      apply safe_ret; (split; [done|]); [|done]. intros vs [= <-]. split; [done|]. repeat constructor; case_decide; lia.
Defined.
End rain.

(** ** Power *)

Section power.
Import Ads1x15.
Context {P : Type} `{Platform P} (fuel : nat).
(** The converter, and the statics [battAdcValue] and [solarAdcValue]. *)
Notation E := ((world P * ADS1X15_device_t) * (Z * Z))%type.
Context (chrgInfoLine stdbyInfoLine : Z).

Definition on_ads {A} (m : M (world P * ADS1X15_device_t) A) : M E A := zoom (Lens fst (fun x e => (x, snd e))) m.

Definition POWER_NAME : string := "Power".
Definition POWER_HW_ID : Z := 4.

(** [(ADS__toVoltage(..) * 3.25) * 100] in [double], [ADS__toVoltage(..) * 100]
    in [float]. *)
Definition solar_stream (v : Z) (d : ADS1X15_device_t) : Z :=
  f2uiz (SFmul 53 1024 (SFmul 53 1024 (f64_of_f32 (ADS__toVoltage v d)) (f64_div (f64_of_Z 325) (f64_of_Z 100)))
                       (f64_of_Z 100)).
Definition batt_stream (v : Z) (d : ADS1X15_device_t) : Z := f2uiz (f32_mul (ADS__toVoltage v d) (f32_of_Z 100)).

Definition power_measure : M E (option (list Z)) :=
  let! b := on_ads (ADS__readADC_Differential_0_1 fuel) in
  (match snd b with Some v => modify (fun e : E => (fst e, (v, snd (snd e)))) | None => ret tt end) ;;;
  if negb (fst b) then ret None else
  let! s := on_ads (ADS__readADC fuel 2) in
  (match snd s with Some v => modify (fun e : E => (fst e, (fst (snd e), v))) | None => ret tt end) ;;;
  if negb (fst s) then ret None else
  let! chrg := on_ads (hal (palReadLine chrgInfoLine)) in
  let! stdby := on_ads (hal (palReadLine stdbyInfoLine)) in
  let! e := get in
  ret (Some [solar_stream (snd (snd e)) (snd (fst e)); batt_stream (fst (snd e)) (snd (fst e));
             Z.b2z (negb chrg); Z.b2z (negb stdby)]).

Definition power_task : SensorTask E := {|
  before := ret tt;
  retry := on_ads (ADS__init fuel) ;;; ret tt;
  measure := power_measure;
  after := ret tt
|}.

(** A pass; [radio] is the result of [HC12__tunrOffRadio], after which a failure
    starts the next pass at once. *)
Definition power_pass (radio : bool) (alloc : option poolStreamObject_t) (msg : option Z) : M (task E) unit :=
  if radio then sensor_pass (H := power_task) alloc msg
  else let! t := get in
       if decide (hw_status (hw t) = HW_STATUS_ERROR) then on_dev (retry (SensorTask := power_task)) else ret tt.

Definition powerThread_begin : M E hw_t :=
  on_ads (hal (chThdSleepMilliseconds 1000)) ;;;
  let! ok := on_ads (ADS__init fuel) in
  ret (Hw POWER_HW_ID POWER_NAME (status_of ok) VALUE_TYPE_SENSOR
        (pad_values [named "Voltage SOLAR" VALUE_FORMATTER_100; named "Voltage BATT" VALUE_FORMATTER_100;
                     named "Chrg" VALUE_FORMATTER_BOOL; named "Stdby" VALUE_FORMATTER_BOOL])).

Context `{!PlatformOk P}.

Lemma on_ads_safe {A} (m : M (world P * ADS1X15_device_t) A) (Q : A -> E -> Prop) e :
  bus_ok m -> idle (fst (fst e)) -> (forall a e', idle (fst (fst e')) -> Q a e') -> safe (on_ads m) Q e.
Proof. intros Hm He HQ. apply safe_zoom. eapply safe_conseq; [by apply Hm|]. intros a s Hs. by apply HQ. Qed.

Lemma ads_init_bus : bus_ok (P := P) (ADS__init fuel).
Proof. pose proof (ads_read_adc_bus (P := P) fuel). unfold ADS__init, ADS__readADC. bus. Qed.

Lemma b2z_word (b : bool) : 0 <= Z.b2z b < 2 ^ 32.
Proof. destruct b; cbn; lia. Qed.

Lemma static_safe (o : option Z) (f : Z -> E -> E) (Q : unit -> E -> Prop) e :
  (forall v, fst (f v e) = fst e) -> (forall e', fst e' = fst e -> Q tt e') ->
  safe (match o with Some v => modify (f v) | None => ret tt end) Q e.
Proof. intros Hf HQ. destruct o; [apply HQ, Hf|by apply HQ]. Qed.

Definition power_laws : SensorLaws E (H := power_task).
Proof.
  refine {| dev_ok := fun e => idle (fst (fst e)); argc := 4 |}.
  - lia.
  - done.
  - intros e He. cbn. apply safe_bind, on_ads_safe; [apply ads_init_bus|done|]. done.
  - done.
  - intros e He. cbn [measure power_task]. unfold power_measure.
    apply safe_bind, on_ads_safe; [apply ads_read_adc_bus|done|]. clear e He. intros b e He.
    apply safe_bind, static_safe; [done|]. intros e1 H1. rewrite <- H1 in He. clear e H1.
    destruct (fst b); cbn [negb]; [|by apply safe_ret].
    apply safe_bind, on_ads_safe; [apply ads_read_adc_bus|done|]. clear e1 He. intros s e He.
    apply safe_bind, static_safe; [done|]. intros e1 H1. rewrite <- H1 in He. clear e H1.
    destruct (fst s); cbn [negb]; [|by apply safe_ret].
    apply safe_bind, on_ads_safe; [apply bus_ok_read_line|done|]. clear e1 He. intros chrg e He.
    apply safe_bind, on_ads_safe; [apply bus_ok_read_line|done|]. clear e He. intros stdby e He.
    apply safe_bind. unfold safe at 1, get. apply safe_ret. split; [done|]. intros vs [= <-]. split; [done|].
    repeat constructor; first [apply f2uiz_range | apply b2z_word].
Defined.
End power.

(** ** Lightning *)

Section as3935.
Import As3935.
Context {P : Type} `{Platform P}.
(** The sensor, and [interruptCount]. *)
Notation E := ((world P * AS3935_I2C_dev_t) * Z)%type.
(** [&AS3935_dev], and [cfg->interruptLine]. *)
Context (self interruptLine : Z).

Definition on_as {A} (m : M (world P * AS3935_I2C_dev_t) A) : M E A := zoom (Lens fst (fun x e => (x, snd e))) m.

Definition AS3935_NAME : string := "AS3935".
Definition USE_AS3935_HW_ID : Z := 5.
Definition PAL_MODE_INPUT_PULLDOWN : Z := 64.

(** The interrupt handler. *)
Definition As3935__thread_IRQ : M E unit := modify (fun e => (fst e, u32 (snd e + 1))).

(** Enabling the line's event and its callback is what makes
    [As3935__thread_IRQ] possible; disabling is commented out in the source. *)
Definition As3935__thread_enableInterrupt : M E unit :=
  on_as (hal (palSetLineMode interruptLine PAL_MODE_INPUT_PULLDOWN)).
Definition As3935__thread_disableInterrupt : M E unit := ret tt.

(** The three registers, if the interrupt is a strike. *)
Definition as3935_reading : M E (option (list Z)) :=
  let! interruptSrc := on_as AS3935_GetInterruptSrc in
  let! distance := on_as AS3935_GetLightningDistKm in
  let! energy := on_as AS3935_GetStrikeEnergyRaw in
  ret (if decide (u8 interruptSrc = 0x01 /\ u8 distance <> 0xff /\ u32 energy <> 0xff)
       then Some [u8 interruptSrc; u8 distance; u32 energy] else None).

Definition as3935_calibrate (capacitance location : Z) : M E bool :=
  on_as (AS3935_init self) ;;;
  on_as (AS3935_ManualCal capacitance location AS3935_DISTURBER_EN).

(** [retry] is the reconfiguration after an error, [measure] the reading. *)
Definition as3935_task : SensorTask E := {|
  before := ret tt;
  retry := as3935_calibrate 72 AS3935_LOCATION_OUTDOORS ;;; ret tt;
  measure := as3935_reading;
  after := ret tt
|}.

(** One pass of [As3935Thread], with [as3935_bsem] held around the body. *)
Definition as3935_pass (alloc : option poolStreamObject_t) (msg : option Z) : M (task E) unit :=
  let! t := get in
  (if decide (hw_status (hw t) = HW_STATUS_ERROR) then
     on_dev As3935__thread_disableInterrupt ;;;
     let! ok := on_dev (as3935_calibrate 72 AS3935_LOCATION_OUTDOORS) in
     set_hw (set_hw_status (status_of ok)) ;;;
     (if (ok : bool) then on_dev As3935__thread_enableInterrupt else ret tt)
   else ret tt) ;;;
  let! t := get in
  (if decide (snd (dev t) > 0) then
     on_dev As3935__thread_disableInterrupt ;;;
     let! r := on_dev as3935_reading in
     (match r with Some vs => publish alloc vs | None => ret tt end) ;;;
     on_dev (modify (fun e => (fst e, 0))) ;;;
     on_dev As3935__thread_enableInterrupt
   else ret tt) ;;;
  load_interval msg.

Definition As3935Thread_begin : M E hw_t :=
  on_as (hal (chThdSleepMilliseconds 1000)) ;;;
  let! ok := as3935_calibrate 0 AS3935_LOCATION_INDOORS in
  on_as (hal (chThdSleepMilliseconds 1000)) ;;;
  (if (ok : bool) then As3935__thread_enableInterrupt else ret tt) ;;;
  ret (Hw USE_AS3935_HW_ID AS3935_NAME (status_of ok) VALUE_TYPE_SENSOR
        (pad_values [named "Lighting" VALUE_FORMATTER_NONE])).

Context `{!PlatformOk P}.

Lemma bus_ok_drop {A} (m : M (world P * AS3935_I2C_dev_t) A) : bus_ok (m ;;; ret tt) -> bus_ok m.
Proof.
  intros Hm s Hs. specialize (Hm s Hs). revert Hm. unfold safe, bind, ret. by destruct (m s) as [[]| |].
Qed.

Lemma on_as_safe {A} (m : M (world P * AS3935_I2C_dev_t) A) (Q : A -> E -> Prop) e :
  bus_ok m -> idle (fst (fst e)) -> (forall a e', idle (fst (fst e')) -> Q a e') -> safe (on_as m) Q e.
Proof. intros Hm He HQ. apply safe_zoom. eapply safe_conseq; [by apply Hm|]. intros a s Hs. by apply HQ. Qed.

Lemma calibrate_safe c l (Q : bool -> E -> Prop) e :
  idle (fst (fst e)) -> (forall b e', idle (fst (fst e')) -> Q b e') -> safe (as3935_calibrate c l) Q e.
Proof.
  intros He HQ. apply safe_bind, on_as_safe; [apply bus_ok_drop, (as3935_exec_bus (CInit self))|done|].
  intros _ e' He'. apply on_as_safe; [apply bus_ok_drop, (as3935_exec_bus (CManualCal c l AS3935_DISTURBER_EN))|done|done].
Qed.

Definition as3935_laws : SensorLaws E (H := as3935_task).
Proof.
  refine {| dev_ok := fun e => idle (fst (fst e)); argc := 3 |}.
  - lia.
  - done.
  - intros e He. cbn. apply safe_bind, calibrate_safe; [done|]. done.
  - done.
  - intros e He. cbn [measure as3935_task]. unfold as3935_reading.
    apply safe_bind, on_as_safe; [apply bus_ok_drop, (as3935_exec_bus CGetInterruptSrc)|done|]. clear e He. intros i e He.
    apply safe_bind, on_as_safe; [apply bus_ok_drop, (as3935_exec_bus CGetLightningDistKm)|done|]. clear e He. intros d e He.
    apply safe_bind, on_as_safe; [apply bus_ok_drop, (as3935_exec_bus CGetStrikeEnergyRaw)|done|]. clear e He. intros g e He.
    apply safe_ret. split; [done|]. intros vs Hvs. case_decide; [|done]. injection Hvs as <-. split; [done|].
    pose proof (u8_range i). pose proof (u8_range d). pose proof (u32_range g). repeat constructor; lia.
Defined.
End as3935.

(** ** Wind *)

(** The counter of the anemometer's interrupt, the time of the last pass and
    the descriptor.  The thread streams nothing. *)
Record wind := Wind {
  windSpeedCount : Z;
  lastRunTime : Z;
  wind_hw : hw_t;
  wind_interval : Z
}.

Definition WIND_NAME : string := "Wind".
Definition WIND_SPEED_FC37_HW_ID : Z := 5.

Definition Wind__thread_increaseWindCount (w : wind) : wind :=
  Wind (u32 (windSpeedCount w + 1)) (lastRunTime w) (wind_hw w) (wind_interval w).

(** [(uint32_t)(((1200.0 * windSpeedCount) / (float)time)) * 100] *)
Definition wind_speed (count time : Z) : Z :=
  u32 (f2uiz (f64_div (SFmul 53 1024 (f64_of_Z 1200) (f64_of_Z count)) (f64_of_f32 (f32_of_Z time))) * 100).

(** One pass with the system time [now]: the difference of two 16-bit times is
    an [int], stored in a [uint32_t]. *)
Definition wind_pass (now : Z) (msg : option Z) (w : wind) : wind :=
  let h := if decide (windSpeedCount w > 0) then set_hw_status HW_STATUS_OK (wind_hw w) else wind_hw w in
  let time := u32 (now - lastRunTime w) in
  let h := set_hw_values (store_values [wind_speed (windSpeedCount w) time] (values h)) h in
  Wind 0 now h (match msg with Some v => u16 v | None => wind_interval w end).

Definition windThread_begin (now interval : Z) : wind :=
  Wind 0 now (Hw WIND_SPEED_FC37_HW_ID WIND_NAME HW_STATUS_UNKNOWN VALUE_TYPE_SENSOR
               (pad_values [named "Wind speed" VALUE_FORMATTER_100])) interval.

(** The same wind, 1000 turns in 30 seconds, before and across a wrap of the
    16-bit time: 40.00, and 0. *)
Example wind_wraps :
  wind_speed 1000 (u32 (31000 - 1000)) = 4000 /\ wind_speed 1000 (u32 (4464 - 40000)) = 0.
Proof. vm_compute. by split. Qed.

(** ** A thread at work *)

(** The light sensor on the simulated bus. *)
Definition veml_sys : task (world sim * Veml7700.VEML7700_HandleTypedef) :=
  Task (sim_world (sim_of ∅), Veml7700.veml_dev)
       (Hw 2 VEML7700_NAME HW_STATUS_ERROR VALUE_TYPE_SENSOR (pad_values [named "Lux" VALUE_FORMATTER_NONE]))
       300 [] [].


(** A failed sensor is initialised again, read, and its reading streamed. *)
Example veml_thread_runs :
  match sensor_loop (H := veml7700_task) [(Some blank_object, None); (None, Some 60)] veml_sys with
  | Done (_, t) => Some (readings t, msp_decode <$> outbox t, interval t, hw_status (hw t))
  | _ => None
  end = Some ([[0]; [0]], [Some (2, [0])], 60, HW_STATUS_OK).
Proof. vm_compute. reflexivity. Qed.
