(* ===== verification/Lightning.v ===== *)
(** * The lightning monitor

    [src/src/threads/as3935Thread.c] beyond one pass of its thread: the
    interrupt of the sensor, the passes and the tuning of the antenna that the
    shell command [tune] starts ([cmd_as3935Tune] of
    [src/src/shell/shellCmd.c]), in any order.  The semaphore [as3935_bsem]
    keeps a pass and a tuning apart, so they are the atomic events here; the
    interrupt may come between any two of them, and during a tuning. *)

From S2P Require Import Prelude Oslib Hal Sim Softfloat Msp HwDesc Chprintf Sensors.
From S2P Require Import As3935.

Section lightning.
Context {P : Type} `{Platform P}.
Notation E := ((world P * AS3935_I2C_dev_t) * Z)%type.
Context (self interruptLine : Z).

(** ** Tuning the antenna *)

Definition printed {S} (o : outcome (list Z)) : M S (list Z) := fun s =>
  match o with Done out => Done (out, s) | Halt why => Halt why | Hang => Hang end.

(** [interruptCount] is in units of the divided antenna frequency. *)
Definition tune_line (i count start now : Z) : outcome (list Z) :=
  cat (chprintf (bytes "%6u   %6u  %.3f khz  %6u")
        [AInt i; AInt count; AFlt (f64_of_f32 (f32_div (f32_of_Z (u32 (count * 64))) (f32_of_Z 1000)));
         AInt (chTimeDiffX now start)])
      (chprintf newline []).

Fixpoint interrupts (n : nat) : M E unit :=
  match n with O => ret tt | S n => As3935__thread_IRQ ;;; interrupts n end.

(** One pass of the [for], during which [irqs] interrupts come. *)
Definition tune_step (i : Z) (irqs : nat) : M E (list Z) :=
  modify (fun e => (fst e, 0)) ;;;
  on_as (AS3935_TuneAntenna i) ;;;
  on_as (hal (chThdSleepMilliseconds 10)) ;;;
  let! startTime := on_as (hal chVTGetSystemTime) in
  As3935__thread_enableInterrupt interruptLine ;;;
  on_as (hal (chThdSleepMilliseconds 2000)) ;;;
  interrupts irqs ;;;
  As3935__thread_disableInterrupt ;;;
  let! e := get in
  let! now := on_as (hal chVTGetSystemTime) in
  let! out := printed (tune_line i (snd e) startTime now) in
  on_as (hal (chThdSleepMilliseconds 2000)) ;;;
  ret out.

Fixpoint tune_loop (n : nat) (i : Z) (env : Z -> nat) : M E (list Z) :=
  match n with
  | O => ret []
  | S n =>
      let! out := tune_step i (env i) in
      let! rest := tune_loop n (i + 1) env in
      ret (out ++ rest)
  end.

(** [sem]: whether the wait for [as3935_bsem] succeeded. *)
Definition As3935__thread_autoTune (sem : bool) (env : Z -> nat) : M E (bool * list Z) :=
  if negb sem then ret (false, [])
  else
    As3935__thread_disableInterrupt ;;;
    let! out := tune_loop 15 0 env in
    on_as (AS3935_ManualCal 0 AS3935_LOCATION_OUTDOORS AS3935_DISTURBER_EN) ;;;
    ret (true, out).

Definition cmd_as3935Tune (sem : bool) (env : Z -> nat) : M E (list Z) :=
  let! r := As3935__thread_autoTune sem env in
  let! nl := printed (chprintf newline []) in
  ret (snd r ++ nl).

(** ** The monitor *)

Inductive event :=
  | Pass (alloc : option poolStreamObject_t) (msg : option Z)
  | Irq
  | Tune (sem : bool) (env : Z -> nat).

Definition on_event (ev : event) : M (task E) unit :=
  match ev with
  | Pass alloc msg => as3935_pass self interruptLine alloc msg
  | Irq => on_dev As3935__thread_IRQ
  | Tune sem env => on_dev (cmd_as3935Tune sem env ;;; ret tt)
  end.

Fixpoint monitor (evs : list event) : M (task E) unit :=
  match evs with
  | [] => ret tt
  | ev :: evs => on_event ev ;;; monitor evs
  end.

(** ** What it guarantees *)

Context `{!PlatformOk P}.
Notation laws := (as3935_laws self).
Notation ok := (task_ok (H := as3935_task self) (SensorLaws0 := laws)).

(** A reading of a strike: the interrupt source is lightning, the distance is
    one byte and not the driver's error value, nor is the energy. *)
Definition strike (vs : list Z) : Prop :=
  exists d g, vs = [1; d; g] /\ 0 <= d < 255 /\ 0 <= g < 2 ^ 32 /\ g <> 255.

Definition watching (t : task E) : Prop := ok t /\ Forall strike (readings t).

Definition tune_format : list piece :=
  [dir "6" None 117] ++ plain "   " ++ [dir "6" None 117] ++ plain "  " ++ [dir "" (Some "3") 102]
  ++ plain " khz  " ++ [dir "6" None 117].

Lemma newline_done : exists out, chprintf newline [] = Done out.
Proof. by apply (chprintf_total (map Lit newline)). Qed.

Lemma tune_line_done i count start now : exists out, tune_line i count start now = Done out.
Proof. unfold tune_line. apply cat_done; [by apply (chprintf_total tune_format)|apply newline_done]. Qed.

Lemma printed_safe {S} o (Q : list Z -> S -> Prop) s :
  (exists out, o = Done out) -> (forall out, Q out s) -> safe (printed o) Q s.
Proof. intros [out ->] HQ. apply HQ. Qed.

(** The calls of the tuning leave the bus idle. *)
Definition quiet {A} (m : M E A) : Prop :=
  forall e, idle (fst (fst e)) -> safe m (fun _ e' => idle (fst (fst e'))) e.

Lemma quiet_ret {A} (a : A) : quiet (ret a).
Proof. by intros e He. Qed.

Lemma quiet_get : quiet get.
Proof. by intros e He. Qed.

Lemma quiet_bind {A B} (m : M E A) (f : A -> M E B) : quiet m -> (forall a, quiet (f a)) -> quiet (bind m f).
Proof. intros Hm Hf e He. apply safe_bind. eapply safe_conseq; [by apply Hm|]. intros a e' He'. by apply Hf. Qed.

Lemma quiet_as {A} (m : M (world P * AS3935_I2C_dev_t) A) : bus_ok m -> quiet (on_as m).
Proof. intros Hm e He. by apply on_as_safe. Qed.

Lemma quiet_count f : quiet (modify (fun e => (fst e, f (snd e)))).
Proof. by intros e He. Qed.

Lemma quiet_interrupts n : quiet (interrupts n).
Proof. induction n; [apply quiet_ret|]. apply quiet_bind; [apply (quiet_count (fun n => u32 (n + 1)))|done]. Qed.

Lemma quiet_printed o : (exists out, o = Done out) -> quiet (printed o).
Proof. intros Ho e He. by apply printed_safe. Qed.

Create HintDb quiet discriminated.
Hint Resolve quiet_ret quiet_get quiet_interrupts quiet_as quiet_printed tune_line_done newline_done
  bus_ok_sleep bus_ok_mode bus_ok_time : quiet.
Ltac quiet := repeat first [apply quiet_bind; [|intros ?] | solve [auto 4 with quiet]].

Lemma quiet_step i irqs : quiet (tune_step i irqs).
Proof.
  unfold tune_step. apply quiet_bind; [apply (quiet_count (fun _ => 0))|intros ?].
  apply quiet_bind; [apply quiet_as, bus_ok_drop, (as3935_exec_bus (CTuneAntenna i))|intros ?].
  unfold As3935__thread_enableInterrupt. quiet.
Qed.

Lemma quiet_loop n i env : quiet (tune_loop n i env).
Proof.
  revert i. induction n as [|n IH]; intros i; cbn [tune_loop]; [apply quiet_ret|].
  apply quiet_bind; [apply quiet_step|intros out]. apply quiet_bind; [apply IH|intros rest; apply quiet_ret].
Qed.

Lemma quiet_tune sem env : quiet (cmd_as3935Tune sem env).
Proof.
  unfold cmd_as3935Tune, As3935__thread_autoTune. apply quiet_bind; [|intros r; quiet].
  destruct sem; cbn [negb]; [|apply quiet_ret]. apply quiet_bind; [apply quiet_ret|intros ?].
  apply quiet_bind; [apply quiet_loop|intros out].
  apply quiet_bind; [apply quiet_as, bus_ok_drop, (as3935_exec_bus (CManualCal _ _ _))|intros ?; apply quiet_ret].
Qed.
(** A quiet call of the driver keeps the monitor's invariant. *)
Lemma watch_dev {A} (m : M E A) t :
  quiet m -> watching t -> safe (on_dev m) (fun _ t' => watching t') t.
Proof.
  intros Hm [Hok Hst]. eapply on_dev_safe; [apply Hm, Hok|].
  intros a e _ He. split; [|done]. by apply (task_ok_dev (H := as3935_task self) (SensorLaws0 := laws)).
Qed.

Lemma watch_set st t : watching t -> safe (set_hw (set_hw_status st)) (fun _ t' => watching t') t.
Proof. intros [(? & ? & ? & ? & ? & ?) Hst]. split; [by split_and!|done]. Qed.

Lemma quiet_reading e :
  idle (fst (fst e)) ->
  safe as3935_reading (fun r e' => idle (fst (fst e')) /\ forall vs, r = Some vs -> strike vs) e.
Proof.
  intros He. unfold as3935_reading.
  apply safe_bind, on_as_safe; [apply bus_ok_drop, (as3935_exec_bus CGetInterruptSrc)|done|]. clear e He. intros i e He.
  apply safe_bind, on_as_safe; [apply bus_ok_drop, (as3935_exec_bus CGetLightningDistKm)|done|]. clear e He. intros d e He.
  apply safe_bind, on_as_safe; [apply bus_ok_drop, (as3935_exec_bus CGetStrikeEnergyRaw)|done|]. clear e He. intros g e He.
  apply safe_ret. split; [done|]. intros vs Hvs. case_decide as Hs; [|done]. injection Hvs as <-.
  destruct Hs as (-> & Hd & Hg). exists (u8 d), (u32 g).
  pose proof (u8_range d). pose proof (u32_range g). split; [done|]. lia.
Qed.

Lemma strike_args vs : strike vs -> length vs = 3%nat /\ Forall (fun v => 0 <= v < 2 ^ 32) vs.
Proof. intros (d & g & -> & Hd & Hg & _). split; [done|]. repeat constructor; lia. Qed.

Lemma watch_publish alloc vs t :
  watching t -> strike vs -> (forall o, alloc = Some o -> length (message o) = 23%nat) ->
  safe (publish alloc vs) (fun _ t' => watching t') t.
Proof.
  intros [Hok Hst] Hs Hal. destruct (strike_args vs Hs) as [Hlen Hvs].
  eapply safe_conseq; [by apply (publish_safe (H := as3935_task self) (SensorLaws0 := laws))|].
  intros _ t' (Hok' & Hv & _). split; [done|]. injection Hv as _ _ _ Hr _. rewrite Hr.
  apply Forall_app. by split; [|constructor].
Qed.

Lemma quiet_calibrate c l : quiet (as3935_calibrate self c l).
Proof. intros e He. by apply calibrate_safe. Qed.

Lemma quiet_enable : quiet (As3935__thread_enableInterrupt interruptLine).
Proof. unfold As3935__thread_enableInterrupt. auto with quiet. Qed.

(** The two halves of a pass: the reconfiguration and the strike. *)
Lemma watch_retry t : watching t ->
  safe (on_dev As3935__thread_disableInterrupt ;;;
        let! ok := on_dev (as3935_calibrate self 72 AS3935_LOCATION_OUTDOORS) in
        set_hw (set_hw_status (status_of ok)) ;;;
        if (ok : bool) then on_dev (As3935__thread_enableInterrupt interruptLine) else ret tt)
    (fun _ t' => watching t') t.
Proof.
  intros Hw. apply safe_bind. eapply safe_conseq; [by apply watch_dev, Hw; apply quiet_ret|]. intros ? t1 Hw1.
  apply safe_bind. eapply safe_conseq; [apply watch_dev, Hw1; apply quiet_calibrate|]. intros b t2 Hw2.
  apply safe_bind. eapply safe_conseq; [by apply watch_set|]. intros ? t3 Hw3.
  destruct b; [|done]. apply watch_dev, Hw3. apply quiet_enable.
Qed.

Lemma watch_strike alloc t :
  watching t -> (forall o, alloc = Some o -> length (message o) = 23%nat) ->
  safe (on_dev As3935__thread_disableInterrupt ;;;
        let! r := on_dev as3935_reading in
        (match r with Some vs => publish alloc vs | None => ret tt end) ;;;
        on_dev (modify (fun e => (fst e, 0))) ;;;
        on_dev (As3935__thread_enableInterrupt interruptLine))
    (fun _ t' => watching t') t.
Proof.
  intros Hw Hal. apply safe_bind. eapply safe_conseq; [by apply watch_dev, Hw; apply quiet_ret|]. intros ? t1 Hw1.
  apply safe_bind. eapply on_dev_safe; [apply quiet_reading, Hw1|]. intros r e _ [He Hr].
  assert (Hw2 : watching (Task e (hw t1) (interval t1) (outbox t1) (readings t1))).
  { split; [|apply Hw1]. apply (task_ok_dev (H := as3935_task self) (SensorLaws0 := laws)); [done|apply Hw1]. }
  apply safe_bind. apply (safe_conseq _ (fun _ t' => watching t')).
  { destruct r as [vs|]; [|done]. apply watch_publish; [done|by apply Hr|done]. }
  intros ? t3 Hw3. apply safe_bind.
  eapply safe_conseq; [apply watch_dev, Hw3; apply (quiet_count (fun _ => 0))|]. intros ? t4 Hw4.
  apply watch_dev, Hw4. apply quiet_enable.
Qed.

Lemma watch_interval msg t : watching t -> safe (load_interval msg) (fun _ t' => watching t') t.
Proof. by destruct msg. Qed.

Lemma watch_pass alloc msg t :
  watching t -> (forall o, alloc = Some o -> length (message o) = 23%nat) ->
  safe (as3935_pass self interruptLine alloc msg) (fun _ t' => watching t') t.
Proof.
  intros Hw Hal. unfold as3935_pass. apply safe_bind. unfold safe at 1, get. apply safe_bind.
  apply (safe_conseq _ (fun _ t' => watching t')); [case_decide; [by apply watch_retry|done]|]. intros ? t1 Hw1.
  apply safe_bind. unfold safe at 1, get. apply safe_bind.
  apply (safe_conseq _ (fun _ t' => watching t')); [case_decide; [by apply watch_strike|done]|]. intros ? t2 Hw2.
  by apply watch_interval.
Qed.

Definition event_ok (ev : event) : Prop :=
  match ev with Pass (Some o) _ => length (message o) = 23%nat | _ => True end.

Lemma watch_event ev t : event_ok ev -> watching t -> safe (on_event ev) (fun _ t' => watching t') t.
Proof.
  intros Hev Hw. destruct ev as [alloc msg| |sem env]; cbn [on_event].
  - apply watch_pass; [done|]. by intros o ->.
  - apply watch_dev, Hw. apply (quiet_count (fun n => u32 (n + 1))).
  - apply watch_dev, Hw. apply quiet_bind; [apply quiet_tune|intros ?; apply quiet_ret].
Qed.
End lightning.


(** ** A monitor at work *)

(** A sensor whose registers report a strike at 5 km. *)
Definition strike_regs : regfile := {[ 0x00 := 0x25; 0x03 := 0xC8; 0x04 := 7; 0x05 := 1; 0x07 := 5 ]}.
Definition lightning_sys : task ((world regfile * AS3935_I2C_dev_t) * Z) :=
  Task ((World strike_regs I2C_LOCKED false [], as3935_dev), 0)
       (Hw 5 AS3935_NAME HW_STATUS_ERROR VALUE_TYPE_SENSOR (pad_values [named "Lighting" VALUE_FORMATTER_NONE]))
       300 [] [].
Definition stormy : list event :=
  [Irq; Pass (Some blank_object) None; Tune true (fun i => Z.to_nat i); Pass None (Some 60)].


(** The first pass reconfigures the sensor and streams the strike; the
    interrupts of the last tuning step make the second pass read again, without
    a pool object to stream it. *)
Example storm :
  match monitor 0 0 stormy lightning_sys with
  | Done (_, t) => Some (readings t, msp_decode <$> outbox t, snd (dev t), interval t, hw_status (hw t))
  | _ => None
  end = Some ([[1; 5; 263]; [1; 5; 263]], [Some (5, [1; 5; 263])], 0, 60, HW_STATUS_OK).
Proof. vm_compute. reflexivity. Qed.

(** The time the tuning prints is the negative of the time that passed: the
    arguments of [chTimeDiffX] are the wrong way round. *)
Lemma tune_time_reversed start now :
  0 < chTimeDiffX start now -> chTimeDiffX now start = 65536 - chTimeDiffX start now.
Proof. unfold chTimeDiffX, u16. zdiv. Qed.

Example tune_prints :
  tune_line 3 7812 1000 3000 = Done (bytes "     3     7812  499.967 khz   63536" ++ newline).
Proof. vm_compute. reflexivity. Qed.
